(* ===== verification/_CoqProject ===== *)
-Q . S2P
Prelude.v
Conditions.v
ConditionTheorems.v
Model.v
Types.v
Text.v
ModelJson.v
Engine.v
Semantics.v
EngineSound.v
EngineFrame.v
Granted.v
EngineTheorems.v
ModelJsonTheorems.v
ListObjects.v
Expand.v
ExpandTheorems.v
CheckSet.v
CheckSetTheorems.v
Memory.v
MemoryKeys.v
MemoryTheorems.v
Repository.v
Conformance.v
Float64.v
RateLimit.v
RateLimitTheorems.v
Middleware.v
Config.v
Wire.v
Token.v
Service.v
ServiceWorkspaces.v
ServiceGroups.v
ServiceProjects.v
ServiceAuthz.v
AsyncLog.v
Handler.v
HandlerRpc.v
ServiceFrame.v
WorkspaceInv.v
WorkspaceSteps.v
WorkspaceOps.v
Requests.v
RequestFrame.v
Serve.v
Isolation.v
App.v
Samples.v
WireTheorems.v
AppTheorems.v
SeatTheorems.v
WorkspaceTheorems.v
RoleCheck.v
Resolver.v
ServiceTheorems.v
Sql.v
Postgres.v
PostgresConformance.v
RepoCalls.v
PostgresAtomic.v
PgTable.v
PgRel.v
PgSim.v
PgSimTuples.v
PgSimWrites.v
PgSimMore.v
PostgresTheorems.v
Migration.v
MigrationTheorems.v
Client.v
Logging.v
Main.v
Flight.v
DocGen.v
DocSources.v
DocTheorems.v
Backstops.v
Interleave.v
Races.v
