(* ===== verification/Prelude.v ===== *)
(** * Workspaces: a verified model of the workspace authorization service

    The program is a multi-tenant authorization and membership service.  A client
    sends HTTP requests to a Connect-RPC server; middleware authenticates the
    calling service, the handlers build a principal (user, project, tenant,
    caller), and the service runs the operation against a repository.  Access is
    decided by an engine that evaluates relation tuples under a project's model of
    rewrite rules.  A project holds configuration and a model, a tenant is a data
    shard within it.

    ** Parts and files

    Each part of the program is one file of definitions, most with a file of
    theorems.  Names are those of the source.

    - Engine (pkg/authz).  [Model] has tuples, rewrites and the built-in model,
      [Conditions] the conditional grants, [ModelJson] the model documents,
      [Engine] the evaluation of [Check] with its budget, depth bound, cycle guard,
      memo and backstops, [ListObjects], [Expand] and [CheckSet] the other queries.
      [Semantics] is the reference: the value a model's rules decide for a node;
      [Granted] is the same as an inductive relation for models without
      exclusions.  [EngineSound] relates [check] to the reference, [EngineFrame]
      has what every evaluation keeps, [EngineTheorems], [ExpandTheorems],
      [CheckSetTheorems], [ConditionTheorems] and [ModelJsonTheorems] the claims.
    - Storage (internal/repo, internal/service/repository.go).  [Repository] is the
      interface of the drivers as a class, [Memory] the in-memory driver, one
      definition per operation and each a critical section; [MemoryKeys] has the
      injectivity of its keys, [MemoryTheorems] the claims.  [Conformance] is the
      suite of scenarios every driver must pass, as programs over the interface.
      [Sql] is the database under the postgres driver, [Postgres] its methods as the
      statements and transactions they run, [RepoCalls] the calls of the interface
      as one type.  [PostgresAtomic] has its behaviour when the connection fails;
      [PgTable], [PgRel], [PgSim], [PgSimTuples], [PgSimWrites] and [PgSimMore] carry
      the simulation of the in-memory driver to [PostgresTheorems];
      [PostgresConformance] runs the suite on both.  [Migration] is the two-phase
      schema migration over a catalog of keys and indexes, with
      [MigrationTheorems].
    - Service (internal/service, internal/consistencytoken).  [Types] and [Text]
      hold rows, enumerations and names, [Token] the consistency tokens, [Service]
      the state [World] (repository, resolver cache, counters of the clock and the
      id sources, logs), the resolver and the guards; [ServiceWorkspaces],
      [ServiceGroups], [ServiceProjects] and [ServiceAuthz] the operations.
      [Requests] is the type of all requests and [execs] runs a sequence of them;
      [ServiceFrame] and [RequestFrame] say what requests read and write;
      [WorkspaceInv], [WorkspaceSteps] and [WorkspaceOps] carry the invariant
      between membership rows and role tuples through every operation;
      [WorkspaceTheorems], [SeatTheorems], [RoleCheck], [Resolver] and
      [ServiceTheorems] have the claims.  [Flight] is the project resolver with its
      single-flight group under any number of goroutines.  [Interleave] has the
      member requests, transfers and invitations as programs of repository calls
      that interleave with one another, with the rely-guarantee rule for them, and
      [Races] what their interleavings keep and break.
    - Transport (internal/connect, the generated workspace.connect.go).  [Wire] has
      the messages and their conversions, [Handler] the handler's state, guards,
      rate keys and error codes, [HandlerRpc] one definition per RPC; [Serve] has
      the RPCs as one type and the script of service requests of each;
      [RateLimit] the token buckets over the rounded arithmetic of [Float64];
      [WireTheorems] and [RateLimitTheorems] the claims.  [Backstops] is the
      interceptor that counts backstops, [Client] the generated clients.
    - Server (internal/middleware, internal/config, internal/app, workspaceserver,
      cmd/workspace).  [Middleware], [Config] and [App] have authentication, CORS,
      recovery, the environment, routing and assembly; [Isolation] shows which
      shards a request can change, and [AppTheorems] composes everything into
      statements about HTTP requests.  [Main] is the process: [main] with its
      deferred actions, boot migration, migrate command, listeners, shutdown and
      exit status as a program over the trace of what it does.
    - Logs (internal/auditlog, internal/decisionlog, internal/logging).  [AsyncLog]
      is the bounded channel with its writers, goroutine and Close as an event
      system, [Logging] the service logger with its export and, as a module of its
      own, the lock-free error reporter.
    - Documentation (internal/config/gen, internal/service/gen).  [DocGen] has
      the syntax trees and text functions the generators use and the generators,
      [DocSources] the trees of the documented files and the committed tables,
      [DocTheorems] the claims.
    - [Samples] instantiates the parameters for the examples.

    ** How code is represented

    Functions that return [(T, error)] return [result T]; stateful code is in the
    state monad [St S A], which keeps the state of a failed call.  Errors are the
    sentinels that [errors.Is] finds, and an error of the transport has its code and
    its cause.  Integers are [Z] with the wrap-around of [int64] written out where it
    matters ([wrap64]); the counters that grow by one (reads, cycles, write
    sequences) are unbounded, where the code's [int] and [int64] would wrap after
    2^63 steps.  Floats are [spec_float] in
    conditions and multiples of 2^-1074 in the limiter; strings are byte strings.
    Maps are [gmap]; the order in which Go visits a map is a parameter
    ([MapRange]).  The evaluation of [check] and [expand] descends on
    [left = maxDepth + 1 - depth], so that no further fuel is needed; the trimming
    loops of [Text] run on the length of the text.  One evaluation reads the clock
    once; requests run one after the other, each repository call being atomic.
    The interleavings that the code itself handles, in the loggers, the error
    reporter and the resolver, are explicit lists of atomic steps.  For requests on
    members and invitations there is a second representation, a program that stops
    at each repository call ([Prog]), with a step relation for any number of them at
    once; run alone it is the first one.  Loops that wait
    (the migration lock, the parsing of texts) run on a fuel that is shown or said
    to be enough where it is chosen.

    Parameters, with the laws some theorems assume of them: clock, id source,
    random tokens and SHA-256 ([Sources]), JSON texts ([JsonCodec], [TokenJson],
    [CredentialsJson]), the parsers of package net and time ([TextParsers]),
    protobuf timestamps and structs ([ProtoTypes]), the Connect runtime
    ([ConnectRuntime], [ClientRuntime]), the clock and the fused arithmetic of the
    limiter ([LimiterEnv]), the PostgreSQL server and its jsonb values
    ([Database], [JsonbLaws]), the singleflight group ([Singleflight]), the cores of
    zap ([Zap]).

    ** What is shown

    - A granted check is justified by the rules whatever cuts it met, and within
      the depth bound it is exactly what the reference decides, for names that keep
      the visit keys apart; the store is not read more often than the budget says;
      listings, expansions and userset checks are sound.
    - Writes to the store do what the interface says and stay in their shard.  The
      postgres driver answers every sequence of calls as the in-memory one does, is
      all or nothing when its connection fails, and both pass the conformance suite.
      A migration that is stopped anywhere loses no key and can be completed.
    - Any sequence of product requests keeps membership rows and role tuples in
      agreement, one owner per workspace, seats and seat tuples equal; changes need
      the role the operation documents; a suspended project is inert; tokens read
      their own writes; the resolver's cache is bounded and current, and under
      concurrency an update that no load overlaps takes effect at once.
    - Requests on members that run at the same time never cost an active member the
      role tuple nor the owner anything, and make nobody else an owner; when those
      on one member do not overlap, the agreement of rows and tuples holds after
      every step.  With transfers among them, one of a workspace at a time, a
      workspace is never without an owner.
    - Every RPC is a prefix of its script of service requests, all of it when it
      succeeds; an error carries the code of the sentinel in its cause; a caller without a credential changes nothing,
      one without the admin secret no project, and one pinned to a project nothing
      outside it, after any traffic.  A method of a generated client is the RPC of
      its name.  Counting backstops changes no answer.
    - Rate budgets are independent token buckets; tuples and trees survive the
      wire; configurations load exactly when valid, and the generated table of
      variables describes how they load.
    - The loggers account for every record, and what got into the channel before
      the goroutine leaves is printed; error reports are a minute apart; the export
      gets the lines of stderr.
    - The process listens only when configuration, store and schema are ready; at
      its end [main] drains the logs of the service, closes the store and flushes
      its own log after its last line, while other goroutines may still log.

    Where the code does less than its comments say, a theorem shows the behaviour
    as it is: ambiguous visit keys, conditions and public exclusions in userset
    checks, uncounted leaves of an expansion, the write sequence under
    deprovisioning, role changes in a suspended project, records offered to a
    closing logger, orders and updates in which the two drivers differ, a cache
    entry stored after its invalidation, the exit status of a server that cannot
    listen, the variable missing from the generated table.  Overlapping requests on
    one member, invitation or owner break the agreement, in the runs at the end of
    [Races].

    ** Not modelled

    The texts that [fmt.Errorf] wraps around an error.  Pool handling of the postgres
    driver and two migrators racing behind the
    advisory lock.  Interleavings of requests on workspaces, groups, seats and
    projects with one another.  Metric registration.  Fields of log entries outside the audit
    and decision logs, and the sanitizer of log values.  Sockets and the timeouts of
    the HTTP servers.  Generated message code: the messages are the records of
    [Wire].  Parsing of Go and writing of JSON by the documentation generators, and
    the tests of internal/docscheck. *)

From stdpp Require Import base gmap strings list sets sorting.
From Stdlib Require Import ZArith Lia.
#[export] Set Warnings "-clear-no-such-hyp,-register-all".

(** ** Errors

    A Go [error] is represented by the sentinel that [errors.Is] finds in it;
    the formatted text that [fmt.Errorf] adds around the sentinel is not
    represented.  [ErrDriver] stands for a failure of the storage driver, which
    carries no sentinel of the service; [ErrPlain] for an error made with
    [errors.New] on the spot; [ErrConnect] for [connect.NewError(code, cause)],
    an error of the transport with the error it wraps, whose text the transport
    sends to the caller. *)
Inductive Code :=
  | CodeInvalidArgument
  | CodeNotFound
  | CodeAlreadyExists
  | CodePermissionDenied
  | CodeFailedPrecondition
  | CodeResourceExhausted
  | CodeInternal
  | CodeUnauthenticated
  | CodeUnimplemented.

#[global] Instance Code_eq_dec : EqDecision Code.
Proof. solve_decision. Defined.

Inductive error :=
  | ErrNotFound
  | ErrAlreadyExists
  | ErrInvalidArgument
  | ErrPermissionDenied
  | ErrFailedPrecondition
  | ErrResourceExhausted
  | ErrRegionNotServable
  | ErrEvalBudgetExceeded
  | ErrTooManyObjects
  | ErrExpandTooLarge
  | ErrDriver (msg : string)
  | ErrPlain (msg : string)
  | ErrConnect (code : Code) (cause : error).

#[global] Instance error_eq_dec : EqDecision error.
Proof. solve_decision. Defined.

(** [errors.Is err target]: [ErrRegionNotServable] wraps [ErrFailedPrecondition],
    and an error of the transport wraps its cause. *)
Fixpoint errors_Is (err target : error) : bool :=
  bool_decide (err = target) ||
  match err with
  | ErrRegionNotServable => bool_decide (target = ErrFailedPrecondition)
  | ErrConnect _ cause => errors_Is cause target
  | _ => false
  end.

(** ** Results: the pair [(T, error)] of a Go function *)
Inductive result (A : Type) :=
  | Ok (a : A)
  | Err (e : error).
Arguments Ok {A} a.
Arguments Err {A} e.

Definition is_ok {A} (r : result A) : bool :=
  match r with Ok _ => true | Err _ => false end.

Definition rbind {A B} (r : result A) (k : A -> result B) : result B :=
  match r with Ok a => k a | Err e => Err e end.

Lemma rbind_inv_ok {A B} (r : result A) (k : A -> result B) b :
  rbind r k = Ok b -> exists a, r = Ok a /\ k a = Ok b.
Proof. destruct r; naive_solver. Qed.

(** The loop that appends [f x] for each [x] and stops at the first error. *)
Section ResultLoop.
Context {A B : Type} (f : A -> result B).

Fixpoint rmap (xs : list A) : result (list B) :=
  match xs with
  | [] => Ok []
  | x :: xs' => rbind (f x) (fun y => rbind (rmap xs') (fun ys => Ok (y :: ys)))
  end.

Lemma rmap_ok xs ys : rmap xs = Ok ys <-> Forall2 (fun x y => f x = Ok y) xs ys.
Proof.
  revert ys. induction xs as [|x xs IH]; intros ys; simpl.
  - split; [intros [= <-]; constructor|]. by intros ->%Forall2_nil_inv_l.
  - split.
    + intros (y & Hy & (ys' & Hys & [= <-])%rbind_inv_ok)%rbind_inv_ok.
      constructor; [done|]. by apply IH.
    + intros (y & ys' & Hy & Hys & ->)%Forall2_cons_inv_l. rewrite Hy. simpl.
      by rewrite (proj2 (IH ys') Hys).
Qed.
Lemma rmap_err xs e : rmap xs = Err e -> exists x, x ∈ xs /\ f x = Err e.
Proof.
  induction xs as [|x xs IH]; simpl; [done|]. destruct (f x) as [y|e'] eqn:Hx; simpl.
  - destruct (rmap xs); simpl; [done|]. intros [= <-]. destruct (IH eq_refl) as (x' & ? & ?). exists x'. set_solver.
  - intros [= <-]. exists x. set_solver.
Qed.
End ResultLoop.

(** ** State passing with errors

    [St S A] is a Go function that mutates a state [S] and returns [(A, error)];
    the mutations made before an error is returned are kept. *)
Definition St (S A : Type) : Type := S -> result A * S.

Definition ret {S A} (a : A) : St S A := fun s => (Ok a, s).
Definition fail {S A} (e : error) : St S A := fun s => (Err e, s).
Definition bind {S A B} (c : St S A) (k : A -> St S B) : St S B :=
  fun s => match c s with
           | (Ok a, s') => k a s'
           | (Err e, s') => (Err e, s')
           end.
Definition get {S} : St S S := fun s => (Ok s, s).
Definition modify {S} (f : S -> S) : St S unit := fun s => (Ok tt, f s).
Definition lift {S A} (r : result A) : St S A := fun s => (r, s).
(** Run [c] and hand its outcome over as a value: the Go idiom
    [x, err := f()] followed by a case analysis on [err]. *)
Definition attempt {S A} (c : St S A) : St S (result A) :=
  fun s => let '(r, s') := c s in (Ok r, s').

Declare Scope go_scope.
Delimit Scope go_scope with go.
Notation "'let!' x ':=' c 'in' k" := (bind c (fun x => k))
  (at level 10, x pattern, c at level 100, k at level 200,
   format "'[v' 'let!'  x  ':='  c  'in' '/' k ']'") : go_scope.
Notation "'do!' c 'in' k" := (bind c (fun _ => k))
  (at level 10, c at level 100, k at level 200,
   format "'[v' 'do!'  c  'in' '/' k ']'") : go_scope.
#[global] Open Scope go_scope.

Lemma bind_inv_ok {S A B} (c : St S A) (k : A -> St S B) s b s' :
  bind c k s = (Ok b, s') ->
  exists a s1, c s = (Ok a, s1) /\ k a s1 = (Ok b, s').
Proof. unfold bind. destruct (c s) as [[a|e] s1]; naive_solver. Qed.

Lemma bind_ret_l {S A B} (a : A) (k : A -> St S B) s : bind (ret a) k s = k a s.
Proof. reflexivity. Qed.

(** ** Loops

    [orLoop f xs] is the Go loop that calls [f] on each element, returns [true]
    at the first [true], aborts at the first error and returns [false] at the
    end; [andLoop] is its dual. *)
Section Loops.
Context {S A : Type}.

Section Bool.
Context (f : A -> St S bool).

Fixpoint orLoop (xs : list A) : St S bool :=
  match xs with
  | [] => ret false
  | x :: xs' => let! ok := f x in if ok : bool then ret true else orLoop xs'
  end.

Fixpoint andLoop (xs : list A) : St S bool :=
  match xs with
  | [] => ret true
  | x :: xs' => let! ok := f x in if ok : bool then andLoop xs' else ret false
  end.
End Bool.

Section Map.
Context {B : Type} (f : A -> St S B).

Fixpoint mapM (xs : list A) : St S (list B) :=
  match xs with
  | [] => ret []
  | x :: xs' => let! y := f x in let! ys := mapM xs' in ret (y :: ys)
  end.
End Map.
End Loops.

Lemma orLoop_true_inv {S A} (f : A -> St S bool) xs s s' :
  orLoop f xs s = (Ok true, s') -> exists x s1 s2, x ∈ xs /\ f x s1 = (Ok true, s2).
Proof.
  revert s. induction xs as [|x xs IH]; intros s; simpl; [done|].
  intros (b & s1 & H1 & H2)%bind_inv_ok. destruct b.
  - exists x, s, s1. split; [left|done].
  - destruct (IH _ H2) as (y & sa & sb & Hy & Hf). exists y, sa, sb. split; [by right|done].
Qed.

Lemma orLoop_false_inv {S A} (f : A -> St S bool) xs s s' x :
  orLoop f xs s = (Ok false, s') -> x ∈ xs -> exists s1 s2, f x s1 = (Ok false, s2).
Proof.
  revert s. induction xs as [|y xs IH]; intros s; simpl; [by intros _ ?%not_elem_of_nil|].
  intros (b & s1 & H1 & H2)%bind_inv_ok. destruct b; [done|].
  intros [->|Hx]%elem_of_cons; eauto.
Qed.

(** ** Machine integers: Go's [int] and [int64] are 64 bits wide here *)
Definition wrap64 (z : Z) : Z := ((z + 2^63) mod 2^64 - 2^63)%Z.

Lemma wrap64_small z : (- 2^63 <= z < 2^63)%Z -> wrap64 z = z.
Proof. intros H. unfold wrap64. rewrite Z.mod_small; lia. Qed.

Lemma wrap64_range z : (- 2^63 <= wrap64 z < 2^63)%Z.
Proof. unfold wrap64. pose proof (Z.mod_pos_bound (z + 2^63) (2^64)). lia. Qed.

(** ** Strings: a Go string is a sequence of bytes, as is [String.string] *)
Fixpoint contains_char (c : Ascii.ascii) (s : string) : bool :=
  match s with
  | EmptyString => false
  | String d s' => Ascii.eqb d c || contains_char c s'
  end.

Lemma string_app_assoc (a b c : string) :
  String.append a (String.append b c) = String.append (String.append a b) c.
Proof.
  induction a as [|x a IH]; [done|].
  change (String x (String.append a (String.append b c))
          = String x (String.append (String.append a b) c)). by rewrite IH.
Qed.

Lemma string_app_inj_l (a b c : string) :
  String.append a b = String.append a c -> b = c.
Proof. apply (inj (String.append a)). Qed.

Lemma string_length_app (a b : string) :
  String.length (String.append a b) = String.length a + String.length b.
Proof.
  induction a as [|x a IH]; [done|].
  change (S (String.length (String.append a b)) = S (String.length a + String.length b)).
  by rewrite IH.
Qed.

Lemma string_app_cons (x : Ascii.ascii) (a b : string) :
  String.append (String x a) b = String x (String.append a b).
Proof. done. Qed.

Lemma string_app_nil_l (b : string) : String.append EmptyString b = b.
Proof. done. Qed.

(** Two strings split at the first occurrence of a separator. *)
Lemma string_sep_inj (c : Ascii.ascii) (a a' b b' : string) :
  contains_char c a = false -> contains_char c a' = false ->
  String.append a (String c b) = String.append a' (String c b') ->
  a = a' /\ b = b'.
Proof.
  revert a'. induction a as [|d a IH]; intros [|d' a']; simpl;
    rewrite ?string_app_cons, ?string_app_nil_l.
  - intros _ _ [=]. done.
  - intros _ [Hd _]%orb_false_iff [= -> _].
    by rewrite Ascii.eqb_refl in Hd.
  - intros [Hd _]%orb_false_iff _ [= -> _].
    by rewrite Ascii.eqb_refl in Hd.
  - intros [_ Ha]%orb_false_iff [_ Ha']%orb_false_iff [= -> Heq].
    destruct (IH a' Ha Ha' Heq) as [-> ->]. done.
Qed.

(** Two strings split at the last occurrence of a separator. *)
Lemma string_last_sep_inj (c : Ascii.ascii) (a a' b b' : string) :
  contains_char c b = false -> contains_char c b' = false ->
  String.append a (String c b) = String.append a' (String c b') ->
  a = a' /\ b = b'.
Proof.
  intros Hb Hb'. revert a'.
  assert (Hin : forall x y z, String.append x (String c y) = z -> contains_char c z = true).
  { intros x y z <-. induction x as [|d x IH];
      rewrite ?string_app_cons, ?string_app_nil_l; simpl.
    - by rewrite Ascii.eqb_refl.
    - by rewrite IH, orb_true_r. }
  induction a as [|d a IH]; intros [|d' a'];
    rewrite ?string_app_cons, ?string_app_nil_l.
  - intros [=]. done.
  - intros [= _ Heq]. symmetry in Heq. by rewrite (Hin _ _ _ Heq) in Hb.
  - intros [= _ Heq]. by rewrite (Hin _ _ _ Heq) in Hb'.
  - intros [= -> Heq]. by destruct (IH _ Heq) as [-> ->].
Qed.

(** ** Lists *)
Lemma forallb_Forall {A} (f : A -> bool) (l : list A) :
  forallb f l = true <-> Forall (fun x => f x = true) l.
Proof. induction l as [|x l IH]; simpl; [done|]. by rewrite andb_true_iff, IH, Forall_cons. Qed.

Lemma existsb_Exists {A} (f : A -> bool) (l : list A) :
  existsb f l = true <-> Exists (fun x => f x = true) l.
Proof.
  induction l as [|x l IH]; simpl; [by rewrite Exists_nil|].
  by rewrite orb_true_iff, IH, Exists_cons.
Qed.

Lemma Forall_impl2 {A} (P Q R : A -> Prop) (l : list A) :
  Forall P l -> Forall Q l -> (forall x, P x -> Q x -> R x) -> Forall R l.
Proof. rewrite !Forall_forall. naive_solver. Qed.

(** ** Ranging over a Go map

    The language leaves the iteration order of a map open.  A [MapRange] is one
    choice of it: every entry is visited exactly once. *)
Class MapRange := {
  range_map : forall {A : Type}, gmap string A -> list (string * A);
  range_map_perm : forall {A} (m : gmap string A), range_map m ≡ₚ map_to_list m;
}.

#[export] Instance map_range_default : MapRange :=
  {| range_map := fun A m => map_to_list m;
     range_map_perm := fun A m => Permutation_refl _ |}.

Lemma elem_of_range_map `{MapRange} {A} (m : gmap string A) k x :
  (k, x) ∈ range_map m <-> m !! k = Some x.
Proof. rewrite range_map_perm. apply elem_of_map_to_list. Qed.

(** The loop [for k, a := range m { b, err := g(k, a); ...; out[k] = b }]. *)
Definition rangeM `{MapRange} {A B} (g : string -> A -> result B) (m : gmap string A) : result (gmap string B) :=
  rbind (rmap (fun ka : string * A => rbind (g ka.1 ka.2) (fun b => Ok (ka.1, b))) (range_map m))
        (fun l => Ok (list_to_map l)).

Section RangeM.
Context `{MapRange} {A B : Type} (g : string -> A -> result B).

Definition pointwise (m : gmap string A) (m' : gmap string B) : Prop :=
  forall k, match m !! k, m' !! k with
            | Some a, Some b => g k a = Ok b
            | None, None => True
            | _, _ => False
            end.

Lemma range_map_fst_NoDup (m : gmap string A) : NoDup (range_map m).*1.
Proof. rewrite (range_map_perm m). apply NoDup_fst_map_to_list. Qed.

Lemma rangeM_pointwise m m' : rangeM g m = Ok m' -> pointwise m m'.
Proof.
  unfold rangeM. intros (l & Hl%rmap_ok & [= <-])%rbind_inv_ok.
  assert (Hfst : l.*1 = (range_map m).*1).
  { clear -Hl. induction Hl as [|[k a] kb xs l Hk _ IH]; [done|].
    apply rbind_inv_ok in Hk as (b & _ & [= <-]). by rewrite !fmap_cons, IH. }
  pose proof (range_map_fst_NoDup m) as Hnd. rewrite <-Hfst in Hnd. intros k.
  destruct (m !! k) as [a|] eqn:Hk.
  - apply elem_of_range_map, list_elem_of_lookup in Hk as [i Hi].
    destruct (Forall2_lookup_l _ _ _ _ _ Hl Hi) as ([k' b] & Hb & Hg).
    apply rbind_inv_ok in Hg as (b' & Hg & [= <- <-]). simpl in Hg.
    by rewrite (elem_of_list_to_map_1 l k b' Hnd (list_elem_of_lookup_2 _ _ _ Hb)).
  - rewrite (not_elem_of_list_to_map_1 (M := gmap string) l k); [done|]. rewrite Hfst.
    intros ([k' a] & -> & Hin)%list_elem_of_fmap. apply elem_of_range_map in Hin. simpl in *. congruence.
Qed.

Lemma rangeM_err m e : rangeM g m = Err e -> exists k a, g k a = Err e.
Proof.
  unfold rangeM. destruct (rmap _ _) as [l|e'] eqn:Hr; [done|]. simpl. intros [= <-].
  apply rmap_err in Hr as ([k a] & _ & Hk). exists k, a. simpl in Hk. destruct (g k a); naive_solver.
Qed.

Lemma rangeM_complete m m' : pointwise m m' -> rangeM g m = Ok m'.
Proof.
  intros Hp. destruct (rangeM g m) as [m2|e] eqn:Hr.
  - f_equal. apply map_eq. intros k. apply rangeM_pointwise in Hr. specialize (Hr k). specialize (Hp k).
    destruct (m !! k), (m2 !! k), (m' !! k); congruence || done.
  - exfalso. unfold rangeM in Hr.
    assert (Hall : Forall (fun ka : string * A => exists b, g ka.1 ka.2 = Ok b) (range_map m)).
    { apply Forall_forall. intros [k a] Hin%elem_of_range_map. specialize (Hp k). rewrite Hin in Hp.
      destruct (m' !! k); [eauto|done]. }
    revert Hr. generalize (range_map m), Hall. clear. intros xs Hall.
    assert (exists l, rmap (fun ka : string * A => rbind (g ka.1 ka.2) (fun b => Ok (ka.1, b))) xs = Ok l) as [l ->];
      [|done].
    induction Hall as [|x xs [b Hb] _ [l IH]]; simpl; [by eexists|]. rewrite Hb. simpl. rewrite IH. by eexists.
Qed.
End RangeM.

(** ** Automation *)
Create HintDb go discriminated.
#[export] Hint Resolve bind_inv_ok : go.

(** Case analysis on the innermost [match] or [if] of the goal or a hypothesis. *)
Ltac split_match :=
  match goal with
  | |- context [match ?x with _ => _ end] =>
      lazymatch x with context [match _ with _ => _ end] => fail | _ => destruct x eqn:? end
  | H : context [match ?x with _ => _ end] |- _ =>
      lazymatch x with context [match _ with _ => _ end] => fail | _ => destruct x eqn:? end
  end.

Ltac go_step := first [progress simplify_eq/= | split_match].
Ltac go_crush := repeat go_step; try done; eauto with go.
