(* ===== verification/ConditionTheorems.v ===== *)
(** * What a conditional grant needs to hold *)

From stdpp Require Import base gmap strings list.
From Stdlib Require Import ZArith SpecFloat.
From S2P Require Import Prelude Conditions.

Section Satisfied.
Context `{TextParsers}.

Definition isNumber (v : option any) (x : spec_float) : Prop :=
  v = Some (AnyFloat64 x) \/ exists n, (v = Some (AnyInt n) \/ v = Some (AnyInt64 n)) /\ x = float64_of_int n.
Definition isStrings (v : option any) (ss : list string) : Prop :=
  v = Some (AnyStrings ss) \/ v = Some (AnySlice (AnyString <$> ss)).

(** The documented meaning of the five built-in conditions. *)
Inductive satisfied (params ctx : anymap) : string -> Prop :=
  | sat_consent : ctx !! "consent" = Some (AnyBool true) -> satisfied params ctx "consent_granted"
  | sat_age min age : isNumber (params !! "min_age") min -> isNumber (ctx !! "age") age ->
      SFleb min age = true -> satisfied params ctx "age_at_least"
  | sat_ip txt ip cidrs before c net after :
      ctx !! "ip" = Some (AnyString txt) -> net_ParseIP txt = Some ip ->
      isStrings (params !! "cidrs") cidrs -> cidrs = before ++ c :: after ->
      (forall d, d ∈ before -> exists n, net_ParseCIDR d = Ok n) ->
      net_ParseCIDR c = Ok net -> IPNet_Contains net ip = true -> satisfied params ctx "ip_in_cidrs"
  | sat_until utxt until ntxt now :
      params !! "until" = Some (AnyString utxt) -> time_Parse_RFC3339 utxt = Ok until ->
      ctx !! "now" = Some (AnyString ntxt) -> time_Parse_RFC3339 ntxt = Ok now ->
      (now <= until)%Z -> satisfied params ctx "not_after"
  | sat_scope sc allowed : ctx !! "scope" = Some (AnyString sc) -> isStrings (params !! "allowed") allowed ->
      sc ∈ allowed -> satisfied params ctx "scope_in".

Lemma numField_ok m k x : numField m k = Ok x <-> isNumber (m !! k) x.
Proof.
  unfold numField, isNumber. destruct (m !! k) as [[]|]; split; try done;
    try (intros [= <-]; eauto 6); try (intros [?|(? & [?|?] & ?)]; simplify_eq; done).
Qed.

Lemma strField_ok m k x : strField m k = Ok x <-> m !! k = Some (AnyString x).
Proof. unfold strField. destruct (m !! k) as [[]|]; naive_solver. Qed.

Lemma AnyString_fmap_inj (ss ss' : list string) : AnyString <$> ss = AnyString <$> ss' -> ss = ss'.
Proof.
  revert ss'. induction ss as [|s ss IH]; intros [|s' ss']; rewrite ?fmap_cons; try done.
  intros [= -> Heq]. by rewrite (IH ss').
Qed.

Lemma strings_of_anys_ok vs ss : strings_of_anys vs = Some ss <-> vs = AnyString <$> ss.
Proof.
  revert ss. induction vs as [|v vs IH]; intros ss; simpl.
  - destruct ss; split; try done.
  - destruct v; try (split; [done|]; by destruct ss).
    destruct (strings_of_anys vs) as [ss'|] eqn:E; simpl.
    + assert (vs = AnyString <$> ss') as -> by by apply IH. destruct ss as [|s0 ss]; simpl; [done|].
      split; [by intros [= -> ->]|]. intros [= -> Hf%AnyString_fmap_inj]. congruence.
    + split; [done|]. destruct ss as [|s0 ss]; [done|]. intros [= -> Hvs].
      assert (None = Some ss) by by apply IH. done.
Qed.

Lemma strSliceField_ok m k ss : strSliceField m k = Ok ss <-> isStrings (m !! k) ss.
Proof.
  unfold strSliceField, isStrings. destruct (m !! k) as [[]|]; try naive_solver.
  destruct (strings_of_anys vs) as [out|] eqn:E.
  - apply strings_of_anys_ok in E as ->. split; [intros [= ->]; auto|].
    intros [?|[= Hf%AnyString_fmap_inj]]; [done|congruence].
  - split; [done|]. intros [?|[= ->]]; [done|].
    by rewrite (proj2 (strings_of_anys_ok _ ss) eq_refl) in E.
Qed.

Lemma ipInCIDRsLoop_true ip cidrs :
  ipInCIDRsLoop ip cidrs = Ok true <->
  exists before c net after, cidrs = before ++ c :: after /\
    (forall d, d ∈ before -> exists n, net_ParseCIDR d = Ok n) /\
    net_ParseCIDR c = Ok net /\ IPNet_Contains net ip = true.
Proof.
  induction cidrs as [|c0 cidrs IH]; simpl.
  - split; [done|]. intros ([] & ? & ? & ? & ? & _); done.
  - destruct (net_ParseCIDR c0) as [n0|e] eqn:E0; split.
    + destruct (IPNet_Contains n0 ip) eqn:Ec.
      * intros _. exists [], c0, n0, cidrs. split_and!; try done. by intros ? ?%not_elem_of_nil.
      * intros (b & c & n & a & -> & Hb & ? & ?)%IH. exists (c0 :: b), c, n, a. split_and!; try done.
        intros d [->|Hd]%elem_of_cons; eauto.
    + intros ([|b0 b] & c & n & a & Heq & Hb & Hc & Hn); simplify_eq/=.
      * by rewrite E0 in Hc; simplify_eq; rewrite Hn.
      * destruct (IPNet_Contains n0 ip); [done|]. apply IH. exists b, c, n, a. split_and!; try done.
        intros d Hd. apply Hb. by right.
    + done.
    + intros ([|b0 b] & c & n & a & Heq & Hb & Hc & Hn); injection Heq as -> ->; [congruence|].
      destruct (Hb b0) as [? ?]; [left|congruence].
Qed.
End Satisfied.

Lemma eval_satisfied `{TextParsers} c ctx :
  c_Name c <> "" -> EvalCondition (Some c) ctx = true -> satisfied (c_Params c) ctx (c_Name c).
Proof.
  unfold EvalCondition. destruct (String.eqb_spec (c_Name c) "") as [->|_]; [done|]. intros _.
  unfold conditionRegistry. intros Hev.
  destruct (String.eqb_spec (c_Name c) "consent_granted") as [->|_].
  { apply sat_consent. unfold condConsentGranted, boolField in Hev.
    destruct (ctx !! "consent") as [[]|]; naive_solver. }
  destruct (String.eqb_spec (c_Name c) "age_at_least") as [->|_].
  { unfold condAgeAtLeast in Hev. destruct (numField (c_Params c) _) as [mn|] eqn:E1; [|done].
    destruct (numField ctx _) as [age|] eqn:E2; [|done]. apply numField_ok in E1, E2. by eapply sat_age. }
  destruct (String.eqb_spec (c_Name c) "ip_in_cidrs") as [->|_].
  { unfold condIPInCIDRs in Hev. destruct (strField ctx _) as [txt|] eqn:E1; [|done].
    destruct (net_ParseIP txt) as [ip|] eqn:E2; [|done].
    destruct (strSliceField _ _) as [cidrs|] eqn:E3; [|done].
    destruct (ipInCIDRsLoop ip cidrs) as [[]|] eqn:E4; try done.
    apply ipInCIDRsLoop_true in E4 as (b & cc & n & a & ? & ? & ? & ?).
    apply strField_ok in E1. apply strSliceField_ok in E3. by eapply sat_ip. }
  destruct (String.eqb_spec (c_Name c) "not_after") as [->|_].
  { unfold condNotAfter in Hev. destruct (strField (c_Params c) _) as [ut|] eqn:E1; [|done].
    destruct (time_Parse_RFC3339 ut) as [u|] eqn:E2; [|done].
    destruct (strField ctx _) as [nt|] eqn:E3; [|done].
    destruct (time_Parse_RFC3339 nt) as [n|] eqn:E4; [|done].
    apply strField_ok in E1, E3. apply negb_true_iff, Z.ltb_ge in Hev. by eapply sat_until. }
  destruct (String.eqb_spec (c_Name c) "scope_in") as [->|_]; [|done].
  unfold condScopeIn in Hev. destruct (strField ctx _) as [sc|] eqn:E1; [|done].
  destruct (strSliceField _ _) as [al|] eqn:E2; [|done]. apply strField_ok in E1. apply strSliceField_ok in E2.
  apply existsb_Exists, Exists_exists in Hev as (x & Hx & Heq%String.eqb_eq). subst. by eapply sat_scope.
Qed.

Lemma satisfied_eval `{TextParsers} c ctx :
  c_Name c <> "" -> satisfied (c_Params c) ctx (c_Name c) -> EvalCondition (Some c) ctx = true.
Proof.
  unfold EvalCondition. destruct (String.eqb_spec (c_Name c) "") as [->|_]; [done|]. intros _ Hs.
  unfold conditionRegistry.
  destruct Hs as [Hc|mn age Hm Ha Hle|txt ip cidrs b c0 n a H1 H2 H3 H4 H5 H6 H7|ut u nt n H1 H2 H3 H4 H5|sc al H1 H2 H3];
    simpl.
  + unfold condConsentGranted, boolField. by rewrite Hc.
  + unfold condAgeAtLeast. apply numField_ok in Hm, Ha. by rewrite Hm, Ha.
  + unfold condIPInCIDRs. apply strField_ok in H1. apply strSliceField_ok in H3.
    rewrite H1, H2, H3. assert (ipInCIDRsLoop ip cidrs = Ok true) as ->; [|done].
    apply ipInCIDRsLoop_true. exists b, c0, n, a. done.
  + unfold condNotAfter. apply strField_ok in H1, H3. rewrite H1, H2, H3, H4.
    apply negb_true_iff, Z.ltb_ge. done.
  + unfold condScopeIn. apply strField_ok in H1. apply strSliceField_ok in H2. rewrite H1, H2.
    apply existsb_Exists, Exists_exists. exists sc. split; [done|]. apply String.eqb_refl.
Qed.

(** A conditional grant holds exactly when it is documented to: a condition
    without a name always does; a named one does when it is one of the five
    registered conditions and its inputs are present, of the right type and
    satisfy it.  In particular an unknown name, a missing or ill-typed input and
    a malformed address, network or date all deny. *)
Theorem evalCondition_iff `{TextParsers} c ctx :
  EvalCondition (Some c) ctx = true <-> c_Name c = "" \/ satisfied (c_Params c) ctx (c_Name c).
Proof.
  destruct (decide (c_Name c = "")) as [Hc|Hne].
  - simpl. rewrite Hc. naive_solver.
  - split; [right; by apply eval_satisfied|]. intros [?|?]; [done|]. by apply satisfied_eval.
Qed.
