(* ===== verification/Model.v ===== *)
(** * The authorization model (pkg/authz/model.go)

    Relation tuples, userset-rewrite rules and namespace models: the data the
    engine evaluates, the built-in model, and the notion of a relation whose
    stored tuples are read. *)

From stdpp Require Import base gmap strings list.
From Stdlib Require Import ZArith.
From S2P Require Import Prelude Conditions.

(** ** Tuples *)
Record SubjectSet := mkSubjectSet {
  ss_Namespace : string;
  ss_ObjectID : string;
  ss_Relation : string;
}.

#[global] Instance SubjectSet_eq_dec : EqDecision SubjectSet.
Proof. solve_decision. Defined.

#[global] Instance SubjectSet_countable : Countable SubjectSet.
Proof.
  refine (inj_countable' (fun s => (ss_Namespace s, ss_ObjectID s, ss_Relation s))
                         (fun '(n, o, r) => mkSubjectSet n o r) _).
  by intros [].
Defined.

Record Subject := mkSubject {
  UserID : string;
  Set_ : option SubjectSet;
  Wildcard : bool;
  Cond : option Condition;
}.

(** An instant of package [time], in nanoseconds. *)
Abbreviation Time := Z (only parsing).

Record Tuple := mkTuple {
  t_Namespace : string;
  t_ObjectID : string;
  t_Relation : string;
  t_Subject : Subject;
  t_ExpiresAt : option Time;
}.

Definition ActiveAt (t : Tuple) (now : Time) : bool :=
  match t_ExpiresAt t with
  | None => true
  | Some e => (now <? e)%Z
  end.

(** ** Rewrites

    The Go struct carries every operator as a field and a switch picks the first
    one that is set, so a rewrite that sets several is representable here too. *)
Record Exclusion_ (R : Type) := mkExclusion { Include : R; Exclude : R }.
Arguments mkExclusion {R} _ _.
Arguments Include {R} _.
Arguments Exclude {R} _.

Inductive Rewrite := mkRewrite {
  Union : list Rewrite;
  Intersection : list Rewrite;
  Exclusion : option (Exclusion_ Rewrite);
  Computed : string;
  TuplesetRelation : string;
  ComputedRelation : string;
}.

Module RW.
Definition this : Rewrite := mkRewrite [] [] None "" "" "".
Definition union (rs : list Rewrite) : Rewrite := mkRewrite rs [] None "" "" "".
Definition intersection (rs : list Rewrite) : Rewrite := mkRewrite [] rs None "" "" "".
Definition exclusion (include exclude : Rewrite) : Rewrite :=
  mkRewrite [] [] (Some (mkExclusion include exclude)) "" "" "".
Definition computed (rel : string) : Rewrite := mkRewrite [] [] None rel "" "".
Definition tupleToUserset (tupleset computedRel : string) : Rewrite :=
  mkRewrite [] [] None "" tupleset computedRel.
End RW.

(** Structural induction through the lists and the pair of children. *)
Section RewriteInd.
Context (P : Rewrite -> Prop).
Context (step : forall us ins ex c ts cr,
  Forall P us -> Forall P ins ->
  (forall e, ex = Some e -> P (Include e) /\ P (Exclude e)) ->
  P (mkRewrite us ins ex c ts cr)).

Lemma Rewrite_ind' : forall r, P r.
Proof.
  fix IH 1. intros [us ins ex c ts cr]. apply step.
  - induction us as [|u us IHus]; constructor; [apply IH | exact IHus].
  - induction ins as [|u ins IHins]; constructor; [apply IH | exact IHins].
  - destruct ex as [[i x]|]; [|discriminate].
    intros e [= <-]. split; [apply (IH i) | apply (IH x)].
Qed.
End RewriteInd.

Definition is_nil {A} (l : list A) : bool := match l with [] => true | _ => false end.

Definition isThis (r : Rewrite) : bool :=
  is_nil (Union r) && is_nil (Intersection r)
  && (match Exclusion r with None => true | Some _ => false end)
  && String.eqb (Computed r) "" && String.eqb (TuplesetRelation r) "".

Fixpoint readsStoredTuples (r : Rewrite) : bool :=
  isThis r
  || existsb readsStoredTuples (Union r)
  || existsb readsStoredTuples (Intersection r)
  || match Exclusion r with
     | None => false
     | Some e => readsStoredTuples (Include e) || readsStoredTuples (Exclude e)
     end.

(** ** Models *)
Abbreviation Namespace := (gmap string Rewrite).
Abbreviation Model := (gmap string (gmap string Rewrite)).

Definition WritableRelation (m : Model) (namespace relation : string) : bool :=
  match m !! namespace with
  | None => true
  | Some ns =>
      match ns !! relation with
      | None => true
      | Some rw => readsStoredTuples rw
      end
  end.

(** [m.rewrite(namespace, relation)]: an unknown relation reads direct tuples. *)
Definition rewrite_of (m : Model) (namespace relation : string) : Rewrite :=
  match m !! namespace with
  | Some ns => match ns !! relation with Some rw => rw | None => RW.this end
  | None => RW.this
  end.

Definition DefaultModel : Model :=
  list_to_map [
    ("workspace", list_to_map [
      ("owner", RW.this);
      ("admin", RW.union [RW.this; RW.computed "owner"]);
      ("member", RW.union [RW.this; RW.computed "admin"]);
      ("guest", RW.union [RW.this; RW.computed "member"]);
      ("editor", RW.computed "admin");
      ("viewer", RW.computed "member")]);
    ("group", list_to_map [("member", RW.this)]);
    ("resource", list_to_map [
      ("parent", RW.this);
      ("owner", RW.this);
      ("editor", RW.union [RW.this; RW.computed "owner"; RW.tupleToUserset "parent" "editor"]);
      ("viewer", RW.union [RW.this; RW.computed "editor"; RW.tupleToUserset "parent" "viewer"])])].

(** ** Resolvers *)
Record ModelResolver := { ModelFor : string -> result Model }.

Definition StaticResolver (m : Model) : ModelResolver :=
  let m' := if decide (size m = 0) then DefaultModel else m in
  {| ModelFor := fun _ => Ok m' |}.

(** The rule a project sees for a relation the model does not define. *)
Lemma rewrite_of_unknown m ns rel :
  (m : Model) !! ns ≫= (.!! rel) = None -> rewrite_of m ns rel = RW.this.
Proof. unfold rewrite_of. destruct (m !! ns) as [n|]; [|done]. simpl. by intros ->. Qed.

(** A relation is writable exactly when the rule the engine evaluates for it
    reads the relation's own tuples. *)
Lemma WritableRelation_rewrite_of m ns rel :
  WritableRelation m ns rel = readsStoredTuples (rewrite_of m ns rel).
Proof.
  unfold WritableRelation, rewrite_of.
  destruct (m !! ns) as [n|]; [|done]. by destruct (n !! rel).
Qed.
