(* ===== verification/Types.v ===== *)
(** * Domain types (internal/service/types.go, repository.go, groups.go, errors.go)

    The records the repository stores and the small predicates on them.  The
    string-typed enumerations of the source (roles, states, types) stay strings:
    a stored row may hold any. *)

From stdpp Require Import base gmap strings list sorting.
From Stdlib Require Import ZArith Lia Ascii.
From S2P Require Import Prelude Conditions Model.
#[local] Open Scope Z_scope.

(** ** Projects *)
Abbreviation ProjectStatus := string (only parsing).
Definition ProjectActive : ProjectStatus := "active".
Definition ProjectSuspended : ProjectStatus := "suspended".

(** [p_Model] is [None] for a nil map. *)
Record Project := mkProject {
  p_ID : string;
  p_Name : string;
  p_Status : ProjectStatus;
  p_Model : option Model;
  p_DataRegion : string;
  p_MaxCheckReads : Z;
  p_CreatedAt : Time;
  p_UpdatedAt : Time;
}.

(** ** Roles, workspace types and lifecycle states *)
Abbreviation Role := string (only parsing).
Definition RoleOwner : Role := "owner".
Definition RoleAdmin : Role := "admin".
Definition RoleMember : Role := "member".
Definition RoleGuest : Role := "guest".

Definition Role_Valid (r : Role) : bool :=
  String.eqb r RoleOwner || String.eqb r RoleAdmin || String.eqb r RoleMember || String.eqb r RoleGuest.

Abbreviation WorkspaceType := string (only parsing).
Definition TypePersonal : WorkspaceType := "personal".
Definition TypeTeam : WorkspaceType := "team".

Abbreviation MembershipStatus := string (only parsing).
Definition StatusActive : MembershipStatus := "active".
Definition StatusInvited : MembershipStatus := "invited".
Definition StatusSuspended : MembershipStatus := "suspended".

Abbreviation EnrollmentState := string (only parsing).
Definition EnrollmentWaitlisted : EnrollmentState := "waitlisted".
Definition EnrollmentEnrolled : EnrollmentState := "enrolled".
Definition EnrollmentActive : EnrollmentState := "active".
Definition EnrollmentCompleted : EnrollmentState := "completed".
Definition EnrollmentDropped : EnrollmentState := "dropped".

Definition EnrollmentState_Valid (s : EnrollmentState) : bool :=
  String.eqb s EnrollmentWaitlisted || String.eqb s EnrollmentEnrolled || String.eqb s EnrollmentActive
  || String.eqb s EnrollmentCompleted || String.eqb s EnrollmentDropped.

Definition GrantsAccess (s : EnrollmentState) : bool :=
  String.eqb s EnrollmentEnrolled || String.eqb s EnrollmentActive.

Abbreviation InvitationStatus := string (only parsing).
Definition InvitePending : InvitationStatus := "pending".
Definition InviteAccepted : InvitationStatus := "accepted".
Definition InviteRevoked : InvitationStatus := "revoked".
Definition InviteExpired : InvitationStatus := "expired".

(** ** Stored rows *)
Record GroupMember := mkGroupMember { gm_UserID : string; gm_GroupID : string }.

Record Enrollment := mkEnrollment {
  en_ProjectID : string;
  en_TenantID : string;
  en_GroupID : string;
  en_Member : GroupMember;
  en_State : EnrollmentState;
  en_CreatedAt : Time;
  en_UpdatedAt : Time;
}.

Record SeatAssignment := mkSeatAssignment {
  sa_ProjectID : string;
  sa_TenantID : string;
  sa_SKU : string;
  sa_UserID : string;
  sa_AssignedAt : Time;
}.

Record SeatUsage_ := mkSeatUsage {
  su_SKU : string;
  su_Used : Z;
  su_Limit : Z;
  su_Limited : bool;
}.

Record Workspace := mkWorkspace {
  w_ID : string;
  w_ProjectID : string;
  w_TenantID : string;
  w_Slug : string;
  w_DisplayName : string;
  w_Type : WorkspaceType;
  w_OwnerUserID : string;
  w_CreatedAt : Time;
  w_UpdatedAt : Time;
}.

Record Membership := mkMembership {
  mb_ProjectID : string;
  mb_TenantID : string;
  mb_WorkspaceID : string;
  mb_UserID : string;
  mb_Role : Role;
  mb_Status : MembershipStatus;
  mb_CreatedAt : Time;
  mb_UpdatedAt : Time;
}.

Record Invitation := mkInvitation {
  inv_ID : string;
  inv_ProjectID : string;
  inv_TenantID : string;
  inv_WorkspaceID : string;
  inv_Email : string;
  inv_Role : Role;
  inv_Status : InvitationStatus;
  inv_InvitedBy : string;
  inv_TokenHash : string;
  inv_CreatedAt : Time;
  inv_ExpiresAt : Time;
}.

Record Group := mkGroup {
  g_ID : string;
  g_ProjectID : string;
  g_TenantID : string;
  g_WorkspaceID : string;
  g_Slug : string;
  g_DisplayName : string;
  g_CreatedBy : string;
  g_CreatedAt : Time;
  g_UpdatedAt : Time;
}.

Record TupleAt := mkTupleAt { ta_TenantID : string; ta_Tuple : Tuple }.

Record TupleFilter := mkTupleFilter {
  f_Namespace : string;
  f_ObjectID : string;
  f_Relation : string;
  f_SubjectUserID : string;
}.

(** ** Helpers *)
Definition MemberKey (m : GroupMember) : string * string :=
  if negb (String.eqb (gm_GroupID m) "") then ("group", gm_GroupID m) else ("user", gm_UserID m).

Definition MemberFromKey (kind id : string) : GroupMember :=
  if String.eqb kind "group" then mkGroupMember "" id else mkGroupMember id "".

Fixpoint HasControlChar (s : string) : bool :=
  match s with
  | EmptyString => false
  | String c s' => (N.ltb (N_of_ascii c) 32) || HasControlChar s'
  end.

Definition userTuple (ns obj rel userID : string) : Tuple :=
  mkTuple ns obj rel (mkSubject userID None false None) None.

(** ** Facts *)
Lemma MemberKey_roundtrip m :
  (gm_UserID m = "" \/ gm_GroupID m = "") ->
  MemberFromKey (MemberKey m).1 (MemberKey m).2 = m.
Proof.
  destruct m as [u g]. unfold MemberKey. simpl. intros Hm.
  destruct (String.eqb_spec g "") as [->|Hg]; simpl; [done|].
  unfold MemberFromKey. simpl. destruct Hm as [->|]; done.
Qed.

Lemma HasControlChar_NUL s : HasControlChar s = false -> contains_char "000"%char s = false.
Proof.
  induction s as [|c s IH]; simpl; [done|]. intros [Hc Hs]%orb_false_iff.
  rewrite IH by done. destruct (Ascii.eqb_spec c "000"%char) as [->|]; done.
Qed.

(** ** Sorting by time, then by name

    [lessBy] is the comparison the source passes to [sort.Slice]; the slice it
    sorts holds rows with distinct names, so the order of the result is fixed. *)
Section SortBy.
Context {A : Type} (time : A -> Time) (name : A -> string).

Definition lessBy (x y : A) : bool :=
  if time x =? time y then String.ltb (name x) (name y) else time x <? time y.

Definition notAfter (x y : A) : Prop := lessBy y x = false.
#[export] Instance notAfter_dec : RelDecision notAfter.
Proof. intros x y. unfold notAfter. apply _. Defined.

Definition sortBy (l : list A) : list A := merge_sort notAfter l.

Lemma string_ltb_leb s1 s2 : String.ltb s1 s2 = negb (String.leb s2 s1).
Proof.
  unfold String.ltb, String.leb. rewrite (String.compare_antisym s2 s1).
  by destruct (String.compare s1 s2).
Qed.

Lemma notAfter_spec x y :
  notAfter x y <-> time x < time y \/ (time x = time y /\ String.le (name x) (name y)).
Proof.
  unfold notAfter, lessBy. rewrite string_ltb_leb. unfold String.le.
  destruct (Z.eqb_spec (time y) (time x)).
  - rewrite negb_false_iff, <-Is_true_true. intuition lia.
  - rewrite Z.ltb_ge. intuition lia.
Qed.

#[export] Instance notAfter_total : Total notAfter.
Proof.
  intros x y. rewrite !notAfter_spec.
  destruct (total String.le (name x) (name y)), (Z.lt_trichotomy (time x) (time y)) as [|[|]]; auto.
Qed.

#[export] Instance notAfter_trans : Transitive notAfter.
Proof.
  intros x y z. rewrite !notAfter_spec. intros [?|[? ?]] [?|[? ?]]; [left; lia..|].
  right. split; [lia|]. by etrans.
Qed.

Lemma sortBy_perm l : sortBy l ≡ₚ l.
Proof. apply merge_sort_Permutation. Qed.
Lemma sortBy_sorted l : StronglySorted notAfter (sortBy l).
Proof. apply StronglySorted_merge_sort; apply _. Qed.
End SortBy.
