(* ===== verification/Text.v ===== *)
(** * Names and slugs (internal/service/service.go, classify.go, projects.go)

    [strings.TrimSpace], the slug of a display name and the syntax of a data
    region, on the bytes of a UTF-8 string. *)

From stdpp Require Import base strings list.
From Stdlib Require Import ZArith Lia Ascii.
From S2P Require Import Prelude.

(** ** TrimSpace

    The encodings of the Unicode white space characters. *)
Definition bytes (ns : list nat) : string := String.string_of_list_ascii (ascii_of_nat <$> ns).

Definition spaces : list string :=
  bytes <$> ([[9]; [10]; [11]; [12]; [13]; [32]; [194; 133]; [194; 160]; [225; 154; 128]]
             ++ ((fun i => [226; 128; 128 + i]) <$> seq 0 11)
             ++ [[226; 128; 168]; [226; 128; 169]; [226; 128; 175]; [226; 129; 159]; [227; 128; 128]])%nat.

(** Drop the prefix [p] of [s], when it is one. *)
Fixpoint cutPrefix (p s : string) : option string :=
  match p, s with
  | EmptyString, _ => Some s
  | String c p', String d s' => if Ascii.eqb c d then cutPrefix p' s' else None
  | String _ _, EmptyString => None
  end.

Fixpoint cutFirst (ps : list string) (s : string) : option string :=
  match ps with
  | [] => None
  | p :: ps' => match cutPrefix p s with Some s' => Some s' | None => cutFirst ps' s end
  end.

(** Repeatedly drop one of [ps]; each round drops at least a byte, so the length
    of the string is fuel enough. *)
Fixpoint trimLeftOf (ps : list string) (fuel : nat) (s : string) : string :=
  match fuel with
  | O => s
  | S fuel' => match cutFirst ps s with Some s' => trimLeftOf ps fuel' s' | None => s end
  end.

Definition rev_string (s : string) : string := String.string_of_list_ascii (reverse (String.list_ascii_of_string s)).

Definition trimOf (ps : list string) (s : string) : string :=
  let l := trimLeftOf ps (String.length s) s in
  rev_string (trimLeftOf (rev_string <$> ps) (String.length l) (rev_string l)).

Definition TrimSpace (s : string) : string := trimOf spaces s.

Definition trimName (s : string) : string := TrimSpace s.

(** ** Slugs *)
Definition isLowerAlnum (c : ascii) : bool :=
  let n := nat_of_ascii c in ((97 <=? n) && (n <=? 122) || (48 <=? n) && (n <=? 57))%nat.

(** [strings.ToLower] followed by the replacement of every maximal run of bytes
    outside [a-z0-9] by a dash.  Two non-ASCII letters have an ASCII lower case:
    the Kelvin sign and the dotted capital I; every other byte above 127 ends up
    outside the class.  [dash] tells that the last byte written is the dash of
    the current run. *)
Definition toLowerAscii (c : ascii) : ascii :=
  let n := nat_of_ascii c in if ((65 <=? n) && (n <=? 90))%nat then ascii_of_nat (n + 32) else c.

Fixpoint slugRuns (dash : bool) (s : string) : string :=
  match s with
  | EmptyString => EmptyString
  | String c s' =>
      match s' with
      | String c1 s1 =>
          if ((nat_of_ascii c =? 196) && (nat_of_ascii c1 =? 176))%nat then String "i" (slugRuns false s1) else
          match s1 with
          | String c2 s2 =>
              if ((nat_of_ascii c =? 226) && (nat_of_ascii c1 =? 132) && (nat_of_ascii c2 =? 170))%nat
              then String "k" (slugRuns false s2)
              else if isLowerAlnum (toLowerAscii c) then String (toLowerAscii c) (slugRuns false s')
              else if dash then slugRuns true s' else String "-" (slugRuns true s')
          | EmptyString =>
              if isLowerAlnum (toLowerAscii c) then String (toLowerAscii c) (slugRuns false s')
              else if dash then slugRuns true s' else String "-" (slugRuns true s')
          end
      | EmptyString =>
          if isLowerAlnum (toLowerAscii c) then String (toLowerAscii c) (slugRuns false s')
              else if dash then slugRuns true s' else String "-" (slugRuns true s')
      end
  end.

Definition trimDashes (s : string) : string := trimOf ["-"] s.

Definition slugify (s : string) : string :=
  let s := slugRuns false (TrimSpace s) in
  let s := trimDashes s in
  let s := if String.eqb s "" then "ws" else s in
  if (48 <? String.length s)%nat then trimDashes (String.substring 0 48 s) else s.

(** ** Regions *)
Definition maxDataRegionLen : nat := 64.

Definition isRegionByte (c : ascii) : bool :=
  let n := nat_of_ascii c in
  ((97 <=? n) && (n <=? 122) || (48 <=? n) && (n <=? 57) || (n =? 45) || (n =? 95))%nat.

Fixpoint all_chars (f : ascii -> bool) (s : string) : bool :=
  match s with EmptyString => true | String c s' => f c && all_chars f s' end.

Definition ValidateRegion (region : string) : result unit :=
  if String.eqb region "" then Ok tt
  else if (maxDataRegionLen <? String.length region)%nat then Err ErrInvalidArgument
  else if all_chars isRegionByte region then Ok tt else Err ErrInvalidArgument.

Example slugify_examples :
  slugify "  Acme, Inc. " = "acme-inc" /\ slugify "---" = "ws" /\ slugify "" = "ws" /\
  slugify "Caf" = "caf" /\ String.length (slugify "aaaaaaaaaabbbbbbbbbbccccccccccddddddddddeeeeeee --- x") = 47.
Proof. vm_compute. done. Qed.

(** ** What a slug looks like *)
Section Slugs.

#[local] Abbreviation L := String.list_ascii_of_string.

Definition isDash (c : ascii) : bool := Ascii.eqb "-" c.
#[local] Arguments isDash : simpl never.

Lemma isDash_spec c : Bool.reflect ("-"%char = c) (isDash c).
Proof. apply Ascii.eqb_spec. Qed.

Fixpoint dropDash (l : list ascii) : list ascii :=
  match l with c :: l' => if isDash c then dropDash l' else l | [] => [] end.

Definition noLeadingDash (l : list ascii) : Prop := forall l', l <> "-"%char :: l'.

Lemma dropDash_noLeading l : noLeadingDash (dropDash l).
Proof.
  induction l as [|c l IH]; simpl; [by intros l'|]. destruct (isDash_spec c); [exact IH|].
  intros l' [= ? _]. congruence.
Qed.

Lemma dropDash_suffix l : exists k, l = k ++ dropDash l.
Proof.
  induction l as [|c l [k IH]]; simpl; [by exists []|].
  destruct (isDash_spec c); [exists (c :: k); simpl; congruence | by exists []].
Qed.

Lemma dropDash_id l : noLeadingDash l -> dropDash l = l.
Proof. destruct l as [|c l]; [done|]. simpl. intros Hl. destruct (isDash_spec c); [|done]. subst. by destruct (Hl l). Qed.

Lemma L_length s : length (L s) = String.length s.
Proof. induction s; simpl; auto. Qed.

Lemma L_inj s s' : L s = L s' -> s = s'.
Proof.
  intros Heq. rewrite <-(String.string_of_list_ascii_of_string s), <-(String.string_of_list_ascii_of_string s').
  by rewrite Heq.
Qed.

Lemma L_rev s : L (rev_string s) = reverse (L s).
Proof. unfold rev_string. by rewrite String.list_ascii_of_string_of_list_ascii. Qed.

Lemma cutFirst_dash s : cutFirst ["-"] s = match s with String c s' => if isDash c then Some s' else None | _ => None end.
Proof.
  destruct s as [|c s]; [done|]. cbn [cutFirst cutPrefix].
  change (Ascii.eqb "-" c) with (isDash c). by destruct (isDash c).
Qed.

Lemma L_trimLeft n s : String.length s <= n -> L (trimLeftOf ["-"] n s) = dropDash (L s).
Proof.
  revert s. induction n as [|n IH]; intros s Hn.
  - destruct s; [done|]. simpl in Hn. lia.
  - cbn [trimLeftOf]. rewrite cutFirst_dash. destruct s as [|c s]; [done|]. simpl in *.
    destruct (isDash c); [apply IH; lia|done].
Qed.

Lemma L_trimDashes s : L (trimDashes s) = reverse (dropDash (reverse (dropDash (L s)))).
Proof.
  unfold trimDashes, trimOf. change (rev_string <$> ["-"]) with ["-"].
  rewrite L_rev, L_trimLeft by (by rewrite <-!L_length, L_rev, length_reverse).
  by rewrite L_rev, L_trimLeft by done.
Qed.

(** A trimmed list has no dash at either end and is a piece of the original. *)
Lemma trimmed_ends l :
  let t := reverse (dropDash (reverse (dropDash l))) in
  noLeadingDash t /\ noLeadingDash (reverse t) /\ (exists k1 k2, l = k1 ++ t ++ k2).
Proof.
  intros t.
  destruct (dropDash_suffix l) as [k1 Hk1]. destruct (dropDash_suffix (reverse (dropDash l))) as [k2 Hk2].
  assert (Hpre : dropDash l = t ++ reverse k2).
  { apply (f_equal reverse) in Hk2. rewrite reverse_involutive, reverse_app in Hk2. exact Hk2. }
  split_and!.
  - intros l' Hl'. pose proof (dropDash_noLeading l) as Hn. rewrite Hpre, Hl' in Hn. by apply (Hn (l' ++ reverse k2)).
  - unfold t. rewrite reverse_involutive. apply dropDash_noLeading.
  - exists k1, (reverse k2). by rewrite <-Hpre.
Qed.

(** Trimming keeps a list that starts with another byte non-empty. *)
Lemma trimmed_head c l :
  c <> "-"%char -> exists l', reverse (dropDash (reverse (dropDash (c :: l)))) = c :: l'.
Proof.
  intros Hc. assert (Hd : dropDash (c :: l) = c :: l).
  { apply dropDash_id. intros l' [= ? _]. done. }
  rewrite Hd, reverse_cons.
  assert (forall r, exists r', dropDash (r ++ [c]) = r' ++ [c]) as Hr.
  { induction r as [|d r [r' IH]]; simpl.
    - exists []. simpl. destruct (isDash_spec c); [congruence|done].
    - destruct (isDash d); [by exists r'|by exists (d :: r)]. }
  destruct (Hr (reverse l)) as [r' ->]. rewrite reverse_app. by exists (reverse r').
Qed.

Definition slugByte (c : ascii) : bool := isLowerAlnum c || isDash c.

Lemma all_chars_Forall f s : all_chars f s = true <-> Forall (fun c => f c = true) (L s).
Proof. induction s as [|c s IH]; simpl; [done|]. by rewrite andb_true_iff, IH, Forall_cons. Qed.

Lemma slugRuns_bytes dash s : all_chars slugByte (slugRuns dash s) = true.
Proof.
  remember (String.length s) as n eqn:Hn. revert dash s Hn.
  induction (lt_wf n) as [n _ IH]; intros dash s ->.
  assert (Hrec : forall d s', String.length s' < String.length s -> all_chars slugByte (slugRuns d s') = true).
  { intros d s' Hlt. by eapply IH. }
  destruct s as [|c s]; [done|]. cbn [slugRuns]. simpl in Hrec.
  assert (Hdash : all_chars slugByte (if dash then slugRuns true s else String "-" (slugRuns true s)) = true).
  { destruct dash; [apply Hrec; lia|]. cbn [all_chars]. by rewrite Hrec by lia. }
  assert (Hgen : all_chars slugByte
    (if isLowerAlnum (toLowerAscii c) then String (toLowerAscii c) (slugRuns false s)
     else if dash then slugRuns true s else String "-" (slugRuns true s)) = true).
  { destruct (isLowerAlnum (toLowerAscii c)) eqn:E; [|done]. cbn [all_chars]. rewrite Hrec by lia.
    unfold slugByte. by rewrite E. }
  destruct s as [|c1 s1]; [exact Hgen|].
  destruct (_ && _)%nat.
  { cbn [all_chars]. by rewrite Hrec by (simpl; lia). }
  destruct s1 as [|c2 s2]; [exact Hgen|]. destruct (_ && _)%nat; [|exact Hgen].
  cbn [all_chars]. by rewrite Hrec by (simpl; lia).
Qed.

Lemma substring_L n s : L (String.substring 0 n s) = take n (L s).
Proof. revert n. induction s as [|c s IH]; intros [|n]; simpl; try done. by rewrite IH. Qed.

Lemma trimDashes_bytes s : all_chars slugByte s = true -> all_chars slugByte (trimDashes s) = true.
Proof.
  rewrite !all_chars_Forall, L_trimDashes. destruct (trimmed_ends (L s)) as (_ & _ & k1 & k2 & Heq).
  rewrite Heq at 1. rewrite !Forall_app. naive_solver.
Qed.

Lemma trimDashes_length s : String.length (trimDashes s) <= String.length s.
Proof.
  rewrite <-!L_length, L_trimDashes. destruct (trimmed_ends (L s)) as (_ & _ & k1 & k2 & Heq).
  rewrite Heq at 2. rewrite !length_app. lia.
Qed.

(** What [slugify] has in hand before it looks at the length. *)
Definition rawSlug (s : string) : string :=
  let s := trimDashes (slugRuns false (TrimSpace s)) in if String.eqb s "" then "ws" else s.

Lemma rawSlug_ok s :
  all_chars slugByte (rawSlug s) = true /\ noLeadingDash (L (rawSlug s)) /\
  noLeadingDash (reverse (L (rawSlug s))) /\ rawSlug s <> "".
Proof.
  unfold rawSlug. destruct (String.eqb_spec (trimDashes (slugRuns false (TrimSpace s))) "") as [He|He].
  - split_and!; [done|by intros l' [=]|by intros l' [=]|done].
  - rewrite L_trimDashes. destruct (trimmed_ends (L (slugRuns false (TrimSpace s)))) as (H1 & H2 & _).
    split_and!; [|done|done|done]. apply trimDashes_bytes, slugRuns_bytes.
Qed.

(** A slug is well-formed whatever the input: it is not empty, at most 48
    bytes long, made of lower-case letters, digits and dashes, and neither starts
    nor ends with a dash, the cut at 48 bytes included. *)
Theorem slugify_wellformed s :
  slugify s <> "" /\ String.length (slugify s) <= 48 /\
  all_chars slugByte (slugify s) = true /\
  noLeadingDash (String.list_ascii_of_string (slugify s)) /\
  noLeadingDash (reverse (String.list_ascii_of_string (slugify s))).
Proof.
  change (slugify s) with (if (48 <? String.length (rawSlug s))%nat
                           then trimDashes (String.substring 0 48 (rawSlug s)) else rawSlug s).
  destruct (rawSlug_ok s) as (Hb & Hl & Ht & Hne).
  destruct (Nat.ltb_spec 48 (String.length (rawSlug s))) as [Hlong|Hshort]; [|done].
  pose proof (substring_L 48 (rawSlug s)) as Hsub.
  assert (Hsb : all_chars slugByte (String.substring 0 48 (rawSlug s)) = true).
  { apply all_chars_Forall. rewrite Hsub. by apply Forall_take, all_chars_Forall. }
  destruct (trimmed_ends (L (String.substring 0 48 (rawSlug s)))) as (H1 & H2 & _).
  rewrite <-L_trimDashes in H1, H2. split_and!; [| |by apply trimDashes_bytes|done|done].
  - destruct (rawSlug s) as [|c r] eqn:Hr; [done|]. simpl in Hl.
    destruct (trimmed_head c (take 47 (L r))) as [l' Hl'].
    { intros ->. by apply (Hl (L r)). }
    intros He. apply (f_equal L) in He. rewrite L_trimDashes, Hsub in He.
    change (take 48 (L (String c r))) with (c :: take 47 (L r)) in He. by rewrite Hl' in He.
  - etrans; [apply trimDashes_length|]. rewrite <-L_length, Hsub, length_take. lia.
Qed.

End Slugs.
