(* ===== verification/ModelJson.v ===== *)
(** * Model documents (pkg/authz/model_json.go)

    The serializable form of a model, the conversions in both directions with
    their validation, and the check of same-namespace references.  The text
    layer of encoding/json is a parameter: [json_Marshal] and [json_Decode]. *)

From stdpp Require Import base gmap strings list.
From Stdlib Require Import ZArith Lia.
From S2P Require Import Prelude Conditions Model.

Record TupleToUsersetDoc := mkTTUDoc { td_Tupleset : string; td_Computed : string }.

Record ExclusionDoc_ (R : Type) := mkExclusionDoc { xd_Include : R; xd_Exclude : R }.
Arguments mkExclusionDoc {R} _ _.
Arguments xd_Include {R} _.
Arguments xd_Exclude {R} _.

(** [None] is a nil slice or pointer. *)
Inductive RewriteDoc := mkRewriteDoc {
  rd_This : bool;
  rd_Computed : string;
  rd_TupleToUserset : option TupleToUsersetDoc;
  rd_Union : option (list RewriteDoc);
  rd_Intersection : option (list RewriteDoc);
  rd_Exclusion : option (ExclusionDoc_ RewriteDoc);
}.

Abbreviation ModelDoc := (gmap string (gmap string RewriteDoc)).

(** ** From a document to a model *)
Definition isSome {A} (o : option A) : bool := match o with Some _ => true | None => false end.

Definition countSet (bs : list bool) : nat := length (filter (fun b => b = true) bs).

Definition operatorsSet (rd : RewriteDoc) : nat :=
  countSet [rd_This rd; negb (String.eqb (rd_Computed rd) ""); isSome (rd_TupleToUserset rd);
            isSome (rd_Union rd); isSome (rd_Intersection rd); isSome (rd_Exclusion rd)].

Fixpoint toRewrite (rd : RewriteDoc) : result Rewrite :=
  if negb (Nat.eqb (operatorsSet rd) 1) then Err (ErrPlain "rewrite must set exactly one operator")
  else if rd_This rd then Ok RW.this
  else if negb (String.eqb (rd_Computed rd) "") then Ok (RW.computed (rd_Computed rd))
  else match rd_TupleToUserset rd with
  | Some td =>
      if String.eqb (td_Tupleset td) "" || String.eqb (td_Computed td) ""
      then Err (ErrPlain "tupleToUserset requires tupleset and computed")
      else Ok (RW.tupleToUserset (td_Tupleset td) (td_Computed td))
  | None =>
      match rd_Union rd with
      | Some docs =>
          rbind (rmap toRewrite docs) (fun children =>
            if is_nil children then Err (ErrPlain "union requires at least one child")
            else Ok (RW.union children))
      | None =>
          match rd_Intersection rd with
          | Some docs =>
              rbind (rmap toRewrite docs) (fun children =>
                if is_nil children then Err (ErrPlain "intersection requires at least one child")
                else Ok (RW.intersection children))
          | None =>
              match rd_Exclusion rd with
              | Some xd =>
                  rbind (toRewrite (xd_Include xd)) (fun inc =>
                  rbind (toRewrite (xd_Exclude xd)) (fun exc => Ok (RW.exclusion inc exc)))
              | None => Err (ErrPlain "unreachable: no operator")
              end
          end
      end
  end.

Section Documents.
Context `{MapRange}.

Definition ToNamespace (rels : gmap string RewriteDoc) : result (gmap string Rewrite) :=
  rangeM (fun rel rd =>
    if String.eqb rel "" then Err (ErrPlain "empty relation name") else toRewrite rd) rels.

Definition ToModel (d : ModelDoc) : result Model :=
  rangeM (fun ns rels =>
    if String.eqb ns "" then Err (ErrPlain "authz: model has an empty namespace name")
    else ToNamespace rels) d.

(** ** References *)
Definition andThen (r : result unit) (k : result unit) : result unit := rbind r (fun _ => k).

Definition undeclared (declared : gset string) (rel : string) : bool :=
  negb (String.eqb rel "") && negb (bool_decide (rel ∈ declared)).

Fixpoint checkRefs (declared : gset string) (rw : Rewrite) : result unit :=
  if undeclared declared (Computed rw) then Err (ErrPlain "references undeclared relation")
  else if undeclared declared (TuplesetRelation rw) then Err (ErrPlain "references undeclared tupleset relation")
  else andThen (rbind (rmap (checkRefs declared) (Union rw)) (fun _ => Ok tt))
      (andThen (rbind (rmap (checkRefs declared) (Intersection rw)) (fun _ => Ok tt))
        match Exclusion rw with
        | None => Ok tt
        | Some ex => andThen (checkRefs declared (Include ex)) (checkRefs declared (Exclude ex))
        end).

Definition ValidateModelRefs (m : Model) : result unit :=
  rbind (rmap (fun ns_rels : string * gmap string Rewrite =>
    rbind (rmap (fun rel_rw : string * Rewrite => checkRefs (dom ns_rels.2) rel_rw.2) (range_map ns_rels.2))
      (fun _ => Ok tt)) (range_map m))
  (fun _ => Ok tt).
End Documents.

(** ** From a model to a document *)
Definition emptyDoc : RewriteDoc := mkRewriteDoc false "" None None None None.

Fixpoint fromRewrite (rw : Rewrite) : RewriteDoc :=
  if negb (is_nil (Union rw)) then
    mkRewriteDoc false "" None (Some (fromRewrite <$> Union rw)) None None
  else if negb (is_nil (Intersection rw)) then
    mkRewriteDoc false "" None None (Some (fromRewrite <$> Intersection rw)) None
  else match Exclusion rw with
  | Some ex => mkRewriteDoc false "" None None None
                 (Some (mkExclusionDoc (fromRewrite (Include ex)) (fromRewrite (Exclude ex))))
  | None =>
      if negb (String.eqb (Computed rw) "") then mkRewriteDoc false (Computed rw) None None None None
      else if negb (String.eqb (TuplesetRelation rw) "") then
        mkRewriteDoc false "" (Some (mkTTUDoc (TuplesetRelation rw) (ComputedRelation rw))) None None None
      else mkRewriteDoc true "" None None None None
  end.

Definition FromModel (m : Model) : ModelDoc := (fun rels : gmap string Rewrite => fromRewrite <$> rels) <$> m.

(** ** Text *)
Class JsonCodec := {
  JsonText : Type;
  json_Marshal : ModelDoc -> result JsonText;
  json_Decode : JsonText -> result ModelDoc;
}.

Section Text.
Context `{MapRange} `{JsonCodec}.

Definition ParseModel (data : JsonText) : result Model :=
  match json_Decode data with
  | Err _ => Err (ErrPlain "authz: decode model")
  | Ok doc => ToModel doc
  end.

Definition MarshalModel (m : Model) : result JsonText := json_Marshal (FromModel m).
End Text.
