(* ===== verification/Engine.v ===== *)
(** * The evaluation engine (pkg/authz/engine.go, pkg/authz/backstop.go)

    [check] and the functions it calls, with the per-operation state they share:
    the cycle guard, the request-scoped memo, the cycle counter, the store-read
    budget and the optional backstop collector.  [ListObjects] runs one [check]
    per candidate on a shared budget.  The theorems about these functions are in
    the files EngineSound, EngineFrame and EngineTheorems. *)

From stdpp Require Import base gmap strings list.
From Stdlib Require Import ZArith Lia Ascii.
From S2P Require Import Prelude Conditions Model.
#[local] Open Scope Z_scope.

(** ** Backstops *)
Inductive BackstopReason := BackstopDepth | BackstopCycle | BackstopBudget.

Record Backstops := mkBackstops { b_Depth : Z; b_Cycle : Z; b_Budget : Z }.

Definition bumpBackstop (reason : BackstopReason) (b : Backstops) : Backstops :=
  match reason with
  | BackstopDepth => mkBackstops (b_Depth b + 1) (b_Cycle b) (b_Budget b)
  | BackstopCycle => mkBackstops (b_Depth b) (b_Cycle b + 1) (b_Budget b)
  | BackstopBudget => mkBackstops (b_Depth b) (b_Cycle b) (b_Budget b + 1)
  end.

(** ** Evaluation state

    [collector] is the [Backstops] value installed on the request context, when
    one is.  [calls] is not a field of the code: it counts the calls of
    [ListSubjects], so that the reads made can be compared with the reads charged.
    The counters are [int] in the code; here they do not wrap. *)
Record evalState := mkEvalState {
  visited : gset string;
  memo : gmap string bool;
  cyclesSeen : Z;
  reads : Z;
  calls : Z;
  maxReads : Z;
  collector : option Backstops;
}.

Definition newEvalState (maxReads : Z) (collector : option Backstops) : evalState :=
  mkEvalState ∅ ∅ 0 0 0 maxReads collector.

Definition set_visited (v : gset string) (st : evalState) : evalState :=
  mkEvalState v (memo st) (cyclesSeen st) (reads st) (calls st) (maxReads st) (collector st).
Definition set_memo (mm : gmap string bool) (st : evalState) : evalState :=
  mkEvalState (visited st) mm (cyclesSeen st) (reads st) (calls st) (maxReads st) (collector st).

Definition recordBackstop (reason : BackstopReason) (st : evalState) : evalState :=
  mkEvalState (visited st) (memo st) (cyclesSeen st) (reads st) (calls st) (maxReads st)
    (bumpBackstop reason <$> collector st).

(** The two statements [st.cyclesSeen++; recordBackstop(ctx, reason)]. *)
Definition markCycle (reason : BackstopReason) (st : evalState) : evalState :=
  recordBackstop reason
    (mkEvalState (visited st) (memo st) (cyclesSeen st + 1) (reads st) (calls st) (maxReads st) (collector st)).

Definition charge : St evalState unit := fun st =>
  let st' := mkEvalState (visited st) (memo st) (cyclesSeen st) (reads st + 1) (calls st) (maxReads st) (collector st) in
  if (0 <? maxReads st') && (maxReads st' <? reads st')
  then (Err ErrEvalBudgetExceeded, st')
  else (Ok tt, st').

(** [if err := st.charge(); err != nil { recordBackstop(ctx, BackstopBudget); return err }] *)
Definition chargeOrRecord : St evalState unit := fun st =>
  match charge st with
  | (Ok _, st') => (Ok tt, st')
  | (Err e, st') => (Err e, recordBackstop BackstopBudget st')
  end.

(** ** The engine *)
Record TupleReader := {
  ListSubjects : string -> string -> string -> string -> string -> result (list Subject);
  (** the optional [ObjectLister] capability *)
  ListObjectIDs : option (string -> string -> string -> result (list string));
}.

(** A call of the reader, successful or not. *)
Definition countCall (st : evalState) : evalState :=
  mkEvalState (visited st) (memo st) (cyclesSeen st) (reads st) (calls st + 1) (maxReads st) (collector st).
Definition readSubjects (rd : TupleReader) (projectID tenantID ns obj rel : string) : St evalState (list Subject) := fun st =>
  (ListSubjects rd projectID tenantID ns obj rel, countCall st).

Definition maxRecursionDepth : nat := 32.
Definition fanOutHeadroom : Z := 2.
Definition defaultCheckSetFanOutCandidates : Z := 1000.

Record Engine := mkEngine {
  resolver : ModelResolver;
  reader : TupleReader;
  maxDepth : nat;
  e_maxReads : Z;
  e_maxListObjects : Z;
}.

Definition NewEngine (resolver : option ModelResolver) (reader : TupleReader) : Engine :=
  mkEngine (match resolver with Some r => r | None => StaticResolver DefaultModel end)
           reader maxRecursionDepth 0 0.

Definition WithMaxReads (n : Z) (e : Engine) : Engine :=
  mkEngine (resolver e) (reader e) (maxDepth e)
           (if 0 <? n then n else e_maxReads e) (e_maxListObjects e).

Definition WithMaxListObjects (n : Z) (e : Engine) : Engine :=
  mkEngine (resolver e) (reader e) (maxDepth e) (e_maxReads e)
           (if 0 <? n then n else e_maxListObjects e).

Definition effectiveMaxReads (e : Engine) (override : Z) : Z :=
  if 0 <? override then override else e_maxReads e.

Definition fanOutBudget (e : Engine) (base candidates : Z) : Z :=
  if base <=? 0 then 0 else
  let scaled := wrap64 (wrap64 (candidates * Z.of_nat (maxDepth e)) * fanOutHeadroom) in
  if base <? scaled then scaled else base.

Definition expandBudget (e : Engine) (base maxNodes : Z) : Z :=
  if base <=? 0 then 0 else
  let scaled := wrap64 (maxNodes * fanOutHeadroom) in
  if base <? scaled then scaled else base.

Definition maxListObjectsOrDefault (e : Engine) : Z :=
  if 0 <? e_maxListObjects e then e_maxListObjects e else defaultCheckSetFanOutCandidates.

(** ** Keys *)
Definition visitKey (ns obj rel : string) : string :=
  String.append ns (String.append ":" (String.append obj (String.append "#" rel))).

Definition FormatBool (b : bool) : string := if b then "true" else "false".

Definition memoKey (key : string) (negated : bool) : string :=
  String.append key (String "031"%char (FormatBool negated)).

Record subjectQuery := mkQuery { q_user : string; q_set : option SubjectSet }.

(** ** Check *)
Section Check.
Context `{TextParsers}.
Context (rd : TupleReader) (m : Model) (projectID tenantID : string).
Context (q : subjectQuery) (cc : anymap).

(** The callers below reach [check] through this argument: [rec ns obj rel
    negated] is [check] one level deeper. *)
Definition checkFn : Type := string -> string -> string -> bool -> St evalState bool.

Section Eval.
Context (rec : checkFn).

Definition evalThis (ns obj rel : string) (negated : bool) : St evalState bool :=
  do! chargeOrRecord in
  let! subjects := readSubjects rd projectID tenantID ns obj rel in
  orLoop (fun s =>
    if negb (EvalCondition (Cond s) cc) then ret false
    else if Wildcard s then ret true
    else match Set_ s with
         | None => ret (negb (String.eqb (q_user q) "") && String.eqb (UserID s) (q_user q))
         | Some ss =>
             if bool_decide (q_set q = Some ss) then ret true
             else rec (ss_Namespace ss) (ss_ObjectID ss) (ss_Relation ss) negated
         end) subjects.

Definition evalTupleToUserset (ns obj : string) (rw : Rewrite) (negated : bool) : St evalState bool :=
  do! chargeOrRecord in
  let! subjects := readSubjects rd projectID tenantID ns obj (TuplesetRelation rw) in
  orLoop (fun s =>
    if negb (EvalCondition (Cond s) cc) then ret false
    else match Set_ s with
         | None => ret false
         | Some ss => rec (ss_Namespace ss) (ss_ObjectID ss) (ComputedRelation rw) negated
         end) subjects.

Fixpoint evalRewrite (ns obj rel : string) (rw : Rewrite) (negated : bool) : St evalState bool :=
  if isThis rw then evalThis ns obj rel negated
  else if negb (is_nil (Union rw)) then
    orLoop (fun child => evalRewrite ns obj rel child negated) (Union rw)
  else if negb (is_nil (Intersection rw)) then
    match q_set q with
    | Some _ => ret false
    | None => andLoop (fun child => evalRewrite ns obj rel child negated) (Intersection rw)
    end
  else match Exclusion rw with
  | Some ex =>
      match q_set q with
      | Some _ => ret false
      | None =>
          let! ok := evalRewrite ns obj rel (Include ex) negated in
          if negb ok then ret false else
          let! excluded := evalRewrite ns obj rel (Exclude ex) (negb negated) in
          ret (negb excluded)
      end
  | None =>
      if negb (String.eqb (Computed rw) "") then rec ns obj (Computed rw) negated
      else if negb (String.eqb (TuplesetRelation rw) "") then evalTupleToUserset ns obj rw negated
      else ret false
  end.
End Eval.

(** [left] is [maxDepth + 1 - depth], the number of levels still allowed: the
    recursion starts at [depth = 0], goes one level deeper at each call and is
    cut when [depth > maxDepth], that is at [left = 0]. *)
Fixpoint check (left : nat) (ns obj rel : string) (negated : bool) : St evalState bool := fun st =>
  let key := visitKey ns obj rel in
  if decide (key ∈ visited st) then (Ok negated, markCycle BackstopCycle st)
  else match left with
  | O => (Ok negated, markCycle BackstopDepth st)
  | S left' =>
      let mk := memoKey key negated in
      match memo st !! mk with
      | Some r => (Ok r, st)
      | None =>
          let st1 := set_visited ({[key]} ∪ visited st) st in
          let before := cyclesSeen st1 in
          let '(res, st2) :=
            evalRewrite (check left') ns obj rel (rewrite_of m ns rel) negated st1 in
          let st3 := set_visited (visited st2 ∖ {[key]}) st2 in
          match res with
          | Ok b => (Ok b, if cyclesSeen st3 =? before then set_memo (<[mk := b]> (memo st3)) st3 else st3)
          | Err e => (Err e, st3)
          end
      end
  end.
End Check.

(** ** The entry points

    Each returns the result together with the final evaluation state, whose
    collector holds the backstops the operation recorded. *)
Section Entry.
Context `{TextParsers} (e : Engine).

Definition CheckWithModel (m : Model) (projectID tenantID namespace objectID relation userID : string)
    (cc : anymap) (maxReads : Z) (bs : option Backstops) : result bool * evalState :=
  check (reader e) m projectID tenantID (mkQuery userID None) cc (S (maxDepth e))
        namespace objectID relation false (newEvalState (effectiveMaxReads e maxReads) bs).

Definition Check (projectID tenantID namespace objectID relation userID : string)
    (cc : anymap) (bs : option Backstops) : result bool * option Backstops :=
  match ModelFor (resolver e) projectID with
  | Err err => (Err err, bs)
  | Ok m =>
      let '(r, st) := CheckWithModel m projectID tenantID namespace objectID relation userID cc 0 bs in
      (r, collector st)
  end.

(** The candidate loop: [visited] and [memo] are replaced by fresh maps before
    each candidate, the read counter is not. *)
Fixpoint listObjectsLoop (m : Model) (projectID tenantID namespace relation userID : string)
    (ids : list string) : St evalState (list string) :=
  match ids with
  | [] => ret []
  | id :: ids' =>
      do! modify (fun st => set_memo ∅ (set_visited ∅ st)) in
      let! ok := check (reader e) m projectID tenantID (mkQuery userID None) ∅ (S (maxDepth e))
                       namespace id relation false in
      let! out := listObjectsLoop m projectID tenantID namespace relation userID ids' in
      ret (if ok : bool then id :: out else out)
  end.

Definition ListObjectsWithModel (m : Model) (projectID tenantID namespace relation userID : string)
    (maxObjects maxReads : Z) (bs : option Backstops) : result (list string) * option Backstops :=
  match ListObjectIDs (reader e) with
  | None => (Err (ErrPlain "authz: tuple store does not support ListObjects"), bs)
  | Some lister =>
      match lister projectID tenantID namespace with
      | Err err => (Err err, bs)
      | Ok ids =>
          if (0 <? maxObjects) && (maxObjects <? Z.of_nat (length ids)) then (Err ErrTooManyObjects, bs) else
          let candidates := if maxObjects <=? 0 then Z.of_nat (length ids) else maxObjects in
          let st := newEvalState (fanOutBudget e (effectiveMaxReads e maxReads) candidates) bs in
          let '(r, st') := listObjectsLoop m projectID tenantID namespace relation userID ids st in
          (r, collector st')
      end
  end.

Definition ListObjects (projectID tenantID namespace relation userID : string)
    (maxObjects : Z) (bs : option Backstops) : result (list string) * option Backstops :=
  match ModelFor (resolver e) projectID with
  | Err err => (Err err, bs)
  | Ok m => ListObjectsWithModel m projectID tenantID namespace relation userID maxObjects 0 bs
  end.
End Entry.
