(* ===== verification/Semantics.v ===== *)
(** * Reference semantics of a model

    The meaning of a relation is given by a family of approximations without
    cycle guard, memo or budget.  [approx n hi] unfolds the rules [n] levels
    deep; what lies below is taken as unknown, which counts as [false] in the
    lower approximation ([hi = false]) and as [true] in the upper one
    ([hi = true]).  An exclusion reads its second operand in the opposite
    approximation.  A lower [true] and an upper [false] never change at a deeper
    unfolding, so a node on which both approximations agree is decided.

    For models without exclusions the lower approximations generate an inductive
    relation, the usual reading of relation tuples (file [Granted]). *)

From stdpp Require Import base gmap strings list.
From Stdlib Require Import ZArith Lia.
From S2P Require Import Prelude Conditions Model Engine.

(** ** Two-sided approximations in general *)
Section Denotations.
Definition denot : Type := nat -> bool -> bool.

(** Facts established at level [n] persist. *)
Definition persistent (d : denot) : Prop :=
  forall n hi, d n hi = negb hi -> d (S n) hi = negb hi.
(** The lower approximation is below the upper one. *)
Definition consistent (d : denot) : Prop :=
  forall n, d n false = true -> d n true = true.

Definition proper_denot (d : denot) : Prop := persistent d /\ consistent d.

Definition decided (d : denot) (b : bool) : Prop :=
  exists n, d n false = b /\ d n true = b.

Definition undecided_at (n : nat) (d : denot) : Prop :=
  d n false = false /\ d n true = true.

Lemma persistent_le d n n' hi :
  persistent d -> n <= n' -> d n hi = negb hi -> d n' hi = negb hi.
Proof. intros Hp Hle Hd. induction Hle; auto. Qed.

Lemma consistent_any d n n' :
  proper_denot d -> d n false = true -> d n' true = true.
Proof.
  intros [Hp Hc] Hn.
  pose proof (Hc _ (persistent_le d n (n `max` n') false Hp ltac:(lia) Hn)) as Hm.
  destruct (d n' true) eqn:Hn'; [done|].
  by rewrite (persistent_le d n' (n `max` n') true Hp ltac:(lia) Hn') in Hm.
Qed.

Lemma decided_le d b n n' :
  proper_denot d -> d n false = b /\ d n true = b -> n <= n' ->
  d n' false = b /\ d n' true = b.
Proof.
  intros Hd [Hf Ht] Hle. destruct Hd as [Hp Hc]. destruct b.
  - pose proof (persistent_le d n n' false Hp Hle Hf). eauto.
  - pose proof (persistent_le d n n' true Hp Hle Ht) as Ht'. split; [|done].
    destruct (d n' false) eqn:E; [|done]. by rewrite (Hc _ E) in Ht'.
Qed.

(** Decided nodes agree with every established fact. *)
Lemma decided_agree d b n hi :
  proper_denot d -> decided d b -> d n hi = negb hi -> b = negb hi.
Proof.
  intros Hd [k [Hf Ht]] Hn. destruct hi, b; simpl in *; try done.
  - by rewrite (consistent_any d k n Hd Hf) in Hn.
  - by rewrite (consistent_any d n k Hd Hn) in Ht.
Qed.

Lemma decided_fact d b n hi :
  proper_denot d -> d n false = b /\ d n true = b -> b = negb hi -> d n hi = negb hi.
Proof. intros _ [Hf Ht] ->. by destruct hi. Qed.

Lemma undecided_le d n n' :
  proper_denot d -> undecided_at n' d -> n <= n' -> undecided_at n d.
Proof.
  intros [Hp _] [Hf Ht] Hle. split.
  - destruct (d n false) eqn:E; [|done].
    by rewrite (persistent_le d n n' false Hp Hle E) in Hf.
  - destruct (d n true) eqn:E; [done|].
    by rewrite (persistent_le d n n' true Hp Hle E) in Ht.
Qed.

(** The first level at which a fact is established. *)
Lemma first_level d n hi :
  proper_denot d -> d 0 hi = hi -> d n hi = negb hi ->
  exists k, k < n /\ d (S k) hi = negb hi /\ undecided_at k d.
Proof.
  intros Hd H0. induction n as [|n IH]; intros Hn.
  - rewrite H0 in Hn. by destruct hi.
  - destruct (decide (d n hi = negb hi)) as [Hn'|Hn'].
    + destruct (IH Hn') as (k & ? & ? & ?). exists k. split_and!; auto with lia.
    + exists n. split_and!; [lia|done|]. unfold undecided_at.
      destruct hi; simpl in *.
      * split; [|by destruct (d n true)].
        destruct (d n false) eqn:E; [|done].
        by rewrite (consistent_any d n (S n) Hd E) in Hn.
      * split; [by destruct (d n false)|]. eapply consistent_any; eauto.
Qed.
End Denotations.

(** ** Boolean folds *)
Section Folds.
Context {A : Type}.
Implicit Types (f g : A -> bool) (l : list A).

Lemma existsb_refine hi f g l :
  Forall (fun x => f x = negb hi -> g x = negb hi) l ->
  existsb f l = negb hi -> existsb g l = negb hi.
Proof.
  destruct hi; simpl; induction 1 as [|x l Hx _ IH]; simpl; auto.
  - rewrite !orb_false_iff. naive_solver.
  - rewrite !orb_true_iff. naive_solver.
Qed.

Lemma forallb_refine hi f g l :
  Forall (fun x => f x = negb hi -> g x = negb hi) l ->
  forallb f l = negb hi -> forallb g l = negb hi.
Proof.
  destruct hi; simpl; induction 1 as [|x l Hx _ IH]; simpl; auto.
  - rewrite !andb_false_iff. naive_solver.
  - rewrite !andb_true_iff. naive_solver.
Qed.
End Folds.

(** ** Meaning of rules and nodes *)
Section Semantics.
Context `{TextParsers}.
Context (rd : TupleReader) (m : Model) (projectID tenantID : string).
Context (q : subjectQuery) (cc : anymap).

Definition nodeVal : Type := string -> string -> string -> bool -> bool.

(** What one stored subject contributes to its relation. *)
Definition subjectVal (rec : nodeVal) (hi : bool) (s : Subject) : bool :=
  EvalCondition (Cond s) cc &&
  (Wildcard s ||
   match Set_ s with
   | None => negb (String.eqb (q_user q) "") && String.eqb (UserID s) (q_user q)
   | Some ss =>
       bool_decide (q_set q = Some ss)
       || rec (ss_Namespace ss) (ss_ObjectID ss) (ss_Relation ss) hi
   end).

Definition pointerVal (rec : nodeVal) (crel : string) (hi : bool) (s : Subject) : bool :=
  EvalCondition (Cond s) cc &&
  match Set_ s with
  | None => false
  | Some ss => rec (ss_Namespace ss) (ss_ObjectID ss) crel hi
  end.

(** A failed read leaves its contribution unknown. *)
Definition readVal (ns obj rel : string) (f : Subject -> bool) (hi : bool) : bool :=
  match ListSubjects rd projectID tenantID ns obj rel with
  | Err _ => hi
  | Ok subjects => existsb f subjects
  end.

Fixpoint rwVal (rec : nodeVal) (ns obj rel : string) (rw : Rewrite) (hi : bool) : bool :=
  if isThis rw then readVal ns obj rel (subjectVal rec hi) hi
  else if negb (is_nil (Union rw)) then
    existsb (fun child => rwVal rec ns obj rel child hi) (Union rw)
  else if negb (is_nil (Intersection rw)) then
    match q_set q with
    | Some _ => false
    | None => forallb (fun child => rwVal rec ns obj rel child hi) (Intersection rw)
    end
  else match Exclusion rw with
  | Some ex =>
      match q_set q with
      | Some _ => false
      | None => rwVal rec ns obj rel (Include ex) hi && negb (rwVal rec ns obj rel (Exclude ex) (negb hi))
      end
  | None =>
      if negb (String.eqb (Computed rw) "") then rec ns obj (Computed rw) hi
      else if negb (String.eqb (TuplesetRelation rw) "") then
        readVal ns obj (TuplesetRelation rw) (pointerVal rec (ComputedRelation rw) hi) hi
      else false
  end.

Fixpoint approx (n : nat) (ns obj rel : string) (hi : bool) : bool :=
  match n with
  | O => hi
  | S n' => rwVal (approx n') ns obj rel (rewrite_of m ns rel) hi
  end.

Definition nodeDenot (ns obj rel : string) : denot := fun n hi => approx n ns obj rel hi.
Definition rwDenot (ns obj rel : string) (rw : Rewrite) : denot :=
  fun n hi => rwVal (approx n) ns obj rel rw hi.

(** *** Refinement of the oracle for smaller nodes *)
Definition refines (r1 r2 : nodeVal) : Prop :=
  forall ns obj rel hi, r1 ns obj rel hi = negb hi -> r2 ns obj rel hi = negb hi.

Lemma subjectVal_refine r1 r2 hi s :
  refines r1 r2 -> subjectVal r1 hi s = negb hi -> subjectVal r2 hi s = negb hi.
Proof.
  intros Hr. unfold subjectVal. destruct (EvalCondition _ _); [|done].
  destruct (Wildcard s); [done|]. simpl.
  destruct (Set_ s) as [ss|]; [|done].
  destruct (bool_decide _); [done|]. simpl. apply Hr.
Qed.

Lemma pointerVal_refine r1 r2 crel hi s :
  refines r1 r2 -> pointerVal r1 crel hi s = negb hi -> pointerVal r2 crel hi s = negb hi.
Proof.
  intros Hr. unfold pointerVal. destruct (EvalCondition _ _); [|done]. simpl.
  destruct (Set_ s) as [ss|]; [|done]. apply Hr.
Qed.

Lemma readVal_refine ns obj rel f g hi :
  (forall s, f s = negb hi -> g s = negb hi) ->
  readVal ns obj rel f hi = negb hi -> readVal ns obj rel g hi = negb hi.
Proof.
  intros Hfg. unfold readVal. destruct (ListSubjects _ _ _ _ _ _) as [subs|]; [|done].
  apply existsb_refine. by apply Forall_true.
Qed.

Lemma rwVal_refine r1 r2 ns obj rel rw :
  refines r1 r2 -> forall hi,
  rwVal r1 ns obj rel rw hi = negb hi -> rwVal r2 ns obj rel rw hi = negb hi.
Proof.
  intros Hr. induction rw as [us ins ex c ts cr IHu IHi IHe] using Rewrite_ind'; intros hi.
  simpl. destruct (isThis _).
  { apply readVal_refine. intros s. by apply subjectVal_refine. }
  destruct (negb (is_nil us)).
  { apply existsb_refine. eapply Forall_impl; [exact IHu|]. simpl. auto. }
  destruct (negb (is_nil ins)).
  { destruct (q_set q); [done|]. apply forallb_refine.
    eapply Forall_impl; [exact IHi|]. simpl. auto. }
  destruct ex as [[i x]|].
  { destruct (q_set q); [done|]. destruct (IHe _ eq_refl) as [Hi Hx]; simpl in *.
    specialize (Hi hi). specialize (Hx (negb hi)). destruct hi; simpl in *.
    - rewrite !andb_false_iff, !negb_false_iff. naive_solver.
    - rewrite !andb_true_iff, !negb_true_iff. naive_solver. }
  destruct (negb _); [apply Hr|]. destruct (negb _); [|done].
  apply readVal_refine. intros s. by apply pointerVal_refine.
Qed.

Lemma approx_refines n : refines (approx n) (approx (S n)).
Proof.
  induction n as [|n IH]; intros ns obj rel hi; [by destruct hi|].
  apply (rwVal_refine _ _ _ _ _ _ IH).
Qed.

(** *** Consistency *)
Definition consistentVal (r : nodeVal) : Prop :=
  forall ns obj rel, r ns obj rel false = true -> r ns obj rel true = true.

Lemma readVal_consistent ns obj rel (f g : Subject -> bool) :
  (forall s, f s = true -> g s = true) ->
  readVal ns obj rel f false = true -> readVal ns obj rel g true = true.
Proof.
  intros Hfg. unfold readVal. destruct (ListSubjects _ _ _ _ _ _) as [subs|]; [|done].
  apply (existsb_refine false). by apply Forall_true.
Qed.

Lemma rwVal_consistent r ns obj rel rw :
  consistentVal r -> rwVal r ns obj rel rw false = true -> rwVal r ns obj rel rw true = true.
Proof.
  intros Hr. induction rw as [us ins ex c ts cr IHu IHi IHe] using Rewrite_ind'.
  simpl. destruct (isThis _).
  { apply readVal_consistent. intros s. unfold subjectVal.
    rewrite !andb_true_iff, !orb_true_iff.
    destruct (Set_ s); rewrite ?orb_true_iff; naive_solver. }
  destruct (negb (is_nil us)); [by apply (existsb_refine false)|].
  destruct (negb (is_nil ins)).
  { destruct (q_set q); [done|]. by apply (forallb_refine false). }
  destruct ex as [[i x]|].
  { destruct (q_set q); [done|]. destruct (IHe _ eq_refl) as [Hi Hx]; simpl in *.
    rewrite !andb_true_iff, !negb_true_iff.
    destruct (rwVal r ns obj rel x false); naive_solver. }
  destruct (negb _); [apply Hr|]. destruct (negb _); [|done].
  apply readVal_consistent. intros s. unfold pointerVal.
  rewrite !andb_true_iff. destruct (Set_ s); naive_solver.
Qed.

Lemma approx_consistent n : consistentVal (approx n).
Proof.
  induction n as [|n IH]; intros ns obj rel; [done|]. by apply rwVal_consistent.
Qed.

Lemma nodeDenot_proper ns obj rel : proper_denot (nodeDenot ns obj rel).
Proof. split; [intros n hi; apply approx_refines | intros n; apply approx_consistent]. Qed.

Lemma rwDenot_proper ns obj rel rw : proper_denot (rwDenot ns obj rel rw).
Proof.
  split; [intros n hi; apply rwVal_refine, approx_refines
         | intros n; apply rwVal_consistent, approx_consistent].
Qed.
End Semantics.

#[export] Hint Resolve nodeDenot_proper rwDenot_proper : go.
