(* ===== verification/EngineSound.v ===== *)
(** * Soundness and completeness of [check]

    [check] is compared with the reference semantics of Semantics.v.  One
    induction shows at once that the memo only ever holds decided values, that
    the cycle guard is restored, that an evaluation that met no cycle and no
    depth cut is exact, and that a grant in a positive context (and a denial in a
    negated one) is backed by the semantics even when cycles were met.  A second
    induction shows that a grant the semantics establishes within the depth bound
    is found. *)

From stdpp Require Import base gmap strings list.
From Stdlib Require Import ZArith Lia Ascii.
From S2P Require Import Prelude Conditions Model Engine Semantics.

(** ** Names for which the visit keys are unambiguous *)
Definition nsOK (ns : string) : bool := negb (contains_char ":"%char ns).
Definition relOK (rel : string) : bool := negb (contains_char "#"%char rel).

Fixpoint relsOK (rw : Rewrite) : bool :=
  relOK (Computed rw) && relOK (ComputedRelation rw)
  && forallb relsOK (Union rw) && forallb relsOK (Intersection rw)
  && match Exclusion rw with
     | None => true
     | Some e => relsOK (Include e) && relsOK (Exclude e)
     end.

Definition modelKeysOK (m : Model) : Prop :=
  map_Forall (fun _ ns => map_Forall (fun _ rw => relsOK rw = true) ns) m.

Definition setOK (ss : SubjectSet) : bool := nsOK (ss_Namespace ss) && relOK (ss_Relation ss).

Definition readerKeysOK (rd : TupleReader) (projectID tenantID : string) : Prop :=
  forall ns obj rel subs s ss,
    ListSubjects rd projectID tenantID ns obj rel = Ok subs -> s ∈ subs ->
    Set_ s = Some ss -> setOK ss = true.

Lemma visitKey_inj ns obj rel ns' obj' rel' :
  nsOK ns = true -> relOK rel = true -> nsOK ns' = true -> relOK rel' = true ->
  visitKey ns obj rel = visitKey ns' obj' rel' -> ns = ns' /\ obj = obj' /\ rel = rel'.
Proof.
  unfold nsOK, relOK, visitKey. rewrite !negb_true_iff. intros Hn Hr Hn' Hr' Heq.
  rewrite !string_app_cons, !string_app_nil_l in Heq.
  apply string_sep_inj in Heq as [-> Heq]; [|done..].
  apply string_last_sep_inj in Heq as [-> ->]; done.
Qed.

Lemma memoKey_inj k k' b b' : memoKey k b = memoKey k' b' -> k = k' /\ b = b'.
Proof.
  unfold memoKey. intros Heq. apply string_last_sep_inj in Heq as [-> Heq].
  - split; [done|]. by destruct b, b'.
  - by destruct b.
  - by destruct b'.
Qed.

Lemma modelKeysOK_rewrite_of m ns rel :
  modelKeysOK m -> relsOK (rewrite_of m ns rel) = true.
Proof.
  intros Hm. unfold rewrite_of. destruct (m !! ns) as [n|] eqn:En; [|done].
  destruct (n !! rel) as [rw|] eqn:Er; [|done]. exact (Hm _ _ En _ _ Er).
Qed.

Section Soundness.
Context `{TextParsers}.
Context (rd : TupleReader) (m : Model) (projectID tenantID : string).
Context (q : subjectQuery) (cc : anymap).
Context (Hmodel : modelKeysOK m) (Hreader : readerKeysOK rd projectID tenantID).

#[local] Abbreviation node := (nodeDenot rd m projectID tenantID q cc).
#[local] Abbreviation rule := (rwDenot rd m projectID tenantID q cc).
#[local] Abbreviation CHECK := (check rd m projectID tenantID q cc).

(** The memo holds decided values only. *)
Definition memoOK (st : evalState) : Prop :=
  forall ns obj rel neg b,
    nsOK ns = true -> relOK rel = true ->
    memo st !! memoKey (visitKey ns obj rel) neg = Some b ->
    decided (node ns obj rel) b.

(** What an evaluation of a denotation [d] in polarity [neg] guarantees. *)
Record post (neg : bool) (d : denot) (st : evalState) (r : result bool) (st' : evalState) : Prop := {
  post_memo : memoOK st';
  post_visited : visited st' = visited st;
  post_cycles : (cyclesSeen st <= cyclesSeen st')%Z;
  post_clean : forall b, r = Ok b -> cyclesSeen st' = cyclesSeen st -> decided d b;
  post_fact : r = Ok (negb neg) -> exists n, d n neg = negb neg;
}.

Definition computes (neg : bool) (d : denot) (c : St evalState bool) : Prop :=
  forall st, memoOK st -> post neg d st (c st).1 (c st).2.

Lemma post_err neg d st st' e :
  memoOK st' -> visited st' = visited st -> (cyclesSeen st <= cyclesSeen st')%Z ->
  post neg d st (Err e) st'.
Proof. by split. Qed.

Lemma post_trans_err neg d d' st r st' e st2 :
  post neg d st r st' -> post neg d' st' (Err e) st2 -> post neg d' st (Err e) st2.
Proof. intros [] []. apply post_err; [done|congruence|lia]. Qed.

Lemma computes_ret neg b : computes neg (fun _ _ => b) (ret b).
Proof.
  intros st Hst. split; simpl; try done.
  - intros b' [= <-] _. by exists 0.
  - intros [= ->]. by exists 0.
Qed.

Lemma computes_ext neg d d' c :
  (forall n hi, d n hi = d' n hi) -> computes neg d c -> computes neg d' c.
Proof.
  intros Hext Hc st Hst. destruct (Hc st Hst) as [? ? ? Hcl Hf]. split; try done.
  - intros b Hb Hcy. destruct (Hcl b Hb Hcy) as [n [? ?]]. exists n. by rewrite <-!Hext.
  - intros Hb. destruct (Hf Hb) as [n ?]. exists n. by rewrite <-Hext.
Qed.

(** *** Loops *)
Section LoopRules.
Context {A : Type} (neg : bool) (D : A -> denot) (f : A -> St evalState bool).

Definition orDenot (xs : list A) : denot := fun n hi => existsb (fun x => D x n hi) xs.
Definition andDenot (xs : list A) : denot := fun n hi => forallb (fun x => D x n hi) xs.

Lemma orDenot_proper xs : Forall (fun x => proper_denot (D x)) xs -> proper_denot (orDenot xs).
Proof.
  intros Hxs. split; intros n.
  - intros hi. apply existsb_refine. eapply Forall_impl; [exact Hxs|]. intros x [Hp _]. apply Hp.
  - apply (existsb_refine false). eapply Forall_impl; [exact Hxs|]. intros x [_ Hc]. apply Hc.
Qed.

Lemma andDenot_proper xs : Forall (fun x => proper_denot (D x)) xs -> proper_denot (andDenot xs).
Proof.
  intros Hxs. split; intros n.
  - intros hi. apply forallb_refine. eapply Forall_impl; [exact Hxs|]. intros x [Hp _]. apply Hp.
  - apply (forallb_refine false). eapply Forall_impl; [exact Hxs|]. intros x [_ Hc]. apply Hc.
Qed.

(** The first element decides nothing alone: both evaluations follow. *)
Lemma post_seq (comb : bool -> bool -> bool) d1 d2 st st1 r st2 b1 :
  proper_denot d1 -> proper_denot d2 ->
  (forall hi b, comb b1 b = negb hi -> b1 = negb hi /\ b = negb hi \/
     (forall b', comb b' b = negb hi) /\ b = negb hi) ->
  (forall b, comb b1 b = b) ->
  post neg d1 st (Ok b1) st1 -> post neg d2 st1 r st2 ->
  post neg (fun n hi => comb (d1 n hi) (d2 n hi)) st r st2.
Proof.
  intros Hd1 Hd2 Hcomb Hid [_ Hv1 Hc1 Hcl1 Hf1] [Hm2 Hv2 Hc2 Hcl2 Hf2].
  split; [done|congruence|lia| |].
  - intros b -> Hcy. destruct (Hcl1 b1 eq_refl ltac:(lia)) as [n1 H1].
    destruct (Hcl2 b eq_refl ltac:(lia)) as [n2 H2].
    exists (n1 `max` n2).
    destruct (decided_le d1 b1 n1 (n1 `max` n2) Hd1 H1 ltac:(lia)) as [-> ->].
    destruct (decided_le d2 b n2 (n1 `max` n2) Hd2 H2 ltac:(lia)) as [-> ->].
    by rewrite Hid.
  - intros ->. destruct (Hf2 eq_refl) as [n2 H2].
    destruct (Hcomb neg (negb neg) (Hid _)) as [[Hb1 _]|[Hany _]].
    + destruct (Hf1 ltac:(by rewrite Hb1)) as [n1 H1].
      exists (n1 `max` n2).
      rewrite (persistent_le d1 n1 (n1 `max` n2) neg (proj1 Hd1) ltac:(lia) H1).
      rewrite (persistent_le d2 n2 (n1 `max` n2) neg (proj1 Hd2) ltac:(lia) H2).
      rewrite <-Hb1. apply Hid.
    + exists n2. rewrite H2. apply Hany.
Qed.

Lemma computes_orLoop xs :
  Forall (fun x => proper_denot (D x) /\ computes neg (D x) (f x)) xs ->
  computes neg (orDenot xs) (orLoop f xs).
Proof.
  induction 1 as [|x xs [Hd Hx] Hxs IH]; [apply (computes_ret neg false)|].
  assert (Hor : proper_denot (orDenot xs)).
  { apply orDenot_proper. eapply Forall_impl; [exact Hxs|]. by intros ? []. }
  intros st Hst. pose proof (Hx st Hst) as Hpx. simpl. unfold bind.
  destruct (f x st) as [[[]|e] st1]; simpl in *.
  - destruct Hpx as [Hm1 Hv1 Hc1 Hcl1 Hf1]. split; try done.
    + intros b [= <-] Hcy. destruct (Hcl1 true eq_refl Hcy) as [n [Hf Ht]].
      exists n. unfold orDenot. simpl. by rewrite Hf, Ht.
    + intros [= Hneg]. destruct (Hf1 ltac:(by rewrite Hneg)) as [n Hn].
      exists n. unfold orDenot. simpl. rewrite Hn, <-Hneg. done.
  - apply (post_seq orb (D x) (orDenot xs) st st1 _ _ false); auto.
    + intros [] []; simpl; auto. right. split; [|done]. by intros [].
    + apply IH. apply Hpx.
  - destruct Hpx. by apply post_err.
Qed.

Lemma computes_andLoop xs :
  Forall (fun x => proper_denot (D x) /\ computes neg (D x) (f x)) xs ->
  computes neg (andDenot xs) (andLoop f xs).
Proof.
  induction 1 as [|x xs [Hd Hx] Hxs IH]; [apply (computes_ret neg true)|].
  assert (Hand : proper_denot (andDenot xs)).
  { apply andDenot_proper. eapply Forall_impl; [exact Hxs|]. by intros ? []. }
  intros st Hst. pose proof (Hx st Hst) as Hpx. simpl. unfold bind.
  destruct (f x st) as [[[]|e] st1]; simpl in *.
  - apply (post_seq andb (D x) (andDenot xs) st st1 _ _ true); auto.
    + intros [] []; simpl; auto. right. split; [|done]. by intros [].
    + apply IH. apply Hpx.
  - destruct Hpx as [Hm1 Hv1 Hc1 Hcl1 Hf1]. split; try done.
    + intros b [= <-] Hcy. destruct (Hcl1 false eq_refl Hcy) as [n [Hf Ht]].
      exists n. unfold andDenot. simpl. by rewrite Hf, Ht.
    + intros [= Hneg]. destruct (Hf1 ltac:(by rewrite Hneg)) as [n Hn].
      exists n. unfold andDenot. simpl. rewrite Hn, <-Hneg. done.
  - destruct Hpx. by apply post_err.
Qed.
End LoopRules.

(** *** Exclusion *)
Lemma computes_diff neg d1 d2 c1 c2 :
  proper_denot d1 -> proper_denot d2 ->
  computes neg d1 c1 -> computes (negb neg) d2 c2 ->
  computes neg (fun n hi => d1 n hi && negb (d2 n (negb hi)))
    (let! ok := c1 in if negb ok then ret false else
     let! excluded := c2 in ret (negb excluded)).
Proof.
  intros Hd1 Hd2 H1 H2 st Hst. pose proof (H1 st Hst) as Hp1. unfold bind.
  destruct (c1 st) as [[[]|e] st1]; simpl in *; [| |destruct Hp1; by apply post_err].
  2:{ destruct Hp1 as [Hm1 Hv1 Hc1 Hcl1 Hf1]. split; try done.
      - intros b [= <-] Hcy. destruct (Hcl1 false eq_refl Hcy) as [n [Hf Ht]].
        exists n. simpl. by rewrite Hf, Ht.
      - intros [= Hneg]. destruct (Hf1 ltac:(by rewrite Hneg)) as [n Hn].
        exists n. rewrite Hn, <-Hneg. done. }
  pose proof (H2 st1 (post_memo _ _ _ _ _ Hp1)) as Hp2.
  destruct Hp1 as [Hm1 Hv1 Hc1 Hcl1 Hf1].
  destruct (c2 st1) as [[x|e] st2]; simpl in *;
    destruct Hp2 as [Hm2 Hv2 Hc2 Hcl2 Hf2]; [|apply post_err; [done|congruence|lia]].
  split; [done|congruence|lia| |].
  - intros b [= <-] Hcy. destruct (Hcl1 true eq_refl ltac:(lia)) as [n1 Hn1].
    destruct (Hcl2 x eq_refl ltac:(lia)) as [n2 Hn2]. exists (n1 `max` n2). simpl.
    destruct (decided_le d1 true n1 (n1 `max` n2) Hd1 Hn1 ltac:(lia)) as [-> ->].
    by destruct (decided_le d2 x n2 (n1 `max` n2) Hd2 Hn2 ltac:(lia)) as [-> ->].
  - intros [= Hx]. assert (x = neg) as -> by (by destruct x, neg).
    destruct (Hf2 ltac:(by rewrite negb_involutive)) as [n2 Hn2].
    destruct neg; simpl in *.
    + exists n2. by rewrite Hn2, andb_false_r.
    + destruct (Hf1 eq_refl) as [n1 Hn1]. exists (n1 `max` n2).
      rewrite (persistent_le d1 n1 (n1 `max` n2) false (proj1 Hd1) ltac:(lia) Hn1).
      by rewrite (persistent_le d2 n2 (n1 `max` n2) true (proj1 Hd2) ltac:(lia) Hn2).
Qed.

(** *** Reads *)
Lemma chargeOrRecord_frame st :
  memo (chargeOrRecord st).2 = memo st
  /\ visited (chargeOrRecord st).2 = visited st
  /\ cyclesSeen (chargeOrRecord st).2 = cyclesSeen st.
Proof. unfold chargeOrRecord, charge. simpl. by destruct (_ && _). Qed.

Lemma computes_read neg ns obj rel d (k : list Subject -> St evalState bool) :
  (forall subs, ListSubjects rd projectID tenantID ns obj rel = Ok subs -> computes neg d (k subs)) ->
  computes neg d (do! chargeOrRecord in
                  let! subjects := readSubjects rd projectID tenantID ns obj rel in k subjects).
Proof.
  intros Hk st Hst. unfold bind, readSubjects.
  destruct (chargeOrRecord_frame st) as (Hm & Hv & Hc).
  destruct (chargeOrRecord st) as [[[]|e] st1]; simpl in *.
  - assert (Hst1 : memoOK st1) by (unfold memoOK; by rewrite Hm).
    destruct (ListSubjects _ _ _ _ _ _) as [subs|e]; simpl; [|apply post_err; [done|done|simpl; lia]].
    destruct (Hk subs eq_refl (countCall st1) Hst1) as [? ? ? Hcl ?].
    simpl in *. split; [done|congruence|lia| |done]. intros b Hb Hcy. apply Hcl; [done|congruence].
  - apply post_err; [unfold memoOK; by rewrite Hm|done|lia].
Qed.

(** *** Rules, for a recursive call that computes the nodes *)
Section Rules.
Context (rec : checkFn).
Context (Hrec : forall ns obj rel neg, nsOK ns = true -> relOK rel = true ->
                  computes neg (node ns obj rel) (rec ns obj rel neg)).

Lemma computes_const_ret neg (d : denot) b :
  (forall n hi, d n hi = b) -> proper_denot d /\ computes neg d (ret b).
Proof.
  intros Hd. split.
  - split; [intros n hi; by rewrite !Hd | intros n; by rewrite !Hd].
  - eapply computes_ext; [|apply computes_ret]. simpl. intros. by rewrite Hd.
Qed.

Lemma computes_evalThis neg ns obj rel :
  computes neg (fun n hi => readVal rd projectID tenantID ns obj rel
                              (subjectVal q cc (approx rd m projectID tenantID q cc n) hi) hi)
    (evalThis rd projectID tenantID q cc rec ns obj rel neg).
Proof.
  apply computes_read. intros subs Hsubs.
  eapply computes_ext; [|apply (computes_orLoop neg
    (fun s n hi => subjectVal q cc (approx rd m projectID tenantID q cc n) hi s))].
  { intros n hi. unfold orDenot, readVal. by rewrite Hsubs. }
  apply Forall_forall. intros s Hs. unfold subjectVal.
  destruct (EvalCondition (Cond s) cc); simpl; [|by apply computes_const_ret].
  destruct (Wildcard s); simpl; [by apply computes_const_ret|].
  destruct (Set_ s) as [ss|] eqn:Ess; simpl; [|by apply computes_const_ret].
  destruct (bool_decide _); simpl; [by apply computes_const_ret|].
  pose proof (Hreader _ _ _ _ _ _ Hsubs Hs Ess) as [Hn Hr]%andb_prop.
  split; [apply nodeDenot_proper | by apply Hrec].
Qed.

Lemma computes_evalTupleToUserset neg ns obj rw :
  relOK (ComputedRelation rw) = true ->
  computes neg (fun n hi => readVal rd projectID tenantID ns obj (TuplesetRelation rw)
                              (pointerVal cc (approx rd m projectID tenantID q cc n)
                                 (ComputedRelation rw) hi) hi)
    (evalTupleToUserset rd projectID tenantID cc rec ns obj rw neg).
Proof.
  intros Hcr. apply computes_read. intros subs Hsubs.
  eapply computes_ext; [|apply (computes_orLoop neg
    (fun s n hi => pointerVal cc (approx rd m projectID tenantID q cc n) (ComputedRelation rw) hi s))].
  { intros n hi. unfold orDenot, readVal. by rewrite Hsubs. }
  apply Forall_forall. intros s Hs. unfold pointerVal.
  destruct (EvalCondition (Cond s) cc); simpl; [|by apply computes_const_ret].
  destruct (Set_ s) as [ss|] eqn:Ess; simpl; [|by apply computes_const_ret].
  pose proof (Hreader _ _ _ _ _ _ Hsubs Hs Ess) as [Hn _]%andb_prop.
  split; [apply nodeDenot_proper | by apply Hrec].
Qed.

Lemma computes_evalRewrite ns obj rel rw :
  nsOK ns = true -> relsOK rw = true -> forall neg,
  computes neg (rule ns obj rel rw) (evalRewrite rd projectID tenantID q cc rec ns obj rel rw neg).
Proof.
  intros Hns. unfold rwDenot.
  induction rw as [us ins ex c ts cr IHu IHi IHe] using Rewrite_ind'. simpl.
  intros [[[[Hc Hcr]%andb_prop Hus]%andb_prop Hins]%andb_prop Hex]%andb_prop neg.
  apply forallb_Forall in Hus. apply forallb_Forall in Hins.
  destruct (isThis _); [apply computes_evalThis|].
  destruct (negb (is_nil us)).
  { apply (computes_orLoop neg (fun child => rule ns obj rel child)).
    apply (Forall_impl2 _ _ _ _ IHu Hus). intros x Hx ?.
    split; [apply rwDenot_proper | by apply Hx]. }
  destruct (negb (is_nil ins)).
  { destruct (q_set q); [by apply computes_const_ret|].
    apply (computes_andLoop neg (fun child => rule ns obj rel child)).
    apply (Forall_impl2 _ _ _ _ IHi Hins). intros x Hx ?.
    split; [apply rwDenot_proper | by apply Hx]. }
  destruct ex as [[i x]|].
  { destruct (q_set q); [by apply computes_const_ret|].
    destruct (IHe _ eq_refl) as [Hi Hx]. apply andb_prop in Hex as [? ?]. simpl in *.
    apply (computes_diff neg (rule ns obj rel i) (rule ns obj rel x));
      eauto using rwDenot_proper. }
  destruct (negb _); [by apply Hrec|].
  destruct (negb _); [|by apply computes_const_ret].
  by apply (computes_evalTupleToUserset neg ns obj (mkRewrite us ins None c ts cr)).
Qed.
End Rules.

(** *** Nodes *)
Lemma memoOK_insert st ns obj rel neg b :
  nsOK ns = true -> relOK rel = true -> memoOK st -> decided (node ns obj rel) b ->
  memoOK (set_memo (<[memoKey (visitKey ns obj rel) neg := b]> (memo st)) st).
Proof.
  intros Hns Hrel Hst Hb ns' obj' rel' neg' b' Hns' Hrel'. simpl.
  rewrite lookup_insert_Some. intros [[Heq <-]|[_ Hl]]; [|by eapply Hst].
  apply memoKey_inj in Heq as [Heq _].
  by apply visitKey_inj in Heq as (-> & -> & ->).
Qed.

Lemma computes_check left ns obj rel neg :
  nsOK ns = true -> relOK rel = true -> computes neg (node ns obj rel) (CHECK left ns obj rel neg).
Proof.
  revert ns obj rel neg. induction left as [|left IH]; intros ns obj rel neg Hns Hrel st Hst.
  all: cbn [check]; case_decide as Hvis; simpl.
  1-3: split; simpl; try done; [lia|intros b _ Hcy; lia|intros [= ?]; by destruct neg].
  destruct (memo st !! _) as [b|] eqn:Hmemo; simpl.
  { pose proof (Hst _ _ _ _ _ Hns Hrel Hmemo) as Hb. split; try done.
    - by intros b' [= <-] _.
    - intros [= ->]. destruct Hb as [n [? ?]]. exists n. by destruct neg. }
  set (key := visitKey ns obj rel) in *.
  pose proof (computes_evalRewrite (CHECK left) IH ns obj rel (rewrite_of m ns rel) Hns
                (modelKeysOK_rewrite_of m ns rel Hmodel) neg
                (set_visited ({[key]} ∪ visited st) st) Hst) as Hpost.
  destruct (evalRewrite _ _ _ _ _ _ _ _ _ _ _ _) as [res st2]; simpl in *.
  destruct Hpost as [Hm2 Hv2 Hc2 Hcl2 Hf2]; simpl in *.
  assert (Hback : visited st2 ∖ {[key]} = visited st) by (rewrite Hv2; set_solver).
  destruct res as [b|e]; simpl; [|by apply post_err].
  assert (Hdec : cyclesSeen st2 = cyclesSeen st -> decided (node ns obj rel) b).
  { intros Hcy. destruct (Hcl2 b eq_refl Hcy) as [n Hn]. by exists (S n). }
  assert (Hfact : Ok b = Ok (negb neg) -> exists n, node ns obj rel n neg = negb neg).
  { intros Hb. destruct (Hf2 Hb) as [n Hn]. by exists (S n). }
  destruct (Z.eqb_spec (cyclesSeen st2) (cyclesSeen st)) as [Hcy|Hcy]; split; simpl; auto.
  - apply (memoOK_insert (set_visited (visited st2 ∖ {[key]}) st2)); auto.
  - intros b' [= <-] _. auto.
  - intros b' [= <-] ?. auto.
Qed.

(** ** Completeness

    Below an in-progress node the semantics owes nothing to that node: the
    nodes of the cycle guard are undecided at the level that is left. *)
Definition guardUndecided (n : nat) (st : evalState) : Prop :=
  forall ns obj rel, nsOK ns = true -> relOK rel = true ->
    visitKey ns obj rel ∈ visited st -> undecided_at n (node ns obj rel).

Definition finds (n : nat) (neg : bool) (d : denot) (c : St evalState bool) : Prop :=
  forall st b, memoOK st -> guardUndecided n st -> d n neg = negb neg ->
    (c st).1 = Ok b -> b = negb neg.

Lemma guardUndecided_post n neg d st r st' :
  post neg d st r st' -> guardUndecided n st -> guardUndecided n st'.
Proof. intros [_ Hv _ _ _] Hg. unfold guardUndecided. by rewrite Hv. Qed.

Lemma finds_ret n neg (d : denot) b : (forall n hi, d n hi = b) -> finds n neg d (ret b).
Proof. intros Hd st b' _ _. rewrite Hd. by intros <- [= <-]. Qed.

Section LoopFinds.
Context {A : Type} (n : nat) (neg : bool) (D : A -> denot) (f : A -> St evalState bool).

Lemma finds_orLoop xs :
  Forall (fun x => computes neg (D x) (f x) /\ finds n neg (D x) (f x)) xs ->
  finds n neg (orDenot D xs) (orLoop f xs).
Proof.
  induction 1 as [|x xs [Hc Hf] _ IH]; [by apply finds_ret|].
  intros st b Hst Hg Hd. specialize (Hc st Hst). specialize (Hf st).
  unfold orDenot in Hd. simpl in Hd |- *. unfold bind.
  destruct (f x st) as [[bx|e] st1]; simpl in *; [|done].
  specialize (Hf bx Hst Hg).
  assert (Hrest : orDenot D xs n neg = negb neg ->
                  (orLoop f xs st1).1 = Ok b -> b = negb neg).
  { apply IH; [apply Hc | by eapply guardUndecided_post]. }
  destruct neg; simpl in *.
  - apply orb_false_iff in Hd as [Hx Hxs]. rewrite (Hf Hx eq_refl). auto.
  - destruct bx; simpl; [by intros [= <-]|]. apply Hrest.
    apply orb_true_iff in Hd as [Hx|]; [|done]. by specialize (Hf Hx eq_refl).
Qed.

Lemma finds_andLoop xs :
  Forall (fun x => computes neg (D x) (f x) /\ finds n neg (D x) (f x)) xs ->
  finds n neg (andDenot D xs) (andLoop f xs).
Proof.
  induction 1 as [|x xs [Hc Hf] _ IH]; [by apply finds_ret|].
  intros st b Hst Hg Hd. specialize (Hc st Hst). specialize (Hf st).
  unfold andDenot in Hd. simpl in Hd |- *. unfold bind.
  destruct (f x st) as [[bx|e] st1]; simpl in *; [|done].
  specialize (Hf bx Hst Hg).
  assert (Hrest : andDenot D xs n neg = negb neg ->
                  (andLoop f xs st1).1 = Ok b -> b = negb neg).
  { apply IH; [apply Hc | by eapply guardUndecided_post]. }
  destruct neg; simpl in *.
  - destruct bx; simpl; [|by intros [= <-]]. apply Hrest.
    apply andb_false_iff in Hd as [Hx|]; [|done]. by specialize (Hf Hx eq_refl).
  - apply andb_true_iff in Hd as [Hx Hxs]. rewrite (Hf Hx eq_refl). auto.
Qed.
End LoopFinds.

Lemma finds_diff n neg d1 d2 c1 c2 :
  computes neg d1 c1 -> finds n neg d1 c1 -> finds n (negb neg) d2 c2 ->
  finds n neg (fun n hi => d1 n hi && negb (d2 n (negb hi)))
    (let! ok := c1 in if negb ok then ret false else
     let! excluded := c2 in ret (negb excluded)).
Proof.
  intros Hc1 H1 H2 st b Hst Hg Hd. specialize (Hc1 st Hst). specialize (H1 st).
  unfold bind. destruct (c1 st) as [[b1|e] st1]; simpl in *; [|done].
  specialize (H1 b1 Hst Hg).
  specialize (H2 st1). destruct b1; simpl.
  2:{ intros [= <-]. destruct neg; [done|]. apply andb_true_iff in Hd as [Hd _].
      by specialize (H1 Hd eq_refl). }
  destruct (c2 st1) as [[b2|e] st2]; simpl in *; [|done]. intros [= <-].
  specialize (H2 b2 (post_memo _ _ _ _ _ Hc1) (guardUndecided_post _ _ _ _ _ _ Hc1 Hg)).
  destruct neg; simpl in *.
  - apply andb_false_iff in Hd as [Hd|Hd].
    + by specialize (H1 Hd eq_refl).
    + apply negb_false_iff in Hd. by rewrite (H2 Hd eq_refl).
  - apply andb_true_iff in Hd as [_ Hd]. apply negb_true_iff in Hd.
    by rewrite (H2 Hd eq_refl).
Qed.

Lemma finds_read n neg ns obj rel d (k : list Subject -> St evalState bool) :
  (forall subs, ListSubjects rd projectID tenantID ns obj rel = Ok subs -> finds n neg d (k subs)) ->
  finds n neg d (do! chargeOrRecord in
                 let! subjects := readSubjects rd projectID tenantID ns obj rel in k subjects).
Proof.
  intros Hk st b Hst Hg Hd. unfold bind, readSubjects.
  destruct (chargeOrRecord_frame st) as (Hm & Hv & _).
  destruct (chargeOrRecord st) as [[[]|e] st1]; simpl in *; [|done].
  destruct (ListSubjects _ _ _ _ _ _) as [subs|e]; simpl; [|done].
  apply (Hk subs eq_refl (countCall st1)); [unfold memoOK; simpl; by rewrite Hm | | done].
  unfold guardUndecided. simpl. by rewrite Hv.
Qed.

Section RuleFinds.
Context (n : nat) (rec : checkFn).
Context (Hrec : forall ns obj rel neg, nsOK ns = true -> relOK rel = true ->
                  computes neg (node ns obj rel) (rec ns obj rel neg)).
Context (Hfind : forall ns obj rel neg, nsOK ns = true -> relOK rel = true ->
                  finds n neg (node ns obj rel) (rec ns obj rel neg)).

Lemma constant_ret neg (d : denot) b :
  (forall n hi, d n hi = b) -> computes neg d (ret b) /\ finds n neg d (ret b).
Proof. intros Hd. split; [by apply computes_const_ret | by apply finds_ret]. Qed.

Lemma finds_evalThis neg ns obj rel :
  finds n neg (fun n hi => readVal rd projectID tenantID ns obj rel
                             (subjectVal q cc (approx rd m projectID tenantID q cc n) hi) hi)
    (evalThis rd projectID tenantID q cc rec ns obj rel neg).
Proof.
  apply finds_read. intros subs Hsubs st b Hst Hg Hd.
  apply (finds_orLoop n neg
    (fun s n hi => subjectVal q cc (approx rd m projectID tenantID q cc n) hi s)); auto;
    [|unfold orDenot; unfold readVal in Hd; by rewrite Hsubs in Hd].
  apply Forall_forall. intros s Hs. unfold subjectVal.
  destruct (EvalCondition (Cond s) cc); simpl; [|by apply constant_ret].
  destruct (Wildcard s); simpl; [by apply constant_ret|].
  destruct (Set_ s) as [ss|] eqn:Ess; simpl; [|by apply constant_ret].
  destruct (bool_decide _); simpl; [by apply constant_ret|].
  pose proof (Hreader _ _ _ _ _ _ Hsubs Hs Ess) as [Hn Hr]%andb_prop.
  split; [by apply Hrec | by apply Hfind].
Qed.

Lemma finds_evalTupleToUserset neg ns obj rw :
  relOK (ComputedRelation rw) = true ->
  finds n neg (fun n hi => readVal rd projectID tenantID ns obj (TuplesetRelation rw)
                             (pointerVal cc (approx rd m projectID tenantID q cc n)
                                (ComputedRelation rw) hi) hi)
    (evalTupleToUserset rd projectID tenantID cc rec ns obj rw neg).
Proof.
  intros Hcr. apply finds_read. intros subs Hsubs st b Hst Hg Hd.
  apply (finds_orLoop n neg
    (fun s n hi => pointerVal cc (approx rd m projectID tenantID q cc n) (ComputedRelation rw) hi s));
    auto; [|unfold orDenot; unfold readVal in Hd; by rewrite Hsubs in Hd].
  apply Forall_forall. intros s Hs. unfold pointerVal.
  destruct (EvalCondition (Cond s) cc); simpl; [|by apply constant_ret].
  destruct (Set_ s) as [ss|] eqn:Ess; simpl; [|by apply constant_ret].
  pose proof (Hreader _ _ _ _ _ _ Hsubs Hs Ess) as [Hn _]%andb_prop.
  split; [by apply Hrec | by apply Hfind].
Qed.

Lemma finds_evalRewrite ns obj rel rw :
  nsOK ns = true -> relsOK rw = true -> forall neg,
  finds n neg (rule ns obj rel rw) (evalRewrite rd projectID tenantID q cc rec ns obj rel rw neg).
Proof.
  intros Hns Hrw0. pose proof (computes_evalRewrite rec Hrec ns obj rel) as Hcomp. revert Hrw0.
  unfold rwDenot.
  induction rw as [us ins ex c ts cr IHu IHi IHe] using Rewrite_ind'. simpl.
  intros [[[[Hc Hcr]%andb_prop Hus]%andb_prop Hins]%andb_prop Hex]%andb_prop neg.
  apply forallb_Forall in Hus. apply forallb_Forall in Hins.
  destruct (isThis _); [apply finds_evalThis|].
  destruct (negb (is_nil us)).
  { apply (finds_orLoop n neg (fun child => rule ns obj rel child)).
    apply (Forall_impl2 _ _ _ _ IHu Hus). intros x Hx ?. split; [by apply Hcomp | by apply Hx]. }
  destruct (negb (is_nil ins)).
  { destruct (q_set q); [by apply finds_ret|].
    apply (finds_andLoop n neg (fun child => rule ns obj rel child)).
    apply (Forall_impl2 _ _ _ _ IHi Hins). intros x Hx ?. split; [by apply Hcomp | by apply Hx]. }
  destruct ex as [[i x]|].
  { destruct (q_set q); [by apply finds_ret|].
    destruct (IHe _ eq_refl) as [Hi Hx]. apply andb_prop in Hex as [? ?]. simpl in *.
    apply (finds_diff n neg (rule ns obj rel i) (rule ns obj rel x)); auto. }
  destruct (negb _); [by apply Hfind|].
  destruct (negb _); [|by apply finds_ret].
  by apply (finds_evalTupleToUserset neg ns obj (mkRewrite us ins None c ts cr)).
Qed.
End RuleFinds.

Lemma finds_check left n ns obj rel neg :
  n <= left -> nsOK ns = true -> relOK rel = true ->
  finds n neg (node ns obj rel) (CHECK left ns obj rel neg).
Proof.
  revert n ns obj rel neg. induction left as [|left IH];
    intros n ns obj rel neg Hle Hns Hrel st b Hst Hg Hd.
  { assert (n = 0) as -> by lia. by destruct neg. }
  cbn [check]. case_decide as Hvis.
  { destruct (Hg _ _ _ Hns Hrel Hvis) as [Hf Ht]. destruct neg; simpl in Hd; congruence. }
  destruct (memo st !! _) as [b0|] eqn:Hmemo; simpl.
  { intros [= <-]. eapply decided_agree; [apply nodeDenot_proper | by eapply Hst | exact Hd]. }
  destruct (first_level (node ns obj rel) n neg) as (k & Hk & Hfact & Hund);
    [apply nodeDenot_proper | done | done |].
  set (key := visitKey ns obj rel) in *.
  assert (Hev : finds k neg (rule ns obj rel (rewrite_of m ns rel))
                  (evalRewrite rd projectID tenantID q cc (CHECK left) ns obj rel (rewrite_of m ns rel) neg)).
  { apply finds_evalRewrite; auto using computes_check, modelKeysOK_rewrite_of.
    intros. apply IH; auto with lia. }
  specialize (Hev (set_visited ({[key]} ∪ visited st) st)).
  destruct (evalRewrite _ _ _ _ _ _ _ _ _ _ _ _) as [[b2|e] st2]; simpl in *; [|done].
  intros [= <-]. apply (Hev b2); auto.
  intros ns' obj' rel' Hns' Hrel'. simpl. rewrite elem_of_union, elem_of_singleton.
  intros [Heq|Hin].
  - by apply visitKey_inj in Heq as (-> & -> & ->).
  - eapply undecided_le; [apply nodeDenot_proper | by apply Hg | lia].
Qed.
End Soundness.
