(* ===== verification/EngineFrame.v ===== *)
(** * Frame properties of [check]

    A relation between the state before an evaluation, its result and the state
    after is preserved by every branch of [check] as soon as it holds of the
    elementary actions and is closed under sequencing ([frame]).  Instances: the
    read budget, the errors that can come out, the backstop counters.  The file
    also shows which stored tuples an evaluation can depend on. *)

From stdpp Require Import base gmap strings list.
From Stdlib Require Import ZArith Lia Ascii.
From S2P Require Import Prelude Conditions Model Engine.
#[local] Open Scope Z_scope.

Section Frame.
Context `{TextParsers}.
Context (rd : TupleReader) (m : Model) (projectID tenantID : string).
Context (q : subjectQuery) (cc : anymap).

Definition readError (e : error) : Prop :=
  exists ns obj rel, ListSubjects rd projectID tenantID ns obj rel = Err e.

Definition stepRel : Type := evalState -> result bool -> evalState -> Prop.

Record frame (Q : stepRel) : Prop := {
  frame_ret : forall st b, Q st (Ok b) st;
  frame_seq : forall st b st1 r st2, Q st (Ok b) st1 -> Q st1 r st2 -> Q st r st2;
  frame_val : forall st b b' st', Q st (Ok b) st' -> Q st (Ok b') st';
  frame_charge : forall st st', chargeOrRecord st = (Ok tt, st') -> Q st (Ok true) (countCall st');
  frame_charge_err : forall st e st', chargeOrRecord st = (Err e, st') -> Q st (Err e) st';
  frame_read : forall st e, readError e -> Q st (Err e) st;
  frame_mark : forall st b reason, reason <> BackstopBudget -> Q st (Ok b) (markCycle reason st);
  frame_visit : forall st key r st', key ∉ visited st ->
    Q (set_visited ({[key]} ∪ visited st) st) r st' ->
    Q st r (set_visited (visited st' ∖ {[key]}) st');
  frame_memo : forall st b st' mm, Q st (Ok b) st' -> Q st (Ok b) (set_memo mm st');
}.

Context (Q : stepRel) (HQ : frame Q).

Definition framed (c : St evalState bool) : Prop := forall st, Q st (c st).1 (c st).2.

Lemma framed_ret b : framed (ret b).
Proof. intros st. by apply frame_ret. Qed.

Lemma framed_bind c k :
  framed c -> (forall b, framed (k b)) -> framed (bind c k).
Proof.
  intros Hc Hk st. specialize (Hc st). unfold bind.
  destruct (c st) as [[b|e] st1]; simpl in *; [|done].
  apply (frame_seq Q HQ st b st1); [done | apply Hk].
Qed.

Lemma framed_orLoop {A} (f : A -> St evalState bool) xs :
  Forall (fun x => framed (f x)) xs -> framed (orLoop f xs).
Proof.
  induction 1 as [|x xs Hx _ IH]; [apply framed_ret|].
  apply framed_bind; [done|]. intros []; [apply framed_ret | apply IH].
Qed.

Lemma framed_andLoop {A} (f : A -> St evalState bool) xs :
  Forall (fun x => framed (f x)) xs -> framed (andLoop f xs).
Proof.
  induction 1 as [|x xs Hx _ IH]; [apply framed_ret|].
  apply framed_bind; [done|]. intros []; [apply IH | apply framed_ret].
Qed.

Lemma framed_read ns obj rel (k : list Subject -> St evalState bool) :
  (forall subs, framed (k subs)) ->
  framed (do! chargeOrRecord in
          let! subjects := readSubjects rd projectID tenantID ns obj rel in k subjects).
Proof.
  intros Hk st. unfold bind, readSubjects.
  destruct (chargeOrRecord st) as [[[]|e] st1] eqn:Hch; simpl; [|by apply frame_charge_err].
  apply (frame_seq Q HQ st true (countCall st1)); [by apply frame_charge|].
  destruct (ListSubjects rd projectID tenantID ns obj rel) as [subs|e] eqn:Hl; simpl; [apply Hk|].
  apply frame_read; [done|]. by exists ns, obj, rel.
Qed.

Section Rec.
Context (rec : checkFn) (Hrec : forall ns obj rel neg, framed (rec ns obj rel neg)).

Lemma framed_evalRewrite ns obj rel rw neg :
  framed (evalRewrite rd projectID tenantID q cc rec ns obj rel rw neg).
Proof.
  revert neg. induction rw as [us ins ex c ts cr IHu IHi IHe] using Rewrite_ind'; intros neg.
  simpl. destruct (isThis _).
  { apply framed_read. intros subs. apply framed_orLoop, Forall_true. intros s.
    repeat case_match; auto using framed_ret. }
  destruct (negb (is_nil us)).
  { apply framed_orLoop. eapply Forall_impl; [exact IHu|]. simpl. auto. }
  destruct (negb (is_nil ins)).
  { destruct (q_set q); [apply framed_ret|]. apply framed_andLoop.
    eapply Forall_impl; [exact IHi|]. simpl. auto. }
  destruct ex as [[i x]|].
  { destruct (q_set q); [apply framed_ret|]. destruct (IHe _ eq_refl) as [Hi Hx]. simpl in *.
    apply framed_bind; [done|]. intros []; simpl; [|apply framed_ret].
    apply framed_bind; [done|]. intros. apply framed_ret. }
  destruct (negb _); [apply Hrec|]. destruct (negb _); [|apply framed_ret].
  apply framed_read. intros subs. apply framed_orLoop, Forall_true. intros s.
  repeat case_match; auto using framed_ret.
Qed.
End Rec.

Lemma framed_check left ns obj rel neg :
  framed (check rd m projectID tenantID q cc left ns obj rel neg).
Proof.
  revert ns obj rel neg. induction left as [|left IH]; intros ns obj rel neg st;
    cbn [check]; case_decide as Hvis; simpl; try by apply frame_mark.
  destruct (memo st !! _) as [b|]; simpl; [by apply frame_ret|].
  pose proof (framed_evalRewrite _ IH ns obj rel (rewrite_of m ns rel) neg
                (set_visited ({[visitKey ns obj rel]} ∪ visited st) st)) as Hev.
  destruct (evalRewrite _ _ _ _ _ _ _ _ _ _ _ _) as [res st2]; simpl in *.
  apply frame_visit in Hev; [|done|done].
  destruct res as [b|e]; simpl; [|done].
  destruct (_ =? _); [|done]. by apply frame_memo.
Qed.
End Frame.

(** ** The read budget *)
Definition budgetStep : stepRel := fun st r st' =>
  maxReads st' = maxReads st /\
  ((reads st <= reads st' /\ calls st' - calls st = reads st' - reads st /\
    (0 < maxReads st -> reads st <= maxReads st -> reads st' <= maxReads st))
   \/ (r = Err ErrEvalBudgetExceeded /\ 0 < maxReads st /\ reads st < reads st' /\ calls st' - calls st = reads st' - reads st - 1 /\
       (reads st <= maxReads st -> reads st' = maxReads st + 1))).

Lemma chargeOrRecord_eq st :
  chargeOrRecord st =
    let over := (0 <? maxReads st) && (maxReads st <? reads st + 1) in
    let st' := mkEvalState (visited st) (memo st) (cyclesSeen st) (reads st + 1) (calls st) (maxReads st)
                 (if over then bumpBackstop BackstopBudget <$> collector st else collector st) in
    (if over then Err ErrEvalBudgetExceeded else Ok tt, st').
Proof. unfold chargeOrRecord, charge. simpl. by destruct (_ && _). Qed.

Lemma budgetStep_frame rd projectID tenantID : frame rd projectID tenantID budgetStep.
Proof.
  unfold budgetStep. split; simpl; try (intros; split; [done|left; lia]; fail); auto.
  - intros st b st1 r st2 (Hm1 & H1) (Hm2 & H2). rewrite Hm1 in H2. split; [congruence|].
    destruct H1 as [H1|[[=] _]]. destruct H2 as [H2|(Hr & H2)]; [left; lia|right; split; [done|lia]].
  - intros st b b' st' (? & H1). split; [done|]. destruct H1 as [H1|[[=] _]]. by left.
  - intros st st'. rewrite chargeOrRecord_eq. simpl.
    destruct ((0 <? maxReads st) && _) eqn:Hover; intros [= <-]; simpl. split; [done|left].
    rewrite andb_false_iff, !Z.ltb_ge in Hover. lia.
  - intros st e st'. rewrite chargeOrRecord_eq. simpl.
    destruct ((0 <? maxReads st) && _) eqn:Hover; intros [= <- <-]; simpl. split; [done|right].
    rewrite andb_true_iff, !Z.ltb_lt in Hover. split; [done|lia].
Qed.

(** ** Errors: the store's own, or an exhausted budget *)
Definition errorStep (readErr : error -> Prop) : stepRel := fun st r st' =>
  maxReads st' = maxReads st /\
  (forall e, r = Err e -> readErr e \/ (e = ErrEvalBudgetExceeded /\ 0 < maxReads st)).

Lemma errorStep_frame rd projectID tenantID :
  frame rd projectID tenantID (errorStep (readError rd projectID tenantID)).
Proof.
  unfold errorStep. split; simpl; try (intros; naive_solver; fail).
  - intros st b st1 r st2 [Hm1 _] [Hm2 H2]. rewrite Hm1 in *. auto.
  - intros st st'. rewrite chargeOrRecord_eq. simpl.
    by destruct ((0 <? maxReads st) && _); intros [= <-].
  - intros st e st'. rewrite chargeOrRecord_eq. simpl.
    destruct ((0 <? maxReads st) && _) eqn:Hover; intros [= <- <-]; simpl. split; [done|].
    intros e [= <-]. rewrite andb_true_iff, !Z.ltb_lt in Hover. naive_solver.
Qed.

(** ** Backstop counters *)
Definition isBudgetErr (r : result bool) : Z :=
  match r with Err ErrEvalBudgetExceeded => 1 | _ => 0 end.

Definition backstopStep : stepRel := fun st r st' =>
  forall b, collector st = Some b ->
  exists b', collector st' = Some b' /\
    (b_Depth b' + b_Cycle b') - (b_Depth b + b_Cycle b) = cyclesSeen st' - cyclesSeen st /\
    b_Budget b' - b_Budget b = isBudgetErr r.

Lemma backstopStep_frame rd projectID tenantID :
  (forall e, readError rd projectID tenantID e -> e <> ErrEvalBudgetExceeded) ->
  frame rd projectID tenantID backstopStep.
Proof.
  intros Herr. unfold backstopStep.
  split; simpl; try (intros; eexists; split_and!; [eassumption|lia|simpl;lia]; fail); try done.
  - intros st b st1 r st2 H1 H2 b0 Hb0. destruct (H1 b0 Hb0) as (b1 & Hb1 & ? & ?).
    destruct (H2 b1 Hb1) as (b2 & Hb2 & ? & ?). simpl in *. exists b2. split_and!; [done|lia|lia].
  - intros st st'. rewrite chargeOrRecord_eq. simpl.
    destruct ((0 <? maxReads st) && _) eqn:Hover; intros [= <-]; simpl.
    intros b ->. exists b. split_and!; [done|lia|lia].
  - intros st e st'. rewrite chargeOrRecord_eq. simpl.
    destruct ((0 <? maxReads st) && _) eqn:Hover; intros [= <- <-]; simpl.
    intros b ->. eexists. split_and!; [done|simpl;lia|simpl;lia].
  - intros st e He b Hb. exists b. split_and!; [done|lia|].
    pose proof (Herr e He). by destruct e; simpl; try lia.
  - intros st b reason Hreason b0 Hb0. unfold markCycle, recordBackstop. simpl. rewrite Hb0. simpl.
    eexists. split_and!; [done| |]; destruct reason; simpl; done || lia.
Qed.

(** ** Which stored tuples an evaluation can read *)
Fixpoint usesTupleset (ts : string) (rw : Rewrite) : bool :=
  String.eqb (TuplesetRelation rw) ts
  || existsb (usesTupleset ts) (Union rw)
  || existsb (usesTupleset ts) (Intersection rw)
  || match Exclusion rw with
     | None => false
     | Some e => usesTupleset ts (Include e) || usesTupleset ts (Exclude e)
     end.

(** The tuples of [ns#rel] are consulted by the rule of [rel] itself or as the
    tupleset of some rule of the namespace. *)
Definition consulted (m : Model) (ns rel : string) : Prop :=
  WritableRelation m ns rel = true
  \/ exists rel', usesTupleset rel (rewrite_of m ns rel') = true.

Section Readers.
Context `{TextParsers}.
Context (rd1 rd2 : TupleReader) (m : Model) (projectID tenantID : string).
Context (q : subjectQuery) (cc : anymap).

Definition agree (ns rel : string) : Prop :=
  forall obj, ListSubjects rd1 projectID tenantID ns obj rel = ListSubjects rd2 projectID tenantID ns obj rel.

Lemma orLoop_ext {S A} (f g : A -> St S bool) xs :
  Forall (fun x => forall st, f x st = g x st) xs -> forall st, orLoop f xs st = orLoop g xs st.
Proof.
  induction 1 as [|x xs Hx _ IH]; intros st; [done|]. simpl. unfold bind.
  rewrite Hx. by destruct (g x st) as [[[]|] ?].
Qed.

Lemma andLoop_ext {S A} (f g : A -> St S bool) xs :
  Forall (fun x => forall st, f x st = g x st) xs -> forall st, andLoop f xs st = andLoop g xs st.
Proof.
  induction 1 as [|x xs Hx _ IH]; intros st; [done|]. simpl. unfold bind.
  rewrite Hx. by destruct (g x st) as [[[]|] ?].
Qed.

Lemma read_ext ns obj rel (k1 k2 : list Subject -> St evalState bool) st :
  agree ns rel -> (forall subs st, k1 subs st = k2 subs st) ->
  (do! chargeOrRecord in
   let! subjects := readSubjects rd1 projectID tenantID ns obj rel in k1 subjects) st
  = (do! chargeOrRecord in
     let! subjects := readSubjects rd2 projectID tenantID ns obj rel in k2 subjects) st.
Proof.
  intros Ha Hk. unfold bind, readSubjects. rewrite Ha.
  destruct (chargeOrRecord st) as [[[]|] ?]; [|done].
  by destruct (ListSubjects rd2 _ _ _ _ _).
Qed.

Lemma evalRewrite_ext rec1 rec2 ns obj rel rw :
  (forall ns obj rel neg st, rec1 ns obj rel neg st = rec2 ns obj rel neg st) ->
  (readsStoredTuples rw = true -> agree ns rel) ->
  (forall ts, usesTupleset ts rw = true -> agree ns ts) ->
  forall neg st,
  evalRewrite rd1 projectID tenantID q cc rec1 ns obj rel rw neg st
  = evalRewrite rd2 projectID tenantID q cc rec2 ns obj rel rw neg st.
Proof.
  intros Hrec. induction rw as [us ins ex c ts cr IHu IHi IHe] using Rewrite_ind'.
  intros Hthis Htup neg st. simpl in *. destruct (isThis _) eqn:Hit.
  { apply read_ext; [by apply Hthis|]. intros subs. apply orLoop_ext, Forall_true.
    intros s st'. repeat case_match; auto. }
  destruct (negb (is_nil us)).
  { apply orLoop_ext, Forall_forall. intros x Hx st'. rewrite Forall_forall in IHu.
    apply IHu; [done| |].
    - intros Hr. apply Hthis. rewrite (proj2 (existsb_Exists _ _)); [by rewrite orb_true_r|].
      apply Exists_exists; eauto.
    - intros ts' Ht. apply Htup. rewrite (proj2 (existsb_Exists _ us)); [by rewrite orb_true_r|].
      apply Exists_exists; eauto. }
  destruct (negb (is_nil ins)).
  { destruct (q_set q); [done|]. apply andLoop_ext, Forall_forall. intros x Hx st'.
    rewrite Forall_forall in IHi. apply IHi; [done| |].
    - intros Hr. apply Hthis. rewrite (proj2 (existsb_Exists _ ins)); [by rewrite !orb_true_r|].
      apply Exists_exists; eauto.
    - intros ts' Ht. apply Htup. rewrite (proj2 (existsb_Exists _ ins)); [by rewrite !orb_true_r|].
      apply Exists_exists; eauto. }
  destruct ex as [[i x]|].
  { destruct (q_set q); [done|]. destruct (IHe _ eq_refl) as [Hi Hx]. simpl in *. unfold bind.
    rewrite Hi.
    2,3: intros; (apply Hthis || apply Htup); rewrite !orb_true_iff; auto.
    destruct (evalRewrite rd2 _ _ _ _ _ _ _ _ i _ _) as [[[]|] st1]; simpl; [|done..].
    rewrite Hx; [done| |]; intros; (apply Hthis || apply Htup); rewrite !orb_true_iff; auto. }
  destruct (negb (String.eqb c "")); [apply Hrec|]. destruct (negb _) eqn:Hts; [|done].
  apply read_ext.
  - apply Htup. simpl. by rewrite String.eqb_refl.
  - intros subs. apply orLoop_ext, Forall_true. intros s st'. repeat case_match; auto.
Qed.

(** Readers that agree on the consulted relations are indistinguishable. *)
Lemma check_ext :
  (forall ns rel, consulted m ns rel -> agree ns rel) ->
  forall left ns obj rel neg st,
  check rd1 m projectID tenantID q cc left ns obj rel neg st
  = check rd2 m projectID tenantID q cc left ns obj rel neg st.
Proof.
  intros Hag. induction left as [|left IH]; intros ns obj rel neg st; [done|]. cbn [check].
  case_decide; [done|]. destruct (memo st !! _); [done|].
  rewrite (evalRewrite_ext _ _ ns obj rel (rewrite_of m ns rel) IH); [done| |].
  - intros Hr. apply Hag. left. by rewrite WritableRelation_rewrite_of.
  - intros ts Ht. apply Hag. right. eauto.
Qed.
End Readers.
