(* ===== verification/Granted.v ===== *)
(** * Relation tuples read as an inductive relation

    For models without exclusion, [granted] is the least relation closed under
    the rules: the declarative reading of relation tuples.  It coincides with
    being [true] in some lower approximation. *)

From stdpp Require Import base gmap strings list.
From Stdlib Require Import ZArith Lia.
From S2P Require Import Prelude Conditions Model Engine Semantics.

Fixpoint exclusionFree (rw : Rewrite) : bool :=
  forallb exclusionFree (Union rw) && forallb exclusionFree (Intersection rw)
  && match Exclusion rw with None => true | Some _ => false end.

Definition exclusionFreeModel (m : Model) : Prop :=
  map_Forall (fun _ ns => map_Forall (fun _ rw => exclusionFree rw = true) ns) m.

Lemma exclusionFreeModel_rewrite_of m ns rel :
  exclusionFreeModel m -> exclusionFree (rewrite_of m ns rel) = true.
Proof.
  intros Hm. unfold rewrite_of. destruct (m !! ns) as [n|] eqn:En; [|done].
  destruct (n !! rel) as [rw|] eqn:Er; [|done]. exact (Hm _ _ En _ _ Er).
Qed.

Section Granted.
Context `{TextParsers}.
Context (rd : TupleReader) (m : Model) (projectID tenantID : string).
Context (q : subjectQuery) (cc : anymap).

(** [stored ns obj rel s]: [s] is a subject of the relation whose condition holds. *)
Definition stored (ns obj rel : string) (s : Subject) : Prop :=
  exists subs, ListSubjects rd projectID tenantID ns obj rel = Ok subs /\ s ∈ subs
               /\ EvalCondition (Cond s) cc = true.

Inductive granted : string -> string -> string -> Prop :=
  | granted_rule ns obj rel :
      grantedBy ns obj rel (rewrite_of m ns rel) -> granted ns obj rel
with grantedBy : string -> string -> string -> Rewrite -> Prop :=
  | by_public ns obj rel rw s :
      isThis rw = true -> stored ns obj rel s -> Wildcard s = true -> grantedBy ns obj rel rw
  | by_user ns obj rel rw s :
      isThis rw = true -> stored ns obj rel s -> Set_ s = None ->
      UserID s = q_user q -> q_user q <> "" -> grantedBy ns obj rel rw
  | by_same_set ns obj rel rw s ss :
      isThis rw = true -> stored ns obj rel s -> Set_ s = Some ss -> q_set q = Some ss ->
      grantedBy ns obj rel rw
  | by_userset ns obj rel rw s ss :
      isThis rw = true -> stored ns obj rel s -> Set_ s = Some ss ->
      granted (ss_Namespace ss) (ss_ObjectID ss) (ss_Relation ss) -> grantedBy ns obj rel rw
  | by_union ns obj rel rw child :
      isThis rw = false -> child ∈ Union rw -> grantedBy ns obj rel child -> grantedBy ns obj rel rw
  | by_intersection ns obj rel rw :
      Union rw = [] -> Intersection rw <> [] -> q_set q = None ->
      (forall child, child ∈ Intersection rw -> grantedBy ns obj rel child) -> grantedBy ns obj rel rw
  | by_computed ns obj rel rw :
      Union rw = [] -> Intersection rw = [] -> Exclusion rw = None -> Computed rw <> "" ->
      granted ns obj (Computed rw) -> grantedBy ns obj rel rw
  | by_tupleset ns obj rel rw s ss :
      Union rw = [] -> Intersection rw = [] -> Exclusion rw = None -> Computed rw = "" ->
      TuplesetRelation rw <> "" -> stored ns obj (TuplesetRelation rw) s -> Set_ s = Some ss ->
      granted (ss_Namespace ss) (ss_ObjectID ss) (ComputedRelation rw) -> grantedBy ns obj rel rw.

Scheme granted_mut := Minimality for granted Sort Prop
  with grantedBy_mut := Minimality for grantedBy Sort Prop.
Combined Scheme granted_both_ind from granted_mut, grantedBy_mut.

#[local] Abbreviation APPROX := (approx rd m projectID tenantID q cc).
#[local] Abbreviation VAL := (rwVal rd projectID tenantID q cc).

Lemma readVal_stored ns obj rel f :
  readVal rd projectID tenantID ns obj rel f false = true ->
  exists subs s, ListSubjects rd projectID tenantID ns obj rel = Ok subs /\ s ∈ subs /\ f s = true.
Proof.
  unfold readVal. destruct (ListSubjects _ _ _ _ _ _) as [subs|]; [|done].
  rewrite existsb_Exists, Exists_exists. naive_solver.
Qed.

Lemma readVal_intro ns obj rel f s :
  stored ns obj rel s -> f s = true -> readVal rd projectID tenantID ns obj rel f false = true.
Proof.
  intros (subs & Hl & Hs & _) Hf. unfold readVal. rewrite Hl, existsb_Exists, Exists_exists. eauto.
Qed.

(** *** From approximations to derivations *)
Lemma rwVal_granted (rec : nodeVal) ns obj rel rw :
  (forall ns obj rel, rec ns obj rel false = true -> granted ns obj rel) ->
  exclusionFree rw = true -> VAL rec ns obj rel rw false = true -> grantedBy ns obj rel rw.
Proof.
  intros Hrec. induction rw as [us ins ex c ts cr IHu IHi IHe] using Rewrite_ind'.
  simpl. intros [[Hus Hins]%andb_prop Hex]%andb_prop. rewrite forallb_Forall in Hus, Hins.
  destruct (isThis _) eqn:Hit.
  { intros (subs & s & Hl & Hs & [Hc Hv]%andb_prop)%readVal_stored.
    assert (stored ns obj rel s) by (exists subs; auto).
    destruct (Wildcard s) eqn:Hw; [eapply by_public; eauto|]. simpl in Hv.
    destruct (Set_ s) as [ss|] eqn:Hss.
    - apply orb_true_iff in Hv as [Hv%bool_decide_eq_true|Hv];
        [eapply by_same_set | eapply by_userset]; eauto.
    - apply andb_prop in Hv as [Hne%negb_true_iff%String.eqb_neq Heq%String.eqb_eq].
      eapply by_user; eauto. }
  destruct us as [|u us]; cbv beta iota delta [is_nil negb].
  2:{ rewrite existsb_Exists, Exists_exists. intros (x & Hx & Hv).
      rewrite Forall_forall in IHu, Hus. eapply by_union; eauto. }
  destruct ins as [|i ins]; cbv beta iota delta [is_nil negb].
  2:{ destruct (q_set q) eqn:Hq; [done|]. rewrite forallb_Forall, Forall_forall. intros Hv.
      rewrite Forall_forall in IHi, Hins. eapply by_intersection; simpl; auto. }
  destruct ex; [done|].
  destruct (String.eqb_spec c "") as [->|Hc]; simpl.
  2:{ intros Hv. eapply by_computed; simpl; eauto. }
  destruct (String.eqb_spec ts "") as [->|Hts]; simpl; [done|].
  intros (subs & s & Hl & Hs & [Hc Hv]%andb_prop)%readVal_stored.
  destruct (Set_ s) as [ss|] eqn:Hss; [|done].
  eapply by_tupleset; simpl; eauto. exists subs; auto.
Qed.

Lemma approx_granted n ns obj rel :
  exclusionFreeModel m -> APPROX n ns obj rel false = true -> granted ns obj rel.
Proof.
  intros Hm. revert ns obj rel. induction n as [|n IH]; intros ns obj rel; [done|]. simpl.
  intros Hv. apply granted_rule. eapply rwVal_granted; eauto using exclusionFreeModel_rewrite_of.
Qed.

(** *** From derivations to approximations *)
Lemma common_level (l : list Rewrite) ns obj rel :
  (forall x, x ∈ l -> exists n, VAL (APPROX n) ns obj rel x false = true) ->
  exists n, forall x, x ∈ l -> VAL (APPROX n) ns obj rel x false = true.
Proof.
  induction l as [|y l IH]; intros Hl; [exists 0; by intros x ?%elem_of_nil|].
  destruct (Hl y) as [n1 H1]; [left|]. destruct IH as [n2 H2].
  { intros x Hx. apply Hl. by right. }
  pose proof (rwDenot_proper rd m projectID tenantID q cc ns obj rel) as Hp.
  exists (n1 `max` n2). intros x [->|Hx]%elem_of_cons.
  - apply (persistent_le (rwDenot rd m projectID tenantID q cc ns obj rel y) n1 _ false (proj1 (Hp y))); [lia|done].
  - apply (persistent_le (rwDenot rd m projectID tenantID q cc ns obj rel x) n2 _ false (proj1 (Hp x))); [lia|].
    by apply H2.
Qed.

Lemma granted_approx_both :
  (forall ns obj rel, granted ns obj rel -> exists n, APPROX n ns obj rel false = true) /\
  (forall ns obj rel rw, grantedBy ns obj rel rw -> exists n, VAL (APPROX n) ns obj rel rw false = true).
Proof.
  apply granted_both_ind.
  - intros ns obj rel _ [n Hn]. by exists (S n).
  - intros ns obj rel rw s Hit Hs Hw. exists 0. destruct rw; simpl in *. rewrite Hit.
    eapply readVal_intro; [done|]. unfold subjectVal. destruct Hs as (? & ? & ? & ->). by rewrite Hw.
  - intros ns obj rel rw s Hit Hs Hss Hu Hne. exists 0. destruct rw; simpl in *. rewrite Hit.
    eapply readVal_intro; [done|]. unfold subjectVal. destruct Hs as (? & ? & ? & ->).
    rewrite Hss, Hu, String.eqb_refl. apply String.eqb_neq in Hne. rewrite Hne.
    by rewrite orb_true_r.
  - intros ns obj rel rw s ss Hit Hs Hss Hq. exists 0. destruct rw; simpl in *. rewrite Hit.
    eapply readVal_intro; [done|]. unfold subjectVal. destruct Hs as (? & ? & ? & ->).
    rewrite Hss, bool_decide_eq_true_2 by done. by rewrite orb_true_r.
  - intros ns obj rel rw s ss Hit Hs Hss _ [n Hn]. exists n. destruct rw; simpl in *. rewrite Hit.
    eapply readVal_intro; [done|]. unfold subjectVal. destruct Hs as (? & ? & ? & ->).
    by rewrite Hss, Hn, !orb_true_r.
  - intros ns obj rel rw child Hit Hc _ [n Hn]. exists n. destruct rw as [us]; simpl in *. rewrite Hit.
    destruct us as [|u us]; [by apply elem_of_nil in Hc|].
    apply (proj2 (existsb_Exists _ (u :: us))), Exists_exists. eauto.
  - intros ns obj rel rw Hu Hi Hq _ IH. apply common_level in IH as [n Hn]. exists n.
    destruct rw as [us ins]; simpl in *. subst us. destruct ins as [|i ins]; [done|].
    unfold isThis; simpl. rewrite Hq.
    apply (proj2 (forallb_Forall (fun child => VAL (APPROX n) ns obj rel child false) (i :: ins))),
      Forall_forall. auto.
  - intros ns obj rel rw Hu Hi Hx Hc _ [n Hn]. exists n. destruct rw; simpl in *. subst.
    apply String.eqb_neq in Hc. unfold isThis; simpl. by rewrite Hc.
  - intros ns obj rel rw s ss Hu Hi Hx Hc Ht Hs Hss _ [n Hn]. exists n. destruct rw; simpl in *. subst.
    apply String.eqb_neq in Ht. unfold isThis; simpl. rewrite Ht. simpl.
    eapply readVal_intro; [done|]. unfold pointerVal. destruct Hs as (? & ? & ? & ->). by rewrite Hss.
Qed.

Lemma granted_approx ns obj rel : granted ns obj rel -> exists n, APPROX n ns obj rel false = true.
Proof. apply granted_approx_both. Qed.
End Granted.
