(* ===== verification/EngineTheorems.v ===== *)
(** * What a permission check guarantees

    The theorems about the entry points [CheckWithModel] and
    [ListObjectsWithModel], each with an instance on a small tuple store. *)

From stdpp Require Import base gmap strings list.
From Stdlib Require Import ZArith Lia Ascii.
From S2P Require Import Prelude Conditions Model Engine Semantics EngineSound EngineFrame Granted.
#[local] Open Scope Z_scope.

(** ** Sample stores for the instances *)
Definition tableReader (ts : list Tuple) : TupleReader := {|
  ListSubjects := fun _ _ ns obj rel =>
    Ok (t_Subject <$> filter (fun t => t_Namespace t = ns /\ t_ObjectID t = obj /\ t_Relation t = rel) ts);
  ListObjectIDs := Some (fun _ _ ns =>
    Ok (remove_dups (t_ObjectID <$> filter (fun t => t_Namespace t = ns) ts)));
|}.

Definition user (u : string) : Subject := mkSubject u None false None.
Definition userset (ns obj rel : string) : Subject := mkSubject "" (Some (mkSubjectSet ns obj rel)) false None.
Definition public : Subject := mkSubject "" None true None.
Definition tup (ns obj rel : string) (s : Subject) : Tuple := mkTuple ns obj rel s None.

Definition sampleParsers : TextParsers := {|
  IP := unit; IPNet := unit; net_ParseIP := fun _ => None; net_ParseCIDR := fun _ => Ok tt;
  IPNet_Contains := fun _ _ => false; time_Parse_RFC3339 := fun _ => Ok 0;
|}.

Definition sampleTuples : list Tuple := [
  tup "workspace" "acme" "owner" (user "ceo");
  tup "workspace" "acme" "member" (userset "group" "eng" "member");
  tup "group" "eng" "member" (user "alice");
  tup "resource" "spec" "parent" (userset "workspace" "acme" "");
  tup "resource" "draft" "parent" (userset "resource" "spec" "");
  tup "resource" "draft" "viewer" (user "bob")].

Definition sampleEngine (ts : list Tuple) (n : Z) : Engine :=
  WithMaxReads n (NewEngine None (tableReader ts)).

Lemma tableReader_keysOK ts projectID tenantID :
  forallb (fun t => match Set_ (t_Subject t) with None => true | Some ss => setOK ss end) ts = true ->
  readerKeysOK (tableReader ts) projectID tenantID.
Proof.
  rewrite forallb_Forall, Forall_forall. intros Hts ns obj rel subs s ss [= <-].
  intros (t & -> & [_ Ht]%list_elem_of_filter)%list_elem_of_fmap Hss.
  specialize (Hts t Ht). simpl in Hts. by rewrite Hss in Hts.
Qed.

Lemma tableReader_cons x ts projectID tenantID ns obj rel :
  (ns, rel) <> (t_Namespace x, t_Relation x) ->
  ListSubjects (tableReader (x :: ts)) projectID tenantID ns obj rel
  = ListSubjects (tableReader ts) projectID tenantID ns obj rel.
Proof. intros Hne. simpl. rewrite filter_cons_False; [done|]. intros (<- & _ & <-). done. Qed.

Lemma DefaultModel_keysOK : modelKeysOK DefaultModel.
Proof. apply (bool_decide_unpack _). by vm_compute. Qed.

Section Claims.
Context `{TextParsers} (e : Engine) (m : Model) (projectID tenantID : string).
Context (cc : anymap) (user : string).

#[local] Abbreviation APPROX :=
  (approx (reader e) m projectID tenantID (mkQuery user None) cc).
#[local] Abbreviation CHECK ns obj rel n bs :=
  (CheckWithModel e m projectID tenantID ns obj rel user cc n bs).

(** The reader can answer every lookup. *)
Definition totalReader : Prop :=
  forall ns obj rel, exists subs, ListSubjects (reader e) projectID tenantID ns obj rel = Ok subs.

Lemma new_memoOK n bs :
  memoOK (reader e) m projectID tenantID (mkQuery user None) cc (newEvalState n bs).
Proof. intros ns obj rel neg b _ _. simpl. by rewrite lookup_empty. Qed.

Lemma new_guardUndecided k n bs :
  guardUndecided (reader e) m projectID tenantID (mkQuery user None) cc k (newEvalState n bs).
Proof. intros ns obj rel _ _. simpl. set_solver. Qed.

Section Named.
Context (Hmodel : modelKeysOK m) (Hreader : readerKeysOK (reader e) projectID tenantID).
Context (ns obj rel : string) (Hns : nsOK ns = true) (Hrel : relOK rel = true).

Lemma CheckWithModel_post n bs :
  post (reader e) m projectID tenantID (mkQuery user None) cc false
    (nodeDenot (reader e) m projectID tenantID (mkQuery user None) cc ns obj rel)
    (newEvalState (effectiveMaxReads e n) bs) (CHECK ns obj rel n bs).1 (CHECK ns obj rel n bs).2.
Proof.
  exact (computes_check (reader e) m projectID tenantID (mkQuery user None) cc Hmodel Hreader
           (S (maxDepth e)) ns obj rel false Hns Hrel _ (new_memoOK _ bs)).
Qed.

Lemma CheckWithModel_agrees n bs k b b' :
  APPROX k ns obj rel false = b -> APPROX k ns obj rel true = b -> (k <= S (maxDepth e))%nat ->
  (CHECK ns obj rel n bs).1 = Ok b' -> b' = b.
Proof.
  intros Hf Ht Hk Hr. destruct b.
  - exact (finds_check (reader e) m projectID tenantID (mkQuery user None) cc Hmodel Hreader
             (S (maxDepth e)) k ns obj rel false Hk Hns Hrel
             _ b' (new_memoOK _ bs) (new_guardUndecided k _ bs) Hf Hr).
  - destruct b'; [|done].
    destruct (post_fact _ _ _ _ _ _ _ _ _ _ _ (CheckWithModel_post n bs) Hr) as [k' Hk'].
    pose proof (consistent_any _ k' k (nodeDenot_proper _ _ _ _ _ _ ns obj rel) Hk') as Hc.
    unfold nodeDenot in Hc. congruence.
Qed.
End Named.

Lemma CheckWithModel_errors ns obj rel n bs err :
  totalReader -> (CHECK ns obj rel n bs).1 = Err err ->
  err = ErrEvalBudgetExceeded /\ 0 < effectiveMaxReads e n.
Proof.
  intros Htot Hr.
  destruct (framed_check (reader e) m projectID tenantID (mkQuery user None) cc _
              (errorStep_frame (reader e) projectID tenantID) (S (maxDepth e)) ns obj rel false
              (newEvalState (effectiveMaxReads e n) bs)) as [_ Herr].
  destruct (Herr err Hr) as [(ns' & obj' & rel' & Hl)|?]; [|done].
  destruct (Htot ns' obj' rel') as [subs Hs]. congruence.
Qed.
End Claims.

(** C1.  A grant is backed by the rules, for a model, a store and a query on whose
    names visit keys are unambiguous: relation names that rules refer to or stored
    usersets carry have no '#', namespaces of stored usersets and of the query no
    ':'.  Whatever cycles, depth cuts and memo hits the evaluation met, [Check] then
    answers [true] only for a node that some finite unfolding of the model's rules
    establishes.  This is the fail-closed reading of cycles in both polarities,
    exclusions included.  The service does not enforce the condition on names, and
    [visitKey_collision_grants] shows that it is needed. *)
Theorem check_grant_sound `{TextParsers} e m projectID tenantID cc u ns obj rel n bs :
  modelKeysOK m -> readerKeysOK (reader e) projectID tenantID ->
  nsOK ns = true -> relOK rel = true ->
  (CheckWithModel e m projectID tenantID ns obj rel u cc n bs).1 = Ok true ->
  exists k, approx (reader e) m projectID tenantID (mkQuery u None) cc k ns obj rel false = true.
Proof.
  intros Hm Hrd Hns Hrel Hr.
  exact (post_fact _ _ _ _ _ _ _ _ _ _ _ (CheckWithModel_post e m projectID tenantID cc u
           Hm Hrd ns obj rel Hns Hrel n bs) Hr).
Qed.

Lemma check_grant_sound_witness :
  exists k, @approx sampleParsers (tableReader sampleTuples) DefaultModel "p" "t" (mkQuery "alice" None) ∅
              k "resource" "draft" "viewer" false = true.
Proof.
  apply (@check_grant_sound sampleParsers (sampleEngine sampleTuples 100) DefaultModel "p" "t" ∅ "alice"
           "resource" "draft" "viewer" 0 None).
  - exact DefaultModel_keysOK.
  - apply tableReader_keysOK. reflexivity.
  - reflexivity.
  - reflexivity.
  - vm_compute. reflexivity.
Defined.

(** C2.  Within the depth bound [Check] computes exactly the meaning of the
    model, for names on which visit keys are unambiguous (as for the soundness of a
    grant): when both approximations of a node agree on [b] at some level no
    deeper than [maxDepth + 1], the store answers every lookup and no budget is
    set, the call returns [b]; on such names memo and cycle guard are invisible. *)
Theorem check_exact_within_depth `{TextParsers} e m projectID tenantID cc u ns obj rel n bs k b :
  modelKeysOK m -> readerKeysOK (reader e) projectID tenantID ->
  nsOK ns = true -> relOK rel = true ->
  totalReader e projectID tenantID -> effectiveMaxReads e n <= 0 ->
  (k <= S (maxDepth e))%nat ->
  (forall hi, approx (reader e) m projectID tenantID (mkQuery u None) cc k ns obj rel hi = b) ->
  (CheckWithModel e m projectID tenantID ns obj rel u cc n bs).1 = Ok b.
Proof.
  intros Hm Hrd Hns Hrel Htot Hmax Hk Hb.
  destruct (CheckWithModel e m projectID tenantID ns obj rel u cc n bs).1 as [b'|err] eqn:Hr.
  - f_equal. eapply CheckWithModel_agrees; eauto.
  - destruct (CheckWithModel_errors e m projectID tenantID cc u ns obj rel n bs err Htot Hr). lia.
Qed.

Lemma check_exact_within_depth_witness :
  (@CheckWithModel sampleParsers (sampleEngine sampleTuples 0) DefaultModel "p" "t"
     "resource" "draft" "viewer" "mallory" ∅ 0 None).1 = Ok false.
Proof.
  apply (@check_exact_within_depth sampleParsers (sampleEngine sampleTuples 0) DefaultModel "p" "t" ∅ "mallory"
           "resource" "draft" "viewer" 0 None 9%nat false).
  - exact DefaultModel_keysOK.
  - apply tableReader_keysOK. reflexivity.
  - reflexivity.
  - reflexivity.
  - intros ns obj rel. eexists. reflexivity.
  - reflexivity.
  - apply Nat.leb_le. reflexivity.
  - intros []; vm_compute; reflexivity.
Defined.

(** C21.  For a model without exclusions, and names on which visit keys are
    unambiguous (as for the soundness of a grant), an evaluation that tripped
    neither the cycle nor the depth backstop decides the inductive relation [granted]: the
    answer is [true] exactly when the stored tuples derive the relation. *)
Theorem check_clean_iff_granted `{TextParsers} e m projectID tenantID cc u ns obj rel n bs b :
  modelKeysOK m -> readerKeysOK (reader e) projectID tenantID -> exclusionFreeModel m ->
  nsOK ns = true -> relOK rel = true ->
  (CheckWithModel e m projectID tenantID ns obj rel u cc n bs).1 = Ok b ->
  cyclesSeen (CheckWithModel e m projectID tenantID ns obj rel u cc n bs).2 = 0 ->
  b = true <-> granted (reader e) m projectID tenantID (mkQuery u None) cc ns obj rel.
Proof.
  intros Hm Hrd Hex Hns Hrel Hr Hcy.
  pose proof (CheckWithModel_post e m projectID tenantID cc u Hm Hrd ns obj rel Hns Hrel n bs) as Hpost.
  pose proof (post_clean _ _ _ _ _ _ _ _ _ _ _ Hpost b Hr Hcy) as Hdec. split.
  - intros ->. destruct Hdec as [k [Hk _]]. by eapply approx_granted.
  - intros [k Hk]%granted_approx.
    exact (decided_agree _ b k false (nodeDenot_proper _ _ _ _ _ _ ns obj rel) Hdec Hk).
Qed.

Lemma check_clean_iff_granted_witness :
  true = true <-> @granted sampleParsers (tableReader sampleTuples) DefaultModel "p" "t" (mkQuery "ceo" None) ∅
                    "workspace" "acme" "guest".
Proof.
  apply (@check_clean_iff_granted sampleParsers (sampleEngine sampleTuples 100) DefaultModel "p" "t" ∅ "ceo"
           "workspace" "acme" "guest" 0 None true).
  - exact DefaultModel_keysOK.
  - apply tableReader_keysOK. reflexivity.
  - apply (bool_decide_unpack _). vm_compute. exact I.
  - reflexivity.
  - reflexivity.
  - vm_compute. reflexivity.
  - vm_compute. reflexivity.
Defined.

(** C6.  The store work of one check is bounded: with a positive budget the
    evaluation calls [ListSubjects] at most as often as the budget says.  Either it
    made exactly the reads it charged and these are within the budget, or it was
    stopped by the one charge beyond the budget, before the read, and returns
    [ErrEvalBudgetExceeded]. *)
Theorem check_reads_within_budget `{TextParsers} e m projectID tenantID cc u ns obj rel n bs :
  0 < effectiveMaxReads e n ->
  let '(r, st) := CheckWithModel e m projectID tenantID ns obj rel u cc n bs in
  (calls st = reads st /\ 0 <= calls st <= effectiveMaxReads e n)
  \/ (r = Err ErrEvalBudgetExceeded /\ calls st = effectiveMaxReads e n /\ reads st = effectiveMaxReads e n + 1).
Proof.
  intros Hpos.
  pose proof (framed_check (reader e) m projectID tenantID (mkQuery u None) cc _
                (budgetStep_frame (reader e) projectID tenantID) (S (maxDepth e)) ns obj rel false
                (newEvalState (effectiveMaxReads e n) bs)) as (_ & Hb).
  unfold CheckWithModel. destruct (check _ _ _ _ _ _ _ _ _ _ _ _) as [r st]. simpl in *.
  destruct Hb as [Hb|(Hr & Hb)]; [left|right]; intuition lia.
Qed.

Lemma check_reads_within_budget_witness :
  0 < 3 /\
  let '(r, st) := @CheckWithModel sampleParsers (sampleEngine sampleTuples 3) DefaultModel "p" "t"
                    "resource" "draft" "viewer" "alice" ∅ 0 None in
  (calls st = reads st /\ 0 <= calls st <= 3) \/ (r = Err ErrEvalBudgetExceeded /\ calls st = 3 /\ reads st = 3 + 1).
Proof.
  split; [reflexivity|].
  apply (@check_reads_within_budget sampleParsers (sampleEngine sampleTuples 3) DefaultModel "p" "t" ∅ "alice"
           "resource" "draft" "viewer" 0 None). reflexivity.
Defined.

(** Cycles and over-deep chains never surface as errors: against a store
    that answers every lookup the only error a check can return is the exhausted
    read budget, and only when a budget is set. *)
Theorem check_errors_only_budget `{TextParsers} e m projectID tenantID cc u ns obj rel n bs err :
  totalReader e projectID tenantID ->
  (CheckWithModel e m projectID tenantID ns obj rel u cc n bs).1 = Err err ->
  err = ErrEvalBudgetExceeded /\ 0 < effectiveMaxReads e n.
Proof. apply CheckWithModel_errors. Qed.

Lemma check_errors_only_budget_witness :
  ErrEvalBudgetExceeded = ErrEvalBudgetExceeded /\ 0 < 1.
Proof.
  apply (@check_errors_only_budget sampleParsers (sampleEngine sampleTuples 1) DefaultModel "p" "t" ∅ "alice"
           "resource" "draft" "viewer" 0 None).
  - intros ns obj rel. eexists. reflexivity.
  - vm_compute. reflexivity.
Defined.

(** The backstop collector is exact: the depth and cycle counts it gains
    add up to the cycle and depth cuts the evaluation met, and the budget count
    grows by one exactly when the call fails on its budget. *)
Theorem check_backstops_exact `{TextParsers} e m projectID tenantID cc u ns obj rel n b :
  (forall err, readError (reader e) projectID tenantID err -> err <> ErrEvalBudgetExceeded) ->
  let '(r, st) := CheckWithModel e m projectID tenantID ns obj rel u cc n (Some b) in
  exists b', collector st = Some b' /\
    (b_Depth b' + b_Cycle b') - (b_Depth b + b_Cycle b) = cyclesSeen st /\
    b_Budget b' - b_Budget b = isBudgetErr r.
Proof.
  intros Herr.
  pose proof (framed_check (reader e) m projectID tenantID (mkQuery u None) cc _
                (backstopStep_frame (reader e) projectID tenantID Herr) (S (maxDepth e)) ns obj rel false
                (newEvalState (effectiveMaxReads e n) (Some b)) b eq_refl) as (b' & Hb & Hc & Hbud).
  unfold CheckWithModel. destruct (check _ _ _ _ _ _ _ _ _ _ _ _) as [r st]. simpl in *.
  exists b'. split_and!; [done|lia|lia].
Qed.

(** A group that contains itself. *)
Definition cyclicTuples : list Tuple := [
  tup "group" "g" "member" (userset "group" "h" "member");
  tup "group" "h" "member" (userset "group" "g" "member")].

Lemma check_backstops_exact_witness :
  let '(r, st) := @CheckWithModel sampleParsers (sampleEngine cyclicTuples 100) DefaultModel "p" "t"
                    "group" "g" "member" "alice" ∅ 0 (Some (mkBackstops 0 0 0)) in
  exists b', collector st = Some b' /\
    (b_Depth b' + b_Cycle b') - (0 + 0) = cyclesSeen st /\ b_Budget b' - 0 = isBudgetErr r.
Proof.
  apply (@check_backstops_exact sampleParsers (sampleEngine cyclicTuples 100) DefaultModel "p" "t" ∅ "alice"
           "group" "g" "member" 0 (mkBackstops 0 0 0)).
  intros err (ns & obj & rel & Hl). discriminate Hl.
Defined.

(** Tuples stored on a relation that is computed-only and is not the
    tupleset of any rule of its namespace are inert: changing them changes no
    answer, no state and no error of a check. *)
Theorem computed_only_tuples_inert `{TextParsers} e1 e2 m projectID tenantID cc u ns0 rel0 ns obj rel n bs :
  WritableRelation m ns0 rel0 = false ->
  (forall rel', usesTupleset rel0 (rewrite_of m ns0 rel') = false) ->
  maxDepth e1 = maxDepth e2 -> e_maxReads e1 = e_maxReads e2 ->
  (forall ns' obj' rel', (ns', rel') <> (ns0, rel0) ->
     ListSubjects (reader e1) projectID tenantID ns' obj' rel'
     = ListSubjects (reader e2) projectID tenantID ns' obj' rel') ->
  CheckWithModel e1 m projectID tenantID ns obj rel u cc n bs
  = CheckWithModel e2 m projectID tenantID ns obj rel u cc n bs.
Proof.
  intros Hw Hts Hd Hmax Hag. unfold CheckWithModel, effectiveMaxReads. rewrite Hd, Hmax.
  apply check_ext. intros ns' rel' Hcons obj'. apply Hag. intros [= -> ->].
  destruct Hcons as [Hc|[rel1 Hc]]; [congruence|]. by rewrite Hts in Hc.
Qed.

Lemma usesTupleset_model ts m ns rel :
  ts <> "" ->
  map_Forall (fun _ nsm => map_Forall (fun _ rw => usesTupleset ts rw = false) nsm) m ->
  usesTupleset ts (rewrite_of m ns rel) = false.
Proof.
  intros Hts Hm. unfold rewrite_of.
  assert (Hthis : usesTupleset ts RW.this = false) by (simpl; by destruct ts).
  destruct (m !! ns) as [nsm|] eqn:Hn; [|done].
  destruct (nsm !! rel) as [rw|] eqn:Hr; [|done]. exact (Hm _ _ Hn _ _ Hr).
Qed.

Lemma DefaultModel_editor_no_tupleset rel' :
  usesTupleset "editor" (rewrite_of DefaultModel "workspace" rel') = false.
Proof. apply usesTupleset_model; [done|]. apply (bool_decide_unpack _). by vm_compute. Qed.

Lemma computed_only_tuples_inert_witness :
  @CheckWithModel sampleParsers (sampleEngine (tup "workspace" "acme" "editor" (user "eve") :: sampleTuples) 50)
    DefaultModel "p" "t" "resource" "spec" "editor" "eve" ∅ 0 None
  = @CheckWithModel sampleParsers (sampleEngine sampleTuples 50)
    DefaultModel "p" "t" "resource" "spec" "editor" "eve" ∅ 0 None.
Proof.
  apply (@computed_only_tuples_inert sampleParsers
           (sampleEngine (tup "workspace" "acme" "editor" (user "eve") :: sampleTuples) 50)
           (sampleEngine sampleTuples 50) DefaultModel "p" "t" ∅ "eve" "workspace" "editor").
  - vm_compute. reflexivity.
  - exact DefaultModel_editor_no_tupleset.
  - reflexivity.
  - reflexivity.
  - intros ns' obj' rel' Hne. apply tableReader_cons. exact Hne.
Defined.

(** Two namespaces whose objects share a visit key. *)
Definition colonModel : Model :=
  list_to_map [("x", list_to_map [
    ("p", RW.this); ("q", RW.this);
    ("both", RW.intersection [RW.computed "p"; RW.computed "q"])])].
Definition colonTuples : list Tuple := [
  tup "x" "o" "p" (userset "a" "b:c" "v");
  tup "x" "o" "q" (userset "a:b" "c" "v");
  tup "a" "b:c" "v" (user "alice")].

(** The visit keys are ambiguous when a namespace contains a colon: the
    userset [a:b:c#v] of namespace [a] and that of namespace [a:b] share a memo
    entry, so a check grants a relation that the model's rules deny outright. *)
Theorem visitKey_collision_grants :
  visitKey "a" "b:c" "v" = visitKey "a:b" "c" "v" /\
  (@CheckWithModel sampleParsers (sampleEngine colonTuples 100) colonModel "p" "t"
     "x" "o" "both" "alice" ∅ 0 None).1 = Ok true /\
  decided (@nodeDenot sampleParsers (tableReader colonTuples) colonModel "p" "t" (mkQuery "alice" None) ∅
             "x" "o" "both") false.
Proof. split_and!; [reflexivity|vm_compute; reflexivity|]. exists 5%nat. by split; vm_compute. Qed.
