(* ===== verification/ModelJsonTheorems.v ===== *)
(** * What the model documents guarantee

    A parsed document is recovered exactly from the model it produced, a model
    whose rules each set one operator survives the round trip, and a model that
    does not is either refused or replaced by one the engine cannot tell apart. *)

From stdpp Require Import base gmap strings list.
From Stdlib Require Import ZArith Lia.
From S2P Require Import Prelude Conditions Model ModelJson Engine EngineTheorems.

(** ** Rules that set exactly one operator *)
Inductive canonical : Rewrite -> Prop :=
  | can_this : canonical RW.this
  | can_union rs : rs <> [] -> Forall canonical rs -> canonical (RW.union rs)
  | can_intersection rs : rs <> [] -> Forall canonical rs -> canonical (RW.intersection rs)
  | can_exclusion i x : canonical i -> canonical x -> canonical (RW.exclusion i x)
  | can_computed rel : rel <> "" -> canonical (RW.computed rel)
  | can_tupleToUserset ts cr : ts <> "" -> cr <> "" -> canonical (RW.tupleToUserset ts cr).

Section RewriteDocInd.
Context (P : RewriteDoc -> Prop).
Context (step : forall t c td us ins ex,
  (forall l, us = Some l -> Forall P l) -> (forall l, ins = Some l -> Forall P l) ->
  (forall e, ex = Some e -> P (xd_Include e) /\ P (xd_Exclude e)) ->
  P (mkRewriteDoc t c td us ins ex)).

Lemma RewriteDoc_ind' : forall rd, P rd.
Proof.
  fix IH 1. intros [t c td us ins ex]. apply step.
  - destruct us as [l0|]; [|discriminate]. intros l [= <-]. induction l0 as [|x l IHl]; constructor; [apply IH | exact IHl].
  - destruct ins as [l0|]; [|discriminate]. intros l [= <-]. induction l0 as [|x l IHl]; constructor; [apply IH | exact IHl].
  - destruct ex as [[i x]|]; [|discriminate]. intros e [= <-]. split; [apply (IH i) | apply (IH x)].
Qed.
End RewriteDocInd.

Lemma rmap_canonical docs children :
  Forall (fun d => forall rw, toRewrite d = Ok rw -> canonical rw /\ fromRewrite rw = d) docs ->
  rmap toRewrite docs = Ok children ->
  Forall canonical children /\ fromRewrite <$> children = docs.
Proof.
  intros Hdocs Hr%rmap_ok. revert Hdocs. induction Hr as [|d rw docs children Hd _ IH]; intros Hdocs; [done|].
  apply Forall_cons in Hdocs as [Hhd Htl]. destruct (Hhd rw Hd) as [Hc Hf]. destruct (IH Htl) as [Hcs Hfs].
  split; [by constructor|]. by rewrite fmap_cons, Hf, Hfs.
Qed.

Lemma toRewrite_canonical rd rw : toRewrite rd = Ok rw -> canonical rw /\ fromRewrite rw = rd.
Proof.
  revert rw. induction rd as [t c td us ins ex IHu IHi IHe] using RewriteDoc_ind'. intros rw. cbn [toRewrite].
  destruct (Nat.eqb_spec (operatorsSet (mkRewriteDoc t c td us ins ex)) 1) as [Hset|]; [|done]. simpl.
  unfold operatorsSet, countSet in Hset. simpl in Hset.
  destruct t; simpl.
  { intros [= <-]. split; [constructor|].
    destruct (String.eqb_spec c "") as [->|]; [|done]. by destruct td, us, ins, ex. }
  destruct (String.eqb_spec c "") as [->|Hc]; simpl.
  2:{ intros [= <-]. split; [by constructor|]. simpl. rewrite (proj2 (String.eqb_neq c "") Hc).
      by destruct td, us, ins, ex. }
  destruct td as [[ts cr]|]; simpl.
  { destruct (String.eqb_spec ts ""), (String.eqb_spec cr ""); simpl; try done. intros [= <-].
    split; [by constructor|]. simpl. rewrite (proj2 (String.eqb_neq ts "")) by done.
    by destruct us, ins, ex. }
  destruct us as [docs|].
  { intros (children & Hr & Hrw)%rbind_inv_ok.
    destruct (rmap_canonical docs children (IHu docs eq_refl) Hr) as [Hcs Hfs].
    destruct children as [|r0 rs]; [done|]. cbn [is_nil] in Hrw. injection Hrw as <-.
    split; [by constructor|]. destruct ins, ex; try done. cbn [fromRewrite RW.union Union is_nil negb].
    by rewrite Hfs. }
  destruct ins as [docs|].
  { intros (children & Hr & Hrw)%rbind_inv_ok.
    destruct (rmap_canonical docs children (IHi docs eq_refl) Hr) as [Hcs Hfs].
    destruct children as [|r0 rs]; [done|]. cbn [is_nil] in Hrw. injection Hrw as <-.
    split; [by constructor|]. destruct ex; try done.
    cbn [fromRewrite RW.intersection Union Intersection is_nil negb]. by rewrite Hfs. }
  destruct ex as [[di dx]|]; [|done].
  intros (i & Hi & (x & Hx & [= <-])%rbind_inv_ok)%rbind_inv_ok.
  destruct (IHe _ eq_refl) as [IHdi IHdx]. simpl in *.
  destruct (IHdi i Hi) as [? <-], (IHdx x Hx) as [? <-]. split; [by constructor|done].
Qed.

Lemma Forall2_toRewrite rs :
  Forall (fun rw => toRewrite (fromRewrite rw) = Ok rw) rs -> rmap toRewrite (fromRewrite <$> rs) = Ok rs.
Proof. intros Hrs. apply rmap_ok. apply Forall2_fmap_l. by apply Forall_Forall2_diag. Qed.

Lemma canonical_roundtrip rw : canonical rw -> toRewrite (fromRewrite rw) = Ok rw.
Proof.
  induction rw as [us ins ex c ts cr IHu IHi IHe] using Rewrite_ind'. inversion 1; subst.
  - done.
  - destruct us as [|r0 us]; [done|]. cbn [fromRewrite Union is_nil negb].
    cbn [toRewrite rd_This rd_Computed rd_TupleToUserset rd_Union].
    rewrite Forall2_toRewrite; [done|]. eapply (Forall_impl2 _ _ _ _ IHu); [eassumption|auto].
  - destruct ins as [|r0 ins]; [done|]. cbn [fromRewrite Union Intersection is_nil negb].
    cbn [toRewrite rd_This rd_Computed rd_TupleToUserset rd_Union rd_Intersection].
    rewrite Forall2_toRewrite; [done|]. eapply (Forall_impl2 _ _ _ _ IHi); [eassumption|auto].
  - destruct (IHe _ eq_refl) as [Hi Hx]. simpl in *. rewrite Hi, Hx; done.
  - simpl. rewrite (proj2 (String.eqb_neq c "")) by done. simpl. unfold operatorsSet, countSet. simpl.
    by rewrite (proj2 (String.eqb_neq c "")).
  - simpl. rewrite (proj2 (String.eqb_neq ts "")) by done. simpl.
    by rewrite (proj2 (String.eqb_neq ts "")), (proj2 (String.eqb_neq cr "")).
Qed.

(** ** Models *)
Definition canonicalModel (m : Model) : Prop :=
  m !! "" = None /\ map_Forall (fun _ rels => rels !! "" = None /\ map_Forall (fun _ rw => canonical rw) rels) m.

Section Models.
Context `{MapRange}.

Lemma ToNamespace_iff rels nm :
  ToNamespace rels = Ok nm
  <-> fromRewrite <$> nm = rels /\ nm !! "" = None /\ map_Forall (fun _ rw => canonical rw) nm.
Proof.
  unfold ToNamespace. split.
  - intros Hp%rangeM_pointwise. split_and!.
    + apply map_eq. intros k. rewrite lookup_fmap. specialize (Hp k).
      destruct (rels !! k) as [rd|], (nm !! k) as [rw|]; simpl in *; try done.
      destruct (String.eqb k ""); [done|]. by apply toRewrite_canonical in Hp as [_ ->].
    + specialize (Hp ""). simpl in Hp. by destruct (rels !! ""), (nm !! "").
    + intros k rw Hk. specialize (Hp k). rewrite Hk in Hp. destruct (rels !! k) as [rd|]; [|done].
      destruct (String.eqb k ""); [done|]. by apply toRewrite_canonical in Hp as [? _].
  - intros (<- & Hempty & Hcan). apply rangeM_complete. intros k. rewrite lookup_fmap.
    destruct (nm !! k) as [rw|] eqn:Hk; simpl; [|done].
    destruct (String.eqb_spec k "") as [->|]; [congruence|]. apply canonical_roundtrip. by eapply Hcan.
Qed.

Lemma ToModel_iff d m : ToModel d = Ok m <-> FromModel m = d /\ canonicalModel m.
Proof.
  unfold ToModel, FromModel, canonicalModel. split.
  - intros Hp%rangeM_pointwise. split_and!.
    + apply map_eq. intros k. rewrite lookup_fmap. specialize (Hp k).
      destruct (d !! k) as [rels|], (m !! k) as [nm|]; simpl in *; try done.
      destruct (String.eqb k ""); [done|]. by apply ToNamespace_iff in Hp as [-> _].
    + specialize (Hp ""). simpl in Hp. by destruct (d !! ""), (m !! "").
    + intros k nm Hk. specialize (Hp k). rewrite Hk in Hp. destruct (d !! k) as [rels|]; [|done].
      destruct (String.eqb k ""); [done|]. by apply ToNamespace_iff in Hp as [_ ?].
  - intros (<- & Hempty & Hcan). apply rangeM_complete. intros k. rewrite lookup_fmap.
    destruct (m !! k) as [nm|] eqn:Hk; simpl; [|done].
    destruct (String.eqb_spec k "") as [->|]; [congruence|]. apply ToNamespace_iff.
    destruct (Hcan _ _ Hk). done.
Qed.
End Models.

(** ** References *)
Fixpoint references (rw : Rewrite) : list string :=
  filter (fun r => r <> "") [Computed rw; TuplesetRelation rw]
  ++ mjoin (references <$> Union rw) ++ mjoin (references <$> Intersection rw)
  ++ match Exclusion rw with None => [] | Some ex => references (Include ex) ++ references (Exclude ex) end.

Lemma undeclared_false declared r :
  undeclared declared r = false <-> Forall (fun x => x ∈ declared) (filter (fun r => r <> "") [r]).
Proof.
  unfold undeclared. destruct (String.eqb_spec r "") as [->|Hr]; simpl.
  - split; [|done]. intros _. rewrite filter_cons_False by naive_solver. constructor.
  - rewrite filter_cons_True by done. rewrite negb_false_iff, bool_decide_eq_true, Forall_singleton. done.
Qed.

Lemma rmap_unit {A} (f : A -> result unit) xs :
  rbind (rmap f xs) (fun _ => Ok tt) = Ok tt <-> Forall (fun x => f x = Ok tt) xs.
Proof.
  induction xs as [|x xs IH]; simpl; [done|]. rewrite Forall_cons, <-IH.
  destruct (f x) as [[]|e]; simpl; [|naive_solver]. destruct (rmap f xs); simpl; naive_solver.
Qed.

Lemma Forall_mjoin_fmap {A B} (P : B -> Prop) (f : A -> list B) l :
  Forall P (mjoin (f <$> l)) <-> Forall (fun x => Forall P (f x)) l.
Proof.
  induction l as [|x l IH]; [done|]. rewrite fmap_cons. cbn [mjoin list_join]. by rewrite Forall_app, Forall_cons, <-IH.
Qed.

Lemma checkRefs_iff declared rw :
  checkRefs declared rw = Ok tt <-> Forall (fun x => x ∈ declared) (references rw).
Proof.
  induction rw as [us ins ex c ts cr IHu IHi IHe] using Rewrite_ind'.
  cbn [checkRefs references Computed TuplesetRelation Union Intersection Exclusion].
  rewrite !Forall_app.
  change [c; ts] with ([c] ++ [ts]). rewrite filter_app, Forall_app, <-!undeclared_false.
  assert (Hl : forall l, Forall (fun rw => checkRefs declared rw = Ok tt <-> Forall (fun x => x ∈ declared) (references rw)) l ->
    rbind (rmap (checkRefs declared) l) (fun _ => Ok tt) = Ok tt <-> Forall (fun x => x ∈ declared) (mjoin (references <$> l))).
  { intros l Hl. rewrite rmap_unit, Forall_mjoin_fmap. split; intros Hc;
      apply (Forall_impl2 _ _ _ _ Hl Hc); naive_solver. }
  rewrite <-(Hl us IHu), <-(Hl ins IHi).
  destruct (undeclared declared c), (undeclared declared ts); simpl; try naive_solver.
  unfold andThen at 1 2. destruct (rbind (rmap _ us) _) as [[]|e]; [|naive_solver].
  destruct (rbind (rmap _ ins) _) as [[]|e]; [|naive_solver]. simpl.
  destruct ex as [[i x]|]; [|naive_solver]. destruct (IHe _ eq_refl) as [Hi Hx]. simpl in *.
  rewrite Forall_app, <-Hi, <-Hx. unfold andThen.
  destruct (checkRefs declared i) as [[]|e]; simpl; [|naive_solver]. naive_solver.
Qed.

(** ** The engine cannot tell a rule from its stored form *)
Lemma orLoop_ext2 {S A B} (f : A -> St S bool) (g : B -> St S bool) xs ys :
  Forall2 (fun x y => forall s, f x s = g y s) xs ys -> forall s, orLoop f xs s = orLoop g ys s.
Proof.
  induction 1 as [|x y xs ys Hxy _ IH]; intros s; simpl; [done|]. unfold bind. rewrite Hxy.
  destruct (g y s) as [[[]|e] s']; [done|apply IH|done].
Qed.
Lemma andLoop_ext2 {S A B} (f : A -> St S bool) (g : B -> St S bool) xs ys :
  Forall2 (fun x y => forall s, f x s = g y s) xs ys -> forall s, andLoop f xs s = andLoop g ys s.
Proof.
  induction 1 as [|x y xs ys Hxy _ IH]; intros s; simpl; [done|]. unfold bind. rewrite Hxy.
  destruct (g y s) as [[[]|e] s']; [apply IH|done|done].
Qed.

Section Stored.
Context `{TextParsers} (rd : TupleReader) (projectID tenantID : string) (q : subjectQuery) (cc : anymap).
Context (rec : checkFn) (ns obj rel : string).
#[local] Abbreviation EVAL := (evalRewrite rd projectID tenantID q cc rec ns obj rel).

Lemma stored_children rs rs' :
  Forall (fun rw => forall rw', toRewrite (fromRewrite rw) = Ok rw' -> forall neg st, EVAL rw neg st = EVAL rw' neg st) rs ->
  rmap toRewrite (fromRewrite <$> rs) = Ok rs' ->
  forall neg, Forall2 (fun x y => forall st, EVAL x neg st = EVAL y neg st) rs rs'.
Proof.
  intros Hrs Hr%rmap_ok neg. apply Forall2_fmap_l in Hr.
  induction Hr as [|x y rs rs' Hxy _ IH]; constructor.
  - apply Forall_cons in Hrs as [Hx _]. intros st. by apply Hx.
  - apply IH. by apply Forall_cons in Hrs as [_ ?].
Qed.

Lemma evalRewrite_stored rw rw' :
  toRewrite (fromRewrite rw) = Ok rw' -> forall neg st, EVAL rw neg st = EVAL rw' neg st.
Proof.
  revert rw'. induction rw as [us ins ex c ts cr IHu IHi IHe] using Rewrite_ind'. intros rw'.
  cbn [fromRewrite Union Intersection Exclusion Computed TuplesetRelation ComputedRelation].
  destruct us as [|r0 us]; cbn [is_nil negb].
  2:{ intros (rs' & Hr & Hrw)%rbind_inv_ok neg st. destruct rs' as [|r1 rs']; [done|].
      injection Hrw as <-.
      change (orLoop (fun child => EVAL child neg) (r0 :: us) st
              = orLoop (fun child => EVAL child neg) (r1 :: rs') st).
      apply orLoop_ext2. by apply stored_children. }
  destruct ins as [|r0 ins]; cbn [is_nil negb].
  2:{ intros (rs' & Hr & Hrw)%rbind_inv_ok neg st. destruct rs' as [|r1 rs']; [done|].
      injection Hrw as <-.
      change (match q_set q with
              | Some _ => ret false
              | None => andLoop (fun child => EVAL child neg) (r0 :: ins)
              end st
              = match q_set q with
                | Some _ => ret false
                | None => andLoop (fun child => EVAL child neg) (r1 :: rs')
                end st).
      destruct (q_set q); [done|]. apply andLoop_ext2. by apply stored_children. }
  destruct ex as [[i x]|].
  { intros (i' & Hi & (x' & Hx & [= <-])%rbind_inv_ok)%rbind_inv_ok neg st. cbn -[toRewrite].
    destruct (IHe _ eq_refl) as [IHi' IHx']. simpl in IHi', IHx'. destruct (q_set q); [done|].
    unfold bind. rewrite (IHi' _ Hi). destruct (EVAL i' neg st) as [[[]|e] st1]; simpl; [|done..].
    by rewrite (IHx' _ Hx). }
  destruct (String.eqb_spec c "") as [->|Hc]; simpl.
  2:{ unfold operatorsSet, countSet. simpl. rewrite (proj2 (String.eqb_neq c "") Hc). simpl.
      intros [= <-] neg st. simpl. unfold isThis. simpl. by rewrite (proj2 (String.eqb_neq c "") Hc). }
  destruct (String.eqb_spec ts "") as [->|Hts]; simpl.
  { intros [= <-] neg st. done. }
  rewrite (proj2 (String.eqb_neq ts "") Hts). destruct (String.eqb cr ""); [done|]. simpl.
  intros [= <-] neg st.
  cbn [evalRewrite RW.tupleToUserset Union Intersection Exclusion Computed TuplesetRelation is_nil negb].
  unfold isThis. simpl. by rewrite (proj2 (String.eqb_neq ts "") Hts).
Qed.
End Stored.

(** ** Claims *)

(** ** What a document is refused with is a text *)
Definition textual {A} (r : result A) : Prop := forall e, r = Err e -> exists text, e = ErrPlain text.

Lemma textual_Ok {A} (a : A) : textual (Ok a). Proof. by intros e. Qed.
Lemma textual_Err {A} text : textual (Err (A := A) (ErrPlain text)). Proof. intros e [= <-]. eauto. Qed.
Lemma textual_rbind {A B} (r : result A) (k : A -> result B) : textual r -> (forall a, textual (k a)) -> textual (rbind r k).
Proof. intros Hr Hk e. destruct r; simpl; [apply Hk|]. intros [= <-]. by apply Hr. Qed.
Lemma textual_rmap {A B} (f : A -> result B) xs : Forall (fun x => textual (f x)) xs -> textual (rmap f xs).
Proof. intros Hf e (x & Hx & He)%rmap_err. by eapply (proj1 (Forall_forall _ _) Hf). Qed.

Create HintDb textual.
#[export] Hint Resolve textual_Ok textual_Err textual_rbind : textual.

Lemma toRewrite_textual rd : textual (toRewrite rd).
Proof.
  induction rd as [t c td us ins ex IHu IHi IHe] using RewriteDoc_ind'. simpl.
  repeat case_match; eauto with textual; apply textual_rbind; try (intros; case_match); eauto using textual_rmap with textual.
  - by eapply IHe.
  - intros ?. apply textual_rbind; [by eapply IHe|]. eauto with textual.
Qed.

Lemma ParseModel_text `{MapRange} `{JsonCodec} data : textual (ParseModel data).
Proof.
  unfold ParseModel. destruct (json_Decode data) as [doc|]; [|apply textual_Err]. intros e (ns & rels & He)%rangeM_err.
  destruct (String.eqb ns ""); [injection He as <-; eauto|]. apply rangeM_err in He as (rel & rd & He).
  destruct (String.eqb rel ""); [injection He as <-; eauto|]. by eapply toRewrite_textual.
Qed.

(** C35.  Documents and models correspond one to one: converting a document
    succeeds with a model exactly when every rule of that model sets one operator
    with non-empty names and the model converts back to the very same document.
    So accepted documents round-trip, and so does every well-formed model. *)
Theorem modelDoc_roundtrip `{MapRange} d m :
  ToModel d = Ok m <-> FromModel m = d /\ canonicalModel m.
Proof. apply ToModel_iff. Qed.

(** Marshal then parse: with a lossless text layer, the stored form of a
    well-formed model parses back to the model. *)
Theorem marshal_parse_roundtrip `{MapRange} `{JsonCodec} m data :
  (forall d text, json_Marshal d = Ok text -> json_Decode text = Ok d) ->
  canonicalModel m -> MarshalModel m = Ok data -> ParseModel data = Ok m.
Proof.
  intros Hcodec Hm Hmar. unfold ParseModel. rewrite (Hcodec _ _ Hmar). by apply ToModel_iff.
Qed.

Definition sampleCodec : JsonCodec :=
  {| JsonText := ModelDoc; json_Marshal := fun d => Ok d; json_Decode := fun d => Ok d |}.

Lemma DefaultModel_canonical : canonicalModel DefaultModel.
Proof. eapply (ToModel_iff (H := map_range_default) (FromModel DefaultModel)). vm_compute. reflexivity. Qed.

Lemma marshal_parse_roundtrip_witness :
  @ParseModel map_range_default sampleCodec (FromModel DefaultModel) = Ok DefaultModel.
Proof.
  apply (@marshal_parse_roundtrip map_range_default sampleCodec).
  - intros d text [= <-]. reflexivity.
  - exact DefaultModel_canonical.
  - reflexivity.
Defined.

(** Storing a rule does not change what it means: when a rule survives the
    document round trip at all, the engine evaluates the original and the stored
    rule alike, on every node, polarity and state, errors and budget included. *)
Theorem stored_rule_equivalent `{TextParsers} rd projectID tenantID q cc rec ns obj rel rw rw' neg st :
  toRewrite (fromRewrite rw) = Ok rw' ->
  evalRewrite rd projectID tenantID q cc rec ns obj rel rw neg st
  = evalRewrite rd projectID tenantID q cc rec ns obj rel rw' neg st.
Proof. intros Hrw. by apply evalRewrite_stored. Qed.

(** A rule that sets two operators; the union wins. *)
Definition twoOperators : Rewrite := mkRewrite [RW.computed "owner"] [] None "admin" "" "".

Lemma stored_rule_equivalent_witness :
  @evalRewrite sampleParsers (tableReader sampleTuples) "p" "t" (mkQuery "ceo" None) ∅ (fun _ _ _ _ => ret true)
    "workspace" "acme" "x" twoOperators false (newEvalState 0 None)
  = @evalRewrite sampleParsers (tableReader sampleTuples) "p" "t" (mkQuery "ceo" None) ∅ (fun _ _ _ _ => ret true)
    "workspace" "acme" "x" (RW.union [RW.computed "owner"]) false (newEvalState 0 None).
Proof. apply (@stored_rule_equivalent sampleParsers). reflexivity. Defined.

(** The reference check accepts a model exactly when every relation that a
    rule of a namespace names, as a computed relation or as a tupleset, at any
    depth, is declared in that namespace. *)
Theorem validateModelRefs_iff `{MapRange} m :
  ValidateModelRefs m = Ok tt <->
  forall ns rels rel rw, m !! ns = Some rels -> rels !! rel = Some rw ->
    Forall (fun x => x ∈ dom rels) (references rw).
Proof.
  unfold ValidateModelRefs. rewrite rmap_unit, Forall_forall. split.
  - intros Hall ns rels rel rw Hns Hrel.
    assert (Hin : (ns, rels) ∈ range_map m) by by apply elem_of_range_map.
    specialize (Hall _ Hin). simpl in Hall. rewrite rmap_unit, Forall_forall in Hall.
    assert (Hin' : (rel, rw) ∈ range_map rels) by by apply elem_of_range_map.
    apply checkRefs_iff. by apply (Hall _ Hin').
  - intros Hall [ns rels] Hns%elem_of_range_map. simpl. apply rmap_unit, Forall_forall.
    intros [rel rw] Hrel%elem_of_range_map. apply checkRefs_iff. by eapply Hall.
Qed.
