(* ===== verification/ListObjects.v ===== *)
(** * Listing the objects a user can reach (pkg/authz/engine.go, [ListObjects])

    The candidate loop runs one [check] per object id on a shared read budget.
    The file shows that the answer is the list of granted candidates in the
    lister's order, that the candidate cap is enforced before any work, and that
    the shared budget bounds the reads of the whole operation. *)

From stdpp Require Import base gmap strings list.
From Stdlib Require Import ZArith Lia Ascii.
From S2P Require Import Prelude Conditions Model Engine Semantics EngineSound EngineFrame EngineTheorems.
#[local] Open Scope Z_scope.

Section Loop.
Context `{TextParsers} (e : Engine) (m : Model) (projectID tenantID : string) (u : string).
Context (Hmodel : modelKeysOK m) (Hreader : readerKeysOK (reader e) projectID tenantID).
Context (ns rel : string) (Hns : nsOK ns = true) (Hrel : relOK rel = true).

#[local] Abbreviation APPROX :=
  (approx (reader e) m projectID tenantID (mkQuery u None) ∅).
#[local] Abbreviation FRESH st := (set_memo ∅ (set_visited ∅ st)).

Lemma fresh_memoOK st : memoOK (reader e) m projectID tenantID (mkQuery u None) ∅ (FRESH st).
Proof. intros ns' obj' rel' neg b _ _. simpl. by rewrite lookup_empty. Qed.

Lemma fresh_guard k st :
  guardUndecided (reader e) m projectID tenantID (mkQuery u None) ∅ k (FRESH st).
Proof. intros ns' obj' rel' _ _. simpl. set_solver. Qed.

(** One candidate, started on fresh maps and any budget. *)
Lemma candidate_ok id st b :
  (check (reader e) m projectID tenantID (mkQuery u None) ∅ (S (maxDepth e)) ns id rel false (FRESH st)).1
    = Ok b ->
  (b = true -> exists k, APPROX k ns id rel false = true) /\
  (forall k, (k <= S (maxDepth e))%nat -> APPROX k ns id rel false = true -> b = true).
Proof.
  intros Hb. split.
  - intros ->. exact (post_fact _ _ _ _ _ _ _ _ _ _ _
      (computes_check (reader e) m projectID tenantID (mkQuery u None) ∅ Hmodel Hreader
         (S (maxDepth e)) ns id rel false Hns Hrel _ (fresh_memoOK st)) Hb).
  - intros k Hk Hap. exact (finds_check (reader e) m projectID tenantID (mkQuery u None) ∅ Hmodel Hreader
      (S (maxDepth e)) k ns id rel false Hk Hns Hrel _ b (fresh_memoOK st) (fresh_guard k st) Hap Hb).
Qed.

Lemma listObjectsLoop_ok ids st out st' :
  listObjectsLoop e m projectID tenantID ns rel u ids st = (Ok out, st') ->
  out `sublist_of` ids /\
  (forall id, id ∈ out -> exists k, APPROX k ns id rel false = true) /\
  (forall id k, id ∈ ids -> (k <= S (maxDepth e))%nat -> APPROX k ns id rel false = true -> id ∈ out).
Proof.
  revert st out. induction ids as [|id ids IH]; intros st out; cbn [listObjectsLoop].
  { intros [= <- _]. split_and!; [done| |]; intros id; intros; exfalso; by eapply not_elem_of_nil. }
  unfold bind, modify.
  pose proof (candidate_ok id st) as Hcand.
  destruct (check _ _ _ _ _ _ _ _ _ _ _ _) as [[ok|err] st1]; [|done].
  destruct (listObjectsLoop _ _ _ _ _ _ _ ids st1) as [[out1|err] st2] eqn:Hrest; [|done].
  intros [= <- <-]. destruct (Hcand ok eq_refl) as [Hs Hc].
  destruct (IH _ _ Hrest) as (Hsub & Hsound & Hcompl). destruct ok; split_and!.
  - by apply sublist_skip.
  - intros x [->|Hx]%elem_of_cons; eauto.
  - intros x k [->|Hx]%elem_of_cons Hk Hap; [left | right; eauto].
  - by apply sublist_cons.
  - eauto.
  - intros x k [->|Hx]%elem_of_cons Hk Hap; [by specialize (Hc k Hk Hap) | eauto].
Qed.
End Loop.

(** The shared budget of the loop, without assumptions on names. *)
Lemma listObjectsLoop_budget `{TextParsers} e m projectID tenantID ns rel u ids st :
  0 < maxReads st -> reads st <= maxReads st ->
  let '(r, st') := listObjectsLoop e m projectID tenantID ns rel u ids st in
  maxReads st' = maxReads st /\
  (reads st' <= maxReads st \/ (r = Err ErrEvalBudgetExceeded /\ reads st' = maxReads st + 1)).
Proof.
  revert st. induction ids as [|id ids IH]; intros st Hpos Hle; cbn [listObjectsLoop]; [by simpl; auto|].
  unfold bind, modify.
  pose proof (framed_check (reader e) m projectID tenantID (mkQuery u None) ∅ _
                (budgetStep_frame (reader e) projectID tenantID) (S (maxDepth e)) ns id rel false
                (set_memo ∅ (set_visited ∅ st))) as (Hm & Hb).
  destruct (check _ _ _ _ _ _ _ _ _ _ _ _) as [[ok|err] st1]; simpl in *.
  2:{ split; [done|]. destruct Hb as [?|([= ->] & ?)]; [left; lia|right; split; [done|lia]]. }
  destruct Hb as [Hb|[[=] _]].
  specialize (IH st1 ltac:(lia) ltac:(lia)). rewrite Hm in IH.
  destruct (listObjectsLoop _ _ _ _ _ _ _ ids st1) as [[out1|err1] st2]; destruct IH as [Hm2 IH];
    (split; [congruence|]); destruct IH as [?|[[=] ?]]; subst; auto.
Qed.

(** C22.  [ListObjects] answers with exactly the granted candidates, for a model,
    a store and a query on whose names visit keys are unambiguous (no ':' in the
    namespace of a node, no '#' in a relation): the result
    is a sublist, in order, of the ids the store lists for the namespace; every
    id of it is backed by the model's rules; every listed id whose grant is
    established within the depth bound is in it; and the candidate list respected
    the cap. *)
Theorem listObjects_exact `{TextParsers} e m projectID tenantID ns rel u maxObjects n bs bs' out :
  modelKeysOK m -> readerKeysOK (reader e) projectID tenantID ->
  nsOK ns = true -> relOK rel = true ->
  ListObjectsWithModel e m projectID tenantID ns rel u maxObjects n bs = (Ok out, bs') ->
  exists lister ids,
    ListObjectIDs (reader e) = Some lister /\ lister projectID tenantID ns = Ok ids /\
    (0 < maxObjects -> Z.of_nat (length ids) <= maxObjects) /\
    out `sublist_of` ids /\
    (forall id, id ∈ out ->
       exists k, approx (reader e) m projectID tenantID (mkQuery u None) ∅ k ns id rel false = true) /\
    (forall id k, id ∈ ids -> (k <= S (maxDepth e))%nat ->
       approx (reader e) m projectID tenantID (mkQuery u None) ∅ k ns id rel false = true -> id ∈ out).
Proof.
  intros Hm Hrd Hns Hrel. unfold ListObjectsWithModel.
  destruct (ListObjectIDs (reader e)) as [lister|]; [|done].
  destruct (lister projectID tenantID ns) as [ids|] eqn:Hids; [|done].
  destruct ((0 <? maxObjects) && _) eqn:Hcap; [done|].
  destruct (listObjectsLoop _ _ _ _ _ _ _ _ _) as [r st'] eqn:Hl. intros [= -> _].
  exists lister, ids. do 2 (split; [done|]). split.
  - rewrite andb_false_iff, !Z.ltb_ge in Hcap. lia.
  - exact (listObjectsLoop_ok e m projectID tenantID u Hm Hrd ns rel Hns Hrel _ _ _ _ Hl).
Qed.

Lemma listObjects_exact_witness :
  exists lister ids,
    ListObjectIDs (tableReader sampleTuples) = Some lister /\ lister "p" "t" "resource" = Ok ids /\
    (0 < 10 -> Z.of_nat (length ids) <= 10) /\
    ["spec"; "draft"] `sublist_of` ids /\
    (forall id, id ∈ ["spec"; "draft"] ->
       exists k, @approx sampleParsers (tableReader sampleTuples) DefaultModel "p" "t"
                   (mkQuery "alice" None) ∅ k "resource" id "viewer" false = true) /\
    (forall id k, id ∈ ids -> (k <= 33)%nat ->
       @approx sampleParsers (tableReader sampleTuples) DefaultModel "p" "t"
         (mkQuery "alice" None) ∅ k "resource" id "viewer" false = true -> id ∈ ["spec"; "draft"]).
Proof.
  apply (@listObjects_exact sampleParsers (sampleEngine sampleTuples 100) DefaultModel "p" "t"
           "resource" "viewer" "alice" 10 0 None None ["spec"; "draft"]).
  - exact DefaultModel_keysOK.
  - apply tableReader_keysOK. reflexivity.
  - reflexivity.
  - reflexivity.
  - vm_compute. reflexivity.
Defined.

(** The read budget of a listing: for a positive base budget and sizes that
    do not overflow, the fan-out budget is the larger of the base and twice the
    depth bound per candidate, so scaling never lowers a budget; the whole loop
    reads at most that often, and one refused read more ends it with
    [ErrEvalBudgetExceeded]. *)
Theorem listObjects_shared_budget `{TextParsers} e m projectID tenantID ns rel u ids base candidates bs :
  0 < base -> 0 <= candidates -> candidates * Z.of_nat (maxDepth e) * 2 < 2^63 ->
  let budget := fanOutBudget e base candidates in
  budget = Z.max base (candidates * Z.of_nat (maxDepth e) * 2) /\
  let '(r, st) := listObjectsLoop e m projectID tenantID ns rel u ids (newEvalState budget bs) in
  reads st <= budget \/ (r = Err ErrEvalBudgetExceeded /\ reads st = budget + 1).
Proof.
  intros Hbase Hcand Hsmall budget.
  assert (Hbudget : budget = Z.max base (candidates * Z.of_nat (maxDepth e) * 2)).
  { unfold budget, fanOutBudget, fanOutHeadroom.
    rewrite (wrap64_small (candidates * _)) by lia. rewrite wrap64_small by lia.
    destruct (Z.leb_spec base 0); [lia|]. destruct (Z.ltb_spec base (candidates * Z.of_nat (maxDepth e) * 2)); lia. }
  split; [done|].
  pose proof (listObjectsLoop_budget e m projectID tenantID ns rel u ids (newEvalState budget bs)
                ltac:(simpl; lia) ltac:(simpl; lia)) as Hl.
  destruct (listObjectsLoop _ _ _ _ _ _ _ _ _) as [r st]. naive_solver.
Qed.

Lemma listObjects_shared_budget_witness :
  let e := sampleEngine sampleTuples 5 in
  fanOutBudget e 5 2 = Z.max 5 (2 * 32 * 2) /\
  let '(r, st) := @listObjectsLoop sampleParsers e DefaultModel "p" "t" "resource" "viewer" "alice"
                    ["spec"; "draft"] (newEvalState (fanOutBudget e 5 2) None) in
  reads st <= fanOutBudget e 5 2 \/ (r = Err ErrEvalBudgetExceeded /\ reads st = fanOutBudget e 5 2 + 1).
Proof.
  apply (@listObjects_shared_budget sampleParsers (sampleEngine sampleTuples 5) DefaultModel "p" "t"
           "resource" "viewer" "alice" ["spec"; "draft"] 5 2 None); reflexivity || (intros ?; discriminate).
Defined.
