(* ===== verification/Expand.v ===== *)
(** * Expanding a userset into a tree (pkg/authz/expand.go)

    [expand] mirrors the rule walk of [check] but returns the tree of the rules
    met, with the stored subjects at its leaves.  The node counter and the cycle
    guard are the function's own; the read budget is that of the evaluation
    state. *)

From stdpp Require Import base gmap strings list.
From Stdlib Require Import ZArith Lia Ascii.
From S2P Require Import Prelude Conditions Model Engine Semantics Granted.
#[local] Open Scope Z_scope.

Record ExcludeTree_ (T : Type) := mkExcludeTree { xt_Include : T; xt_Exclude : T }.
Arguments mkExcludeTree {T} _ _.
Arguments xt_Include {T} _.
Arguments xt_Exclude {T} _.

Inductive Tree := mkTree {
  tr_Expanded : SubjectSet;
  tr_Union : list Tree;
  tr_Intersection : list Tree;
  tr_Exclude : option (ExcludeTree_ Tree);
  tr_Users : list string;
  tr_Sets : list SubjectSet;
  tr_Wildcard : bool;
}.

Abbreviation ExcludeTree := (ExcludeTree_ Tree).

(** [Tree{Expanded: self}] *)
Definition bareTree (self : SubjectSet) : Tree := mkTree self [] [] None [] [] false.
Definition unionTree (self : SubjectSet) (ts : list Tree) : Tree := mkTree self ts [] None [] [] false.
Definition intersectionTree (self : SubjectSet) (ts : list Tree) : Tree := mkTree self [] ts None [] [] false.
Definition excludeTree (self : SubjectSet) (inc exc : Tree) : Tree :=
  mkTree self [] [] (Some (mkExcludeTree inc exc)) [] [] false.

(** One iteration of the leaf loop. *)
Definition leafAdd (leaf : Tree) (s : Subject) : Tree :=
  let '(mkTree self us ins ex users sets w) := leaf in
  if Wildcard s then mkTree self us ins ex users sets true
  else match Set_ s with
       | None => mkTree self us ins ex (users ++ [UserID s]) sets w
       | Some ss => mkTree self us ins ex users (sets ++ [ss]) w
       end.

(** The mutable state of one expansion: the node counter behind [count], the
    evaluation state behind [st] and the map [visited]. *)
Record expandState := mkExpandState {
  x_count : Z;
  x_st : evalState;
  x_visited : gset string;
}.

Definition bump (max n : Z) : St expandState unit := fun s =>
  let s' := mkExpandState (x_count s + n) (x_st s) (x_visited s) in
  if (0 <? max) && (max <? x_count s') then (Err ErrExpandTooLarge, s') else (Ok tt, s').

Definition expandRecord (reason : BackstopReason) : St expandState unit :=
  modify (fun s => mkExpandState (x_count s) (recordBackstop reason (x_st s)) (x_visited s)).

Definition expandCharge : St expandState unit := fun s =>
  let '(r, st') := chargeOrRecord (x_st s) in (r, mkExpandState (x_count s) st' (x_visited s)).

Definition expandRead (rd : TupleReader) (projectID tenantID ns obj rel : string) : St expandState (list Subject) := fun s =>
  let '(r, st') := readSubjects rd projectID tenantID ns obj rel (x_st s) in (r, mkExpandState (x_count s) st' (x_visited s)).

Section Expand.
Context (rd : TupleReader) (m : Model) (projectID tenantID : string) (max : Z).

Section Rule.
(** [rec ns obj rel] is [expand] one level deeper. *)
Context (rec : string -> string -> string -> St expandState Tree).

Definition expandThis (ns obj rel : string) (self : SubjectSet) : St expandState Tree :=
  do! expandCharge in
  let! subjects := expandRead rd projectID tenantID ns obj rel in
  do! bump max (Z.of_nat (length subjects)) in
  ret (foldl leafAdd (bareTree self) subjects).

(** The loop over the tupleset: a subject that is not a userset is skipped. *)
Fixpoint expandPointers (computedRel : string) (subjects : list Subject) : St expandState (list Tree) :=
  match subjects with
  | [] => ret []
  | s :: subjects' =>
      match Set_ s with
      | None => expandPointers computedRel subjects'
      | Some ss =>
          let! sub := rec (ss_Namespace ss) (ss_ObjectID ss) computedRel in
          let! subs := expandPointers computedRel subjects' in
          ret (sub :: subs)
      end
  end.

Definition expandTupleset (ns obj : string) (self : SubjectSet) (rw : Rewrite) : St expandState Tree :=
  do! expandCharge in
  let! subjects := expandRead rd projectID tenantID ns obj (TuplesetRelation rw) in
  let! subs := expandPointers (ComputedRelation rw) subjects in
  ret (unionTree self subs).

Fixpoint expandRewrite (ns obj rel : string) (self : SubjectSet) (rw : Rewrite) : St expandState Tree :=
  do! bump max 1 in
  if isThis rw then expandThis ns obj rel self
  else if negb (is_nil (Union rw)) then
    let! subs := mapM (fun child => expandRewrite ns obj rel self child) (Union rw) in
    ret (unionTree self subs)
  else if negb (is_nil (Intersection rw)) then
    let! subs := mapM (fun child => expandRewrite ns obj rel self child) (Intersection rw) in
    ret (intersectionTree self subs)
  else match Exclusion rw with
  | Some ex =>
      let! inc := expandRewrite ns obj rel self (Include ex) in
      let! exc := expandRewrite ns obj rel self (Exclude ex) in
      ret (excludeTree self inc exc)
  | None =>
      if negb (String.eqb (Computed rw) "") then rec ns obj (Computed rw)
      else if negb (String.eqb (TuplesetRelation rw) "") then expandTupleset ns obj self rw
      else ret (bareTree self)
  end.
End Rule.

(** [left] is [maxDepth + 1 - depth], as for [check]. *)
Fixpoint expand (left : nat) (ns obj rel : string) : St expandState Tree := fun s =>
  let self := mkSubjectSet ns obj rel in
  match left with
  | O => (do! expandRecord BackstopDepth in ret (bareTree self)) s
  | S left' =>
      let key := visitKey ns obj rel in
      if decide (key ∈ x_visited s) then (do! expandRecord BackstopCycle in ret (bareTree self)) s else
      let s1 := mkExpandState (x_count s) (x_st s) ({[key]} ∪ x_visited s) in
      let '(r, s2) := expandRewrite (expand left') ns obj rel self (rewrite_of m ns rel) s1 in
      (r, mkExpandState (x_count s2) (x_st s2) (x_visited s2 ∖ {[key]}))
  end.
End Expand.

Section ExpandEntry.
Context (e : Engine).

Definition ExpandWithModel (m : Model) (projectID tenantID namespace objectID relation : string)
    (maxNodes maxReads : Z) (bs : option Backstops) : result Tree * expandState :=
  expand (reader e) m projectID tenantID maxNodes (S (maxDepth e)) namespace objectID relation
    (mkExpandState 0 (newEvalState (expandBudget e (effectiveMaxReads e maxReads) maxNodes) bs) ∅).

Definition Expand (projectID tenantID namespace objectID relation : string)
    (maxNodes : Z) (bs : option Backstops) : result Tree * option Backstops :=
  match ModelFor (resolver e) projectID with
  | Err err => (Err err, bs)
  | Ok m =>
      let '(r, s) := ExpandWithModel m projectID tenantID namespace objectID relation maxNodes 0 bs in
      (r, collector (x_st s))
  end.
End ExpandEntry.

(** Structural induction through the children of a tree. *)
Section TreeInd.
Context (P : Tree -> Prop).
Context (step : forall self us ins ex users sets w,
  Forall P us -> Forall P ins ->
  (forall x, ex = Some x -> P (xt_Include x) /\ P (xt_Exclude x)) ->
  P (mkTree self us ins ex users sets w)).

Lemma Tree_ind' : forall t, P t.
Proof.
  fix IH 1. intros [self us ins ex users sets w]. apply step.
  - induction us as [|u us IHus]; constructor; [apply IH | exact IHus].
  - induction ins as [|u ins IHins]; constructor; [apply IH | exact IHins].
  - destruct ex as [[i x]|]; [|discriminate].
    intros e [= <-]. split; [apply (IH i) | apply (IH x)].
Qed.
End TreeInd.
