(* ===== verification/ExpandTheorems.v ===== *)
(** * What an expansion guarantees

    The node cap bounds everything the tree holds except the bare leaves left by
    cycle and depth cuts, and every subject at a leaf is backed by the model:
    evaluating the tree's set algebra only admits users the relation grants. *)

From stdpp Require Import base gmap strings list pretty.
From Stdlib Require Import ZArith Lia Ascii.
From S2P Require Import Prelude Conditions Model Engine Semantics Granted Expand EngineSound EngineTheorems.
#[local] Open Scope Z_scope.

(** ** Size of a tree *)
Definition isBare (t : Tree) : bool :=
  is_nil (tr_Union t) && is_nil (tr_Intersection t)
  && (match tr_Exclude t with None => true | Some _ => false end)
  && is_nil (tr_Users t) && is_nil (tr_Sets t) && negb (tr_Wildcard t).

Definition sumZ {A} (f : A -> Z) (l : list A) : Z := foldr (fun x n => f x + n) 0 l.

(** Nodes and leaf subjects. *)
Fixpoint treeSize (t : Tree) : Z :=
  1 + sumZ treeSize (tr_Union t) + sumZ treeSize (tr_Intersection t)
  + (match tr_Exclude t with None => 0 | Some x => treeSize (xt_Include x) + treeSize (xt_Exclude x) end)
  + Z.of_nat (length (tr_Users t)) + Z.of_nat (length (tr_Sets t)) + (if tr_Wildcard t then 1 else 0).

(** The same without the nodes that carry nothing. *)
Fixpoint treeWeight (t : Tree) : Z :=
  (if isBare t then 0 else 1) + sumZ treeWeight (tr_Union t) + sumZ treeWeight (tr_Intersection t)
  + (match tr_Exclude t with None => 0 | Some x => treeWeight (xt_Include x) + treeWeight (xt_Exclude x) end)
  + Z.of_nat (length (tr_Users t)) + Z.of_nat (length (tr_Sets t)) + (if tr_Wildcard t then 1 else 0).

Section Counting.
Context (rd : TupleReader) (m : Model) (projectID tenantID : string) (max : Z).

(** [c] pays for the weight of what it returns and stays within the cap. *)
Definition pays {A} (w : A -> Z) (c : St expandState A) : Prop :=
  forall s a s', c s = (Ok a, s') ->
    x_count s + w a <= x_count s' /\ (0 < max -> x_count s <= max -> x_count s' <= max).

Lemma pays_bind {A B} (w : A -> Z) (w' : B -> Z) c (k : A -> St expandState B) :
  pays w c -> (forall a, pays (fun b => w' b - w a) (k a)) -> pays w' (bind c k).
Proof.
  intros Hc Hk s b s' (a & s1 & H1 & H2)%bind_inv_ok.
  destruct (Hc _ _ _ H1), (Hk _ _ _ _ H2). split; [lia|auto].
Qed.

Lemma pays_ret {A} (w : A -> Z) a : w a <= 0 -> pays w (ret a).
Proof. intros Hw s b s' [= <- <-]. split; [lia|auto]. Qed.

Lemma pays_le {A} (w w' : A -> Z) c : (forall a, w' a <= w a) -> pays w c -> pays w' c.
Proof. intros Hle Hc s a s' H. destruct (Hc _ _ _ H). specialize (Hle a). split; [lia|auto]. Qed.

Lemma pays_bump n : 0 <= n -> pays (fun _ => n) (bump max n).
Proof.
  intros Hn s a s'. unfold bump. simpl. destruct (_ && _) eqn:Hb; [done|]. intros [= _ <-]. simpl.
  rewrite andb_false_iff, !Z.ltb_ge in Hb. lia.
Qed.

Lemma pays_charge : pays (fun _ => 0) expandCharge.
Proof.
  intros s a s'. unfold expandCharge. destruct (chargeOrRecord _) as [r st'].
  intros [= _ <-]. simpl. lia.
Qed.

Lemma pays_record reason : pays (fun _ => 0) (expandRecord reason).
Proof. intros s a s' [= _ <-]. simpl. lia. Qed.

Lemma pays_read ns obj rel : pays (fun _ => 0) (expandRead rd projectID tenantID ns obj rel).
Proof. intros s a s' [= _ <-]. simpl. lia. Qed.

Lemma pays_mapM {A B} (w : B -> Z) (f : A -> St expandState B) xs :
  Forall (fun x => pays w (f x)) xs -> pays (sumZ w) (mapM f xs).
Proof.
  induction 1 as [|x xs Hx _ IH]; simpl; [by apply pays_ret|].
  apply (pays_bind w); [done|]. intros y. apply (pays_bind (sumZ w)); [done|].
  intros ys. apply pays_ret. simpl. lia.
Qed.

Lemma isBare_union self ts : 0 <= sumZ treeWeight ts ->
  treeWeight (unionTree self ts) <= 1 + sumZ treeWeight ts.
Proof. simpl. destruct (isBare _); simpl; lia. Qed.

Lemma leafAdd_weight t s : treeWeight (leafAdd t s) <= treeWeight t + 1 + (if isBare t then 1 else 0).
Proof.
  destruct t as [self us ins ex users sets w]. simpl.
  destruct (Wildcard s); [|destruct (Set_ s)]; simpl; rewrite ?length_app; simpl;
    destruct (isBare (mkTree self us ins ex users sets w));
    try destruct (isBare _); destruct w; lia.
Qed.

Lemma leafAdd_not_bare t s : isBare (leafAdd t s) = false.
Proof.
  destruct t as [self us ins ex users sets w]. unfold isBare. simpl.
  destruct (Wildcard s); [|destruct (Set_ s)]; simpl; rewrite ?andb_false_r; try done;
    [destruct sets|destruct users]; simpl; by rewrite ?andb_false_r.
Qed.

Lemma leaf_weight subs t :
  treeWeight (foldl leafAdd t subs)
  <= treeWeight t + Z.of_nat (length subs) + (if isBare t then 1 else 0).
Proof.
  revert t. induction subs as [|s subs IH]; intros t; cbn [foldl length].
  - destruct (isBare t); lia.
  - specialize (IH (leafAdd t s)). rewrite leafAdd_not_bare in IH.
    pose proof (leafAdd_weight t s). lia.
Qed.

Lemma treeWeight_nonneg t : 0 <= treeWeight t.
Proof.
  induction t as [self us ins ex users sets w Hu Hi He] using Tree_ind'.
  assert (Hsum : forall l, Forall (fun t => 0 <= treeWeight t) l -> 0 <= sumZ treeWeight l).
  { induction 1; simpl; lia. }
  apply Hsum in Hu, Hi. cbn [treeWeight tr_Union tr_Intersection tr_Exclude tr_Users tr_Sets tr_Wildcard].
  assert (0 <= match ex with
               | None => 0
               | Some x => treeWeight (xt_Include x) + treeWeight (xt_Exclude x)
               end).
  { destruct ex as [x|]; [destruct (He x eq_refl)|]; lia. }
  destruct (isBare _), w; lia.
Qed.

Lemma sumZ_weight_nonneg ts : 0 <= sumZ treeWeight ts.
Proof. induction ts as [|t ts IH]; simpl; [lia|]. pose proof (treeWeight_nonneg t). lia. Qed.

Section Rule.
Context (rec : string -> string -> string -> St expandState Tree).
Context (Hrec : forall ns obj rel, pays treeWeight (rec ns obj rel)).

Lemma pays_this ns obj rel self :
  pays (fun t => treeWeight t - 1) (expandThis rd projectID tenantID max ns obj rel self).
Proof.
  apply (pays_bind (fun _ => 0)); [apply pays_charge|]. intros _.
  apply (pays_bind (fun _ => 0)); [apply pays_read|]. intros subs.
  apply (pays_bind (fun _ => Z.of_nat (length subs))); [apply pays_bump; lia|]. intros _.
  apply pays_ret. pose proof (leaf_weight subs (bareTree self)).
  change (treeWeight (bareTree self)) with 0 in *. change (isBare (bareTree self)) with true in *. lia.
Qed.

Lemma pays_pointers cr subs : pays (sumZ treeWeight) (expandPointers rec cr subs).
Proof.
  induction subs as [|s subs IH]; simpl; [by apply pays_ret|].
  destruct (Set_ s) as [ss|]; [|done].
  apply (pays_bind treeWeight); [done|]. intros t.
  apply (pays_bind (sumZ treeWeight)); [done|]. intros ts. apply pays_ret. simpl. lia.
Qed.

Lemma pays_union self (c : St expandState (list Tree)) :
  pays (sumZ treeWeight) c ->
  pays (fun t => treeWeight t - 1) (let! subs := c in ret (unionTree self subs)).
Proof.
  intros Hc. apply (pays_bind (sumZ treeWeight)); [done|]. intros ts. apply pays_ret.
  pose proof (isBare_union self ts (sumZ_weight_nonneg ts)). lia.
Qed.

Lemma pays_expandRewrite ns obj rel self rw :
  pays treeWeight (expandRewrite rd projectID tenantID max rec ns obj rel self rw).
Proof.
  induction rw as [us ins ex c ts cr IHu IHi IHe] using Rewrite_ind'. simpl.
  apply (pays_bind (fun _ => 1)); [by apply pays_bump|]. intros _.
  destruct (isThis _); [apply pays_this|].
  destruct (negb (is_nil us)); [by apply pays_union, pays_mapM|].
  destruct (negb (is_nil ins)).
  { apply (pays_bind (sumZ treeWeight)); [by apply pays_mapM|]. intros l. apply pays_ret.
    simpl. destruct (isBare _); lia. }
  destruct ex as [x|].
  { destruct (IHe x eq_refl) as [Hi Hx].
    apply (pays_bind treeWeight); [done|]. intros inc.
    apply (pays_bind treeWeight); [done|]. intros exc. apply pays_ret. simpl. lia. }
  destruct (negb _); [eapply pays_le; [|apply Hrec]; simpl; intros; lia|].
  destruct (negb _); [|apply pays_ret; simpl; lia].
  apply (pays_bind (fun _ => 0)); [apply pays_charge|]. intros _.
  apply (pays_bind (fun _ => 0)); [apply pays_read|]. intros subs.
  eapply pays_le; [|apply pays_union, pays_pointers]. simpl. intros; lia.
Qed.
End Rule.

Lemma pays_expand left ns obj rel : pays treeWeight (expand rd m projectID tenantID max left ns obj rel).
Proof.
  revert ns obj rel. induction left as [|left IH]; intros ns obj rel s t s'; cbn [expand].
  { revert s t s'. apply (pays_bind (fun _ => 0)); [apply pays_record|].
    intros _. apply pays_ret. simpl. lia. }
  case_decide.
  { revert s t s' H. intros s t s' _. revert s t s'.
    apply (pays_bind (fun _ => 0)); [apply pays_record|]. intros _. apply pays_ret. simpl. lia. }
  destruct (expandRewrite _ _ _ _ _ _ _ _ _ _ _) as [r s2] eqn:He. intros [= -> <-]. simpl.
  exact (pays_expandRewrite _ IH _ _ _ _ _ _ _ _ He).
Qed.
End Counting.

(** ** The users a tree admits *)

(** Set algebra of the tree for one user; [P] decides the usersets a leaf names. *)
Fixpoint treeAdmits (P : SubjectSet -> Prop) (u : string) (t : Tree) : Prop :=
  match tr_Union t, tr_Intersection t, tr_Exclude t with
  | _ :: _, _, _ => foldr (fun c acc => treeAdmits P u c \/ acc) False (tr_Union t)
  | [], _ :: _, _ => foldr (fun c acc => treeAdmits P u c /\ acc) True (tr_Intersection t)
  | [], [], Some x => treeAdmits P u (xt_Include x) /\ ~ treeAdmits P u (xt_Exclude x)
  | [], [], None => tr_Wildcard t = true \/ (u ∈ tr_Users t /\ u <> "")
                    \/ exists ss, ss ∈ tr_Sets t /\ P ss
  end.

Lemma foldr_or_Exists {A} (P : A -> Prop) l : foldr (fun c acc => P c \/ acc) False l <-> Exists P l.
Proof. induction l; simpl; rewrite ?Exists_nil, ?Exists_cons; naive_solver. Qed.
Lemma foldr_and_Forall {A} (P : A -> Prop) l : foldr (fun c acc => P c /\ acc) True l <-> Forall P l.
Proof. induction l; simpl; rewrite ?Forall_nil, ?Forall_cons; naive_solver. Qed.

(** The store with every condition dropped: an expansion ignores conditions. *)
Definition uncond (s : Subject) : Subject := mkSubject (UserID s) (Set_ s) (Wildcard s) None.
Definition uncondReader (rd : TupleReader) : TupleReader := {|
  ListSubjects := fun projectID tenantID ns obj rel =>
    match ListSubjects rd projectID tenantID ns obj rel with
    | Ok subs => Ok (uncond <$> subs)
    | Err e => Err e
    end;
  ListObjectIDs := ListObjectIDs rd;
|}.

Section Leaf.
Definition plain (s : Subject) : bool := negb (Wildcard s) && match Set_ s with None => true | Some _ => false end.

Lemma leaf_fields subs self us ins ex users sets w :
  exists users' sets',
    foldl leafAdd (mkTree self us ins ex users sets w) subs
    = mkTree self us ins ex (users ++ users') (sets ++ sets') (w || existsb Wildcard subs) /\
    (forall u, u ∈ users' -> exists s, s ∈ subs /\ plain s = true /\ UserID s = u) /\
    (forall ss, ss ∈ sets' -> exists s, s ∈ subs /\ Wildcard s = false /\ Set_ s = Some ss).
Proof.
  revert users sets w. induction subs as [|s subs IH]; intros users sets w; simpl.
  { exists [], []. rewrite !app_nil_r, orb_false_r. split_and!; [done| |]; by intros ? ?%not_elem_of_nil. }
  destruct (Wildcard s) eqn:Hw; [|destruct (Set_ s) as [ss|] eqn:Hss].
  - destruct (IH users sets true) as (us' & ss' & -> & Hu & Hs). exists us', ss'.
    rewrite orb_true_r. split_and!; [done| |]; intros x Hx;
      [destruct (Hu x Hx) as (? & ? & ?) | destruct (Hs x Hx) as (? & ? & ?)];
      eexists; (split; [by right|done]).
  - destruct (IH users (sets ++ [ss]) w) as (us' & ss' & -> & Hu & Hs). exists us', (ss :: ss').
    rewrite <-app_assoc. split_and!; [done| |].
    + intros x Hx. destruct (Hu x Hx) as (? & ? & ?). eexists; (split; [by right|done]).
    + intros x [->|Hx]%elem_of_cons; [exists s; split_and!; [left|..]; done|].
      destruct (Hs x Hx) as (? & ? & ?). eexists; (split; [by right|done]).
  - destruct (IH (users ++ [UserID s]) sets w) as (us' & ss' & -> & Hu & Hs). exists (UserID s :: us'), ss'.
    rewrite <-app_assoc. split_and!; [done| |].
    + intros x [->|Hx]%elem_of_cons; [exists s; unfold plain; rewrite Hw, Hss; split_and!; [left|..]; done|].
      destruct (Hu x Hx) as (? & ? & ?). eexists; (split; [by right|done]).
    + intros x Hx. destruct (Hs x Hx) as (? & ? & ?). eexists; (split; [by right|done]).
Qed.
End Leaf.

Section Sound.
Context `{TextParsers} (rd : TupleReader) (m : Model) (projectID tenantID : string) (max : Z).
Context (u : string) (Hm : exclusionFreeModel m).

#[local] Abbreviation GRANTED := (granted (uncondReader rd) m projectID tenantID (mkQuery u None) ∅).
#[local] Abbreviation GRANTEDBY := (grantedBy (uncondReader rd) m projectID tenantID (mkQuery u None) ∅).
Definition setGranted (ss : SubjectSet) : Prop :=
  GRANTED (ss_Namespace ss) (ss_ObjectID ss) (ss_Relation ss).
#[local] Abbreviation ADMITS := (treeAdmits setGranted u).

Lemma uncond_stored ns obj rel subs s :
  ListSubjects rd projectID tenantID ns obj rel = Ok subs -> s ∈ subs ->
  stored (uncondReader rd) projectID tenantID ∅ ns obj rel (uncond s).
Proof.
  intros Hl Hs. exists (uncond <$> subs). simpl. rewrite Hl. split_and!; [done| |done].
  apply list_elem_of_fmap. eauto.
Qed.

(** A leaf admits what its relation stores. *)
Lemma leaf_sound ns obj rel rw subs self :
  isThis rw = true -> ListSubjects rd projectID tenantID ns obj rel = Ok subs ->
  ADMITS (foldl leafAdd (bareTree self) subs) -> GRANTEDBY ns obj rel rw.
Proof.
  intros Hit Hl. unfold bareTree.
  destruct (leaf_fields subs self [] [] None [] [] false) as (us & sets & -> & Hu & Hs). simpl.
  pose proof (uncond_stored ns obj rel subs) as Hst.
  intros [Hw|[[Hin Hne]|(ss & Hin & Hg)]].
  - apply existsb_Exists, Exists_exists in Hw as (s & Hs' & Hw). by eapply (by_public _ _ _ _ _ _ _ _ _ _ (uncond s)); eauto.
  - destruct (Hu _ Hin) as (s & Hs' & [_ Hp]%andb_prop & <-).
    eapply (by_user _ _ _ _ _ _ _ _ _ _ (uncond s)); eauto. simpl. by destruct (Set_ s).
  - destruct (Hs _ Hin) as (s & Hs' & _ & Hss).
    eapply (by_userset _ _ _ _ _ _ _ _ _ _ (uncond s) ss); eauto.
Qed.

Section Rule.
Context (rec : string -> string -> string -> St expandState Tree).
Context (Hrec : forall ns obj rel s t s', rec ns obj rel s = (Ok t, s') -> ADMITS t -> GRANTED ns obj rel).

Lemma mapM_inv {A B} (f : A -> St expandState B) xs s ys s' :
  mapM f xs s = (Ok ys, s') ->
  Forall2 (fun x y => exists s1 s2, f x s1 = (Ok y, s2)) xs ys.
Proof.
  revert s ys s'. induction xs as [|x xs IH]; intros s ys s'; simpl.
  - intros [= <- _]. constructor.
  - intros (y & s1 & H1 & (ys' & s2 & H2 & [= <- _])%bind_inv_ok)%bind_inv_ok. constructor; eauto.
Qed.

Lemma pointers_sound cr subs s ts s' :
  expandPointers rec cr subs s = (Ok ts, s') ->
  Forall (fun t => exists x ss, x ∈ subs /\ Set_ x = Some ss
                   /\ (ADMITS t -> GRANTED (ss_Namespace ss) (ss_ObjectID ss) cr)) ts.
Proof.
  revert s ts. induction subs as [|x subs IH]; intros s ts; simpl; [intros [= <- _]; constructor|].
  assert (Hweak : forall s0 ts0, expandPointers rec cr subs s0 = (Ok ts0, s') ->
    Forall (fun t => exists x0 ss, x0 ∈ x :: subs /\ Set_ x0 = Some ss
                     /\ (ADMITS t -> GRANTED (ss_Namespace ss) (ss_ObjectID ss) cr)) ts0).
  { intros s0 ts0 H0. eapply Forall_impl; [exact (IH _ _ H0)|].
    intros t (x0 & ss & ? & ? & ?). exists x0, ss. split_and!; [by right|done|done]. }
  destruct (Set_ x) as [ss|] eqn:Hss; [|apply Hweak].
  intros (t & s1 & H1 & (ts' & s2 & H2 & [= <- <-])%bind_inv_ok)%bind_inv_ok. constructor; [|eauto].
  exists x, ss. split_and!; [left|done|]. by eapply Hrec.
Qed.

Lemma tupleset_sound ns obj rel rw self s t s' :
  Union rw = [] -> Intersection rw = [] -> Exclusion rw = None -> Computed rw = "" ->
  TuplesetRelation rw <> "" ->
  expandTupleset rd projectID tenantID rec ns obj self rw s = (Ok t, s') ->
  ADMITS t -> GRANTEDBY ns obj rel rw.
Proof.
  intros Hu Hi Hx Hc Ht (? & s1 & _ & (subs & s2 & [= Hl <-] & (ts & s3 & H2 & [= <- _])%bind_inv_ok)%bind_inv_ok)%bind_inv_ok.
  apply pointers_sound in H2. destruct ts as [|t0 ts].
  { simpl. intros [?|[[?%not_elem_of_nil _]|(? & ?%not_elem_of_nil & _)]]; done. }
  simpl. intros Ha. apply (foldr_or_Exists _ (t0 :: ts)) in Ha.
  apply Exists_exists in Ha as (t & Hin & Ha). rewrite Forall_forall in H2.
  destruct (H2 t Hin) as (y & ss & Hx' & Hss & Hg).
  eapply (by_tupleset _ _ _ _ _ _ _ _ _ _ (uncond y) ss); eauto. eapply uncond_stored; eauto.
Qed.

Lemma expandRewrite_sound ns obj rel self rw s t s' :
  exclusionFree rw = true ->
  expandRewrite rd projectID tenantID max rec ns obj rel self rw s = (Ok t, s') ->
  ADMITS t -> GRANTEDBY ns obj rel rw.
Proof.
  revert s t s'. induction rw as [us ins ex c ts cr IHu IHi IHe] using Rewrite_ind'. intros s t s'. simpl.
  intros [[Hus Hins]%andb_prop Hex]%andb_prop. rewrite forallb_Forall, Forall_forall in Hus, Hins.
  rewrite Forall_forall in IHu, IHi.
  intros (? & s1 & _ & H1)%bind_inv_ok. destruct (isThis _) eqn:Hit.
  { apply bind_inv_ok in H1 as (? & s2 & _ & (subs & s3 & [= Hl <-] & (? & s4 & _ & [= <- _])%bind_inv_ok)%bind_inv_ok).
    by eapply leaf_sound. }
  destruct us as [|r0 us]; cbv beta iota delta [is_nil negb] in H1.
  2:{ apply bind_inv_ok in H1 as (l & s2 & H1%mapM_inv & [= <- _]).
      destruct l as [|t0 l]; [by apply Forall2_nil_inv_r in H1|]. simpl.
      intros Ha. apply (foldr_or_Exists _ (t0 :: l)), Exists_exists in Ha as (t & Hin & Ha).
      apply list_elem_of_lookup in Hin as [i Hi].
      destruct (Forall2_lookup_r _ _ _ _ _ H1 Hi) as (y & Hx%list_elem_of_lookup_2 & sa & sb & Hf).
      eapply by_union; eauto. }
  destruct ins as [|r0 ins]; cbv beta iota delta [is_nil negb] in H1.
  2:{ apply bind_inv_ok in H1 as (l & s2 & H1%mapM_inv & [= <- _]).
      destruct l as [|t0 l]; [by apply Forall2_nil_inv_r in H1|]. simpl.
      intros Ha. apply (foldr_and_Forall _ (t0 :: l)) in Ha. rewrite Forall_forall in Ha.
      eapply by_intersection; [done|done|done|]. intros y Hx. pose proof Hx as Hx'.
      apply list_elem_of_lookup in Hx' as [i Hi]. simpl in Hi.
      destruct (Forall2_lookup_l _ _ _ _ _ H1 Hi) as (t & Ht%list_elem_of_lookup_2 & sa & sb & Hf).
      eauto. }
  destruct ex; [done|].
  destruct (String.eqb_spec c "") as [->|Hc]; simpl in H1; [|by intros Ha; eapply by_computed; eauto].
  destruct (String.eqb_spec ts "") as [->|Ht]; simpl in H1; [done|]. by eapply tupleset_sound.
Qed.
End Rule.

Lemma bareTree_admits self : ~ ADMITS (bareTree self).
Proof. simpl. intros [?|[[?%not_elem_of_nil _]|(? & ?%not_elem_of_nil & _)]]; done. Qed.

Lemma expand_sound left ns obj rel s t s' :
  expand rd m projectID tenantID max left ns obj rel s = (Ok t, s') -> ADMITS t -> GRANTED ns obj rel.
Proof.
  revert ns obj rel s t s'. induction left as [|left IH]; intros ns obj rel s t s'; cbn [expand].
  { intros [= <- _] []%bareTree_admits. }
  case_decide; [intros [= <- _] []%bareTree_admits|].
  destruct (expandRewrite _ _ _ _ _ _ _ _ _ _ _) as [r s2] eqn:He. intros [= -> <-] Ha.
  apply granted_rule. eapply expandRewrite_sound; eauto using exclusionFreeModel_rewrite_of.
Qed.
End Sound.

(** ** Claims *)

(** The node cap bounds the expansion: when a cap is set and the call
    succeeds, the nodes that carry anything and the leaf subjects of the returned
    tree together stay within the cap. *)
Theorem expand_within_cap e m projectID tenantID ns obj rel maxNodes n bs t s :
  0 < maxNodes ->
  ExpandWithModel e m projectID tenantID ns obj rel maxNodes n bs = (Ok t, s) ->
  treeWeight t <= maxNodes.
Proof.
  intros Hmax He. destruct (pays_expand _ _ _ _ maxNodes _ _ _ _ _ _ _ He) as [Hw Hc]. simpl in *.
  specialize (Hc Hmax). lia.
Qed.

Definition expandedSample : result Tree * expandState :=
  ExpandWithModel (sampleEngine sampleTuples 100) DefaultModel "p" "t" "workspace" "acme" "guest" 20 0 None.
Definition treeOf (r : result Tree) : Tree :=
  match r with Ok t => t | Err _ => bareTree (mkSubjectSet "" "" "") end.

Lemma expand_within_cap_witness : treeWeight (treeOf expandedSample.1) <= 20.
Proof.
  apply (expand_within_cap (sampleEngine sampleTuples 100) DefaultModel "p" "t" "workspace" "acme" "guest"
           20 0 None (treeOf expandedSample.1) expandedSample.2).
  - reflexivity.
  - vm_compute. reflexivity.
Defined.

(** C32.  An expansion never shows a user the relation does not grant: for a
    model without exclusions, a user the returned tree admits, with the usersets
    at its leaves resolved by the rules, holds the relation once the conditions
    on tuples are ignored (the tree does not show conditions). *)
Theorem expand_admits_only_granted `{TextParsers} e m projectID tenantID ns obj rel maxNodes n bs t s u :
  exclusionFreeModel m ->
  ExpandWithModel e m projectID tenantID ns obj rel maxNodes n bs = (Ok t, s) ->
  treeAdmits (setGranted (reader e) m projectID tenantID u) u t ->
  granted (uncondReader (reader e)) m projectID tenantID (mkQuery u None) ∅ ns obj rel.
Proof. intros Hm He. by eapply expand_sound. Qed.

Lemma expand_admits_only_granted_witness :
  @granted sampleParsers (uncondReader (tableReader sampleTuples)) DefaultModel "p" "t"
    (mkQuery "ceo" None) ∅ "workspace" "acme" "guest".
Proof.
  apply (@expand_admits_only_granted sampleParsers (sampleEngine sampleTuples 100) DefaultModel "p" "t"
           "workspace" "acme" "guest" 20 0 None (treeOf expandedSample.1) expandedSample.2 "ceo").
  - apply (bool_decide_unpack _). vm_compute. exact I.
  - vm_compute. reflexivity.
  - let t := eval vm_compute in (treeOf expandedSample.1) in
    replace (treeOf expandedSample.1) with t by (vm_compute; reflexivity).
    right. left. right. left. right. left. right. left.
    split; [left|intros [=]].
Defined.

(** A resource that is its own parent, through [n] distinct pointer tuples. *)
Definition selfParent (n : nat) : list Tuple :=
  (fun i => tup "resource" "r" "parent" (userset "resource" "r" (pretty.pretty i))) <$> seq 0 n.

(** The cap does not see the leaves left by cycle cuts: with a cap of 9
    nodes, 20 pointer tuples that lead back to the object itself make a tree of
    more than 40 nodes, and the call succeeds. *)
Theorem expand_cap_misses_cut_leaves :
  exists t s,
    ExpandWithModel (sampleEngine (selfParent 20) 100) DefaultModel "p" "t" "resource" "r" "viewer" 9 0 None
    = (Ok t, s) /\ 40 < treeSize t /\ treeWeight t <= 9.
Proof.
  set (r := ExpandWithModel _ _ _ _ _ _ _ _ _ _). exists (treeOf r.1), r.2.
  split_and!; vm_compute; [reflexivity|reflexivity|intros [=]].
Qed.
