(* ===== verification/CheckSet.v ===== *)
(** * Checking a userset (pkg/authz/checkset.go)

    [CheckSet] asks whether a queried userset intersects the subjects of a
    relation: by structural inclusion, member by member, or, for a queried set
    that is public, by the target being non-empty.  All three phases share one
    evaluation state and so one read budget. *)

From stdpp Require Import base gmap strings list.
From Stdlib Require Import ZArith Lia Ascii.
From S2P Require Import Prelude Conditions Model Engine Expand.
#[local] Open Scope Z_scope.

(** Go's [map[string]struct{}]. *)
Abbreviation userSet := (gmap string unit).

(** The evaluation state and the map [visited] of member resolution. *)
Record memberState := mkMemberState { m_st : evalState; m_visited : gset string }.

Definition intersectUsers (a b : userSet) : userSet :=
  let '(a, b) := if decide (size b < size a)%nat then (b, a) else (a, b) in
  filter (fun kv => is_Some (b !! kv.1)) a.

(** The loops over the children of a union and of an intersection; [f] computes
    the members of one child, [acc] is [None] while [bounded] is false. *)
Section ChildLoops.
Context (f : Tree -> St memberState (userSet * bool)).

Fixpoint unionMembers (cs : list Tree) (out : userSet) (everyone : bool) : St memberState (userSet * bool) :=
  match cs with
  | [] => ret (out, everyone)
  | c :: cs' =>
      let! (cu, ce) := f c in
      unionMembers cs' (cu ∪ out) (everyone || ce)
  end.

Fixpoint intersectionMembers (cs : list Tree) (acc : option userSet) : St memberState (userSet * bool) :=
  match cs with
  | [] => ret (match acc with None => (∅, true) | Some a => (a, false) end)
  | c :: cs' =>
      let! (cu, ce) := f c in
      if ce : bool then intersectionMembers cs' acc
      else intersectionMembers cs' (Some (match acc with None => cu | Some a => intersectUsers a cu end))
  end.
End ChildLoops.

Section Members.
Context (e : Engine) (m : Model) (projectID tenantID : string).

Section Tree.
(** [rec set] is [resolveMembers] one level deeper. *)
Context (rec : SubjectSet -> St memberState (userSet * bool)).

Fixpoint leafSets (sets : list SubjectSet) (out : userSet) (everyone : bool)
    : St memberState (userSet * bool) :=
  match sets with
  | [] => ret (out, everyone)
  | s :: sets' =>
      let! (su, se) := rec s in
      leafSets sets' (su ∪ out) (everyone || se)
  end.

Fixpoint membersOfTree (t : Tree) : St memberState (userSet * bool) :=
  if negb (is_nil (tr_Union t)) then unionMembers membersOfTree (tr_Union t) ∅ false
  else if negb (is_nil (tr_Intersection t)) then intersectionMembers membersOfTree (tr_Intersection t) None
  else match tr_Exclude t with
  | Some x =>
      let! (inc, incEveryone) := membersOfTree (xt_Include x) in
      let! (exc, _) := membersOfTree (xt_Exclude x) in
      ret (filter (fun kv => exc !! kv.1 = None) inc, incEveryone)
  | None => leafSets (tr_Sets t) (list_to_map ((fun u => (u, tt)) <$> tr_Users t)) (tr_Wildcard t)
  end.
End Tree.

(** [left] is [maxDepth + 1 - depth], as for [check] and [expand]. *)
Fixpoint resolveMembers (left : nat) (set : SubjectSet) : St memberState (userSet * bool) := fun s =>
  match left with
  | O => (Ok (∅, false), mkMemberState (recordBackstop BackstopDepth (m_st s)) (m_visited s))
  | S left' =>
      let key := visitKey (ss_Namespace set) (ss_ObjectID set) (ss_Relation set) in
      if decide (key ∈ m_visited s)
      then (Ok (∅, false), mkMemberState (recordBackstop BackstopCycle (m_st s)) (m_visited s)) else
      let '(r, x) := expand (reader e) m projectID tenantID 0 left
                       (ss_Namespace set) (ss_ObjectID set) (ss_Relation set)
                       (mkExpandState 0 (m_st s) ∅) in
      let '(r', s') :=
        match r with
        | Err err => (Err err, mkMemberState (x_st x) ({[key]} ∪ m_visited s))
        | Ok tree => membersOfTree (resolveMembers left') tree (mkMemberState (x_st x) ({[key]} ∪ m_visited s))
        end in
      (r', mkMemberState (m_st s') (m_visited s' ∖ {[key]}))
  end.
End Members.

Section Entry.
Context `{TextParsers} `{MapRange} (e : Engine).

(** [resolveMembers] from the top: a fresh [visited] and depth 0. *)
Definition resolveAll (m : Model) (projectID tenantID : string) (set : SubjectSet)
    : St evalState (userSet * bool) := fun st =>
  let '(r, s) := resolveMembers e m projectID tenantID (S (maxDepth e)) set (mkMemberState st ∅) in
  (r, m_st s).

Definition CheckSetWithModel (m : Model) (projectID tenantID namespace objectID relation : string)
    (set : SubjectSet) (cc : anymap) (maxReads : Z) (bs : option Backstops) : result bool * evalState :=
  let top (q : subjectQuery) :=
    check (reader e) m projectID tenantID q cc (S (maxDepth e)) namespace objectID relation false in
  (let! ok := top (mkQuery "" (Some set)) in
   if ok : bool then ret true else
   let! (members, everyone) := resolveAll m projectID tenantID set in
   let! found := orLoop (fun kv =>
     do! modify (fun st => set_memo ∅ (set_visited ∅ st)) in
     top (mkQuery kv.1 None)) (range_map members) in
   if found : bool then ret true else
   if negb everyone then ret false else
   let! (tgt, tgtEveryone) :=
     resolveAll m projectID tenantID (mkSubjectSet namespace objectID relation) in
   ret (tgtEveryone || negb (Nat.eqb (size tgt) 0)))
    (newEvalState (fanOutBudget e (effectiveMaxReads e maxReads) (maxListObjectsOrDefault e)) bs).

Definition CheckSet (projectID tenantID namespace objectID relation : string)
    (set : SubjectSet) (cc : anymap) (bs : option Backstops) : result bool * option Backstops :=
  match ModelFor (resolver e) projectID with
  | Err err => (Err err, bs)
  | Ok m =>
      let '(r, st) := CheckSetWithModel m projectID tenantID namespace objectID relation set cc 0 bs in
      (r, collector st)
  end.
End Entry.
