(* ===== verification/CheckSetTheorems.v ===== *)
(** * What a userset check guarantees *)

From stdpp Require Import base gmap strings list.
From Stdlib Require Import ZArith Lia Ascii.
From S2P Require Import Prelude Conditions Model Engine Semantics Granted Expand EngineSound EngineFrame EngineTheorems ExpandTheorems CheckSet.
#[local] Open Scope Z_scope.

(** ** Trees of models without exclusion, over stores whose subjects have names *)
Fixpoint plainTree (t : Tree) : bool :=
  forallb plainTree (tr_Union t) && forallb plainTree (tr_Intersection t)
  && match tr_Exclude t with None => true | Some _ => false end
  && forallb (fun u => negb (String.eqb u "")) (tr_Users t).

(** A stored subject that is neither a userset nor the wildcard names a user;
    [validateTuple] refuses others. *)
Definition readerNamed (rd : TupleReader) (projectID tenantID : string) : Prop :=
  forall ns obj rel subs s,
    ListSubjects rd projectID tenantID ns obj rel = Ok subs -> s ∈ subs -> plain s = true -> UserID s <> "".

Section TreeShape.
Context (rd : TupleReader) (m : Model) (projectID tenantID : string) (max : Z).
Context (Hm : exclusionFreeModel m) (Hnamed : readerNamed rd projectID tenantID).

Definition yields {A} (P : A -> Prop) (c : St expandState A) : Prop :=
  forall s a s', c s = (Ok a, s') -> P a.

Lemma yields_bind {A B} (P : A -> Prop) (Q : B -> Prop) c (k : A -> St expandState B) :
  yields P c -> (forall a, P a -> yields Q (k a)) -> yields Q (bind c k).
Proof. intros Hc Hk s b s' (a & s1 & H1 & H2)%bind_inv_ok. by eapply Hk; [eapply Hc|]. Qed.
Lemma yields_any {A} (c : St expandState A) : yields (fun _ => True) c.
Proof. done. Qed.
Lemma yields_ret {A} (P : A -> Prop) a : P a -> yields P (ret a).
Proof. by intros Ha s b s' [= <- _]. Qed.
Lemma yields_mapM {A B} (P : B -> Prop) (f : A -> St expandState B) xs :
  Forall (fun x => yields P (f x)) xs -> yields (Forall P) (mapM f xs).
Proof.
  induction 1 as [|x xs Hx _ IH]; simpl; [by apply yields_ret|].
  apply (yields_bind P); [done|]. intros y Hy. apply (yields_bind (Forall P)); [done|].
  intros ys Hys. apply yields_ret. by constructor.
Qed.

#[local] Abbreviation EXFREE := (fun t => plainTree t = true).

Lemma unionTree_exfree self ts : Forall EXFREE ts -> EXFREE (unionTree self ts).
Proof. intros Hts%forallb_Forall. simpl. by rewrite Hts. Qed.
Lemma intersectionTree_exfree self ts : Forall EXFREE ts -> EXFREE (intersectionTree self ts).
Proof. intros Hts%forallb_Forall. simpl. by rewrite Hts. Qed.

Section Rule.
Context (rec : string -> string -> string -> St expandState Tree).
Context (Hrec : forall ns obj rel, yields EXFREE (rec ns obj rel)).

Lemma exfree_pointers cr subs : yields (Forall EXFREE) (expandPointers rec cr subs).
Proof.
  induction subs as [|s subs IH]; simpl; [by apply yields_ret|].
  destruct (Set_ s); [|done]. apply (yields_bind EXFREE); [done|]. intros t Ht.
  apply (yields_bind (Forall EXFREE)); [done|]. intros ts Hts. apply yields_ret. by constructor.
Qed.

Lemma exfree_expandRewrite ns obj rel self rw :
  exclusionFree rw = true ->
  yields EXFREE (expandRewrite rd projectID tenantID max rec ns obj rel self rw).
Proof.
  induction rw as [us ins ex c ts cr IHu IHi IHe] using Rewrite_ind'. simpl.
  intros [[Hus%forallb_Forall Hins%forallb_Forall]%andb_prop Hex]%andb_prop.
  apply (yields_bind (fun _ => True)); [done|]. intros _ _.
  destruct (isThis _).
  { apply (yields_bind (fun _ => True)); [done|]. intros _ _.
    apply (yields_bind (fun subs => ListSubjects rd projectID tenantID ns obj rel = Ok subs)); [by intros s l s' [= ? _]|].
    intros subs Hl. apply (yields_bind (fun _ => True)); [done|]. intros _ _. apply yields_ret.
    unfold bareTree. destruct (leaf_fields subs self [] [] None [] [] false) as (users & ? & -> & Hu & _). simpl.
    apply forallb_Forall, Forall_forall. intros v (s & Hs & Hp & <-)%Hu. apply negb_true_iff, String.eqb_neq. by eapply Hnamed. }
  destruct (negb _).
  { apply (yields_bind (Forall EXFREE)).
    - apply yields_mapM. apply (Forall_impl2 _ _ _ _ IHu Hus). auto.
    - intros l Hl. by apply yields_ret, unionTree_exfree. }
  destruct (negb _).
  { apply (yields_bind (Forall EXFREE)).
    - apply yields_mapM. apply (Forall_impl2 _ _ _ _ IHi Hins). auto.
    - intros l Hl. by apply yields_ret, intersectionTree_exfree. }
  destruct ex; [done|].
  destruct (negb _); [apply Hrec|]. destruct (negb _); [|by apply yields_ret].
  do 2 (apply (yields_bind (fun _ => True)); [done|]; intros ? _).
  apply (yields_bind (Forall EXFREE)); [apply exfree_pointers|].
  intros l Hl. by apply yields_ret, unionTree_exfree.
Qed.
End Rule.

Lemma exfree_expand left ns obj rel : yields EXFREE (expand rd m projectID tenantID max left ns obj rel).
Proof.
  revert ns obj rel. induction left as [|left IH]; intros ns obj rel s t s'; cbn [expand].
  { by intros [= <- _]. }
  case_decide; [by intros [= <- _]|].
  destruct (expandRewrite _ _ _ _ _ _ _ _ _ _ _) as [r s2] eqn:He. intros [= -> <-].
  eapply exfree_expandRewrite; [exact IH| |exact He]. by apply exclusionFreeModel_rewrite_of.
Qed.
End TreeShape.

(** ** Members of a tree *)
Section Members.
Context `{TextParsers} (e : Engine) (m : Model) (projectID tenantID : string) (u : string).
Context (Hm : exclusionFreeModel m) (Hnamed : readerNamed (reader e) projectID tenantID).

#[local] Abbreviation INSET := (setGranted (reader e) m projectID tenantID u).

(** What a resolved membership says about [u]. *)
Definition counts (r : userSet * bool) : Prop := is_Some (r.1 !! u) \/ r.2 = true.

Lemma counts_union us us' ev ev' : counts (us ∪ us', ev' || ev) -> counts (us, ev) \/ counts (us', ev').
Proof.
  intros [Hu|Hev]; simpl in *.
  - apply lookup_union_is_Some in Hu as []; [left|right]; left; done.
  - apply orb_true_iff in Hev as []; [right|left]; right; done.
Qed.

Lemma intersectUsers_lookup a b : is_Some (intersectUsers a b !! u) <-> is_Some (a !! u) /\ is_Some (b !! u).
Proof.
  unfold intersectUsers. case_decide; unfold is_Some; setoid_rewrite map_lookup_filter_Some; simpl;
    unfold is_Some; naive_solver.
Qed.

Section Tree.
Context (rec : SubjectSet -> St memberState (userSet * bool)).
Context (Hrec : forall ss s r s', rec ss s = (Ok r, s') -> counts r -> INSET ss).

Lemma leafSets_sound sets out ev s r s' :
  leafSets rec sets out ev s = (Ok r, s') -> counts r ->
  counts (out, ev) \/ exists ss, ss ∈ sets /\ INSET ss.
Proof.
  revert out ev s. induction sets as [|ss sets IH]; intros out ev s; simpl.
  { intros [= <- _]. auto. }
  intros ([su se] & s1 & H1 & H2)%bind_inv_ok Hr.
  destruct (IH _ _ _ H2 Hr) as [[Hc|Hc]%counts_union|(ss' & Hin & Hg)].
  - right. exists ss. split; [left|]. by eapply Hrec.
  - by left.
  - right. exists ss'. split; [by right|done].
Qed.

Lemma unionMembers_sound f cs out ev s r s' :
  Forall (fun c => forall s r s', f c s = (Ok r, s') -> counts r -> treeAdmits INSET u c) cs ->
  unionMembers f cs out ev s = (Ok r, s') -> counts r ->
  counts (out, ev) \/ Exists (treeAdmits INSET u) cs.
Proof.
  intros Hcs. revert out ev s. induction Hcs as [|c cs Hc _ IH]; intros out ev s; simpl.
  { intros [= <- _]. auto. }
  intros ([cu ce] & s1 & H1 & H2)%bind_inv_ok Hr.
  destruct (IH _ _ _ H2 Hr) as [[Hk|Hk]%counts_union|Hex]; eauto.
Qed.

Lemma intersectionMembers_sound f cs acc s r s' :
  Forall (fun c => forall s r s', f c s = (Ok r, s') -> counts r -> treeAdmits INSET u c) cs ->
  intersectionMembers f cs acc s = (Ok r, s') -> counts r ->
  (forall a, acc = Some a -> counts (a, false)) /\ Forall (treeAdmits INSET u) cs.
Proof.
  intros Hcs. revert acc s. induction Hcs as [|c cs Hc _ IH]; intros acc s; simpl.
  { intros [= <- _] Hr. split; [|constructor]. by intros a ->. }
  intros ([cu []] & s1 & H1 & H2)%bind_inv_ok Hr.
  - destruct (IH _ _ H2 Hr) as [Hacc Hall]. split; [done|]. constructor; [|done].
    eapply Hc; [exact H1|]. by right.
  - destruct (IH _ _ H2 Hr) as [Hacc Hall]. specialize (Hacc _ eq_refl).
    assert (counts (cu, false) /\ forall a, acc = Some a -> counts (a, false)) as [Hcu Ha].
    { destruct Hacc as [Hu|?]; [|done]. simpl in Hu. destruct acc as [a|].
      - apply intersectUsers_lookup in Hu as [Ha Hcu]. split; [by left|]. intros ? [= <-]. by left.
      - split; [by left|done]. }
    split; [done|]. constructor; [|done]. by eapply Hc.
Qed.

Lemma membersOfTree_sound t s r s' :
  plainTree t = true ->
  membersOfTree rec t s = (Ok r, s') -> counts r -> treeAdmits INSET u t.
Proof.
  revert s r s'. induction t as [self us ins ex users sets w Hus Hins Hex] using Tree_ind'.
  intros s r s' Hfree Hrun Hr. simpl in Hfree.
  apply andb_prop in Hfree as [[[Hfu%forallb_Forall Hfi%forallb_Forall]%andb_prop Hfx]%andb_prop Hfn%forallb_Forall].
  pose proof (Forall_impl2 _ _ _ _ Hus Hfu (fun t IH Hf s r s' => IH s r s' Hf)) as IHu. clear Hus Hfu.
  pose proof (Forall_impl2 _ _ _ _ Hins Hfi (fun t IH Hf s r s' => IH s r s' Hf)) as IHi. clear Hins Hfi.
  destruct ex; [done|]. destruct us as [|t0 us]; [destruct ins as [|t0 ins]|]; cbn [membersOfTree] in Hrun.
  - destruct (leafSets_sound _ _ _ _ _ _ Hrun Hr) as [[Hu|Hw]|Hs]; simpl in *; auto.
    right. left. destruct Hu as [[] Hu]. apply elem_of_list_to_map_2 in Hu.
    apply list_elem_of_fmap in Hu as (? & [= <-] & Hin). split; [done|].
    apply String.eqb_neq, negb_true_iff. exact (proj1 (Forall_forall _ _) Hfn _ Hin).
  - apply (foldr_and_Forall (treeAdmits INSET u) (t0 :: ins)).
    exact (proj2 (intersectionMembers_sound _ _ _ _ _ _ IHi Hrun Hr)).
  - apply (foldr_or_Exists (treeAdmits INSET u) (t0 :: us)).
    destruct (unionMembers_sound _ _ _ _ _ _ _ IHu Hrun Hr) as [[[? Hl]|?]|?]; [|done..].
    simpl in Hl. by rewrite lookup_empty in Hl.
Qed.
End Tree.

Lemma resolveMembers_sound left ss s r s' :
  resolveMembers e m projectID tenantID left ss s = (Ok r, s') -> counts r -> INSET ss.
Proof.
  assert (Hempty : ~ counts (∅, false)).
  { intros [[? Hl]|?]; [|done]. simpl in Hl. by rewrite lookup_empty in Hl. }
  revert ss s r s'. induction left as [|left IH]; intros ss s r s'; cbn [resolveMembers].
  { by intros [= <- _] ?. }
  case_decide; [by intros [= <- _] ?|].
  destruct (expand _ _ _ _ _ _ _ _ _ _) as [[t|err] x] eqn:Hx; [|done].
  destruct (membersOfTree _ _ _) as [r' s2] eqn:Hmem. intros [= -> _] Hr.
  eapply (expand_sound (reader e) m projectID tenantID 0 u Hm _ _ _ _ _ t); [exact Hx|].
  eapply membersOfTree_sound; eauto. by eapply exfree_expand.
Qed.
End Members.

(** ** Claims *)
Section Phases.
Context `{TextParsers} (e : Engine) (m : Model) (projectID tenantID : string) (cc : anymap).
Context (Hmodel : modelKeysOK m) (Hreader : readerKeysOK (reader e) projectID tenantID).
Context (Hm : exclusionFreeModel m) (Hnamed : readerNamed (reader e) projectID tenantID).

(** A positive answer of the top-level check on an empty memo. *)
Lemma check_true_granted q ns obj rel st st' :
  nsOK ns = true -> relOK rel = true -> memo st = ∅ ->
  check (reader e) m projectID tenantID q cc (S (maxDepth e)) ns obj rel false st = (Ok true, st') ->
  granted (reader e) m projectID tenantID q cc ns obj rel.
Proof.
  intros Hns Hrel Hst Hc.
  assert (Hmemo : memoOK (reader e) m projectID tenantID q cc st).
  { intros ns' obj' rel' neg b _ _. by rewrite Hst, lookup_empty. }
  pose proof (post_fact _ _ _ _ _ _ _ _ _ _ _
    (computes_check (reader e) m projectID tenantID q cc Hmodel Hreader (S (maxDepth e)) ns obj rel false Hns Hrel _ Hmemo)) as Hf.
  rewrite Hc in Hf. destruct (Hf eq_refl) as [k Hk]. by eapply approx_granted.
Qed.

Lemma resolveAll_sound set st r st' u :
  resolveAll e m projectID tenantID set st = (Ok r, st') -> counts u r ->
  setGranted (reader e) m projectID tenantID u set.
Proof.
  unfold resolveAll. destruct (resolveMembers _ _ _ _ _ _ _) as [r0 s0] eqn:Hr. intros [= -> _].
  by apply (resolveMembers_sound e m projectID tenantID u Hm Hnamed _ _ _ _ _ Hr).
Qed.
End Phases.

(** C14.  A positive [CheckSet] has one of the three documented reasons, for a
    model without exclusions, over a store whose subjects have names and for names
    on which visit keys are unambiguous (no ':' in a namespace, no '#' in a
    relation): the queried userset itself is granted through the model's rules; or
    a user who belongs to the queried set holds the relation; or everybody belongs
    to the queried set and somebody to the target.  Membership and the third
    reason disregard conditions on tuples, the first two honour them on the
    target. *)
Theorem checkSet_sound `{TextParsers} `{MapRange} e m projectID tenantID ns obj rel set cc n bs :
  modelKeysOK m -> readerKeysOK (reader e) projectID tenantID -> exclusionFreeModel m ->
  readerNamed (reader e) projectID tenantID -> nsOK ns = true -> relOK rel = true ->
  (CheckSetWithModel e m projectID tenantID ns obj rel set cc n bs).1 = Ok true ->
  granted (reader e) m projectID tenantID (mkQuery "" (Some set)) cc ns obj rel
  \/ (exists u, setGranted (reader e) m projectID tenantID u set /\
                granted (reader e) m projectID tenantID (mkQuery u None) cc ns obj rel)
  \/ ((forall u, setGranted (reader e) m projectID tenantID u set) /\
      (exists u, setGranted (reader e) m projectID tenantID u (mkSubjectSet ns obj rel))).
Proof.
  intros Hmk Hrd Hm Hnm Hns Hrel. unfold CheckSetWithModel.
  match goal with |- (?c ?st).1 = _ -> _ => destruct (c st) as [r st'] eqn:Hrun end.
  simpl. intros ->. apply bind_inv_ok in Hrun as ([] & s1 & H1 & Hrun).
  { left. eapply (check_true_granted e m projectID tenantID cc Hmk Hrd Hm); [done|done| |exact H1]. done. }
  apply bind_inv_ok in Hrun as ([us ev] & s2 & H2 & Hrun).
  pose proof (fun u => resolveAll_sound e m projectID tenantID Hm Hnm _ _ _ _ u H2) as Hmem.
  apply bind_inv_ok in Hrun as ([] & s3 & H3 & Hrun).
  { right. left. apply orLoop_true_inv in H3 as ([u []] & sa & sb & Hin & Hc).
    apply elem_of_range_map in Hin. exists u. split.
    - apply Hmem. left. eauto.
    - eapply (check_true_granted e m projectID tenantID cc Hmk Hrd Hm); [done|done| |exact Hc]. done. }
  destruct ev; [|done]. right. right. split; [intros u; apply Hmem; by right|].
  apply bind_inv_ok in Hrun as ([tgt tev] & s4 & H4 & Hrun).
  pose proof (fun u => resolveAll_sound e m projectID tenantID Hm Hnm _ _ _ _ u H4) as Htgt.
  injection Hrun as Hor _. apply orb_true_iff in Hor as [->|Hsz].
  - exists "". apply Htgt. by right.
  - apply negb_true_iff, Nat.eqb_neq in Hsz. destruct (map_choose tgt) as (u & [] & Hu).
    { intros ->. by rewrite map_size_empty in Hsz. }
    exists u. apply Htgt. left. eauto.
Qed.

Definition engSet : SubjectSet := mkSubjectSet "group" "eng" "member".

Lemma tableReader_named ts projectID tenantID :
  forallb (fun t => negb (plain (t_Subject t)) || negb (String.eqb (UserID (t_Subject t)) "")) ts = true ->
  readerNamed (tableReader ts) projectID tenantID.
Proof.
  rewrite forallb_Forall, Forall_forall. intros Hts ns obj rel subs s [= <-].
  intros (t & -> & [_ Ht]%list_elem_of_filter)%list_elem_of_fmap Hp. specialize (Hts t Ht). simpl in Hts. rewrite Hp in Hts.
  by apply negb_true_iff, String.eqb_neq in Hts.
Qed.

Lemma checkSet_sound_witness :
  let rd := tableReader (tup "resource" "draft" "viewer" (user "alice") :: sampleTuples) in
  @granted sampleParsers rd DefaultModel "p" "t" (mkQuery "" (Some engSet)) ∅ "resource" "draft" "viewer"
  \/ (exists u, @setGranted sampleParsers rd DefaultModel "p" "t" u engSet /\
                @granted sampleParsers rd DefaultModel "p" "t" (mkQuery u None) ∅ "resource" "draft" "viewer")
  \/ ((forall u, @setGranted sampleParsers rd DefaultModel "p" "t" u engSet) /\
      (exists u, @setGranted sampleParsers rd DefaultModel "p" "t" u (mkSubjectSet "resource" "draft" "viewer"))).
Proof.
  apply (@checkSet_sound sampleParsers map_range_default
           (sampleEngine (tup "resource" "draft" "viewer" (user "alice") :: sampleTuples) 100)
           DefaultModel "p" "t" "resource" "draft" "viewer" engSet ∅ 0 None).
  - exact DefaultModel_keysOK.
  - apply tableReader_keysOK. reflexivity.
  - apply (bool_decide_unpack _). vm_compute. exact I.
  - apply tableReader_named. reflexivity.
  - reflexivity.
  - reflexivity.
  - vm_compute. reflexivity.
Defined.

(** A document bob may read once he consents, and a group open to everyone. *)
Definition consentTuples : list Tuple := [
  tup "group" "all" "member" public;
  tup "resource" "doc" "viewer" (mkSubject "bob" None false (Some (mkCondition "consent_granted" ∅)))].

(** A conditional grant is not treated alike by the two queries: without
    the consent it asks for, no user can view the document, yet a userset that
    is open to everyone is reported to have access, because the last phase of
    [CheckSet] does not evaluate conditions. *)
Theorem checkSet_everyone_ignores_conditions :
  (@CheckSetWithModel sampleParsers map_range_default (sampleEngine consentTuples 100) DefaultModel "p" "t"
     "resource" "doc" "viewer" (mkSubjectSet "group" "all" "member") ∅ 0 None).1 = Ok true /\
  forall u, (@CheckWithModel sampleParsers (sampleEngine consentTuples 100) DefaultModel "p" "t"
               "resource" "doc" "viewer" u ∅ 0 None).1 = Ok false.
Proof. split; [|intros u]; vm_compute; reflexivity. Qed.

(** A model whose viewers exclude the banned, a document with everyone banned
    and another that grants alice. *)
Definition bannedModel : Model :=
  list_to_map [("doc", list_to_map [
    ("listed", RW.this); ("banned", RW.this);
    ("viewer", RW.exclusion (RW.computed "listed") (RW.computed "banned"))])].
Definition bannedTuples : list Tuple := [
  tup "doc" "d" "listed" (user "alice");
  tup "doc" "d" "banned" public;
  tup "doc" "e" "listed" (user "alice")].

(** Member resolution subtracts only the named users of an exclusion: when
    everybody is excluded from a userset nobody belongs to it, yet [CheckSet]
    still counts its listed users as members and grants. *)
Theorem checkSet_public_exclusion_ignored :
  (@CheckSetWithModel sampleParsers map_range_default (sampleEngine bannedTuples 100) bannedModel "p" "t"
     "doc" "e" "viewer" (mkSubjectSet "doc" "d" "viewer") ∅ 0 None).1 = Ok true /\
  (forall u, (@CheckWithModel sampleParsers (sampleEngine bannedTuples 100) bannedModel "p" "t"
               "doc" "d" "viewer" u ∅ 0 None).1 <> Ok true).
Proof.
  split; [vm_compute; reflexivity|]. intros u Hu.
  assert (Hk : modelKeysOK bannedModel) by (apply (bool_decide_unpack _); by vm_compute).
  assert (Hr : readerKeysOK (reader (sampleEngine bannedTuples 100)) "p" "t").
  { by apply tableReader_keysOK. }
  pose proof (@CheckWithModel_agrees sampleParsers (sampleEngine bannedTuples 100) bannedModel "p" "t" ∅ u Hk Hr
    "doc" "d" "viewer" eq_refl eq_refl 0 None 3%nat false true) as Ha.
  specialize (fun H1 H2 => Ha H1 H2 ltac:(apply Nat.leb_le; reflexivity) Hu).
  discriminate Ha; vm_compute; destruct u; try reflexivity; repeat (split_match; try reflexivity).
Qed.
