(* ===== verification/Memory.v ===== *)
(** * The in-memory repository (internal/repo/memory/memory.go)

    The store behind a single mutex: every operation below is one critical
    section.  A nil inner map reads like an empty one, as in Go.  [now] is the
    instant that [time.Now] returns inside an operation. *)

From stdpp Require Import base gmap strings list sorting pretty.
From Stdlib Require Import ZArith Lia Ascii.
From S2P Require Import Prelude Conditions Model Types Engine.
#[local] Open Scope Z_scope.

Record Store := mkStore {
  projects : gmap string Project;
  workspaces : gmap string (gmap string Workspace);
  memberships : gmap string (gmap string (gmap string Membership));
  invitations : gmap string (gmap string Invitation);
  groups : gmap string (gmap string Group);
  enrollments : gmap string (gmap string (gmap string Enrollment));
  seatLimits : gmap string (gmap string Z);
  seatAssigns : gmap string (gmap string (gmap string SeatAssignment));
  tuples : gmap string (gmap string Tuple);
  seqs : gmap string Z;   (* int64 in the code; it does not wrap here *)
}.

Definition New : Store := mkStore ∅ ∅ ∅ ∅ ∅ ∅ ∅ ∅ ∅ ∅.

(** *** Field updates *)
Definition set_projects f s := mkStore (f (projects s)) (workspaces s) (memberships s) (invitations s) (groups s) (enrollments s) (seatLimits s) (seatAssigns s) (tuples s) (seqs s).
Definition set_workspaces f s := mkStore (projects s) (f (workspaces s)) (memberships s) (invitations s) (groups s) (enrollments s) (seatLimits s) (seatAssigns s) (tuples s) (seqs s).
Definition set_memberships f s := mkStore (projects s) (workspaces s) (f (memberships s)) (invitations s) (groups s) (enrollments s) (seatLimits s) (seatAssigns s) (tuples s) (seqs s).
Definition set_invitations f s := mkStore (projects s) (workspaces s) (memberships s) (f (invitations s)) (groups s) (enrollments s) (seatLimits s) (seatAssigns s) (tuples s) (seqs s).
Definition set_groups f s := mkStore (projects s) (workspaces s) (memberships s) (invitations s) (f (groups s)) (enrollments s) (seatLimits s) (seatAssigns s) (tuples s) (seqs s).
Definition set_enrollments f s := mkStore (projects s) (workspaces s) (memberships s) (invitations s) (groups s) (f (enrollments s)) (seatLimits s) (seatAssigns s) (tuples s) (seqs s).
Definition set_seatLimits f s := mkStore (projects s) (workspaces s) (memberships s) (invitations s) (groups s) (enrollments s) (f (seatLimits s)) (seatAssigns s) (tuples s) (seqs s).
Definition set_seatAssigns f s := mkStore (projects s) (workspaces s) (memberships s) (invitations s) (groups s) (enrollments s) (seatLimits s) (f (seatAssigns s)) (tuples s) (seqs s).
Definition set_tuples f s := mkStore (projects s) (workspaces s) (memberships s) (invitations s) (groups s) (enrollments s) (seatLimits s) (seatAssigns s) (f (tuples s)) (seqs s).
Definition set_seqs f s := mkStore (projects s) (workspaces s) (memberships s) (invitations s) (groups s) (enrollments s) (seatLimits s) (seatAssigns s) (tuples s) (f (seqs s)).

(** *** Go map idioms: [m[k]] of a map of maps, [m[k]++], and a write through
    [m[k]] that creates the inner map when it is nil *)
Definition inner {B} (m : gmap string (gmap string B)) (k : string) : gmap string B :=
  default ∅ (m !! k).
Definition ensureInner {B} (k : string) (m : gmap string (gmap string B)) : gmap string (gmap string B) :=
  <[k := inner m k]> m.
Definition put2 {B} (k j : string) (x : B) (m : gmap string (gmap string B)) : gmap string (gmap string B) :=
  <[k := <[j := x]> (inner m k)]> m.
Definition incr (k : string) (m : gmap string Z) : gmap string Z := <[k := default 0 (m !! k) + 1]> m.

(** ** Keys *)
Definition NUL : string := String "000"%char EmptyString.

Definition scope (projectID tenantID : string) : string :=
  String.append projectID (String.append NUL tenantID).

Definition Itoa (n : nat) : string := pretty (N.of_nat n).

Definition part (s : string) : string :=
  String.append (Itoa (String.length s)) (String.append ":" s).

Definition subjectKey (s : Subject) : string :=
  if Wildcard s then "w"
  else match Set_ s with
       | Some ss => String.append "s" (String.append (part (ss_Namespace ss))
                      (String.append (part (ss_ObjectID ss)) (part (ss_Relation ss))))
       | None => String.append "u" (part (UserID s))
       end.

Definition tupleKey (t : Tuple) : string :=
  String.append (part (t_Namespace t)) (String.append (part (t_ObjectID t))
    (String.append (part (t_Relation t)) (part (subjectKey (t_Subject t))))).

(** [strings.HasPrefix] *)
Definition HasPrefix (s prefix : string) : bool := String.prefix prefix s.

(** What follows the first NUL. *)
Fixpoint tenantOfScope (sk : string) : string :=
  match sk with
  | EmptyString => EmptyString
  | String c sk' => if Ascii.eqb c "000"%char then sk' else tenantOfScope sk'
  end.

Section Operations.
Context `{MapRange}.

(** The values of a map in iteration order. *)
Definition rangeValues {B} (m : gmap string B) : list B := snd <$> range_map m.

(** ** Projects *)
Definition CreateProject (p : Project) : St Store unit := fun s =>
  match projects s !! p_ID p with
  | Some _ => (Err ErrAlreadyExists, s)
  | None => (Ok tt, set_projects (<[p_ID p := p]>) s)
  end.

Definition GetProject (id : string) : St Store Project := fun s =>
  match projects s !! id with
  | Some p => (Ok p, s)
  | None => (Err ErrNotFound, s)
  end.

Definition UpdateProject (p : Project) : St Store unit := fun s =>
  match projects s !! p_ID p with
  | None => (Err ErrNotFound, s)
  | Some _ => (Ok tt, set_projects (<[p_ID p := p]>) s)
  end.

Definition ListProjects : St Store (list Project) := fun s =>
  (Ok (sortBy p_CreatedAt p_ID (rangeValues (projects s))), s).

(** ** Relation tuples *)
Definition writeTuplesLocked (projectID tenantID : string) (inserts deletes : list Tuple) (s : Store) : Store :=
  let sk := scope projectID tenantID in
  let m1 := foldl (fun m t => delete (tupleKey t) m) (inner (tuples s) sk) deletes in
  let m2 := foldl (fun m t => <[tupleKey t := t]> m) m1 inserts in
  set_seqs (incr sk) (set_tuples (<[sk := m2]>) s).

Definition WriteTuples (projectID tenantID : string) (inserts deletes : list Tuple) : St Store unit :=
  modify (writeTuplesLocked projectID tenantID inserts deletes).

Definition ConsistencyToken (projectID tenantID : string) : St Store Z := fun s =>
  (Ok (default 0 (seqs s !! scope projectID tenantID)), s).

Definition shard (s : Store) (projectID tenantID : string) : gmap string Tuple :=
  inner (tuples s) (scope projectID tenantID).

Definition ListSubjects_ (now : Time) (s : Store)
    (projectID tenantID namespace objectID relation : string) : result (list Subject) :=
  Ok (t_Subject <$> filter (fun t => t_Namespace t = namespace /\ t_ObjectID t = objectID
                                     /\ t_Relation t = relation /\ ActiveAt t now = true)
                           (rangeValues (shard s projectID tenantID))).

(** The loop keeps the first occurrence of each object id; [seen] is the map of
    the ids met so far. *)
Fixpoint objectIDsLoop (now : Time) (namespace : string) (seen : gset string) (ts : list Tuple) : list string :=
  match ts with
  | [] => []
  | t :: ts' =>
      if decide (t_Namespace t = namespace /\ ActiveAt t now = true /\ t_ObjectID t ∉ seen)
      then t_ObjectID t :: objectIDsLoop now namespace ({[t_ObjectID t]} ∪ seen) ts'
      else objectIDsLoop now namespace seen ts'
  end.

Definition ListObjectIDs_ (now : Time) (s : Store) (projectID tenantID namespace : string)
    : result (list string) :=
  Ok (merge_sort String.le (objectIDsLoop now namespace ∅ (rangeValues (shard s projectID tenantID)))).

(** The store as the engine sees it. *)
Definition storeReader (now : Time) (s : Store) : TupleReader := {|
  ListSubjects := ListSubjects_ now s;
  ListObjectIDs := Some (ListObjectIDs_ now s);
|}.

Definition matchesFilter (f : TupleFilter) (now : Time) (t : Tuple) : bool :=
  let ok (want have : string) := String.eqb want "" || String.eqb have want in
  ActiveAt t now && ok (f_Namespace f) (t_Namespace t) && ok (f_ObjectID f) (t_ObjectID t)
  && ok (f_Relation f) (t_Relation t) && ok (f_SubjectUserID f) (UserID (t_Subject t)).

Definition ReadTuples (now : Time) (projectID tenantID : string) (f : TupleFilter) : St Store (list Tuple) := fun s =>
  (Ok (merge_sort (fun t1 t2 => String.le (tupleKey t1) (tupleKey t2))
         (filter (fun t => matchesFilter f now t = true) (rangeValues (shard s projectID tenantID)))), s).

(** [t.Subject.Set == nil && !t.Subject.Wildcard && t.Subject.UserID == userID] *)
Definition isSubjectUser (userID : string) (t : Tuple) : bool :=
  match Set_ (t_Subject t) with
  | Some _ => false
  | None => negb (Wildcard (t_Subject t)) && String.eqb (UserID (t_Subject t)) userID
  end.

Definition inProject (projectID sk : string) : bool := HasPrefix sk (String.append projectID NUL).

(** The two nested loops over the scopes of the project. *)
Definition dropSubjectTuples (projectID userID : string)
    (ts : gmap string (gmap string Tuple)) : gmap string (gmap string Tuple) :=
  map_imap (fun sk m =>
    Some (if inProject projectID sk then filter (fun kv => isSubjectUser userID kv.2 = false) m else m)) ts.

Definition countSubjectTuples (projectID userID : string) (ts : gmap string (gmap string Tuple)) : Z :=
  map_fold (fun sk (m : gmap string Tuple) (acc : Z) =>
    if inProject projectID sk
    then acc + Z.of_nat (size (filter (fun kv => isSubjectUser userID kv.2 = true) m)) else acc) 0 ts.

Definition dropUserSeats (userID : string) (bySKU : gmap string (gmap string SeatAssignment))
    : gmap string (gmap string SeatAssignment) :=
  (fun byUser : gmap string SeatAssignment => delete userID byUser) <$> bySKU.

Definition dropSubjectSeats (projectID userID : string)
    (seats : gmap string (gmap string (gmap string SeatAssignment)))
    : gmap string (gmap string (gmap string SeatAssignment)) :=
  map_imap (fun sk bySKU => Some (if inProject projectID sk then dropUserSeats userID bySKU else bySKU)) seats.

Definition DeleteAllSubjectTuplesInProject (projectID userID : string) : St Store Z := fun s =>
  (Ok (countSubjectTuples projectID userID (tuples s)),
   set_seatAssigns (dropSubjectSeats projectID userID)
     (set_tuples (dropSubjectTuples projectID userID) s)).

Definition lessTupleAt (x y : TupleAt) : bool :=
  if negb (String.eqb (ta_TenantID x) (ta_TenantID y))
  then String.ltb (ta_TenantID x) (ta_TenantID y)
  else String.ltb (tupleKey (ta_Tuple x)) (tupleKey (ta_Tuple y)).

Definition tupleAtNotAfter (x y : TupleAt) : Prop := lessTupleAt y x = false.
#[export] Instance tupleAtNotAfter_dec : RelDecision tupleAtNotAfter.
Proof. intros x y. unfold tupleAtNotAfter. apply _. Defined.

Definition sortTupleAt (ts : list TupleAt) : list TupleAt :=
  merge_sort tupleAtNotAfter ts.

Definition collectTupleAt (projectID : string) (keep : Tuple -> bool) (s : Store) : list TupleAt :=
  mjoin ((fun skm => if inProject projectID skm.1
                     then mkTupleAt (tenantOfScope skm.1) <$> filter (fun t => keep t = true) (rangeValues skm.2)
                     else []) <$> range_map (tuples s)).

Definition ListSubjectTuplesInProject (now : Time) (projectID userID : string) : St Store (list TupleAt) := fun s =>
  (Ok (sortTupleAt (collectTupleAt projectID (fun t => isSubjectUser userID t && ActiveAt t now) s)), s).

Definition ListTuplesForSubjectSetsInProject (now : Time) (projectID : string) (sets : list SubjectSet)
    : St Store (list TupleAt) := fun s =>
  if is_nil sets then (Ok [], s) else
  (Ok (sortTupleAt (collectTupleAt projectID (fun t =>
     match Set_ (t_Subject t) with
     | Some ss => bool_decide (ss ∈ sets) && ActiveAt t now
     | None => false
     end) s)), s).

(** ** Workspaces *)
Definition isPersonalOf (userID : string) (w : Workspace) : bool :=
  String.eqb (w_Type w) TypePersonal && String.eqb (w_OwnerUserID w) userID.

Definition CreateWorkspace (w : Workspace) : St Store unit := fun s0 =>
  let sk := scope (w_ProjectID w) (w_TenantID w) in
  let s := set_workspaces (ensureInner sk) s0 in
  let byID := inner (workspaces s) sk in
  match byID !! w_ID w with
  | Some _ => (Err ErrAlreadyExists, s)
  | None =>
      if String.eqb (w_Type w) TypePersonal && existsb (isPersonalOf (w_OwnerUserID w)) (rangeValues byID)
      then (Err ErrAlreadyExists, s)
      else (Ok tt, set_workspaces (put2 sk (w_ID w) w) s)
  end.

Definition GetWorkspace (projectID tenantID id : string) : St Store Workspace := fun s =>
  match inner (workspaces s) (scope projectID tenantID) !! id with
  | Some w => (Ok w, s)
  | None => (Err ErrNotFound, s)
  end.

Definition UpdateWorkspace (w : Workspace) : St Store unit := fun s =>
  let sk := scope (w_ProjectID w) (w_TenantID w) in
  match inner (workspaces s) sk !! w_ID w with
  | None => (Err ErrNotFound, s)
  | Some _ => (Ok tt, set_workspaces (put2 sk (w_ID w) w) s)
  end.

Definition DeleteWorkspace (projectID tenantID id : string) : St Store unit := fun s =>
  let sk := scope projectID tenantID in
  match inner (workspaces s) sk !! id with
  | None => (Err ErrNotFound, s)
  | Some _ =>
      (Ok tt,
       set_seqs (incr sk)
         (set_invitations (alter (filter (fun kv => inv_WorkspaceID kv.2 <> id)) sk)
            (set_tuples (alter (filter (fun kv => ~ (t_Namespace kv.2 = "workspace" /\ t_ObjectID kv.2 = id))) sk)
               (set_memberships (alter (delete id) sk)
                  (set_workspaces (alter (delete id) sk) s)))))
  end.

Definition PersonalWorkspace (projectID tenantID userID : string) : St Store Workspace := fun s =>
  match List.find (isPersonalOf userID) (rangeValues (inner (workspaces s) (scope projectID tenantID))) with
  | Some w => (Ok w, s)
  | None => (Err ErrNotFound, s)
  end.

Definition WorkspacesForUser (projectID tenantID userID : string) : St Store (list Workspace) := fun s =>
  let sk := scope projectID tenantID in
  (Ok (sortBy w_CreatedAt w_ID
    (omap (fun wsu : string * gmap string Membership =>
       match wsu.2 !! userID with
       | Some m => if String.eqb (mb_Status m) StatusActive then inner (workspaces s) sk !! wsu.1 else None
       | None => None
       end) (range_map (inner (memberships s) sk)))), s).

(** ** Memberships *)
Definition putMembershipLocked (m : Membership) (s : Store) : Store :=
  let sk := scope (mb_ProjectID m) (mb_TenantID m) in
  set_memberships (fun ms => <[sk := put2 (mb_WorkspaceID m) (mb_UserID m) m (inner ms sk)]> ms) s.

Definition PutMembership (m : Membership) : St Store unit := modify (putMembershipLocked m).

Definition PutMembershipAndTuples (m : Membership) (inserts deletes : list Tuple) : St Store unit :=
  modify (fun s => writeTuplesLocked (mb_ProjectID m) (mb_TenantID m) inserts deletes (putMembershipLocked m s)).

(** [s.memberships[scope][workspaceID][userID]] *)
Definition membershipRow (s : Store) (projectID tenantID workspaceID userID : string) : option Membership :=
  inner (inner (memberships s) (scope projectID tenantID)) workspaceID !! userID.

Definition deleteMembershipLocked (projectID tenantID workspaceID userID : string) : St Store unit := fun s =>
  match membershipRow s projectID tenantID workspaceID userID with
  | None => (Err ErrNotFound, s)
  | Some _ => (Ok tt, set_memberships (alter (alter (delete userID) workspaceID) (scope projectID tenantID)) s)
  end.

Definition DeleteMembershipAndTuples (projectID tenantID workspaceID userID : string) (deletes : list Tuple)
    : St Store unit :=
  do! deleteMembershipLocked projectID tenantID workspaceID userID in
  modify (writeTuplesLocked projectID tenantID [] deletes).

Definition GetMembership (projectID tenantID workspaceID userID : string) : St Store Membership := fun s =>
  match membershipRow s projectID tenantID workspaceID userID with
  | Some m => (Ok m, s)
  | None => (Err ErrNotFound, s)
  end.

Definition ListMembers (projectID tenantID workspaceID : string) : St Store (list Membership) := fun s =>
  (Ok (sortBy mb_CreatedAt mb_UserID
         (rangeValues (inner (inner (memberships s) (scope projectID tenantID)) workspaceID))), s).

Definition DeleteMembership (projectID tenantID workspaceID userID : string) : St Store unit :=
  deleteMembershipLocked projectID tenantID workspaceID userID.

(** ** Invitations *)
Definition CreateInvitation (inv : Invitation) : St Store unit := fun s0 =>
  let sk := scope (inv_ProjectID inv) (inv_TenantID inv) in
  let s := set_invitations (ensureInner sk) s0 in
  match inner (invitations s) sk !! inv_ID inv with
  | Some _ => (Err ErrAlreadyExists, s)
  | None => (Ok tt, set_invitations (put2 sk (inv_ID inv) inv) s)
  end.

Definition GetInvitation (projectID tenantID id : string) : St Store Invitation := fun s =>
  match inner (invitations s) (scope projectID tenantID) !! id with
  | Some inv => (Ok inv, s)
  | None => (Err ErrNotFound, s)
  end.

Definition GetInvitationByTokenHash (projectID tenantID tokenHash : string) : St Store Invitation := fun s =>
  match List.find (fun inv => String.eqb (inv_TokenHash inv) tokenHash)
          (rangeValues (inner (invitations s) (scope projectID tenantID))) with
  | Some inv => (Ok inv, s)
  | None => (Err ErrNotFound, s)
  end.

Definition UpdateInvitation (inv : Invitation) : St Store unit := fun s =>
  let sk := scope (inv_ProjectID inv) (inv_TenantID inv) in
  match inner (invitations s) sk !! inv_ID inv with
  | None => (Err ErrNotFound, s)
  | Some _ => (Ok tt, set_invitations (put2 sk (inv_ID inv) inv) s)
  end.

Definition ListInvitations (projectID tenantID workspaceID : string) : St Store (list Invitation) := fun s =>
  (Ok (sortBy inv_CreatedAt inv_ID
         (filter (fun inv => inv_WorkspaceID inv = workspaceID)
                 (rangeValues (inner (invitations s) (scope projectID tenantID))))), s).

(** ** Groups *)
Definition CreateGroup (g : Group) : St Store unit := fun s0 =>
  let sk := scope (g_ProjectID g) (g_TenantID g) in
  let s := set_groups (ensureInner sk) s0 in
  match inner (groups s) sk !! g_ID g with
  | Some _ => (Err ErrAlreadyExists, s)
  | None => (Ok tt, set_groups (put2 sk (g_ID g) g) s)
  end.

Definition GetGroup (projectID tenantID id : string) : St Store Group := fun s =>
  match inner (groups s) (scope projectID tenantID) !! id with
  | Some g => (Ok g, s)
  | None => (Err ErrNotFound, s)
  end.

Definition ListGroups (projectID tenantID workspaceID : string) : St Store (list Group) := fun s =>
  (Ok (sortBy g_CreatedAt g_ID
         (filter (fun g => workspaceID = "" \/ g_WorkspaceID g = workspaceID)
                 (rangeValues (inner (groups s) (scope projectID tenantID))))), s).

Definition DeleteGroup (projectID tenantID id : string) : St Store unit := fun s =>
  let sk := scope projectID tenantID in
  match inner (groups s) sk !! id with
  | None => (Err ErrNotFound, s)
  | Some _ =>
      (Ok tt,
       set_seqs (incr sk)
         (set_tuples (alter (filter (fun kv => ~ (t_Namespace kv.2 = "group" /\ t_ObjectID kv.2 = id))) sk)
            (set_enrollments (alter (delete id) sk)
               (set_groups (alter (delete id) sk) s))))
  end.

(** ** Enrollments *)
Definition memberKeyString (m : GroupMember) : string :=
  let '(kind, id) := MemberKey m in String.append kind (String.append ":" id).

Definition SetEnrollmentAndTuples (e : Enrollment) (inserts deletes : list Tuple) : St Store unit :=
  modify (fun s =>
    let sk := scope (en_ProjectID e) (en_TenantID e) in
    writeTuplesLocked (en_ProjectID e) (en_TenantID e) inserts deletes
      (set_enrollments (fun es =>
         <[sk := put2 (en_GroupID e) (memberKeyString (en_Member e)) e (inner es sk)]> es) s)).

Definition enrollmentRow (s : Store) (projectID tenantID groupID : string) (member : GroupMember)
    : option Enrollment :=
  inner (inner (enrollments s) (scope projectID tenantID)) groupID !! memberKeyString member.

Definition GetEnrollment (projectID tenantID groupID : string) (member : GroupMember) : St Store Enrollment := fun s =>
  match enrollmentRow s projectID tenantID groupID member with
  | Some e => (Ok e, s)
  | None => (Err ErrNotFound, s)
  end.

Definition ListEnrollments (projectID tenantID groupID : string) : St Store (list Enrollment) := fun s =>
  (Ok (sortBy en_CreatedAt (fun e => memberKeyString (en_Member e))
         (rangeValues (inner (inner (enrollments s) (scope projectID tenantID)) groupID))), s).

(** ** Seats *)
Definition SetSeatLimit (projectID tenantID sku : string) (limit : option Z) : St Store unit := fun s =>
  let sk := scope projectID tenantID in
  match limit with
  | None => (Ok tt, set_seatLimits (alter (delete sku) sk) s)
  | Some n => (Ok tt, set_seatLimits (put2 sk sku n) s)
  end.

(** [len(s.seatAssigns[sk][sku])] and [s.seatLimits[sk][sku]] *)
Definition seatUsageLocked (s : Store) (sk sku : string) : Z * option Z :=
  (Z.of_nat (size (inner (inner (seatAssigns s) sk) sku)), inner (seatLimits s) sk !! sku).

Definition GetSeatUsage (projectID tenantID sku : string) : St Store SeatUsage_ := fun s =>
  let '(used, limit) := seatUsageLocked s (scope projectID tenantID) sku in
  (Ok (mkSeatUsage sku used (default 0 limit) (match limit with Some _ => true | None => false end)), s).

Definition AssignSeatAndTuple (a : SeatAssignment) (tuple : Tuple) : St Store bool := fun s0 =>
  let sk := scope (sa_ProjectID a) (sa_TenantID a) in
  let s := set_seatAssigns (fun m => <[sk := ensureInner (sa_SKU a) (inner m sk)]> m) s0 in
  let write := writeTuplesLocked (sa_ProjectID a) (sa_TenantID a) [tuple] [] in
  match inner (inner (seatAssigns s) sk) (sa_SKU a) !! sa_UserID a with
  | Some _ => (Ok true, write s)
  | None =>
      let '(used, limit) := seatUsageLocked s sk (sa_SKU a) in
      if match limit with Some n => n <=? used | None => false end
      then (Err ErrResourceExhausted, s)
      else (Ok false, write (set_seatAssigns (fun m => <[sk := put2 (sa_SKU a) (sa_UserID a) a (inner m sk)]> m) s))
  end.

Definition RevokeSeatAndTuple (projectID tenantID sku userID : string) (tuple : Tuple) : St Store unit := fun s =>
  let sk := scope projectID tenantID in
  (Ok tt, writeTuplesLocked projectID tenantID [] [tuple]
            (set_seatAssigns (alter (alter (delete userID) sku) sk) s)).

Definition ListSeats (projectID tenantID sku : string) : St Store (list SeatAssignment) := fun s =>
  (Ok (sortBy sa_AssignedAt sa_UserID
         (rangeValues (inner (inner (seatAssigns s) (scope projectID tenantID)) sku))), s).
End Operations.
