(* ===== verification/MemoryKeys.v ===== *)
(** * Keys of the in-memory repository

    Tuple keys are injective on what identifies a tuple, whatever the fields
    contain; scope keys are injective for ids without NUL, and the project scan
    finds exactly the scopes of its project. *)

From stdpp Require Import base gmap strings list sorting pretty.
From Stdlib Require Import ZArith Lia Ascii.
From S2P Require Import Prelude Conditions Model Types Engine Memory.

(** ** Decimal lengths contain no colon *)
Lemma pretty_N_char_colon x : pretty_N_char x <> ":"%char.
Proof. unfold pretty_N_char. by repeat case_match. Qed.

Lemma pretty_N_go_colon x s :
  contains_char ":"%char s = false -> contains_char ":"%char (pretty_N_go x s) = false.
Proof.
  revert s. induction (N.lt_wf_0 x) as [x _ IH]; intros s Hs.
  destruct (decide (0 < x)%N) as [Hx|Hx].
  - rewrite pretty_N_go_step by done. apply IH; [by apply N.div_lt|].
    simpl. rewrite Hs. destruct (Ascii.eqb_spec (pretty_N_char (x `mod` 10)) ":"%char) as [Heq|]; [|done].
    by apply pretty_N_char_colon in Heq.
  - assert (x = 0%N) as -> by lia. by rewrite pretty_N_go_0.
Qed.

Lemma Itoa_colon n : contains_char ":"%char (Itoa n) = false.
Proof.
  unfold Itoa, pretty, pretty_N. case_decide; [done|]. by apply pretty_N_go_colon.
Qed.

Lemma Itoa_inj n n' : Itoa n = Itoa n' -> n = n'.
Proof. unfold Itoa. intros Heq%(inj pretty). lia. Qed.

(** ** Length-prefixed parts delimit themselves *)
Lemma string_app_inj_len a a' b b' :
  String.length a = String.length a' -> String.append a b = String.append a' b' -> a = a' /\ b = b'.
Proof.
  revert a'. induction a as [|c a IH]; intros [|c' a']; simpl; try done.
  intros [= Hl]. rewrite !string_app_cons. intros [= -> Heq]. by destruct (IH a' Hl Heq) as [-> ->].
Qed.

Lemma part_inj a a' b b' :
  String.append (part a) b = String.append (part a') b' -> a = a' /\ b = b'.
Proof.
  unfold part. rewrite <-!string_app_assoc. intros Heq.
  rewrite !string_app_cons, !string_app_nil_l in Heq.
  apply string_sep_inj in Heq as [Hl%Itoa_inj Heq]; [|apply Itoa_colon..].
  by apply string_app_inj_len.
Qed.

Lemma part_inj_0 a a' : part a = part a' -> a = a'.
Proof.
  intros Heq. assert (Heq' : String.append (part a) "" = String.append (part a') "") by by rewrite Heq.
  by apply part_inj in Heq' as [-> _].
Qed.

(** ** What identifies a tuple *)
Inductive subjectIdent := SubjectPublic | SubjectSetId (ss : SubjectSet) | SubjectUser (u : string).

Definition identOfSubject (s : Subject) : subjectIdent :=
  if Wildcard s then SubjectPublic
  else match Set_ s with Some ss => SubjectSetId ss | None => SubjectUser (UserID s) end.

(** Condition and expiry are not part of it. *)
Definition tupleIdent (t : Tuple) : string * string * string * subjectIdent :=
  (t_Namespace t, t_ObjectID t, t_Relation t, identOfSubject (t_Subject t)).

Lemma subjectKey_ident s s' : subjectKey s = subjectKey s' <-> identOfSubject s = identOfSubject s'.
Proof.
  unfold subjectKey, identOfSubject.
  destruct (Wildcard s), (Wildcard s'), (Set_ s) as [[n o r]|], (Set_ s') as [[n' o' r']|]; try done;
    simpl; rewrite ?string_app_cons, ?string_app_nil_l; split; try done.
  - intros [= Heq]. apply part_inj in Heq as [-> Heq]. apply part_inj in Heq as [-> Heq].
    by apply part_inj_0 in Heq as ->.
  - by intros [= -> -> ->].
  - intros [= Heq]. by apply part_inj_0 in Heq as ->.
  - by intros [= ->].
Qed.

Lemma tupleKey_ident t t' : tupleKey t = tupleKey t' <-> tupleIdent t = tupleIdent t'.
Proof.
  unfold tupleKey, tupleIdent. split.
  - intros Heq. apply part_inj in Heq as [-> Heq]. apply part_inj in Heq as [-> Heq].
    apply part_inj in Heq as [-> Heq]. apply part_inj_0 in Heq. by apply subjectKey_ident in Heq as ->.
  - intros [= -> -> -> Hs]. apply subjectKey_ident in Hs as ->. done.
Qed.

(** ** Scopes *)
Definition idOK (id : string) : Prop := contains_char "000"%char id = false.

Lemma scope_inj p t p' t' : idOK p -> idOK p' -> scope p t = scope p' t' -> p = p' /\ t = t'.
Proof.
  unfold scope, NUL. intros Hp Hp' Heq. rewrite !string_app_cons, !string_app_nil_l in Heq.
  by apply string_sep_inj in Heq.
Qed.

Lemma tenantOfScope_scope p t : idOK p -> tenantOfScope (scope p t) = t.
Proof.
  unfold scope, NUL. rewrite string_app_cons, string_app_nil_l. unfold idOK.
  induction p as [|c p IH]; [done|]. intros [Hc Hp]%orb_false_iff. rewrite string_app_cons. simpl.
  rewrite Hc. auto.
Qed.

Lemma prefix_spec a b : String.prefix a b = true <-> exists c, b = String.append a c.
Proof.
  revert b. induction a as [|x a IH]; intros b; simpl.
  - split; [intros _; by exists b|intros _; by destruct b].
  - destruct b as [|y b]; [split; [done|by intros [? ?]]|].
    cbn [String.prefix]. destruct (ascii_dec x y) as [->|Hne].
    + rewrite IH. split; intros [c Hc]; exists c; rewrite string_app_cons in *; congruence.
    + split; [done|]. intros [c Hc]. rewrite string_app_cons in Hc. congruence.
Qed.

Lemma inProject_scope p p' t : idOK p -> idOK p' -> inProject p (scope p' t) = true <-> p = p'.
Proof.
  intros Hp Hp'. unfold inProject, HasPrefix. rewrite prefix_spec. unfold scope, NUL. split.
  - intros [c Hc]. rewrite <-string_app_assoc, !string_app_cons, !string_app_nil_l in Hc.
    by apply string_sep_inj in Hc as [-> _].
  - intros ->. exists t. by rewrite <-string_app_assoc.
Qed.
