(* ===== verification/MemoryTheorems.v ===== *)
(** * What the in-memory repository guarantees

    A shard holds at most one tuple per identity.  Writing, deleting and
    deprovisioning are described by which tuples a shard holds afterwards, and
    reading by which held tuples it returns; shards do not influence each
    other. *)

From stdpp Require Import base gmap strings list sorting pretty.
From Stdlib Require Import ZArith Lia Ascii.
From S2P Require Import Prelude Conditions Model Types Engine Memory MemoryKeys.
#[local] Open Scope Z_scope.

#[export] Instance subjectIdent_eq_dec : EqDecision subjectIdent.
Proof. solve_decision. Defined.

(** ** Held tuples *)
Definition shardKeyed (m : gmap string Tuple) : Prop := map_Forall (fun k t => tupleKey t = k) m.
Definition storeKeyed (s : Store) : Prop := map_Forall (fun _ m => shardKeyed m) (tuples s).

(** The shard of (project, tenant) holds the tuple [x]. *)
Definition holds (s : Store) (projectID tenantID : string) (x : Tuple) : Prop :=
  shard s projectID tenantID !! tupleKey x = Some x.

Lemma inner_insert {B} (m : gmap string (gmap string B)) k x : inner (<[k := x]> m) k = x.
Proof. unfold inner. by rewrite lookup_insert_eq. Qed.
Lemma inner_insert_ne {B} (m : gmap string (gmap string B)) k k' x :
  k <> k' -> inner (<[k := x]> m) k' = inner m k'.
Proof. intros Hne. unfold inner. by rewrite lookup_insert_ne. Qed.
Lemma inner_alter {B} (m : gmap string (gmap string B)) k f :
  f ∅ = ∅ -> inner (alter f k m) k = f (inner m k).
Proof. intros Hf. unfold inner. rewrite lookup_alter_eq. by destruct (m !! k). Qed.
Lemma inner_alter_ne {B} (m : gmap string (gmap string B)) k k' f :
  k <> k' -> inner (alter f k m) k' = inner m k'.
Proof. intros Hne. unfold inner. by rewrite lookup_alter_ne. Qed.
Lemma inner_ensure {B} (m : gmap string (gmap string B)) k k' : inner (ensureInner k m) k' = inner m k'.
Proof.
  unfold ensureInner. destruct (decide (k = k')) as [->|Hne]; [by rewrite inner_insert|by rewrite inner_insert_ne].
Qed.
Lemma inner_put2 {B} (m : gmap string (gmap string B)) k j x : inner (put2 k j x m) k = <[j := x]> (inner m k).
Proof. apply inner_insert. Qed.
Lemma inner_put2_ne {B} (m : gmap string (gmap string B)) k k' j x :
  k <> k' -> inner (put2 k j x m) k' = inner m k'.
Proof. apply inner_insert_ne. Qed.

Lemma storeKeyed_shard s sk : storeKeyed s -> shardKeyed (inner (tuples s) sk).
Proof.
  intros Hs. unfold inner. destruct (tuples s !! sk) as [m|] eqn:E; simpl; [by eapply Hs|].
  apply map_Forall_empty.
Qed.

(** ** Writing *)
Section Write.
Context (ins del : list Tuple).

Definition lastInsert (x : Tuple) : option Tuple :=
  last (filter (fun y => tupleIdent y = tupleIdent x) ins).

Lemma foldl_delete_lookup (m : gmap string Tuple) k :
  foldl (fun m t => delete (tupleKey t) m) m del !! k
  = if decide (k ∈ tupleKey <$> del) then None else m !! k.
Proof.
  revert m. induction del as [|t d IH]; intros m; cbn [foldl].
  { rewrite decide_False; [done|]. apply not_elem_of_nil. }
  rewrite IH, fmap_cons. destruct (decide (k ∈ tupleKey <$> d)) as [Hin|Hin].
  - rewrite decide_True; [done|]. by right.
  - destruct (decide (k = tupleKey t)) as [->|Hne].
    + rewrite lookup_delete_eq, decide_True; [done|]. left.
    + rewrite lookup_delete_ne by done. rewrite decide_False; [done|].
      rewrite elem_of_cons. naive_solver.
Qed.

Lemma foldl_insert_lookup (m : gmap string Tuple) k :
  foldl (fun m t => <[tupleKey t := t]> m) m ins !! k
  = match last (filter (fun y => tupleKey y = k) ins) with Some y => Some y | None => m !! k end.
Proof.
  induction ins as [|t l IH] using rev_ind; [done|].
  rewrite foldl_app. simpl. rewrite filter_app, filter_cons, filter_nil.
  case_decide as Hk.
  - rewrite last_snoc. rewrite <-Hk. by rewrite lookup_insert_eq.
  - rewrite lookup_insert_ne by done. by rewrite app_nil_r, IH.
Qed.

Lemma lastInsert_key x : last (filter (fun y => tupleKey y = tupleKey x) ins) = lastInsert x.
Proof.
  unfold lastInsert. f_equal. apply list_filter_iff. intros y. apply tupleKey_ident.
Qed.

Lemma del_key x : tupleKey x ∈ tupleKey <$> del <-> exists y, y ∈ del /\ tupleIdent y = tupleIdent x.
Proof.
  rewrite list_elem_of_fmap. split.
  - intros (y & Hk & Hy). exists y. split; [done|]. by apply tupleKey_ident.
  - intros (y & Hy & Hk). exists y. split; [|done]. by apply tupleKey_ident.
Qed.

Lemma shard_write p t s x :
  shard (writeTuplesLocked p t ins del s) p t !! tupleKey x
  = match lastInsert x with
    | Some y => Some y
    | None => if decide (tupleKey x ∈ tupleKey <$> del) then None else shard s p t !! tupleKey x
    end.
Proof.
  unfold shard, writeTuplesLocked. simpl. rewrite inner_insert, foldl_insert_lookup, lastInsert_key.
  by rewrite foldl_delete_lookup.
Qed.

Lemma shard_write_ne p t p' t' s :
  scope p t <> scope p' t' -> shard (writeTuplesLocked p t ins del s) p' t' = shard s p' t'.
Proof. intros Hne. unfold shard, writeTuplesLocked. simpl. by rewrite inner_insert_ne. Qed.

Lemma storeKeyed_write p t s : storeKeyed s -> storeKeyed (writeTuplesLocked p t ins del s).
Proof.
  intros Hs sk m. unfold writeTuplesLocked. simpl. rewrite lookup_insert_Some.
  intros [[<- <-]|[_ Hm]]; [|by eapply Hs]. intros k x.
  rewrite foldl_insert_lookup, foldl_delete_lookup.
  destruct (last _) as [y|] eqn:Hl.
  - intros [= <-]. apply last_Some_elem_of, list_elem_of_filter in Hl as [Hk _]. done.
  - case_decide; [done|]. apply (storeKeyed_shard s (scope p t) Hs).
Qed.

Lemma lastInsert_ident x y : lastInsert x = Some y -> tupleIdent y = tupleIdent x /\ y ∈ ins.
Proof. by intros [? ?]%last_Some_elem_of%list_elem_of_filter. Qed.

Lemma lastInsert_None x : lastInsert x = None <-> forall y, y ∈ ins -> tupleIdent y <> tupleIdent x.
Proof.
  unfold lastInsert. rewrite last_None. split.
  - intros Hf y Hy Hi. apply (not_elem_of_nil y). rewrite <-Hf. by apply list_elem_of_filter.
  - intros Hn. destruct (filter _ ins) as [|y l] eqn:Hf; [done|]. exfalso.
    assert (Hy : y ∈ filter (fun y => tupleIdent y = tupleIdent x) ins) by (rewrite Hf; left).
    apply list_elem_of_filter in Hy as [Hi Hy]. by eapply Hn.
Qed.
End Write.

Lemma holds_write ins del p t s x :
  holds (writeTuplesLocked p t ins del s) p t x
  <-> lastInsert ins x = Some x
      \/ (lastInsert ins x = None /\ (forall y, y ∈ del -> tupleIdent y <> tupleIdent x) /\ holds s p t x).
Proof.
  unfold holds. rewrite shard_write. destruct (lastInsert ins x) as [y|].
  { split; [by left|]. by intros [?|[? _]]. }
  case_decide as Hd; rewrite del_key in Hd; split.
  - done.
  - intros [?|(_ & Hn & _)]; [done|]. destruct Hd as (y & Hy & Hi). by destruct (Hn y Hy).
  - intros Hx. right. split_and!; [done| |done]. intros y Hy Hi. apply Hd. eauto.
  - intros [?|(_ & _ & ?)]; done.
Qed.

(** Whether the shard of a scope key has a tuple with the identity of [x]. *)
Definition present (s : Store) (sk : string) (x : Tuple) : Prop := is_Some (inner (tuples s) sk !! tupleKey x).

Lemma present_write p t ins del s sk x :
  present (writeTuplesLocked p t ins del s) sk x <->
  if decide (sk = scope p t)
  then (exists y, y ∈ ins /\ tupleIdent y = tupleIdent x)
       \/ ((forall y, y ∈ del -> tupleIdent y <> tupleIdent x) /\ present s sk x)
  else present s sk x.
Proof.
  unfold present. case_decide as Hsk.
  2:{ unfold writeTuplesLocked. simpl. by rewrite inner_insert_ne. }
  subst sk. pose proof (shard_write ins del p t s x) as Hw.
  unfold shard in Hw. rewrite Hw. destruct (lastInsert ins _) as [y|] eqn:Hl.
  - apply lastInsert_ident in Hl as [Hi Hy]. split; [|done]. left. eauto.
  - rewrite lastInsert_None in Hl. case_decide as Hd; rewrite del_key in Hd.
    + split; [by intros [? ?]|]. intros [(y & Hy & Hi)|[Hn _]]; [by destruct (Hl y)|].
      destruct Hd as (y & Hy & Hi). by destruct (Hn y).
    + split; [|intros [(y & Hy & Hi)|[_ ?]]; [by destruct (Hl y)|done]].
      intros Hs. right. split; [|done]. intros y Hy Hi. apply Hd. eauto.
Qed.

(** ** Reading *)
Section Read.
Context `{MapRange}.

Lemma elem_of_rangeValues {B} (m : gmap string B) x : x ∈ rangeValues m <-> exists k, m !! k = Some x.
Proof.
  unfold rangeValues. rewrite list_elem_of_fmap. split.
  - intros ([k y] & -> & Hin). exists k. by apply elem_of_range_map.
  - intros [k Hk]. exists (k, x). split; [done|]. by apply elem_of_range_map.
Qed.

Lemma elem_of_shard s p t x : storeKeyed s -> x ∈ rangeValues (shard s p t) <-> holds s p t x.
Proof.
  intros Hs. rewrite elem_of_rangeValues. unfold holds, shard. split; [|by eauto].
  intros [k Hk]. pose proof (storeKeyed_shard s (scope p t) Hs k x Hk) as Hkey. by rewrite Hkey.
Qed.

Lemma elem_of_ListSubjects now s p t ns obj rel subs sub :
  storeKeyed s -> ListSubjects_ now s p t ns obj rel = Ok subs ->
  sub ∈ subs <-> (exists x, holds s p t x /\ t_Namespace x = ns /\ t_ObjectID x = obj /\ t_Relation x = rel
                           /\ ActiveAt x now = true /\ t_Subject x = sub).
Proof.
  intros Hs [= <-]. rewrite list_elem_of_fmap. split.
  - intros (x & -> & [Hf Hin]%list_elem_of_filter). apply elem_of_shard in Hin; naive_solver.
  - intros (x & Hx & Hns & Hobj & Hrel & Hact & <-). exists x. split; [done|].
    apply list_elem_of_filter. split; [done|]. by apply elem_of_shard.
Qed.

Lemma objectIDsLoop_spec now ns seen ts id :
  id ∈ objectIDsLoop now ns seen ts
  <-> (id ∉ seen) /\ exists x, x ∈ ts /\ t_Namespace x = ns /\ ActiveAt x now = true /\ t_ObjectID x = id.
Proof.
  revert seen. induction ts as [|y ts IH]; intros seen; simpl.
  { split; [by intros ?%not_elem_of_nil|]. by intros (_ & x & ?%not_elem_of_nil & _). }
  case_decide as Hd.
  - rewrite elem_of_cons, IH. destruct Hd as (Hn & Ha & Hs).
    setoid_rewrite elem_of_cons. destruct (decide (id = t_ObjectID y)) as [->|Hne]; [naive_solver|].
    set_solver.
  - rewrite IH. setoid_rewrite elem_of_cons. split; [naive_solver|].
    intros (Hs & x & [->|Hx] & Hn & Ha & <-); [|naive_solver]. by destruct Hd.
Qed.

Lemma objectIDsLoop_NoDup now ns seen ts : NoDup (objectIDsLoop now ns seen ts).
Proof.
  revert seen. induction ts as [|y ts IH]; intros seen; simpl; [constructor|].
  case_decide; [|apply IH]. constructor; [|apply IH]. rewrite objectIDsLoop_spec. set_solver.
Qed.
End Read.

(** ** Deprovisioning *)
Lemma inner_dropSubjectTuples p u (ts : gmap string (gmap string Tuple)) sk :
  inner (dropSubjectTuples p u ts) sk
  = if inProject p sk then filter (fun kv => isSubjectUser u kv.2 = false) (inner ts sk) else inner ts sk.
Proof.
  unfold inner, dropSubjectTuples. rewrite map_lookup_imap.
  destruct (ts !! sk) as [m|]; simpl; [by destruct (inProject p sk)|].
  destruct (inProject p sk); [|done]. by rewrite map_filter_empty.
Qed.

Lemma inner_dropSubjectSeats p u seats sk sku :
  inner (inner (dropSubjectSeats p u seats) sk) sku
  = if inProject p sk then delete u (inner (inner seats sk) sku) else inner (inner seats sk) sku.
Proof.
  unfold inner, dropSubjectSeats. rewrite map_lookup_imap.
  destruct (seats !! sk) as [bySKU|]; simpl.
  - destruct (inProject p sk); [|done]. unfold dropUserSeats. rewrite lookup_fmap.
    destruct (bySKU !! sku); simpl; [done|]. by rewrite delete_empty.
  - rewrite lookup_empty. simpl. destruct (inProject p sk); by rewrite ?delete_empty.
Qed.

Lemma holds_deprovision p u s p' t x :
  let s' := (DeleteAllSubjectTuplesInProject p u s).2 in
  holds s' p' t x <-> holds s p' t x /\ (inProject p (scope p' t) = true -> isSubjectUser u x = false).
Proof.
  unfold holds, shard. simpl. rewrite inner_dropSubjectTuples.
  destruct (inProject p (scope p' t)); [|naive_solver].
  rewrite map_lookup_filter_Some. simpl. naive_solver.
Qed.

Lemma storeKeyed_filter (f : gmap string Tuple -> gmap string Tuple) s :
  (forall m k x, f m !! k = Some x -> m !! k = Some x) ->
  forall sk, storeKeyed s -> map_Forall (fun _ m => shardKeyed m) (alter f sk (tuples s)).
Proof.
  intros Hf sk Hs sk' m. rewrite lookup_alter_Some. intros [(-> & m0 & Hm0 & ->)|[_ Hm]]; [|by eapply Hs].
  intros k x Hx. eapply Hs; [exact Hm0|]. by apply Hf.
Qed.

Lemma storeKeyed_deprovision p u s :
  storeKeyed s -> storeKeyed (DeleteAllSubjectTuplesInProject p u s).2.
Proof.
  intros Hs sk m. simpl. unfold dropSubjectTuples. rewrite map_lookup_imap.
  destruct (tuples s !! sk) as [m0|] eqn:Hm0; simpl; [|done]. intros [= <-].
  destruct (inProject p sk); [|by eapply Hs]. intros k x [Hx _]%map_lookup_filter_Some.
  by eapply Hs.
Qed.

(** ** Claims *)

(** Two tuples share a storage key exactly when they have the same
    namespace, object, relation and subject, for every content of the fields:
    condition and expiry are not part of the identity, and no choice of
    separators or lengths inside a field can make two different tuples collide. *)
Theorem tupleKey_identifies t t' : tupleKey t = tupleKey t' <-> tupleIdent t = tupleIdent t'.
Proof. apply tupleKey_ident. Qed.

(** C4.  Write then read: after a batch is applied to a shard, a subject is
    listed for a relation exactly when some unexpired tuple with it is either the
    last insert of its identity in the batch, or was held before and is neither
    replaced by an insert nor named by a delete of the batch.  Inserting twice is
    idempotent, an insert wins over a delete of the same batch, and deleting an
    absent tuple changes nothing. *)
Theorem writeTuples_then_list `{MapRange} now p t ins del s ns obj rel subs sub :
  storeKeyed s ->
  ListSubjects (storeReader now (WriteTuples p t ins del s).2) p t ns obj rel = Ok subs ->
  sub ∈ subs <->
  exists x, t_Namespace x = ns /\ t_ObjectID x = obj /\ t_Relation x = rel /\
    ActiveAt x now = true /\ t_Subject x = sub /\
    (lastInsert ins x = Some x \/
     ((forall y, y ∈ ins -> tupleIdent y <> tupleIdent x) /\
      (forall y, y ∈ del -> tupleIdent y <> tupleIdent x) /\ holds s p t x)).
Proof.
  intros Hs Hl. rewrite (elem_of_ListSubjects _ _ _ _ _ _ _ _ _ (storeKeyed_write _ _ _ _ _ Hs) Hl).
  setoid_rewrite holds_write. setoid_rewrite lastInsert_None. naive_solver.
Qed.

Definition eveTuple : Tuple := userTuple "resource" "doc" "viewer" "eve".
Definition eveStore : Store := (WriteTuples "p" "t" [eveTuple] [] New).2.

Lemma writeTuples_then_list_witness :
  let subs := [] : list Subject in
  mkSubject "eve" None false None ∈ subs <->
  exists x, t_Namespace x = "resource" /\ t_ObjectID x = "doc" /\ t_Relation x = "viewer" /\
    ActiveAt x 7 = true /\ t_Subject x = mkSubject "eve" None false None /\
    (lastInsert [] x = Some x \/
     ((forall y, y ∈ [] -> tupleIdent y <> tupleIdent x) /\
      (forall y, y ∈ [eveTuple] -> tupleIdent y <> tupleIdent x) /\ holds eveStore "p" "t" x)).
Proof.
  apply (@writeTuples_then_list map_range_default 7 "p" "t" [] [eveTuple] eveStore "resource" "doc" "viewer").
  - apply storeKeyed_write. apply map_Forall_empty.
  - vm_compute. reflexivity.
Defined.

(** C33.  Shards are isolated: for ids without NUL, a batch written to one
    (project, tenant) changes nothing another one can read: its subjects, its
    objects, its tuples and its write sequence stay the same. *)
Theorem writeTuples_isolated `{MapRange} now p t p' t' ins del s :
  idOK p -> idOK p' -> (p, t) <> (p', t') ->
  let s' := (WriteTuples p t ins del s).2 in
  (forall ns obj rel, ListSubjects (storeReader now s') p' t' ns obj rel
                      = ListSubjects (storeReader now s) p' t' ns obj rel) /\
  (forall ns, ListObjectIDs_ now s' p' t' ns = ListObjectIDs_ now s p' t' ns) /\
  (forall f, (ReadTuples now p' t' f s').1 = (ReadTuples now p' t' f s).1) /\
  (ConsistencyToken p' t' s').1 = (ConsistencyToken p' t' s).1.
Proof.
  intros Hp Hp' Hne s'.
  assert (Hsc : scope p t <> scope p' t').
  { intros [-> ->]%scope_inj; done. }
  assert (Hsh : shard s' p' t' = shard s p' t') by by apply shard_write_ne.
  split_and!.
  - intros ns obj rel. simpl. unfold ListSubjects_. by rewrite Hsh.
  - intros ns. unfold ListObjectIDs_. by rewrite Hsh.
  - intros f. unfold ReadTuples. by rewrite Hsh.
  - unfold ConsistencyToken. simpl. unfold incr. by rewrite lookup_insert_ne.
Qed.

Lemma writeTuples_isolated_witness :
  let s' := (WriteTuples "p" "t" [] [eveTuple] eveStore).2 in
  (forall ns obj rel, ListSubjects (storeReader 7 s') "p" "u" ns obj rel
                      = ListSubjects (storeReader 7 eveStore) "p" "u" ns obj rel) /\
  (forall ns, ListObjectIDs_ 7 s' "p" "u" ns = ListObjectIDs_ 7 eveStore "p" "u" ns) /\
  (forall f, (ReadTuples 7 "p" "u" f s').1 = (ReadTuples 7 "p" "u" f eveStore).1) /\
  (ConsistencyToken "p" "u" s').1 = (ConsistencyToken "p" "u" eveStore).1.
Proof.
  apply (@writeTuples_isolated map_range_default 7 "p" "t" "p" "u" [] [eveTuple] eveStore);
    [reflexivity|reflexivity|intros [=]].
Defined.

(** C34.  Deprovisioning is complete and precise, for project ids without NUL:
    afterwards no tenant of the project holds a tuple whose concrete subject is the
    user and no seat of the project is assigned to the user, while every other
    tuple, every other seat, the tuples and seats of every other project (whose id
    has no NUL either), and all projects, workspaces, memberships, invitations,
    groups, enrollments, seat limits and write sequences are untouched. *)
Theorem deprovision_complete_precise p u s :
  idOK p ->
  let s' := (DeleteAllSubjectTuplesInProject p u s).2 in
  (forall t x, holds s' p t x <-> holds s p t x /\ isSubjectUser u x = false) /\
  (forall t sku v, inner (inner (seatAssigns s') (scope p t)) sku !! v
     = if decide (v = u) then None else inner (inner (seatAssigns s) (scope p t)) sku !! v) /\
  (forall p' t, idOK p' -> p' <> p ->
     shard s' p' t = shard s p' t /\
     forall sku, inner (inner (seatAssigns s') (scope p' t)) sku = inner (inner (seatAssigns s) (scope p' t)) sku) /\
  (projects s' = projects s /\ workspaces s' = workspaces s /\ memberships s' = memberships s /\
   invitations s' = invitations s /\ groups s' = groups s /\ enrollments s' = enrollments s /\
   seatLimits s' = seatLimits s /\ seqs s' = seqs s).
Proof.
  intros Hp s'. split; [|split; [|split; [|done]]].
  - intros t x. unfold s'. rewrite holds_deprovision.
    assert (inProject p (scope p t) = true) by by apply inProject_scope. naive_solver.
  - intros t sku v. unfold s'. simpl. rewrite inner_dropSubjectSeats.
    rewrite (proj2 (inProject_scope p p t Hp Hp) eq_refl).
    case_decide as Hv; [subst; apply lookup_delete_eq | by rewrite lookup_delete_ne].
  - intros p' t Hp' Hne.
    assert (Hin : inProject p (scope p' t) = false).
    { destruct (inProject p (scope p' t)) eqn:E; [|done]. apply inProject_scope in E; [|done..]. congruence. }
    unfold shard, s'. simpl. rewrite inner_dropSubjectTuples, Hin. split; [done|].
    intros sku. by rewrite inner_dropSubjectSeats, Hin.
Qed.

Lemma deprovision_complete_precise_witness :
  let s' := (DeleteAllSubjectTuplesInProject "p" "eve" eveStore).2 in
  (forall t x, holds s' "p" t x <-> holds eveStore "p" t x /\ isSubjectUser "eve" x = false) /\
  (forall t sku v, inner (inner (seatAssigns s') (scope "p" t)) sku !! v
     = if decide (v = "eve") then None else inner (inner (seatAssigns eveStore) (scope "p" t)) sku !! v) /\
  (forall p' t, idOK p' -> p' <> "p" ->
     shard s' p' t = shard eveStore p' t /\
     forall sku, inner (inner (seatAssigns s') (scope p' t)) sku
                 = inner (inner (seatAssigns eveStore) (scope p' t)) sku) /\
  (projects s' = projects eveStore /\ workspaces s' = workspaces eveStore /\ memberships s' = memberships eveStore /\
   invitations s' = invitations eveStore /\ groups s' = groups eveStore /\ enrollments s' = enrollments eveStore /\
   seatLimits s' = seatLimits eveStore /\ seqs s' = seqs eveStore).
Proof. apply (deprovision_complete_precise "p" "eve" eveStore). reflexivity. Defined.

(** A seat is only ever assigned under the cap: a new assignment happens
    only while the usage is below the configured limit and raises it by one; an
    already seated user consumes nothing and gets the tuple re-asserted; at the
    limit the call fails and neither seats nor tuples change. *)
Theorem assignSeat_respects_cap a tuple s :
  let sk := scope (sa_ProjectID a) (sa_TenantID a) in
  let seats st := inner (inner (seatAssigns st) sk) (sa_SKU a) in
  let used st := (seatUsageLocked st sk (sa_SKU a)).1 in
  let limit := (seatUsageLocked s sk (sa_SKU a)).2 in
  match AssignSeatAndTuple a tuple s with
  | (Ok true, s') => is_Some (seats s !! sa_UserID a) /\ seats s' = seats s
                     /\ holds s' (sa_ProjectID a) (sa_TenantID a) tuple
  | (Ok false, s') => seats s !! sa_UserID a = None /\ seats s' = <[sa_UserID a := a]> (seats s)
                      /\ used s' = used s + 1 /\ (forall n, limit = Some n -> used s' <= n)
                      /\ holds s' (sa_ProjectID a) (sa_TenantID a) tuple
  | (Err e, s') => e = ErrResourceExhausted /\ seats s !! sa_UserID a = None
                   /\ (exists n, limit = Some n /\ n <= used s)
                   /\ seats s' = seats s /\ tuples s' = tuples s
  end.
Proof.
  intros sk seats used limit. unfold AssignSeatAndTuple.
  fold sk. simpl. rewrite inner_insert, inner_ensure.
  change (inner (inner (seatAssigns s) sk) (sa_SKU a)) with (seats s).
  assert (Hheld : forall st, holds (writeTuplesLocked (sa_ProjectID a) (sa_TenantID a) [tuple] [] st)
                               (sa_ProjectID a) (sa_TenantID a) tuple).
  { intros st. apply holds_write. left. unfold lastInsert. rewrite filter_cons_True; done. }
  destruct (seats s !! sa_UserID a) as [a0|] eqn:Ha; simpl.
  { split_and!; [eauto| |apply Hheld]. unfold seats. simpl. by rewrite inner_insert, inner_ensure. }
  change (inner (seatLimits s) sk !! sa_SKU a) with limit. clearbody limit.
  match goal with |- context [if ?b then _ else _] => destruct b eqn:Hlim end; simpl.
  - split_and!; [done|done| |unfold seats; simpl; by rewrite inner_insert, inner_ensure|done].
    destruct limit as [n|]; [|done]. exists n. split; [done|]. by apply Z.leb_le.
  - assert (Hseats : forall st f, seats (writeTuplesLocked (sa_ProjectID a) (sa_TenantID a) [tuple] []
        (set_seatAssigns (fun m => <[sk := put2 (sa_SKU a) (sa_UserID a) a (inner m sk)]> m)
           (set_seatAssigns f st))) = <[sa_UserID a := a]> (inner (inner (f (seatAssigns st)) sk) (sa_SKU a))).
    { intros st f. unfold seats. simpl. by rewrite inner_insert, inner_put2. }
    pose proof (Hseats s (fun m => <[sk := ensureInner (sa_SKU a) (inner m sk)]> m)) as Hs.
    cbn beta in Hs. rewrite inner_insert, inner_ensure in Hs. fold (seats s) in Hs.
    assert (Hused : used (writeTuplesLocked (sa_ProjectID a) (sa_TenantID a) [tuple] []
        (set_seatAssigns (fun m => <[sk := put2 (sa_SKU a) (sa_UserID a) a (inner m sk)]> m)
           (set_seatAssigns (fun m => <[sk := ensureInner (sa_SKU a) (inner m sk)]> m) s))) = used s + 1).
    { unfold used, seatUsageLocked, fst. unfold seats in Hs. rewrite Hs, map_size_insert_None by done. lia. }
    split_and!; [done|exact Hs|exact Hused| |apply Hheld].
    intros n Hn. rewrite Hused. rewrite Hn in Hlim. apply Z.leb_gt in Hlim. unfold used, seatUsageLocked. simpl.
    unfold seats in Hlim. lia.
Qed.

(** A deprovisioning is invisible to consistency tokens: it removes a tuple
    a reader could see, yet the shard's write sequence does not advance. *)
Theorem deprovision_keeps_sequence :
  let s' := (DeleteAllSubjectTuplesInProject "p" "eve" eveStore).2 in
  ListSubjects (storeReader 7 eveStore) "p" "t" "resource" "doc" "viewer" = Ok [mkSubject "eve" None false None] /\
  ListSubjects (storeReader 7 s') "p" "t" "resource" "doc" "viewer" = Ok [] /\
  (ConsistencyToken "p" "t" s').1 = (ConsistencyToken "p" "t" eveStore).1.
Proof. split_and!; vm_compute; reflexivity. Qed.
