(* ===== verification/Repository.v ===== *)
(** * The storage boundary (internal/service/repository.go)

    [Repository R] is the interface every driver implements, over a state [R].
    Reads that leave out expired tuples look at the clock; its reading is their
    first argument. *)

From stdpp Require Import base gmap strings list.
From Stdlib Require Import ZArith Lia.
From S2P Require Import Prelude Conditions Model Types Engine Memory.
#[local] Open Scope Z_scope.

Class Repository (R : Type) := {
  rListSubjects : Time -> string -> string -> string -> string -> string -> St R (list Subject);
  rListObjectIDs : Time -> string -> string -> string -> St R (list string);

  rWriteTuples : string -> string -> list Tuple -> list Tuple -> St R unit;
  rReadTuples : Time -> string -> string -> TupleFilter -> St R (list Tuple);
  rConsistencyToken : string -> string -> St R Z;
  rDeleteAllSubjectTuplesInProject : string -> string -> St R Z;
  rListSubjectTuplesInProject : Time -> string -> string -> St R (list TupleAt);
  rListTuplesForSubjectSetsInProject : Time -> string -> list SubjectSet -> St R (list TupleAt);

  rCreateProject : Project -> St R unit;
  rGetProject : string -> St R Project;
  rUpdateProject : Project -> St R unit;
  rListProjects : St R (list Project);

  rCreateWorkspace : Workspace -> St R unit;
  rGetWorkspace : string -> string -> string -> St R Workspace;
  rUpdateWorkspace : Workspace -> St R unit;
  rDeleteWorkspace : string -> string -> string -> St R unit;
  rPersonalWorkspace : string -> string -> string -> St R Workspace;
  rWorkspacesForUser : string -> string -> string -> St R (list Workspace);

  rPutMembership : Membership -> St R unit;
  rGetMembership : string -> string -> string -> string -> St R Membership;
  rListMembers : string -> string -> string -> St R (list Membership);
  rDeleteMembership : string -> string -> string -> string -> St R unit;
  rPutMembershipAndTuples : Membership -> list Tuple -> list Tuple -> St R unit;
  rDeleteMembershipAndTuples : string -> string -> string -> string -> list Tuple -> St R unit;

  rCreateInvitation : Invitation -> St R unit;
  rGetInvitation : string -> string -> string -> St R Invitation;
  rGetInvitationByTokenHash : string -> string -> string -> St R Invitation;
  rUpdateInvitation : Invitation -> St R unit;
  rListInvitations : string -> string -> string -> St R (list Invitation);

  rCreateGroup : Group -> St R unit;
  rGetGroup : string -> string -> string -> St R Group;
  rListGroups : string -> string -> string -> St R (list Group);
  rDeleteGroup : string -> string -> string -> St R unit;

  rSetEnrollmentAndTuples : Enrollment -> list Tuple -> list Tuple -> St R unit;
  rGetEnrollment : string -> string -> string -> GroupMember -> St R Enrollment;
  rListEnrollments : string -> string -> string -> St R (list Enrollment);

  rSetSeatLimit : string -> string -> string -> option Z -> St R unit;
  rGetSeatUsage : string -> string -> string -> St R SeatUsage_;
  rAssignSeatAndTuple : SeatAssignment -> Tuple -> St R bool;
  rRevokeSeatAndTuple : string -> string -> string -> string -> Tuple -> St R unit;
  rListSeats : string -> string -> string -> St R (list SeatAssignment);
}.

(** The in-memory driver. *)
#[export] Instance memoryRepository `{MapRange} : Repository Store := {|
  rListSubjects now p t ns o r s := (Memory.ListSubjects_ now s p t ns o r, s);
  rListObjectIDs now p t ns s := (Memory.ListObjectIDs_ now s p t ns, s);
  rWriteTuples := Memory.WriteTuples;
  rReadTuples := Memory.ReadTuples;
  rConsistencyToken := Memory.ConsistencyToken;
  rDeleteAllSubjectTuplesInProject := Memory.DeleteAllSubjectTuplesInProject;
  rListSubjectTuplesInProject := Memory.ListSubjectTuplesInProject;
  rListTuplesForSubjectSetsInProject := Memory.ListTuplesForSubjectSetsInProject;
  rCreateProject := Memory.CreateProject;
  rGetProject := Memory.GetProject;
  rUpdateProject := Memory.UpdateProject;
  rListProjects := Memory.ListProjects;
  rCreateWorkspace := Memory.CreateWorkspace;
  rGetWorkspace := Memory.GetWorkspace;
  rUpdateWorkspace := Memory.UpdateWorkspace;
  rDeleteWorkspace := Memory.DeleteWorkspace;
  rPersonalWorkspace := Memory.PersonalWorkspace;
  rWorkspacesForUser := Memory.WorkspacesForUser;
  rPutMembership := Memory.PutMembership;
  rGetMembership := Memory.GetMembership;
  rListMembers := Memory.ListMembers;
  rDeleteMembership := Memory.DeleteMembership;
  rPutMembershipAndTuples := Memory.PutMembershipAndTuples;
  rDeleteMembershipAndTuples := Memory.DeleteMembershipAndTuples;
  rCreateInvitation := Memory.CreateInvitation;
  rGetInvitation := Memory.GetInvitation;
  rGetInvitationByTokenHash := Memory.GetInvitationByTokenHash;
  rUpdateInvitation := Memory.UpdateInvitation;
  rListInvitations := Memory.ListInvitations;
  rCreateGroup := Memory.CreateGroup;
  rGetGroup := Memory.GetGroup;
  rListGroups := Memory.ListGroups;
  rDeleteGroup := Memory.DeleteGroup;
  rSetEnrollmentAndTuples := Memory.SetEnrollmentAndTuples;
  rGetEnrollment := Memory.GetEnrollment;
  rListEnrollments := Memory.ListEnrollments;
  rSetSeatLimit := Memory.SetSeatLimit;
  rGetSeatUsage := Memory.GetSeatUsage;
  rAssignSeatAndTuple := Memory.AssignSeatAndTuple;
  rRevokeSeatAndTuple := Memory.RevokeSeatAndTuple;
  rListSeats := Memory.ListSeats;
|}.
