(* ===== verification/Conformance.v ===== *)
(** * The conformance suite of the drivers (internal/repo/conformance)

    The scenarios that pin every driver to one contract, as programs over the
    [Repository] interface: [Err] is a test that fails.  [now] is the reading of
    the clock a test takes at its start and the time of its reads. *)

From stdpp Require Import base gmap strings list.
From Stdlib Require Import ZArith Lia SpecFloat.
From S2P Require Import Prelude Conditions Model ModelJson Types Engine Memory Repository.
#[local] Open Scope Z_scope.

Definition sec : Z := 10 ^ 9.
Definition hour : Z := 3600 * sec.

(** [t.Fatalf] *)
Definition failed : error := ErrPlain "test failed".

Section Suite.
Context {R : Type} `{Repository R} (now : Time).

(** [if !ok { t.Fatal }] *)
Definition want (ok : bool) : St R unit := if ok then ret tt else fail failed.

(** [if err := c; !errors.Is(err, target) { t.Fatal }] *)
Definition wantErr {A} (target : error) (c : St R A) : St R unit :=
  let! r := attempt c in
  want (match r with Err e => errors_Is e target | Ok _ => false end).

(** The number of results of a read whose error is ignored. *)
Definition wantLen {A} (n : nat) (c : St R (list A)) : St R unit :=
  let! l := c in want (Nat.eqb (length l) n).

Definition wantOne {A} (ok : A -> bool) (c : St R (list A)) : St R unit :=
  let! l := c in want (match l with [x] => ok x | _ => false end).

Definition isUser (u : string) (s : Subject) : bool := String.eqb (UserID s) u.

(** ** Fixtures *)
Definition setTuple (ns obj rel sns soid srel : string) : Tuple :=
  mkTuple ns obj rel (mkSubject "" (Some (mkSubjectSet sns soid srel)) false None) None.

Definition ws (p id owner typ : string) (created : Time) : Workspace :=
  mkWorkspace id p "" id id typ owner created created.

Definition inv (p id wsID tok : string) (at_ : Time) : Invitation :=
  mkInvitation id p "" wsID (String.append id "@x.com") RoleMember InvitePending "owner" tok at_ (at_ + hour).

Definition grp (p id wsID : string) (at_ : Time) : Group := mkGroup id p "" wsID id id "u1" at_ at_.

Definition membership (p t w u role status : string) (created : Time) : Membership :=
  mkMembership p t w u role status created now.

Definition filterOn (ns obj : string) : TupleFilter := mkTupleFilter ns obj "" "".

Definition withExpiry (e : option Time) (t : Tuple) : Tuple :=
  mkTuple (t_Namespace t) (t_ObjectID t) (t_Relation t) (t_Subject t) e.
Definition withCondition (c : option Condition) (t : Tuple) : Tuple :=
  let s := t_Subject t in
  mkTuple (t_Namespace t) (t_ObjectID t) (t_Relation t) (mkSubject (UserID s) (Set_ s) (Wildcard s) c) (t_ExpiresAt t).

(** ** conformance.go *)
Definition testTuples : St R unit :=
  let p := "proj" in
  let tu := userTuple "workspace" "w1" "owner" "u1" in
  let ts := setTuple "workspace" "w1" "member" "group" "g1" "member" in
  do! rWriteTuples p "" [tu; ts] [] in
  do! rWriteTuples p "" [tu] [] in
  do! wantOne (isUser "u1") (rListSubjects now p "" "workspace" "w1" "owner") in
  do! wantOne (fun s => match Set_ s with Some ss => String.eqb (ss_ObjectID ss) "g1" | None => false end)
        (rListSubjects now p "" "workspace" "w1" "member") in
  do! wantLen 2 (rReadTuples now p "" (filterOn "workspace" "w1")) in
  do! wantLen 1 (rReadTuples now p "" (mkTupleFilter "" "" "" "u1")) in
  do! rWriteTuples p "" [] [tu; userTuple "workspace" "nope" "owner" "x"] in
  wantLen 0 (rListSubjects now p "" "workspace" "w1" "owner").

Definition testWorkspaceCRUD : St R unit :=
  let p := "proj" in
  let w := ws p "w1" "u1" TypeTeam now in
  do! rCreateWorkspace w in
  do! wantErr ErrAlreadyExists (rCreateWorkspace w) in
  let! got := rGetWorkspace p "" "w1" in
  do! want (String.eqb (w_DisplayName got) "w1" && String.eqb (w_Type got) TypeTeam && (w_CreatedAt got =? now)) in
  do! rUpdateWorkspace (mkWorkspace (w_ID got) (w_ProjectID got) (w_TenantID got) (w_Slug got) "renamed" (w_Type got)
                          (w_OwnerUserID got) (w_CreatedAt got) (w_UpdatedAt got)) in
  let! got := rGetWorkspace p "" "w1" in
  do! want (String.eqb (w_DisplayName got) "renamed") in
  do! rDeleteWorkspace p "" "w1" in
  wantErr ErrNotFound (rGetWorkspace p "" "w1").

Definition testPersonalUniqueness : St R unit :=
  let p := "proj" in
  do! rCreateWorkspace (ws p "p1" "u1" TypePersonal now) in
  do! wantErr ErrAlreadyExists (rCreateWorkspace (ws p "p2" "u1" TypePersonal now)) in
  do! rCreateWorkspace (ws p "p3" "u2" TypePersonal now) in
  let! got := rPersonalWorkspace p "" "u1" in
  do! want (String.eqb (w_ID got) "p1") in
  wantErr ErrNotFound (rPersonalWorkspace p "" "ghost").

Definition testDeleteWorkspaceCascade : St R unit :=
  let p := "proj" in
  do! rCreateWorkspace (ws p "w1" "u1" TypeTeam now) in
  do! rPutMembership (membership p "" "w1" "u1" RoleOwner StatusActive now) in
  do! rCreateInvitation (inv p "i1" "w1" "tok1" now) in
  do! rWriteTuples p "" [userTuple "workspace" "w1" "owner" "u1"] [] in
  do! rDeleteWorkspace p "" "w1" in
  do! wantErr ErrNotFound (rGetMembership p "" "w1" "u1") in
  do! wantLen 0 (rListInvitations p "" "w1") in
  wantLen 0 (rListSubjects now p "" "workspace" "w1" "owner").

Definition testMemberships : St R unit :=
  let p := "proj" in
  do! rPutMembership (membership p "" "w1" "u1" RoleMember StatusActive now) in
  do! rPutMembership (membership p "" "w1" "u2" RoleGuest StatusInvited (now + sec)) in
  let! got := rGetMembership p "" "w1" "u1" in
  do! want (String.eqb (mb_Role got) RoleMember) in
  do! rPutMembership (membership p "" "w1" "u1" RoleAdmin StatusActive now) in
  let! got := rGetMembership p "" "w1" "u1" in
  do! want (String.eqb (mb_Role got) RoleAdmin) in
  let! members := rListMembers p "" "w1" in
  do! want (bool_decide (mb_UserID <$> members = ["u1"; "u2"])) in
  do! rDeleteMembership p "" "w1" "u1" in
  do! wantErr ErrNotFound (rGetMembership p "" "w1" "u1") in
  wantErr ErrNotFound (rDeleteMembership p "" "w1" "u1").

Definition testWorkspacesForUser : St R unit :=
  let p := "proj" in
  do! rCreateWorkspace (ws p "wb" "x" TypeTeam (now + 2 * sec)) in
  do! rCreateWorkspace (ws p "wa" "x" TypeTeam (now + sec)) in
  do! rCreateWorkspace (ws p "wc" "x" TypeTeam (now + 3 * sec)) in
  do! rPutMembership (membership p "" "wa" "u1" RoleMember StatusActive now) in
  do! rPutMembership (membership p "" "wb" "u1" RoleMember StatusActive now) in
  do! rPutMembership (membership p "" "wc" "u1" RoleMember StatusInvited now) in
  let! got := rWorkspacesForUser p "" "u1" in
  want (bool_decide (w_ID <$> got = ["wa"; "wb"])).

Definition testInvitations : St R unit :=
  let p := "proj" in
  do! rCreateInvitation (inv p "i1" "w1" "tokA" now) in
  do! rCreateInvitation (inv p "i2" "w1" "tokB" (now + sec)) in
  do! wantErr ErrAlreadyExists (rCreateInvitation (inv p "i1" "w1" "dup" now)) in
  let! got := rGetInvitation p "" "i1" in
  do! want (String.eqb (inv_TokenHash got) "tokA") in
  let! got := rGetInvitationByTokenHash p "" "tokB" in
  do! want (String.eqb (inv_ID got) "i2") in
  do! rUpdateInvitation (mkInvitation (inv_ID got) (inv_ProjectID got) (inv_TenantID got) (inv_WorkspaceID got) (inv_Email got)
        (inv_Role got) InviteAccepted (inv_InvitedBy got) (inv_TokenHash got) (inv_CreatedAt got) (inv_ExpiresAt got)) in
  let! got := rGetInvitation p "" "i2" in
  do! want (String.eqb (inv_Status got) InviteAccepted) in
  let! list := rListInvitations p "" "w1" in
  want (bool_decide (inv_ID <$> list = ["i1"; "i2"])).

Definition testGroups : St R unit :=
  let p := "proj" in
  do! rCreateGroup (grp p "g1" "w1" now) in
  do! rCreateGroup (grp p "g2" "w2" (now + sec)) in
  do! rCreateGroup (grp p "g3" "" (now + 2 * sec)) in
  do! wantErr ErrAlreadyExists (rCreateGroup (grp p "g1" "w1" now)) in
  let! got := rGetGroup p "" "g1" in
  do! want (String.eqb (g_WorkspaceID got) "w1") in
  do! wantLen 3 (rListGroups p "" "") in
  do! wantOne (fun g => String.eqb (g_ID g) "g1") (rListGroups p "" "w1") in
  do! rWriteTuples p "" [userTuple "group" "g1" "member" "u1"] [] in
  do! rDeleteGroup p "" "g1" in
  do! wantErr ErrNotFound (rGetGroup p "" "g1") in
  wantLen 0 (rListSubjects now p "" "group" "g1" "member").

Definition testProjectIsolation : St R unit :=
  let a := "projA" in let b := "projB" in
  do! rCreateWorkspace (ws a "w1" "u1" TypeTeam now) in
  do! rPutMembership (membership a "" "w1" "u1" RoleOwner StatusActive now) in
  do! rCreateGroup (grp a "g1" "w1" now) in
  do! rCreateInvitation (inv a "i1" "w1" "tok" now) in
  do! rWriteTuples a "" [userTuple "workspace" "w1" "owner" "u1"] [] in
  do! rSetEnrollmentAndTuples (mkEnrollment a "" "g1" (mkGroupMember "u1" "") EnrollmentActive now now) [] [] in
  do! wantErr ErrNotFound (rGetWorkspace b "" "w1") in
  do! wantErr ErrNotFound (rGetGroup b "" "g1") in
  do! wantErr ErrNotFound (rGetInvitation b "" "i1") in
  do! wantErr ErrNotFound (rGetMembership b "" "w1" "u1") in
  do! wantLen 0 (rListSubjects now b "" "workspace" "w1" "owner") in
  do! wantLen 0 (rWorkspacesForUser b "" "u1") in
  do! wantErr ErrNotFound (rGetEnrollment b "" "g1" (mkGroupMember "u1" "")) in
  rCreateWorkspace (ws b "w1" "u9" TypeTeam now).

Definition testNotFound : St R unit :=
  let p := "proj" in
  do! wantErr ErrNotFound (rGetWorkspace p "" "ghost") in
  do! wantErr ErrNotFound (rUpdateWorkspace (ws p "ghost" "u" TypeTeam now)) in
  do! wantErr ErrNotFound (rDeleteWorkspace p "" "ghost") in
  do! wantErr ErrNotFound (rGetMembership p "" "w" "u") in
  do! wantErr ErrNotFound (rGetInvitation p "" "ghost") in
  do! wantErr ErrNotFound (rGetInvitationByTokenHash p "" "ghost") in
  do! wantErr ErrNotFound (rUpdateInvitation (inv p "ghost" "w" "t" now)) in
  do! wantErr ErrNotFound (rGetGroup p "" "ghost") in
  wantErr ErrNotFound (rDeleteGroup p "" "ghost").

Definition testTenantIsolation : St R unit :=
  let p := "proj" in let t1 := "tenantA" in let t2 := "tenantB" in
  do! rCreateWorkspace (mkWorkspace "w1" p t1 "w1" "w1" TypeTeam "u1" now now) in
  do! rPutMembership (membership p t1 "w1" "u1" RoleOwner StatusActive now) in
  do! rCreateGroup (mkGroup "g1" p t1 "" "g1" "g1" "u1" now now) in
  do! rWriteTuples p t1 [userTuple "workspace" "w1" "owner" "u1"] [] in
  do! rSetEnrollmentAndTuples (mkEnrollment p t1 "g1" (mkGroupMember "u1" "") EnrollmentActive now now) [] [] in
  do! wantErr ErrNotFound (rGetWorkspace p t2 "w1") in
  do! wantErr ErrNotFound (rGetGroup p t2 "g1") in
  do! wantErr ErrNotFound (rGetMembership p t2 "w1" "u1") in
  do! wantLen 0 (rListSubjects now p t2 "workspace" "w1" "owner") in
  do! wantLen 0 (rWorkspacesForUser p t2 "u1") in
  do! wantErr ErrNotFound (rGetEnrollment p t2 "g1" (mkGroupMember "u1" "")) in
  do! wantLen 0 (rListEnrollments p t2 "g1") in
  rCreateWorkspace (mkWorkspace "w1" p t2 "w1" "w1" TypeTeam "u9" now now).

(** The model of the test is a document of the text layer ([course]); texts are
    compared with [sameText]. *)
Definition testProjects `{MapRange} `{JsonCodec} (course : JsonText) (sameText : JsonText -> JsonText -> bool) : St R unit :=
  let! model := lift (ParseModel course) in
  let p1 := mkProject "prj1" "Kids" ProjectActive (Some model) "us-east-1" 750 now now in
  do! rCreateProject p1 in
  do! wantErr ErrAlreadyExists (rCreateProject p1) in
  do! rCreateProject (mkProject "prj2" "Pro" ProjectActive None "" 0 now now) in
  do! rCreateProject (mkProject "prjR" "DefaultShape" ProjectActive None "us-east-1" 0 now now) in
  let! gotR := rGetProject "prjR" in
  do! want (negb (isSome (p_Model gotR)) && String.eqb (p_DataRegion gotR) "us-east-1") in
  let! got := rGetProject "prj1" in
  let! gotJSON := lift (MarshalModel (default ∅ (p_Model got))) in
  let! wantJSON := lift (MarshalModel model) in
  do! want (sameText gotJSON wantJSON) in
  do! want (String.eqb (p_DataRegion got) "us-east-1") in
  do! want (p_MaxCheckReads got =? 750) in
  let! got2 := rGetProject "prj2" in
  do! want (negb (isSome (p_Model got2)) && String.eqb (p_DataRegion got2) "" && (p_MaxCheckReads got2 =? 0)) in
  do! wantLen 3 rListProjects in
  do! rUpdateProject (mkProject (p_ID got) (p_Name got) ProjectSuspended None (p_DataRegion got) (p_MaxCheckReads got)
                        (p_CreatedAt got) (p_UpdatedAt got)) in
  let! after := rGetProject "prj1" in
  do! want (String.eqb (p_Status after) ProjectSuspended && negb (isSome (p_Model after))
            && String.eqb (p_DataRegion after) "us-east-1" && (p_MaxCheckReads after =? 750)) in
  wantErr ErrNotFound (rGetProject "ghost").

Definition testDeprovision : St R unit :=
  let p := "proj" in let other := "proj2" in
  do! rWriteTuples p "" [userTuple "workspace" "w1" "owner" "u1"; userTuple "group" "g1" "member" "u1";
                         userTuple "resource" "doc2" "viewer" "u2"] [] in
  do! rWriteTuples p "t2" [userTuple "resource" "doc1" "viewer" "u1"] [] in
  do! rWriteTuples other "" [userTuple "resource" "doc9" "viewer" "u1"] [] in
  let! n := rDeleteAllSubjectTuplesInProject p "u1" in
  do! want (n =? 3) in
  do! wantLen 0 (rListSubjects now p "" "workspace" "w1" "owner") in
  do! wantLen 0 (rListSubjects now p "t2" "resource" "doc1" "viewer") in
  do! wantLen 1 (rListSubjects now p "" "resource" "doc2" "viewer") in
  wantLen 1 (rListSubjects now other "" "resource" "doc9" "viewer").

(** ** keycollision.go *)
Definition testKeyCollisionSafety : St R unit :=
  let p := "proj" in
  do! rWriteTuples p "" [userTuple "doc" "a/b" "c" "u1"; userTuple "doc" "a" "b/c" "u1"] [] in
  do! wantLen 1 (rListSubjects now p "" "doc" "a/b" "c") in
  do! wantLen 1 (rListSubjects now p "" "doc" "a" "b/c") in
  do! wantOne (isUser "u1") (rListSubjects now p "" "doc" "a/b" "c") in
  do! rWriteTuples p "" [setTuple "doc" "shared" "viewer" "group" "g/x" "m"; setTuple "doc" "shared" "viewer" "group" "g" "x/m"] [] in
  let! subs := rListSubjects now p "" "doc" "shared" "viewer" in
  do! want (Nat.eqb (length subs) 2) in
  do! want (forallb (fun s => isSome (Set_ s)) subs) in
  let seen := omap (fun s => ss ← Set_ s; Some (ss_ObjectID ss, ss_Relation ss)) subs in
  do! want (bool_decide (("g/x", "m") ∈ seen) && bool_decide (("g", "x/m") ∈ seen)) in
  do! rWriteTuples p "" [userTuple "doc" "x|y" "z" "u2"; userTuple "doc" "x" "y|z" "u2"] [] in
  do! wantLen 1 (rListSubjects now p "" "doc" "x|y" "z") in
  wantLen 1 (rListSubjects now p "" "doc" "x" "y|z").

(** ** consistency.go *)
Definition seqWrite (p tenant obj : string) : St R Z :=
  do! rWriteTuples p tenant [userTuple "doc" obj "viewer" "u1"] [] in rConsistencyToken p tenant.

Definition bumps (p tenant : string) (mutate : St R unit) : St R unit :=
  let! before := rConsistencyToken p tenant in
  do! mutate in
  let! after := rConsistencyToken p tenant in
  want (before <? after).

(** The zero [time.Time] of the rows that set no time. *)
Definition zeroTime : Time := 0.

Definition testConsistencyToken : St R unit :=
  let p := "proj" in let t1 := "tenantA" in let t2 := "tenantB" in
  let! fresh := rConsistencyToken p t1 in
  do! want (fresh =? 0) in
  let! first := seqWrite p t1 "a" in
  do! want (0 <? first) in
  let! second := seqWrite p t1 "b" in
  do! want (first <? second) in
  let! t1now := rConsistencyToken p t1 in
  let! sibling := rConsistencyToken p t2 in
  do! want (sibling =? 0) in
  let! t2first := seqWrite p t2 "a" in
  do! want (t2first =? 1) in
  let! unmoved := rConsistencyToken p t1 in
  do! want (unmoved =? t1now) in
  do! bumps p t1 (rPutMembershipAndTuples (mkMembership p t1 "wc" "uc" RoleMember StatusActive zeroTime zeroTime)
                    [userTuple "workspace" "wc" "member" "uc"] []) in
  do! bumps p t1 (do! rAssignSeatAndTuple (mkSeatAssignment p t1 "pro" "uc" zeroTime) (userTuple "seat" "pro" "holder" "uc") in ret tt) in
  bumps p t1 (do! rCreateGroup (mkGroup "co" p t1 "" "co" "co" "" zeroTime zeroTime) in
              rSetEnrollmentAndTuples (mkEnrollment p t1 "co" (mkGroupMember "uc" "") EnrollmentActive zeroTime zeroTime)
                [userTuple "group" "co" "member" "uc"] []).

(** ** wildcard.go *)
Definition testWildcardTuples : St R unit :=
  let p := "proj" in
  let wild := mkTuple "doc" "d1" "viewer" (mkSubject "" None true None) None in
  do! rWriteTuples p "" [wild; userTuple "doc" "d1" "viewer" "bob"] [] in
  let! subs := rListSubjects now p "" "doc" "d1" "viewer" in
  do! want (forallb (fun s => if Wildcard s then negb (isSome (Set_ s)) && isUser "" s else isUser "bob" s) subs) in
  do! want (Nat.eqb (length (filter (fun s => Wildcard s = true) subs)) 1
            && Nat.eqb (length (filter (fun s => Wildcard s = false) subs)) 1) in
  do! rDeleteAllSubjectTuplesInProject p "bob" in
  wantOne Wildcard (rListSubjects now p "" "doc" "d1" "viewer").

(** ** expiry.go *)
Definition subjectUsers (p ns obj rel : string) : St R (list string) :=
  let! subs := rListSubjects now p "" ns obj rel in ret (UserID <$> subs).

Definition testTupleExpiry : St R unit :=
  let p := "proj" in
  let past := now - hour in let future := now + hour in
  let perm := userTuple "doc" "d1" "viewer" "u_perm" in
  let live := userTuple "doc" "d1" "viewer" "u_live" in
  let dead := userTuple "doc" "d1" "viewer" "u_dead" in
  do! rWriteTuples p "" [perm; withExpiry (Some future) live; withExpiry (Some past) dead] [] in
  let! got := subjectUsers p "doc" "d1" "viewer" in
  do! want (bool_decide ("u_perm" ∈ got) && bool_decide ("u_live" ∈ got) && negb (bool_decide ("u_dead" ∈ got))) in
  do! wantLen 2 (rReadTuples now p "" (filterOn "doc" "d1")) in
  do! rWriteTuples p "" [withExpiry (Some future) dead] [] in
  let! got := subjectUsers p "doc" "d1" "viewer" in
  do! want (bool_decide ("u_dead" ∈ got)) in
  do! rWriteTuples p "" [withExpiry None live] [] in
  let! all := rReadTuples now p "" (filterOn "doc" "d1") in
  want (forallb (fun t => negb (isUser "u_live" (t_Subject t) && isSome (t_ExpiresAt t))) all).

(** ** conditions.go *)
Definition conditionName (t : Tuple) : option string := c_Name <$> Cond (t_Subject t).

Definition testConditions : St R unit :=
  let p := "proj" in
  let read := rReadTuples now p "" (filterOn "course" "c1") in
  let tup := userTuple "course" "c1" "viewer" "kid" in
  do! rWriteTuples p "" [withCondition (Some (mkCondition "age_at_least" {["min_age" := AnyFloat64 (float64_of_int 13)]})) tup] [] in
  do! wantOne (fun t => bool_decide (conditionName t = Some "age_at_least")
                        && match Cond (t_Subject t) with
                           | Some c => match c_Params c !! "min_age" with
                                       | Some (AnyFloat64 mn) => SFeqb mn (float64_of_int 13)
                                       | _ => false
                                       end
                           | None => false
                           end) read in
  do! rWriteTuples p "" [withCondition (Some (mkCondition "consent_granted" ∅)) tup] [] in
  do! wantOne (fun t => bool_decide (conditionName t = Some "consent_granted")) read in
  do! rWriteTuples p "" [withCondition None tup] [] in
  wantOne (fun t => negb (isSome (Cond (t_Subject t)))) read.

(** ** export.go *)
Definition testSubjectExport : St R unit :=
  let p := "proj" in
  do! rWriteTuples p "t1" [userTuple "workspace" "w1" "admin" "u"; userTuple "group" "g1" "member" "u"] [] in
  do! rWriteTuples p "t2" [userTuple "resource" "doc1" "viewer" "u"] [] in
  do! rWriteTuples p "t1" [setTuple "resource" "proj1" "editor" "group" "g1" "member"] [] in
  do! rWriteTuples p "t1" [userTuple "workspace" "w1" "admin" "other"] [] in
  do! rWriteTuples "otherproj" "t1" [userTuple "workspace" "w9" "owner" "u"] [] in
  let! direct := rListSubjectTuplesInProject now p "u" in
  do! want (Nat.eqb (length direct) 3) in
  do! want (forallb (fun ta => isUser "u" (t_Subject (ta_Tuple ta))) direct) in
  do! want (bool_decide ("t1" ∈ ta_TenantID <$> direct) && bool_decide ("t2" ∈ ta_TenantID <$> direct)) in
  let groups := filter (fun ta => t_Namespace (ta_Tuple ta) = "group" /\ t_Relation (ta_Tuple ta) = "member") direct in
  do! want (bool_decide ((fun ta => t_ObjectID (ta_Tuple ta)) <$> last groups = Some "g1")) in
  wantOne (fun ta => String.eqb (t_ObjectID (ta_Tuple ta)) "proj1" && String.eqb (ta_TenantID ta) "t1")
    (rListTuplesForSubjectSetsInProject now p [mkSubjectSet "group" "g1" "member"]).

(** ** atomic.go *)
Definition testAtomicMembership : St R unit :=
  let p := "proj" in
  let m := membership p "" "w1" "u1" RoleAdmin StatusActive now in
  let roleTup := userTuple "workspace" "w1" "admin" "u1" in
  do! rPutMembershipAndTuples m [roleTup] [] in
  do! rGetMembership p "" "w1" "u1" in
  do! wantOne (isUser "u1") (rListSubjects now p "" "workspace" "w1" "admin") in
  do! rDeleteMembershipAndTuples p "" "w1" "u1" [roleTup] in
  do! wantErr ErrNotFound (rGetMembership p "" "w1" "u1") in
  do! wantLen 0 (rListSubjects now p "" "workspace" "w1" "admin") in
  let keep := userTuple "workspace" "w2" "member" "u9" in
  do! rWriteTuples p "" [keep] [] in
  do! wantErr ErrNotFound (rDeleteMembershipAndTuples p "" "w2" "ghost" [keep]) in
  do! wantLen 1 (rListSubjects now p "" "workspace" "w2" "member") in
  do! rPutMembershipAndTuples (membership p "" "w3" "u3" RoleMember StatusActive now) [userTuple "workspace" "w3" "member" "u3"] [] in
  do! rPutMembershipAndTuples (membership p "" "w3" "u3" RoleAdmin StatusActive now)
        [userTuple "workspace" "w3" "admin" "u3"] [userTuple "workspace" "w3" "member" "u3"] in
  do! wantLen 0 (rListSubjects now p "" "workspace" "w3" "member") in
  do! wantOne (isUser "u3") (rListSubjects now p "" "workspace" "w3" "admin") in
  let! got := rGetMembership p "" "w3" "u3" in
  want (String.eqb (mb_Role got) RoleAdmin).

(** ** enrollments.go *)
Definition enrollment (member : GroupMember) (state : string) (created updated : Time) : Enrollment :=
  mkEnrollment "proj" "" "cohort" member state created updated.

Definition testEnrollments : St R unit :=
  let p := "proj" in
  let alice := mkGroupMember "alice" "" in
  let bob := mkGroupMember "bob" "" in
  let tup := userTuple "group" "cohort" "member" "alice" in
  do! rCreateGroup (grp p "cohort" "" now) in
  do! rSetEnrollmentAndTuples (enrollment alice EnrollmentActive now now) [tup] [] in
  let! got := rGetEnrollment p "" "cohort" alice in
  do! want (String.eqb (en_State got) EnrollmentActive) in
  do! wantOne (isUser "alice") (rListSubjects now p "" "group" "cohort" "member") in
  do! rSetEnrollmentAndTuples (enrollment alice EnrollmentCompleted now (now + hour)) [] [tup] in
  do! wantLen 0 (rListSubjects now p "" "group" "cohort" "member") in
  let! got := rGetEnrollment p "" "cohort" alice in
  do! want (String.eqb (en_State got) EnrollmentCompleted) in
  do! rSetEnrollmentAndTuples (enrollment bob EnrollmentWaitlisted (now + sec) (now + sec)) []
        [userTuple "group" "cohort" "member" "bob"] in
  do! wantLen 2 (rListEnrollments p "" "cohort") in
  do! wantErr ErrNotFound (rGetEnrollment p "" "cohort" (mkGroupMember "ghost" "")) in
  let userTeamX := mkGroupMember "team-x" "" in
  let groupTeamX := mkGroupMember "" "team-x" in
  do! rSetEnrollmentAndTuples (enrollment userTeamX EnrollmentActive now now) [userTuple "group" "cohort" "member" "team-x"] [] in
  do! rSetEnrollmentAndTuples (enrollment groupTeamX EnrollmentWaitlisted now now) [] [] in
  let! gotUser := rGetEnrollment p "" "cohort" userTeamX in
  do! want (String.eqb (en_State gotUser) EnrollmentActive && String.eqb (gm_GroupID (en_Member gotUser)) "") in
  let! gotGroup := rGetEnrollment p "" "cohort" groupTeamX in
  do! want (String.eqb (en_State gotGroup) EnrollmentWaitlisted && String.eqb (gm_UserID (en_Member gotGroup)) "") in
  do! rDeleteGroup p "" "cohort" in
  wantLen 0 (rListEnrollments p "" "cohort").

(** ** seats.go *)
Definition seatTup (sku user : string) : Tuple := userTuple "seat" sku "holder" user.

Definition assignIn (p t sku user : string) : St R bool :=
  rAssignSeatAndTuple (mkSeatAssignment p t sku user now) (seatTup sku user).

(** The result of an assignment that must succeed. *)
Definition wantHeld (held : bool) (c : St R bool) : St R unit := let! h := c in want (Bool.eqb h held).

Definition seatHolders (n : nat) (p t sku : string) : St R unit := wantLen n (rListSubjects now p t "seat" sku "holder").

(** The goroutines of the race: each assignment is one critical section, so a run
    is an order of them; the two counters. *)
Fixpoint race (p sku : string) (users : list string) : St R (nat * nat) :=
  match users with
  | [] => ret (0, 0)%nat
  | user :: users' =>
      let! r := attempt (assignIn p "" sku user) in
      do! want (match r with Ok _ => true | Err e => errors_Is e ErrResourceExhausted end) in
      let! counts := race p sku users' in
      ret (match r with Ok _ => (S counts.1, counts.2) | Err _ => (counts.1, S counts.2) end)
  end.

Definition testSeats (racers : list string) : St R unit :=
  let p := "proj" in
  let assign := assignIn p "" in
  let! u := rGetSeatUsage p "" "free" in
  do! want (negb (su_Limited u)) in
  do! wantHeld false (assign "free" "a") in
  do! wantHeld false (assign "free" "b") in
  do! wantHeld false (assign "free" "c") in
  do! rSetSeatLimit p "" "pro" (Some 2) in
  do! wantHeld false (assign "pro" "u1") in
  do! wantHeld false (assign "pro" "u2") in
  do! wantErr ErrResourceExhausted (assign "pro" "u3") in
  do! seatHolders 2 p "" "pro" in
  do! wantHeld true (assign "pro" "u1") in
  let! u := rGetSeatUsage p "" "pro" in
  do! want ((su_Used u =? 2) && (su_Limit u =? 2) && su_Limited u) in
  do! rRevokeSeatAndTuple p "" "pro" "u2" (seatTup "pro" "u2") in
  do! wantHeld false (assign "pro" "u3") in
  do! seatHolders 2 p "" "pro" in
  do! wantLen 2 (rListSeats p "" "pro") in
  do! rSetSeatLimit p "" "race" (Some 3) in
  let! counts := race p "race" racers in
  do! want (Nat.eqb counts.1 3 && Nat.eqb counts.2 (length racers - 3)) in
  let! u := rGetSeatUsage p "" "race" in
  want (su_Used u =? 3).

Definition testSeatLimitSemantics : St R unit :=
  let p := "proj" in
  let assign := assignIn p "" in
  do! rSetSeatLimit p "" "none" (Some 0) in
  do! wantErr ErrResourceExhausted (assign "none" "u1") in
  do! rSetSeatLimit p "" "none" None in
  let! u := rGetSeatUsage p "" "none" in
  do! want (negb (su_Limited u)) in
  do! wantHeld false (assign "none" "u1") in
  do! rSetSeatLimit p "" "dg" (Some 3) in
  do! assign "dg" "a" in
  do! assign "dg" "b" in
  do! assign "dg" "c" in
  do! rSetSeatLimit p "" "dg" (Some 1) in
  let! u := rGetSeatUsage p "" "dg" in
  do! want ((su_Used u =? 3) && (su_Limit u =? 1)) in
  do! wantErr ErrResourceExhausted (assign "dg" "d") in
  do! rRevokeSeatAndTuple p "" "dg" "a" (seatTup "dg" "a") in
  do! rRevokeSeatAndTuple p "" "dg" "b" (seatTup "dg" "b") in
  do! rRevokeSeatAndTuple p "" "dg" "c" (seatTup "dg" "c") in
  do! wantHeld false (assign "dg" "d") in
  do! rWriteTuples p "" [] [seatTup "dg" "d"] in
  do! seatHolders 0 p "" "dg" in
  do! wantHeld true (assign "dg" "d") in
  do! seatHolders 1 p "" "dg" in
  do! rSetSeatLimit p "" "dep" (Some 1) in
  do! assign "dep" "leaver" in
  do! wantErr ErrResourceExhausted (assign "dep" "other") in
  do! rDeleteAllSubjectTuplesInProject p "leaver" in
  let! u := rGetSeatUsage p "" "dep" in
  do! want (su_Used u =? 0) in
  do! seatHolders 0 p "" "dep" in
  wantHeld false (assign "dep" "other").

Definition testSeatIsolation : St R unit :=
  let pA := "projA" in let pB := "projB" in let tA := "tenantA" in let tB := "tenantB" in
  do! rSetSeatLimit pA tA "pro" (Some 1) in
  do! assignIn pA tA "pro" "alice" in
  let! u := rGetSeatUsage pA tB "pro" in
  do! want ((su_Used u =? 0) && negb (su_Limited u)) in
  do! wantHeld false (assignIn pA tB "pro" "bob") in
  let! u := rGetSeatUsage pA tA "pro" in
  do! want (su_Used u =? 1) in
  do! wantOne (fun a => String.eqb (sa_UserID a) "bob") (rListSeats pA tB "pro") in
  do! wantOne (isUser "alice") (rListSubjects now pA tA "seat" "pro" "holder") in
  do! wantOne (isUser "bob") (rListSubjects now pA tB "seat" "pro" "holder") in
  let! u := rGetSeatUsage pB tA "pro" in
  do! want ((su_Used u =? 0) && negb (su_Limited u)) in
  wantHeld false (assignIn pB tA "pro" "carol").
End Suite.

(** ** The whole suite: every test on a fresh store *)
Definition Run {R} `{Repository R} `{MapRange} `{JsonCodec} (newRepo : R) (now : Time) (course : JsonText)
    (sameText : JsonText -> JsonText -> bool) (racers : list string) : list (string * bool) :=
  let run name (fn : St R unit) := (name, is_ok (fn newRepo).1) in
  [run "Tuples" (testTuples now);
   run "KeyCollisionSafety" (testKeyCollisionSafety now);
   run "ConsistencyToken" testConsistencyToken;
   run "WildcardTuples" (testWildcardTuples now);
   run "TupleExpiry" (testTupleExpiry now);
   run "Conditions" (testConditions now);
   run "WorkspaceCRUD" (testWorkspaceCRUD now);
   run "PersonalUniqueness" (testPersonalUniqueness now);
   run "DeleteWorkspaceCascade" (testDeleteWorkspaceCascade now);
   run "Memberships" (testMemberships now);
   run "WorkspacesForUser" (testWorkspacesForUser now);
   run "Invitations" (testInvitations now);
   run "Groups" (testGroups now);
   run "Enrollments" (testEnrollments now);
   run "ProjectIsolation" (testProjectIsolation now);
   run "TenantIsolation" (testTenantIsolation now);
   run "Projects" (testProjects now course sameText);
   run "Deprovision" (testDeprovision now);
   run "SubjectExport" (testSubjectExport now);
   run "AtomicMembership" (testAtomicMembership now);
   run "Seats" (testSeats now racers);
   run "SeatLimitSemantics" (testSeatLimitSemantics now);
   run "SeatIsolation" (testSeatIsolation now);
   run "NotFound" (testNotFound now)].

(** ** The in-memory driver passes

    Texts are documents themselves here, so texts are compared as documents. *)
Section DocEq.
Fixpoint rewriteDocEqb (a b : RewriteDoc) {struct a} : bool :=
  let list := fix list (xs ys : list RewriteDoc) : bool :=
    match xs, ys with
    | [], [] => true
    | x :: xs', y :: ys' => rewriteDocEqb x y && list xs' ys'
    | _, _ => false
    end in
  let opt xs ys := match xs, ys with Some xs, Some ys => list xs ys | None, None => true | _, _ => false end in
  Bool.eqb (rd_This a) (rd_This b) && String.eqb (rd_Computed a) (rd_Computed b)
  && match rd_TupleToUserset a, rd_TupleToUserset b with
     | Some x, Some y => String.eqb (td_Tupleset x) (td_Tupleset y) && String.eqb (td_Computed x) (td_Computed y)
     | None, None => true
     | _, _ => false
     end
  && opt (rd_Union a) (rd_Union b) && opt (rd_Intersection a) (rd_Intersection b)
  && match rd_Exclusion a, rd_Exclusion b with
     | Some x, Some y => rewriteDocEqb (xd_Include x) (xd_Include y) && rewriteDocEqb (xd_Exclude x) (xd_Exclude y)
     | None, None => true
     | _, _ => false
     end.

(** Two maps with the same keys and [eqb] values. *)
Definition mapEqb {A} (eqb : A -> A -> bool) (m n : gmap string A) : bool :=
  forallb (fun kv => match n !! kv.1 with Some y => eqb kv.2 y | None => false end) (map_to_list m)
  && forallb (fun kv => isSome (m !! kv.1)) (map_to_list n).

Definition modelDocEqb : ModelDoc -> ModelDoc -> bool := mapEqb (mapEqb rewriteDocEqb).
End DocEq.

Definition documentCodec : JsonCodec :=
  {| JsonText := ModelDoc; json_Marshal := fun d => Ok d; json_Decode := fun d => Ok d |}.

(** [{"course":{"viewer":{"this":true},"editor":{"union":[{"this":true},{"computed":"viewer"}]}}}] *)
Definition courseDoc : ModelDoc :=
  let this := mkRewriteDoc true "" None None None None in
  {["course" := {["viewer" := this; "editor" := mkRewriteDoc false "" None (Some [this; mkRewriteDoc false "viewer" None None None None]) None None]}]}.

(** Maps visited in the opposite order. *)
Definition map_range_reversed : MapRange :=
  {| range_map := fun A m => reverse (map_to_list m); range_map_perm := fun A m => reverse_Permutation _ |}.

(** [fmt.Sprintf("racer-%d", n)] *)
Definition racers : list string := (fun n => String.append "racer-" (Itoa n)) <$> seq 0 20.

(** The in-memory repository passes the conformance suite: each of the 24
    scenarios (tuples, key collisions, consistency sequence, wildcard, expiry and
    conditional grants, workspaces, memberships, invitations, groups, enrollments,
    isolation of projects and tenants, projects, deprovisioning, export, atomicity
    and seats) succeeds on a fresh store, for two opposite iteration orders of its
    maps. *)
Theorem memory_conforms :
  Forall (fun test => test.2 = true)
    (Run (R := Store) (H := @memoryRepository map_range_default) (H0 := map_range_default) (H1 := documentCodec)
       New (1700000000 * sec) courseDoc modelDocEqb racers) /\
  Forall (fun test => test.2 = true)
    (Run (R := Store) (H := @memoryRepository map_range_reversed) (H0 := map_range_reversed) (H1 := documentCodec)
       New (1700000000 * sec) courseDoc modelDocEqb (reverse racers)).
Proof. split; vm_compute; by repeat constructor. Qed.
