(* ===== verification/Float64.v ===== *)
(** * Binary64 arithmetic of finite non-negative numbers

    A finite binary64 number is a multiple of 2^-1074; it is represented here by
    that multiple, an integer.  An operation is the exact rational result,
    written as a quotient of integers, rounded to the nearest number with a
    53-bit significand, ties to the even one.  The bound on the exponent from
    above is left out: nothing here gets near 2^1024. *)

From Stdlib Require Import ZArith Lia.
From stdpp Require Import base tactics.
From S2P Require Import Prelude.
#[local] Open Scope Z_scope.

(** The nearest integer of [n / d], ties to even; [d] is positive. *)
Definition rne (n d : Z) : Z :=
  let q := n / d in
  match 2 * (n mod d) ?= d with
  | Lt => q
  | Gt => q + 1
  | Eq => if Z.even q then q else q + 1
  end.

(** The exponent of the last place of the binade of [q]; 0 below 2^53. *)
Definition ulpExp (q : Z) : Z := Z.max 0 (Z.log2 q - 52).

(** [n / d] rounded to 53 significant bits, for [0 <= n]. *)
Definition fround (n d : Z) : Z :=
  let e := ulpExp (n / d) in rne n (d * 2 ^ e) * 2 ^ e.

Definition Float64 : Type := Z.

(** The number 1. *)
Definition f1 : Float64 := 2 ^ 1074.

Definition fofZ (n : Z) : Float64 := fround (n * f1) 1.
Definition fadd (x y : Float64) : Float64 := fround (x + y) 1.
Definition fsub (x y : Float64) : Float64 := fround (x - y) 1.
Definition fmul (x y : Float64) : Float64 := fround (x * y) f1.
Definition fdiv (x y : Float64) : Float64 := fround (x * f1) y.
(** [x + y * z] rounded once. *)
Definition ffma (x y z : Float64) : Float64 := fround (x * f1 + y * z) f1.

(** ** Rounding to an integer *)
Section Rne.
Context (n d : Z) (Hd : 0 < d).

Lemma rne_bounds : n / d <= rne n d <= n / d + 1.
Proof. unfold rne. destruct (_ ?= _); [destruct (Z.even _)|..]; lia. Qed.

Lemma rne_le k : n <= k * d -> rne n d <= k.
Proof.
  intros Hn. pose proof (Z.div_mod n d) as Hq. pose proof (Z.mod_pos_bound n d Hd) as Hr.
  assert (Hle : n / d <= k) by (apply Z.div_le_upper_bound; lia).
  destruct (Z.eq_dec (n / d) k) as [Heq|Hne]; [|pose proof rne_bounds; lia].
  assert (Hz : n mod d = 0) by nia. unfold rne. rewrite Hz. destruct (Z.compare_spec (2 * 0) d); [lia|lia|lia].
Qed.

Lemma rne_ge k : k * d <= n -> k <= rne n d.
Proof.
  intros Hn. assert (Hle : k <= n / d) by (apply Z.div_le_lower_bound; lia). pose proof rne_bounds. lia.
Qed.
End Rne.

Lemma rne_exact k d : 0 < d -> rne (k * d) d = k.
Proof. intros Hd. apply Z.le_antisymm; [apply rne_le|apply rne_ge]; lia. Qed.

Lemma rne_mono n d n' d' : 0 < d -> 0 < d' -> n * d' <= n' * d -> rne n d <= rne n' d'.
Proof.
  intros Hd Hd' Hle.
  pose proof (Z.div_mod n d) as Hq. pose proof (Z.mod_pos_bound n d Hd) as Hr.
  pose proof (Z.div_mod n' d') as Hq'. pose proof (Z.mod_pos_bound n' d' Hd') as Hr'.
  assert (Hqq : n / d <= n' / d').
  { apply Z.div_le_lower_bound; [done|]. nia. }
  destruct (Z.eq_dec (n / d) (n' / d')) as [Heq|Hne].
  2: { pose proof (rne_bounds n d). pose proof (rne_bounds n' d'). lia. }
  assert (Hrem : (n mod d) * d' <= (n' mod d') * d) by nia.
  unfold rne. rewrite <-Heq.
  destruct (Z.compare_spec (2 * (n mod d)) d), (Z.compare_spec (2 * (n' mod d')) d');
    try destruct (Z.even _); try lia; exfalso; nia.
Qed.

(** ** Rounding to 53 bits *)
Lemma ulpExp_nonneg q : 0 <= ulpExp q. Proof. unfold ulpExp. lia. Qed.
Lemma ulpExp_mono q q' : q <= q' -> ulpExp q <= ulpExp q'.
Proof. intros Hq. unfold ulpExp. pose proof (Z.log2_le_mono q q' Hq). lia. Qed.

(** [q] lies below the end of its binade and, unless it is among the smallest
    numbers, above its start. *)
Lemma ulpExp_upper q : 0 <= q -> q < 2 ^ (ulpExp q + 53).
Proof.
  intros Hq. unfold ulpExp. destruct (Z.eq_dec q 0) as [->|Hne]; [simpl; lia|].
  pose proof (Z.log2_spec q ltac:(lia)) as [_ Hl]. eapply Z.lt_le_trans; [exact Hl|]. apply Z.pow_le_mono_r; lia.
Qed.
Lemma ulpExp_lower q : 0 < ulpExp q -> 2 ^ (ulpExp q + 52) <= q.
Proof.
  unfold ulpExp. intros He. assert (Hl : 0 < Z.log2 q) by lia.
  assert (Hq : 0 < q) by (destruct (Z.le_gt_cases q 0) as [Hq|]; [pose proof (Z.log2_nonpos q Hq); lia|lia]).
  replace (Z.max 0 (Z.log2 q - 52) + 52) with (Z.log2 q) by lia. apply Z.log2_spec, Hq.
Qed.

Lemma pow2_pos e : 0 <= e -> 0 < 2 ^ e. Proof. intros He. by apply Z.pow_pos_nonneg. Qed.

(** Bounds by a number with few bits are kept by rounding. *)
Lemma fround_le n d m e : 0 < d -> 0 <= n -> ulpExp (n / d) <= e -> n <= m * 2 ^ e * d -> fround n d <= m * 2 ^ e.
Proof.
  intros Hd Hn He Hle. unfold fround. set (u := ulpExp (n / d)) in *. pose proof (ulpExp_nonneg (n / d)) as Hu. fold u in Hu.
  pose proof (pow2_pos u Hu). replace e with (e - u + u) in * by lia. rewrite Z.pow_add_r in * by lia.
  rewrite (Z.mul_assoc m). apply Z.mul_le_mono_nonneg_r; [lia|]. apply rne_le; nia.
Qed.

Lemma fround_ge n d m : 0 < d -> 0 <= n -> m * 2 ^ ulpExp (n / d) * d <= n -> m * 2 ^ ulpExp (n / d) <= fround n d.
Proof.
  intros Hd Hn Hle. unfold fround. pose proof (pow2_pos _ (ulpExp_nonneg (n / d))).
  apply Z.mul_le_mono_nonneg_r; [lia|]. apply rne_ge; nia.
Qed.

Lemma fround_mono n d n' d' : 0 < d -> 0 < d' -> 0 <= n -> n * d' <= n' * d -> fround n d <= fround n' d'.
Proof.
  intros Hd Hd' Hn Hle.
  assert (Hqq : n / d <= n' / d').
  { apply Z.div_le_lower_bound; [done|]. pose proof (Z.mul_div_le n d Hd). nia. }
  pose proof (ulpExp_mono _ _ Hqq) as He. pose proof (ulpExp_nonneg (n / d)) as Hu.
  destruct (Z.eq_dec (ulpExp (n / d)) (ulpExp (n' / d'))) as [Heq|Hne].
  - unfold fround. rewrite Heq. pose proof (pow2_pos _ (ulpExp_nonneg (n' / d'))).
    apply Z.mul_le_mono_nonneg_r; [lia|]. apply rne_mono; nia.
  - set (e := ulpExp (n / d)) in *. set (e' := ulpExp (n' / d')) in *.
    assert (Hlow : 2 ^ (e' + 52) <= n' / d') by (apply ulpExp_lower; lia).
    assert (Hup : n / d < 2 ^ (e' + 52)).
    { eapply Z.lt_le_trans; [apply ulpExp_upper; apply Z.div_pos; lia|]. apply Z.pow_le_mono_r; lia. }
    transitivity (2 ^ 52 * 2 ^ e').
    + apply fround_le; [done..|lia|]. rewrite <-Z.pow_add_r by lia.
      replace (52 + e') with (e' + 52) by lia. pose proof (Z.mul_succ_div_gt n d Hd). nia.
    + apply fround_ge; [done|nia|]. rewrite <-Z.pow_add_r by (try apply ulpExp_nonneg; lia).
      fold e'. replace (52 + e') with (e' + 52) by lia. pose proof (Z.mul_div_le n' d' Hd'). nia.
Qed.

(** ** Representable numbers *)
Definition float (x : Z) : Prop := exists m e, 0 <= m <= 2 ^ 53 /\ 0 <= e /\ x = m * 2 ^ e.

Lemma fround_exact x d : 0 < d -> float x -> fround (x * d) d = x.
Proof.
  intros Hd (m & e & Hm & He & ->). unfold fround. rewrite Z.div_mul by lia.
  pose proof (pow2_pos e He). remember (m * 2 ^ e) as x eqn:Hxe.
  assert (Hx : 0 <= x) by nia.
  assert (Hdiv : (2 ^ ulpExp x | x)).
  { destruct (Z.le_gt_cases (ulpExp x) e) as [Hle|Hgt].
    - exists (m * 2 ^ (e - ulpExp x)). rewrite Hxe at 1. rewrite <-Z.mul_assoc, <-Z.pow_add_r by (try apply ulpExp_nonneg; lia).
      do 2 f_equal. lia.
    - pose proof (ulpExp_nonneg x). assert (Hlow : 2 ^ (ulpExp x + 52) <= x) by (apply ulpExp_lower; lia).
      assert (Hup : x <= 2 ^ (e + 53)) by (rewrite Hxe, Z.pow_add_r by lia; nia).
      assert (Hm53 : x = 2 ^ (e + 53)).
      { apply Z.le_antisymm; [done|]. transitivity (2 ^ (ulpExp x + 52)); [apply Z.pow_le_mono_r; lia|done]. }
      assert (Heq : ulpExp x = e + 1).
      { assert (Hb : 2 ^ (ulpExp x + 52) <= 2 ^ (e + 53)) by lia. apply Z.pow_le_mono_r_iff in Hb; lia. }
      exists (2 ^ 52). rewrite Heq, Hm53, <-Z.pow_add_r by lia. f_equal. lia. }
  destruct Hdiv as [k Hk]. rewrite Hk at 1. rewrite <-Z.mul_assoc, (Z.mul_comm (2 ^ ulpExp x)).
  pose proof (pow2_pos _ (ulpExp_nonneg x)). rewrite rne_exact by nia. symmetry. exact Hk.
Qed.

Lemma fround_float n d : 0 < d -> 0 <= n -> float (fround n d).
Proof.
  intros Hd Hn. unfold fround. set (e := ulpExp (n / d)). pose proof (ulpExp_nonneg (n / d)) as He. fold e in He.
  exists (rne n (d * 2 ^ e)), e. pose proof (pow2_pos e He). split_and!; [apply rne_ge; nia| |done|done].
  apply rne_le; [nia|]. pose proof (ulpExp_upper (n / d)) as Hu. fold e in Hu.
  rewrite Z.pow_add_r in Hu by lia. pose proof (Z.mul_succ_div_gt n d Hd). pose proof (Z.div_pos n d). nia.
Qed.

Lemma fround_nonneg n d : 0 < d -> 0 <= n -> 0 <= fround n d.
Proof.
  intros Hd Hn. destruct (fround_float n d Hd Hn) as (m & e & ? & ? & ->). pose proof (pow2_pos e). nia.
Qed.

(** A representable lower bound of the exact result bounds the rounded one. *)
Lemma fround_lower x n d : 0 < d -> float x -> 0 <= x -> x * d <= n -> x <= fround n d.
Proof. intros Hd Hx Hx0 Hle. rewrite <-(fround_exact x d) by done. apply fround_mono; nia. Qed.

(** ** Integers and steps of one *)
Lemma f1_pos : 0 < f1. Proof. done. Qed.

Lemma float_int n : 0 <= n <= 2 ^ 53 -> float (n * f1).
Proof. intros Hn. exists n, 1074. split_and!; [lia..|done]. Qed.

Lemma fofZ_small n : 0 <= n <= 2 ^ 53 -> fofZ n = n * f1.
Proof.
  intros Hn. unfold fofZ. pose proof (fround_exact (n * f1) 1 ltac:(lia) (float_int n Hn)) as H.
  by rewrite Z.mul_1_r in H.
Qed.

Lemma float_step x : float x -> f1 <= x <= 2 ^ 53 * f1 -> float (x - f1).
Proof.
  intros (m & e & Hm & He & ->) Hx. pose proof (pow2_pos e He). unfold f1 in *.
  destruct (Z.le_gt_cases e 1074) as [Hle|Hgt].
  - exists (m - 2 ^ (1074 - e)), e. pose proof (pow2_pos (1074 - e) ltac:(lia)) as Hp.
    assert (Hs : 2 ^ 1074 = 2 ^ (1074 - e) * 2 ^ e) by (rewrite <-Z.pow_add_r by lia; f_equal; lia).
    rewrite Hs in *. split_and!; [nia|nia|done|nia].
  - exists (m * 2 ^ (e - 1074) - 1), 1074.
    assert (Hs : 2 ^ e = 2 ^ (e - 1074) * 2 ^ 1074) by (rewrite <-Z.pow_add_r by lia; f_equal; lia).
    pose proof (pow2_pos 1074 ltac:(lia)) as Hp. pose proof (pow2_pos (e - 1074) ltac:(lia)).
    remember (2 ^ 1074) as u eqn:Hu. clear Hu. rewrite Hs in *. split_and!; [nia|nia|lia|nia].
Qed.

(** One is taken off without a rounding error. *)
Lemma fsub_one x : float x -> f1 <= x <= 2 ^ 53 * f1 -> fsub x f1 = x - f1.
Proof.
  intros Hf Hx. pose proof (fround_exact (x - f1) 1 ltac:(lia) (float_step x Hf Hx)) as He. by rewrite Z.mul_1_r in He.
Qed.
