(* ===== verification/RateLimit.v ===== *)
(** * The rate limiter (internal/connect/ratelimit.go)

    A token bucket per key, refilled in proportion to the time since it was last
    touched.  [allow] runs under the limiter's mutex, so a run is a sequence of
    calls; the clock reading is an argument.  Go may contract [x + y*z] to one
    rounding: [fused] tells whether the compiler does. *)

From stdpp Require Import base gmap strings list tactics.
From Stdlib Require Import ZArith Lia.
From S2P Require Import Prelude Model Float64.
#[local] Open Scope Z_scope.

(** ** Durations: nanoseconds in 64 bits *)
Definition second : Z := 10 ^ 9.
Definition minute : Z := 60 * second.

(** [t.Sub(u)] saturates. *)
Definition timeSub (t u : Time) : Z := Z.max (- 2 ^ 63) (Z.min (2 ^ 63 - 1) (t - u)).

(** [d.Seconds()]: whole seconds and the rest are converted separately. *)
Definition Seconds (d : Z) : Float64 :=
  let secs d := fadd (fofZ (d / second)) (fdiv (fofZ (d mod second)) (fofZ second)) in
  if d <? 0 then - secs (- d) else secs d.

(** ** State *)
Record tokenBucket := mkBucket { b_tokens : Float64; b_last : Time }.

(** [lastPrune] is [None] for the zero time, which is centuries ago. *)
Record rateLimiter := mkLimiter {
  capacity : Float64;
  refill : Float64;
  buckets : gmap string tokenBucket;
  lastPrune : option Time;
}.

Definition set_buckets f r := mkLimiter (capacity r) (refill r) (f (buckets r)) (lastPrune r).

(** [None] is the nil limiter. *)
Definition newRateLimiter (perMinute : Z) : option rateLimiter :=
  if perMinute <=? 0 then None
  else Some (mkLimiter (fofZ perMinute) (fdiv (fofZ perMinute) (fofZ 60)) ∅ None).

(** ** Operations *)
Definition pruneLocked (now : Time) (r : rateLimiter) : rateLimiter :=
  if match lastPrune r with Some p => timeSub now p <? minute | None => false end then r
  else mkLimiter (capacity r) (refill r)
         (filter (fun kb => ~ (2 * minute < timeSub now (b_last kb.2))) (buckets r)) (Some now).

Section Allow.
Context (fused : bool).

Definition mulAdd (x y z : Float64) : Float64 := if fused then ffma x y z else fadd x (fmul y z).

Definition refillBucket (cap rate : Float64) (now : Time) (b : tokenBucket) : tokenBucket :=
  let elapsed := Seconds (timeSub now (b_last b)) in
  if 0 <? elapsed then mkBucket (Z.min cap (mulAdd (b_tokens b) elapsed rate)) now else b.

Definition takeToken (b : tokenBucket) : bool * tokenBucket :=
  if b_tokens b <? f1 then (false, b) else (true, mkBucket (fsub (b_tokens b) f1) (b_last b)).

Definition allowLocked (now : Time) (key : string) (r0 : rateLimiter) : bool * rateLimiter :=
  let r := pruneLocked now r0 in
  let b := match buckets r !! key with Some b => b | None => mkBucket (capacity r) now end in
  let '(ok, b') := takeToken (refillBucket (capacity r) (refill r) now b) in
  (ok, set_buckets (<[key := b']>) r).

Definition allow (now : Time) (key : string) (r : option rateLimiter) : bool * option rateLimiter :=
  match r with
  | None => (true, None)
  | Some r => let '(ok, r') := allowLocked now key r in (ok, Some r')
  end.

(** A run of calls, each at a time and for a key, with the decisions. *)
Fixpoint allows (calls : list (Time * string)) (r : rateLimiter) : list bool * rateLimiter :=
  match calls with
  | [] => ([], r)
  | (now, key) :: calls' =>
      let '(ok, r1) := allowLocked now key r in
      let '(oks, r2) := allows calls' r1 in (ok :: oks, r2)
  end.

(** ** The specification: one bucket for one key, never dropped *)
Section Spec.
Context (cap rate : Float64).

Definition bucketStep (now : Time) (b : option tokenBucket) : bool * tokenBucket :=
  takeToken (refillBucket cap rate now (default (mkBucket cap now) b)).

Fixpoint bucketRun (times : list Time) (b : option tokenBucket) : list bool :=
  match times with
  | [] => []
  | now :: times' => let '(ok, b') := bucketStep now b in ok :: bucketRun times' (Some b')
  end.
End Spec.
End Allow.

(** The decisions of a run that concern [key]. *)
Fixpoint decisionsFor (key : string) (calls : list (Time * string)) (oks : list bool) : list bool :=
  match calls, oks with
  | (_, k) :: calls', ok :: oks' =>
      if String.eqb k key then ok :: decisionsFor key calls' oks' else decisionsFor key calls' oks'
  | _, _ => []
  end.

Definition timesFor (key : string) (calls : list (Time * string)) : list Time :=
  (filter (fun c => c.2 = key) calls).*1.

Definition admitted (oks : list bool) : Z := Z.of_nat (length (filter (fun ok => ok = true) oks)).
