(* ===== verification/RateLimitTheorems.v ===== *)
(** * The rate limiter keeps independent, bounded buckets *)

From Stdlib Require Import ZArith Lia Sorted.
From stdpp Require Import base gmap strings list functions tactics.
From S2P Require Import Prelude Model Float64 RateLimit.
#[local] Open Scope Z_scope.

(** ** Durations *)
Lemma timeSub_refl t : timeSub t t = 0. Proof. unfold timeSub. lia. Qed.

Lemma Seconds_0 : Seconds 0 = 0. Proof. vm_compute. done. Qed.

Lemma Seconds_pos d : 0 < Seconds d -> 0 < d.
Proof.
  intros Hs. destruct (Z.lt_trichotomy d 0) as [Hd|[->|]]; [|by rewrite Seconds_0 in Hs|done].
  exfalso. unfold Seconds in Hs. rewrite (proj2 (Z.ltb_lt d 0) Hd) in Hs.
  assert (Hnn : forall x y, 0 <= x -> 0 <= y -> 0 <= fadd x y) by (intros; apply fround_nonneg; lia).
  assert (Hof : forall n, 0 <= n -> 0 <= fofZ n) by (intros; apply fround_nonneg; unfold f1; lia).
  assert (Hdv : 0 <= fdiv (fofZ (- d mod second)) (fofZ second)).
  { apply fround_nonneg; [vm_compute; done|]. apply Z.mul_nonneg_nonneg; [|done]. apply Hof. by apply Z.mod_pos_bound. }
  assert (Hq : 0 <= - d / second) by (apply Z.div_pos; [lia|done]).
  specialize (Hnn _ _ (Hof _ Hq) Hdv). lia.
Qed.

(** [d] nanoseconds are at least [n] seconds, after rounding too. *)
Lemma Seconds_lower d n : 0 <= n <= 2 ^ 53 -> n * second <= d -> n * f1 <= Seconds d.
Proof.
  intros Hn Hd. unfold Seconds. assert (Hs : 0 < second) by done.
  rewrite (proj2 (Z.ltb_ge d 0)) by nia.
  assert (Hq : n <= d / second) by (apply Z.div_le_lower_bound; lia).
  assert (Hsec : n * f1 <= fofZ (d / second)).
  { apply fround_lower; [done|by apply float_int|unfold f1; lia|unfold f1; nia]. }
  apply fround_lower; [done|by apply float_int|unfold f1; lia|].
  assert (0 <= fdiv (fofZ (d mod second)) (fofZ second)); [|lia].
  apply fround_nonneg; [vm_compute; done|]. apply Z.mul_nonneg_nonneg; [|done].
  apply fround_nonneg; [done|]. apply Z.mul_nonneg_nonneg; [by apply Z.mod_pos_bound|done].
Qed.

(** ** One bucket *)
Section Bucket.
Context (fused : bool) (perMinute : Z) (Hn : 0 < perMinute <= 2 ^ 53).
#[local] Abbreviation cap := (fofZ perMinute).
#[local] Abbreviation rate := (fdiv (fofZ perMinute) (fofZ 60)).

Record bucketOK (now : Time) (b : tokenBucket) : Prop := mkBucketOK {
  bo_float : float (b_tokens b);
  bo_low : 0 <= b_tokens b;
  bo_high : b_tokens b <= cap;
  bo_last : b_last b <= now;
}.

Lemma cap_eq : cap = perMinute * f1. Proof. apply fofZ_small. lia. Qed.

Lemma bucketOK_fresh now : bucketOK now (mkBucket cap now).
Proof. split; simpl; rewrite ?cap_eq; try apply float_int; unfold f1; lia. Qed.

Lemma bucketOK_later now now' b : now <= now' -> bucketOK now b -> bucketOK now' b.
Proof. intros Hle []. split; auto; lia. Qed.

Lemma rate_lower : perMinute * 2 ^ 1068 <= rate.
Proof.
  rewrite cap_eq, (fofZ_small 60) by lia. apply fround_lower; [unfold f1; lia| |lia|].
  - exists perMinute, 1068. split_and!; [lia..|done].
  - unfold f1. change (2 ^ 1074) with (64 * 2 ^ 1068). pose proof (pow2_pos 1068). nia.
Qed.

Lemma mulAdd_float x y z : 0 <= x -> 0 <= y -> 0 <= z -> float (mulAdd fused x y z) /\ 0 <= mulAdd fused x y z.
Proof.
  intros Hx Hy Hz. unfold mulAdd. destruct fused.
  - split; [apply fround_float|apply fround_nonneg]; unfold f1; nia.
  - assert (0 <= fmul y z) by (apply fround_nonneg; unfold f1; nia).
    split; [apply fround_float|apply fround_nonneg]; lia.
Qed.

(** Two minutes refill a bucket completely, whatever the rounding. *)
Lemma mulAdd_full x d : 0 <= x -> 2 * minute <= d -> cap <= mulAdd fused x (Seconds d) rate.
Proof.
  intros Hx Hd. assert (Hs : 120 * f1 <= Seconds d) by (apply Seconds_lower; unfold minute in Hd; lia).
  pose proof rate_lower as Hr. rewrite cap_eq at 1.
  assert (Hprod : perMinute * f1 * f1 <= Seconds d * rate).
  { transitivity (120 * f1 * (perMinute * 2 ^ 1068)).
    - replace (perMinute * f1 * f1) with (f1 * (perMinute * f1)) by lia. rewrite (Z.mul_comm 120), <-Z.mul_assoc.
      apply Z.mul_le_mono_nonneg_l; [done|]. change f1 with (64 * 2 ^ 1068). pose proof (pow2_pos 1068). nia.
    - apply Z.mul_le_mono_nonneg; [unfold f1; lia|done|pose proof (pow2_pos 1068); nia|done]. }
  assert (Hf : float (perMinute * f1)) by (apply float_int; lia).
  assert (Hp : 0 <= perMinute * f1) by (unfold f1; lia).
  unfold mulAdd. destruct fused.
  - apply fround_lower; [done..|]. pose proof f1_pos. nia.
  - assert (perMinute * f1 <= fmul (Seconds d) rate) by (apply fround_lower; done).
    apply fround_lower; [done..|]. lia.
Qed.

Lemma refillBucket_ok now b : bucketOK now b -> bucketOK now (refillBucket fused cap rate now b).
Proof.
  intros Hb. unfold refillBucket. destruct (Z.ltb_spec 0 (Seconds (timeSub now (b_last b)))) as [Hs|]; [|done].
  destruct Hb as [_ Hlo Hhi Hl].
  assert (Hrate : 0 <= rate) by (pose proof rate_lower; pose proof (pow2_pos 1068); nia).
  destruct (mulAdd_float (b_tokens b) _ _ Hlo (Z.lt_le_incl _ _ Hs) Hrate) as [Hf H0].
  assert (Hcap : float cap /\ 0 <= cap) by (rewrite cap_eq; split; [apply float_int|unfold f1]; lia).
  split; simpl; [|lia|lia|lia].
  destruct (Z.min_spec cap (mulAdd fused (b_tokens b) (Seconds (timeSub now (b_last b))) rate)) as [[_ ->]|[_ ->]]; naive_solver.
Qed.

Lemma takeToken_ok now b : bucketOK now b -> bucketOK now (takeToken b).2.
Proof.
  intros Hb. unfold takeToken. destruct (Z.ltb_spec (b_tokens b) f1) as [|Hge]; [done|].
  destruct Hb as [Hf Hlo Hhi Hl]. pose proof cap_eq as Hc. pose proof f1_pos as H1.
  assert (Hx : f1 <= b_tokens b <= 2 ^ 53 * f1) by nia.
  split; simpl; rewrite ?fsub_one by done; [by apply float_step|lia|lia|done].
Qed.

(** An idle bucket and a fresh one are the same after the refill. *)
Lemma refillBucket_idle now b :
  bucketOK now b -> 2 * minute < timeSub now (b_last b) ->
  refillBucket fused cap rate now b = mkBucket cap now.
Proof.
  intros Hb Hidle. unfold refillBucket.
  assert (Hs : 120 * f1 <= Seconds (timeSub now (b_last b))) by (apply Seconds_lower; unfold minute in Hidle; lia).
  rewrite (proj2 (Z.ltb_lt _ _)) by (pose proof f1_pos; lia). f_equal.
  apply Z.min_l, mulAdd_full; [apply Hb|lia].
Qed.

Lemma refillBucket_now now b : b_last b = now -> refillBucket fused cap rate now b = b.
Proof. intros <-. unfold refillBucket. by rewrite timeSub_refl, Seconds_0. Qed.

(** A run at one instant admits one request per whole token. *)
Lemma bucketRun_instant now m b :
  bucketOK now b -> b_last b = now ->
  admitted (bucketRun fused cap rate (replicate m now) (Some b)) = Z.min (Z.of_nat m) (b_tokens b / f1).
Proof.
  revert b. induction m as [|m IH]; intros b Hb Hl.
  - cbn [replicate bucketRun]. unfold admitted. simpl. pose proof (Z.div_pos (b_tokens b) f1) as Hp.
    destruct Hb. pose proof f1_pos. lia.
  - cbn [replicate bucketRun]. unfold bucketStep. cbn [from_option]; unfold id. rewrite refillBucket_now by done.
    pose proof (takeToken_ok now b Hb) as Hb'. unfold takeToken in *.
    destruct (Z.ltb_spec (b_tokens b) f1) as [Hlt|Hge]; cbv beta iota; cbn [snd] in Hb'.
    + unfold admitted in *. rewrite filter_cons, decide_False by done. rewrite IH by done.
      rewrite (Z.div_small (b_tokens b)) by (split; [apply Hb|done]). lia.
    + pose proof cap_eq as Hc. pose proof f1_pos as H1. destruct Hb as [Hf Hlo Hhi _].
      rewrite fsub_one in * by (try done; nia).
      unfold admitted in *. rewrite filter_cons, decide_True by done. cbn [length].
      rewrite Nat2Z.inj_succ, IH by done. cbn [b_tokens].
      replace (b_tokens b - f1) with (b_tokens b + (-1) * f1) by lia. rewrite Z.div_add by lia. lia.
Qed.
End Bucket.

(** ** The limiter against one bucket per key *)
Section Refinement.
Context (fused : bool) (perMinute : Z) (Hn : 0 < perMinute <= 2 ^ 53).
#[local] Abbreviation cap := (fofZ perMinute).
#[local] Abbreviation rate := (fdiv (fofZ perMinute) (fofZ 60)).

(** At time [now] the limiter has the bucket of every key, except for those it
    dropped after they were idle for more than two minutes. *)
Record agrees (now : Time) (r : rateLimiter) (spec : string -> option tokenBucket) : Prop := mkAgrees {
  ag_capacity : capacity r = cap;
  ag_refill : refill r = rate;
  ag_spec : forall k b, spec k = Some b -> bucketOK perMinute now b;
  ag_key : forall k, buckets r !! k = spec k \/
             buckets r !! k = None /\ exists b, spec k = Some b /\ 2 * minute < timeSub now (b_last b);
}.

Lemma timeSub_mono t t' u : t <= t' -> timeSub t u <= timeSub t' u. Proof. unfold timeSub. lia. Qed.

Lemma agrees_later t now r spec : t <= now -> agrees t r spec -> agrees now r spec.
Proof.
  intros Hle [Hc Hr Hs Hk]. split; [done..| |].
  - intros k b Hb. by apply (bucketOK_later perMinute t), Hs with k.
  - intros k. destruct (Hk k) as [?|(? & b & ? & ?)]; [by left|]. right. split; [done|]. exists b. split; [done|].
    pose proof (timeSub_mono t now (b_last b) Hle). lia.
Qed.

Lemma agrees_prune now r spec : agrees now r spec -> agrees now (pruneLocked now r) spec.
Proof.
  intros [Hc Hr Hs Hk]. unfold pruneLocked. destruct (match lastPrune r with Some p => _ | None => _ end); [done|].
  split; [done..|]. intros k. simpl. specialize (Hk k). destruct (filter _ (buckets r) !! k) as [b|] eqn:Hf.
  - apply map_lookup_filter_Some in Hf as [Hb _]. destruct Hk as [<-|[? _]]; [by left|congruence].
  - destruct (buckets r !! k) as [b|] eqn:Hb.
    + right. split; [done|]. destruct Hk as [<-|[? _]]; [|done]. exists b. split; [done|].
      destruct (decide (2 * minute < timeSub now (b_last b))) as [|Hno]; [done|]. exfalso.
      rewrite (proj2 (map_lookup_filter_Some _ _ _ _) (conj Hb Hno)) in Hf. done.
    + destruct Hk as [<-|[_ ?]]; [by left|by right].
Qed.

Lemma agrees_step t now key r spec :
  t <= now -> agrees t r spec ->
  let '(ok, b) := bucketStep fused cap rate now (spec key) in
  (allowLocked fused now key r).1 = ok /\ agrees now (allowLocked fused now key r).2 (<[key := Some b]> spec).
Proof.
  intros Hle Ha. apply (agrees_later _ _ _ _ Hle), agrees_prune in Ha. unfold allowLocked.
  set (r1 := pruneLocked now r) in *. clearbody r1. destruct Ha as [Hc Hr Hs Hk]. rewrite Hc, Hr.
  assert (Hb : refillBucket fused cap rate now match buckets r1 !! key with Some b => b | None => mkBucket cap now end
               = refillBucket fused cap rate now (default (mkBucket cap now) (spec key))).
  { destruct (Hk key) as [->|(-> & b & Hb & Hidle)]; [by destruct (spec key)|]. rewrite Hb. simpl.
    rewrite (refillBucket_idle fused perMinute Hn now b) by eauto. by apply refillBucket_now. }
  rewrite Hb. unfold bucketStep. set (b1 := refillBucket _ _ _ _ (default _ _)).
  assert (Hok : bucketOK perMinute now b1).
  { apply refillBucket_ok; [done|]. destruct (spec key) as [b|] eqn:Hsk; simpl; [by eapply Hs|by apply bucketOK_fresh]. }
  apply (takeToken_ok perMinute Hn) in Hok. destruct (takeToken b1) as [ok b2]. simpl in *. split; [done|].
  split; simpl; [done..| |].
  - intros k b Hkb. destruct (decide (key = k)) as [<-|Hne]; [|rewrite fn_lookup_insert_ne in Hkb by done; eauto].
    rewrite fn_lookup_insert in Hkb. by injection Hkb as <-.
  - intros k. destruct (decide (key = k)) as [<-|Hne].
    + left. by rewrite lookup_insert_eq, fn_lookup_insert.
    + rewrite lookup_insert_ne, fn_lookup_insert_ne by done. apply Hk.
Qed.

Lemma allows_refine calls t r spec key :
  Sorted Z.le (t :: calls.*1) -> agrees t r spec ->
  decisionsFor key calls (allows fused calls r).1 = bucketRun fused cap rate (timesFor key calls) (spec key).
Proof.
  revert t r spec. induction calls as [|[now k] calls IH]; intros t r spec Hs Ha; [done|].
  apply Sorted_inv in Hs as [Hs Ht%HdRel_inv]. simpl in *.
  pose proof (agrees_step t now k r spec Ht Ha) as Hstep.
  destruct (bucketStep fused cap rate now (spec k)) as [ok b] eqn:Hb.
  destruct (allowLocked fused now k r) as [ok' r1]. destruct Hstep as [Hok Ha1]. simpl in Hok, Ha1. subst ok'.
  specialize (IH now r1 _ Hs Ha1). destruct (allows fused calls r1) as [oks r2]. simpl in *.
  unfold timesFor in *. rewrite filter_cons. destruct (String.eqb_spec k key) as [->|Hne].
  - rewrite decide_True by done. simpl. rewrite Hb, IH. by rewrite fn_lookup_insert.
  - rewrite decide_False by done. rewrite IH. by rewrite fn_lookup_insert_ne.
Qed.

Lemma agrees_new t : exists r, newRateLimiter perMinute = Some r /\ agrees t r (fun _ => None).
Proof.
  unfold newRateLimiter. rewrite (proj2 (Z.leb_gt _ _)) by lia. eexists. split; [done|].
  split; [done..| |]; [intros k b [=]|]. intros k. left. apply lookup_empty.
Qed.
End Refinement.

(** From a fresh limiter: each key is its bucket. *)
Lemma decisions_refine fused perMinute r calls key :
  0 < perMinute <= 2 ^ 53 -> newRateLimiter perMinute = Some r -> Sorted Z.le calls.*1 ->
  decisionsFor key calls (allows fused calls r).1
  = bucketRun fused (capacity r) (refill r) (timesFor key calls) None.
Proof.
  intros Hn Hr Hs. destruct (agrees_new perMinute Hn (default 0 (head calls.*1))) as (r' & Hr' & Ha).
  rewrite Hr in Hr'. injection Hr' as <-. rewrite (ag_capacity _ _ _ _ Ha), (ag_refill _ _ _ _ Ha).
  eapply (allows_refine fused perMinute Hn calls _ r (fun _ => None) key); [|exact Ha].
  constructor; [done|]. destruct calls as [|[now k] calls]; constructor. simpl. lia.
Qed.

(** The limiter is a family of independent token buckets: for any sequence
    of calls in the order of the clock, the decisions for a key are those of one
    bucket of that key that is never dropped, run on the calls of that key alone.
    So pruning is invisible and no caller can use up or free another's tokens;
    this holds for the rounded arithmetic, contracted or not. *)
Theorem rateLimiter_refines_buckets fused perMinute r calls key :
  0 < perMinute <= 2 ^ 53 -> newRateLimiter perMinute = Some r -> Sorted Z.le calls.*1 ->
  decisionsFor key calls (allows fused calls r).1
  = bucketRun fused (capacity r) (refill r) (timesFor key calls) None.
Proof. apply decisions_refine. Qed.

Lemma rateLimiter_refines_buckets_witness :
  exists r, newRateLimiter 60 = Some r /\
  decisionsFor "a" [(0, "a"); (1, "b"); (200 * second, "a")] (allows false [(0, "a"); (1, "b"); (200 * second, "a")] r).1
  = bucketRun false (capacity r) (refill r) [0; 200 * second] None.
Proof.
  eexists. split; [reflexivity|].
  apply (rateLimiter_refines_buckets false 60 _ [(0, "a"); (1, "b"); (200 * second, "a")] "a").
  - lia.
  - reflexivity.
  - repeat constructor; vm_compute; discriminate.
Defined.

(** ** Bursts *)
Lemma timesFor_app key a b : timesFor key (a ++ b) = timesFor key a ++ timesFor key b.
Proof. unfold timesFor. by rewrite list.filter_app, fmap_app. Qed.

Lemma timesFor_replicate key t m : timesFor key (replicate m (t, key)) = replicate m t.
Proof.
  unfold timesFor. induction m as [|m IH]; [done|]. cbn [replicate]. rewrite filter_cons_True, fmap_cons by done. by rewrite IH.
Qed.

Lemma burst_sorted (before : list (Time * string)) t m key :
  Sorted Z.le (before.*1 ++ [t]) ->
  Sorted Z.le (default t (head before.*1) :: (before ++ replicate m (t, key)).*1).
Proof.
  rewrite fmap_app, fmap_replicate. simpl. generalize (before.*1). intros ts Hs. constructor.
  - induction ts as [|u ts IH]; simpl in *.
    + clear Hs. induction m as [|m IH]; simpl; constructor; [done|]. destruct m; constructor; lia.
    + apply Sorted_inv in Hs as [Hs Hh]. constructor; [by apply IH|].
      destruct ts as [|v ts]; simpl in *; [|inversion Hh; by constructor].
      apply HdRel_inv in Hh. destruct m; constructor; done.
  - destruct ts as [|u ts]; simpl; [destruct m|]; constructor; lia.
Qed.

Lemma sublist_Forall {A} (P : A -> Prop) l k : sublist l k -> Forall P k -> Forall P l.
Proof. induction 1; intros Hk; [done|..]; inversion Hk; subst; [constructor|]; auto. Qed.

Lemma timesFor_sorted (before : list (Time * string)) t key :
  Sorted Z.le (before.*1 ++ [t]) -> Sorted Z.le (default t (head before.*1) :: timesFor key before ++ [t]).
Proof.
  intros Hs0. apply StronglySorted_Sorted.
  assert (Hs : StronglySorted Z.le (before.*1 ++ [t])) by (apply Sorted_StronglySorted; [intros x y z; lia|done]).
  clear Hs0.
  assert (Hsub : sublist (timesFor key before ++ [t]) (before.*1 ++ [t])).
  { apply sublist_app; [|done]. apply fmap_sublist, sublist_filter. }
  assert (Hhd : Forall (Z.le (default t (head before.*1))) (before.*1 ++ [t])).
  { destruct before.*1 as [|u ts]; simpl in *; [repeat constructor; lia|].
    apply StronglySorted_inv in Hs as [_ ?]. constructor; [lia|done]. }
  constructor; [|by eapply sublist_Forall]. clear Hhd.
  generalize dependent (before.*1 ++ [t]). intros k Hk Hsub.
  induction Hsub as [|x l k Hsub IH|x l k Hsub IH]; [constructor|..].
  - apply StronglySorted_inv in Hk as [Hk Hf]. constructor; [by apply IH|]. by eapply sublist_Forall.
  - apply StronglySorted_inv in Hk as [Hk Hf]. by apply IH.
Qed.

Section Burst.
Context (fused : bool) (perMinute : Z) (Hn : 0 < perMinute <= 2 ^ 53).
#[local] Abbreviation cap := (fofZ perMinute).
#[local] Abbreviation rate := (fdiv (fofZ perMinute) (fofZ 60)).

Lemma Seconds_positive d : 0 < d -> 0 < Seconds d.
Proof.
  intros Hd. destruct (Z.le_gt_cases second d) as [Hs|Hs].
  { pose proof (Seconds_lower d 1 ltac:(lia) ltac:(lia)). pose proof f1_pos. lia. }
  unfold Seconds. rewrite (proj2 (Z.ltb_ge d 0)) by lia. rewrite Z.div_small, Z.mod_small by lia.
  rewrite (fofZ_small d), (fofZ_small second), (fofZ_small 0) by (unfold second in *; lia).
  assert (Hp : float (2 ^ 1044)) by (exists 1, 1044; split_and!; [lia..|done]).
  assert (Hq : 2 ^ 1044 <= fdiv (d * f1) (second * f1)).
  { apply fround_lower; [done..|]. transitivity (1 * f1 * f1); [vm_compute; discriminate|]. unfold f1. nia. }
  apply (Z.lt_le_trans _ (2 ^ 1044)); [done|]. apply fround_lower; [done..|]. lia.
Qed.

Lemma refillBucket_last now b : b_last b <= now -> b_last (refillBucket fused cap rate now b) = now.
Proof.
  intros Hl. unfold refillBucket. destruct (Z.ltb_spec 0 (Seconds (timeSub now (b_last b)))) as [|Hs]; [done|].
  destruct (Z.eq_dec (b_last b) now) as [|Hne]; [done|].
  pose proof (Seconds_positive (timeSub now (b_last b))) as Hp. unfold timeSub in *. lia.
Qed.

(** The state of the bucket of one key after calls at [times]. *)
Fixpoint bucketAfter (times : list Time) (b : option tokenBucket) : option tokenBucket :=
  match times with
  | [] => b
  | now :: times' => bucketAfter times' (Some (bucketStep fused cap rate now b).2)
  end.

Lemma bucketRun_app times times' b :
  bucketRun fused cap rate (times ++ times') b
  = bucketRun fused cap rate times b ++ bucketRun fused cap rate times' (bucketAfter times b).
Proof.
  revert b. induction times as [|now times IH]; intros b; [done|]. simpl.
  destruct (bucketStep fused cap rate now b) as [ok b1]. simpl. by rewrite IH.
Qed.

Lemma bucketRun_length times b : length (bucketRun fused cap rate times b) = length times.
Proof.
  revert b. induction times as [|now times IH]; intros b; [done|]. simpl.
  destruct (bucketStep fused cap rate now b) as [ok b1]. simpl. by rewrite IH.
Qed.

Definition optOK (now : Time) (b : option tokenBucket) : Prop := forall b0, b = Some b0 -> bucketOK perMinute now b0.

Lemma refill_default_ok now b :
  optOK now b -> bucketOK perMinute now (refillBucket fused cap rate now (default (mkBucket cap now) b)).
Proof. intros Hb. apply refillBucket_ok; [done|]. destruct b as [b|]; [by apply Hb|by apply bucketOK_fresh]. Qed.

Lemma bucketAfter_ok times now t b :
  Sorted Z.le (t :: times ++ [now]) -> optOK t b -> optOK now (bucketAfter times b).
Proof.
  revert t b. induction times as [|t' times IH]; intros t b [Hs Ht%HdRel_inv]%Sorted_inv Hb; simpl.
  - intros b0 Hb0. apply (bucketOK_later perMinute t); [done|]. by apply Hb.
  - apply (IH t'); [done|]. intros b0 [= <-]. unfold bucketStep. apply takeToken_ok; [done|].
    apply refill_default_ok. intros b0 Hb0. apply (bucketOK_later perMinute t); [done|]. by apply Hb.
Qed.

(** Refilling first changes nothing in a run at one instant. *)
Lemma bucketRun_refilled now m b :
  optOK now b ->
  let b1 := refillBucket fused cap rate now (default (mkBucket cap now) b) in
  bucketRun fused cap rate (replicate m now) b = bucketRun fused cap rate (replicate m now) (Some b1) /\ b_last b1 = now.
Proof.
  intros Hb b1. assert (Hl : b_last b1 = now).
  { apply refillBucket_last; destruct b as [b|]; simpl; [by apply Hb|lia]. }
  split; [|done]. destruct m as [|m]; [done|]. simpl. unfold bucketStep. simpl.
  by rewrite (refillBucket_now fused perMinute now b1).
Qed.
End Burst.

(** C37.  Bursts are bounded: whatever came before, of any number of requests for
    a key at one instant at most [perMinute] are admitted, and for a key that was
    not used before exactly as many as that, up to their number. *)
Theorem rateLimiter_burst fused perMinute r before t m key :
  0 < perMinute <= 2 ^ 53 -> newRateLimiter perMinute = Some r -> Sorted Z.le (before.*1 ++ [t]) ->
  let calls := before ++ replicate m (t, key) in
  let burst := drop (length (timesFor key before)) (decisionsFor key calls (allows fused calls r).1) in
  admitted burst <= perMinute /\
  (timesFor key before = [] -> admitted burst = Z.min (Z.of_nat m) perMinute).
Proof.
  intros Hn Hr Hs calls burst.
  set (t0 := default t (head before.*1)).
  destruct (agrees_new perMinute Hn t0) as (r' & Hr' & Ha). rewrite Hr in Hr'. injection Hr' as <-.
  assert (Hrun : burst = bucketRun fused (fofZ perMinute) (fdiv (fofZ perMinute) (fofZ 60)) (replicate m t)
                           (bucketAfter fused perMinute (timesFor key before) None)).
  { unfold burst. rewrite (allows_refine fused perMinute Hn calls t0 r _ key (burst_sorted before t m key Hs) Ha).
    unfold calls. rewrite timesFor_app, timesFor_replicate, bucketRun_app.
    apply drop_app_length'. by rewrite bucketRun_length. }
  assert (Hopt : optOK perMinute t (bucketAfter fused perMinute (timesFor key before) None)).
  { apply (bucketAfter_ok fused perMinute Hn _ t t0); [by apply timesFor_sorted|done]. }
  destruct (bucketRun_refilled fused perMinute t m _ Hopt) as [Hb Hl].
  rewrite Hrun, Hb, bucketRun_instant by (try apply refill_default_ok; done).
  pose proof (refill_default_ok fused perMinute Hn t _ Hopt) as [_ _ Hhi _].
  pose proof f1_pos. split.
  - transitivity (fofZ perMinute / f1); [|rewrite (cap_eq perMinute Hn), Z.div_mul by lia; lia].
    etransitivity; [apply Z.le_min_r|]. by apply Z.div_le_mono.
  - intros ->. simpl. rewrite refillBucket_now by done. simpl. rewrite (cap_eq perMinute Hn), Z.div_mul by lia. done.
Qed.

Lemma rateLimiter_burst_witness :
  exists r, newRateLimiter 60 = Some r /\
  let calls := [(0, "a")] ++ replicate 100 (5, "b") in
  admitted (drop 0 (decisionsFor "b" calls (allows false calls r).1)) = 60.
Proof.
  eexists. split; [reflexivity|].
  apply (rateLimiter_burst false 60 _ [(0, "a")] 5 100 "b"); [lia|reflexivity| |reflexivity].
  repeat constructor; vm_compute; discriminate.
Defined.
