(* ===== verification/Middleware.v ===== *)
(** * HTTP middleware (internal/middleware)

    A handler answers a request in a context and may change a state [S] while it
    does; [None] stands for a panic that unwinds through it.  Requests, responses
    and the contexts they run in hold what the middleware reads and writes. *)

From stdpp Require Import base strings list sets.
From Stdlib Require Import ZArith Lia Ascii.
From S2P Require Import Prelude Model Text Memory.

(** ** Callers (caller.go) *)
Record CallerIdentity := mkCaller { ci_Name : string; ci_ProjectID : string }.

Record ServiceCredential := mkCredential { cr_Token : string; cr_Name : string; cr_ProjectID : string }.

(** The value under [callerCtxKey], when there is one. *)
Record Ctx := mkCtx { ctx_caller : option CallerIdentity }.

Definition WithCaller (ctx : Ctx) (c : CallerIdentity) : Ctx := mkCtx (Some c).

Definition CallerFrom (ctx : Ctx) : CallerIdentity :=
  match ctx_caller ctx with Some c => c | None => mkCaller "" "" end.

(** ** Requests and responses

    [Header] is [r.Header.Get]: the first value of a header, or the empty string. *)
Record HttpRequest := mkHttpRequest {
  hr_Method : string;
  hr_Path : string;
  hr_Header : string -> string;
  hr_Peer : string;
  hr_Body : string;
}.

(** A response: status, the headers the middleware sets, and the body. *)
Record HttpResponse (A : Type) := mkHttpResponse {
  hs_Status : Z;
  hs_Header : list (string * string);
  hs_Body : A + string;
}.
Arguments mkHttpResponse {A}.
Arguments hs_Status {A}.
Arguments hs_Header {A}.
Arguments hs_Body {A}.

Definition StatusOK : Z := 200.
Definition StatusNoContent : Z := 204.
Definition StatusUnauthorized : Z := 401.
Definition StatusNotFound : Z := 404.
Definition StatusInternalServerError : Z := 500.
Definition MethodOptions : string := "OPTIONS".

Definition httpError {A} (status : Z) (msg : string) : HttpResponse A := mkHttpResponse status [] (inr msg).

Definition HttpHandler (S A : Type) : Type := HttpRequest -> Ctx -> S -> option (HttpResponse A) * S.
Definition HttpMiddleware (S A : Type) : Type := HttpHandler S A -> HttpHandler S A.

(** ** Credentials (auth.go) *)

(** [strings.EqualFold] against an ASCII text without [k] and [s], the two
    letters that non-ASCII characters fold to. *)
Fixpoint equalFoldAscii (a b : string) : bool :=
  match a, b with
  | EmptyString, EmptyString => true
  | String c a', String d b' => Ascii.eqb (toLowerAscii c) (toLowerAscii d) && equalFoldAscii a' b'
  | _, _ => false
  end.

Definition bearerPrefix : string := "Bearer ".

Definition bearerToken (header : string) : string :=
  let n := String.length bearerPrefix in
  if (n <? String.length header)%nat && equalFoldAscii (String.substring 0 n header) bearerPrefix
  then TrimSpace (String.substring n (String.length header - n) header)
  else "".

(** The loop keeps the last entry that matches. *)
Definition matchCredential (presented : string) (creds : list ServiceCredential) : CallerIdentity * bool :=
  if String.eqb presented "" then (mkCaller "" "", false)
  else foldl (fun acc c =>
         if String.eqb presented (cr_Token c) then (mkCaller (cr_Name c) (cr_ProjectID c), true) else acc)
       (mkCaller "" "", false) creds.

Definition tokenMatches (presented : string) (tokens : list string) : bool :=
  if String.eqb presented "" then false
  else foldl (fun ok t => if String.eqb presented t then true else ok) false tokens.

Definition nonEmpty (l : list string) : list string :=
  filter (fun s => TrimSpace s <> "") l.

(** ** HTTP (http.go) *)
Definition IsInfraPath (p : string) : bool :=
  String.eqb p "/healthz" || String.eqb p "/readyz" || HasPrefix p "/metrics".

Section Middleware.
Context {S A : Type}.

Definition ServiceAuth (tokens0 : list string) (creds : list ServiceCredential) : HttpMiddleware S A :=
  let tokens := nonEmpty tokens0 in
  fun next r ctx =>
    if (is_nil tokens && is_nil creds) || IsInfraPath (hr_Path r) || String.eqb (hr_Method r) MethodOptions
    then next r ctx
    else
      let presented := bearerToken (hr_Header r "Authorization") in
      let '(c, ok) := matchCredential presented creds in
      if ok : bool then next r (WithCaller ctx c)
      else if tokenMatches presented tokens then next r (WithCaller ctx (mkCaller "" ""))
      else fun s => (Some (httpError StatusUnauthorized "invalid service credentials"), s).

(** The headers set before the next handler runs come first in its response. *)
Definition addHeaders (hs : list (string * string)) (resp : HttpResponse A) : HttpResponse A :=
  mkHttpResponse (hs_Status resp) (hs ++ hs_Header resp) (hs_Body resp).

Definition corsHeaders (allowedOrigins : list string) (origin : string) : list (string * string) :=
  let allowAll := bool_decide ("*" ∈ allowedOrigins) in
  if negb (String.eqb origin "") && (allowAll || bool_decide (origin ∈ allowedOrigins)) then
    (if allowAll then [("Access-Control-Allow-Origin", "*")]
     else [("Access-Control-Allow-Origin", origin); ("Vary", "Origin")])
    ++ [("Access-Control-Allow-Methods", "POST, GET, OPTIONS");
        ("Access-Control-Allow-Headers", "Content-Type, Connect-Protocol-Version, Authorization");
        ("Access-Control-Max-Age", "86400")]
  else [].

Definition CORS (allowedOrigins : list string) : HttpMiddleware S A := fun next r ctx s =>
  let hs := corsHeaders allowedOrigins (hr_Header r "Origin") in
  if String.eqb (hr_Method r) MethodOptions
  then (Some (mkHttpResponse StatusNoContent hs (inr "")), s)
  else let '(resp, s') := next r ctx s in (addHeaders hs <$> resp, s').

(** A panic becomes a 500. *)
Definition Recover : HttpMiddleware S A := fun next r ctx s =>
  let '(resp, s') := next r ctx s in
  (Some (match resp with Some x => x | None => httpError StatusInternalServerError "internal error" end), s').

Definition Health : HttpHandler S A := fun r ctx s =>
  (Some (if String.eqb (hr_Path r) "/healthz" || String.eqb (hr_Path r) "/readyz"
         then mkHttpResponse StatusOK [("Content-Type", "text/plain")] (inr "ok")
         else httpError StatusNotFound "404 page not found"), s).

(** The first middleware listed runs outermost. *)
Definition Chain (h : HttpHandler S A) (mws : list (HttpMiddleware S A)) : HttpHandler S A :=
  foldr (fun mw h => mw h) h mws.
End Middleware.

(** ** What the credentials decide *)
Lemma matchCredential_foldl presented creds acc :
  foldl (fun acc c => if String.eqb presented (cr_Token c) then (mkCaller (cr_Name c) (cr_ProjectID c), true) else acc) acc creds
  = match last (filter (fun c => cr_Token c = presented) creds) with
    | Some c => (mkCaller (cr_Name c) (cr_ProjectID c), true)
    | None => acc
    end.
Proof.
  induction creds as [|c creds IH] using rev_ind; [done|].
  rewrite foldl_snoc, list.filter_app, filter_cons, filter_nil. simpl.
  destruct (String.eqb_spec presented (cr_Token c)) as [->|Hne].
  - rewrite decide_True by done. by rewrite last_snoc.
  - rewrite decide_False by done. by rewrite app_nil_r.
Qed.

Lemma matchCredential_true presented creds c :
  matchCredential presented creds = (c, true) <->
  presented <> "" /\ exists cr, last (filter (fun c => cr_Token c = presented) creds) = Some cr /\
    c = mkCaller (cr_Name cr) (cr_ProjectID cr).
Proof.
  unfold matchCredential. destruct (String.eqb_spec presented "") as [->|Hne]; [naive_solver|].
  rewrite matchCredential_foldl. destruct (last _) as [cr|]; naive_solver.
Qed.

Lemma tokenMatches_true presented tokens :
  tokenMatches presented tokens = true <-> presented <> "" /\ presented ∈ tokens.
Proof.
  unfold tokenMatches. destruct (String.eqb_spec presented "") as [->|Hne]; [naive_solver|].
  induction tokens as [|t tokens IH] using rev_ind; [set_solver|]. rewrite foldl_snoc.
  destruct (String.eqb_spec presented t) as [->|Hnt]; [set_solver|]. set_solver.
Qed.
