(* ===== verification/Config.v ===== *)
(** * Configuration (internal/config/config.go)

    The environment is a function from names to values; [None] is an unset
    variable.  The JSON decoder of the credentials list is a parameter. *)

From stdpp Require Import base strings list.
From Stdlib Require Import ZArith Lia Ascii.
From S2P Require Import Prelude Model Text Memory Middleware.
#[local] Open Scope Z_scope.

Definition Environ : Type := string -> option string.

(** [dec.Decode(&creds)] with unknown fields disallowed. *)
Class CredentialsJson := { decodeCredentials : string -> option (list ServiceCredential) }.

(** ** strconv *)
Definition digitOf (c : ascii) : option Z :=
  let n := nat_of_ascii c in if ((48 <=? n) && (n <=? 57))%nat then Some (Z.of_nat n - 48) else None.

Fixpoint digitsValue (acc : Z) (s : string) : option Z :=
  match s with
  | EmptyString => Some acc
  | String c s' => match digitOf c with Some d => digitsValue (acc * 10 + d) s' | None => None end
  end.

(** An optional sign and at least one decimal digit, in the range of [int]. *)
Definition Atoi (s : string) : option Z :=
  let '(neg, ds) := match s with
                    | String c s' => if Ascii.eqb c "-" then (true, s') else if Ascii.eqb c "+" then (false, s') else (false, s)
                    | EmptyString => (false, s)
                    end in
  if String.eqb ds "" then None else
  match digitsValue 0 ds with
  | None => None
  | Some n => let v := if neg : bool then - n else n in
              if (- 2 ^ 63 <=? v) && (v <? 2 ^ 63) then Some v else None
  end.

Definition ParseBool (s : string) : option bool :=
  if bool_decide (s ∈ ["1"; "t"; "T"; "true"; "TRUE"; "True"]) then Some true
  else if bool_decide (s ∈ ["0"; "f"; "F"; "false"; "FALSE"; "False"]) then Some false
  else None.

(** [strings.Split(s, ",")] *)
Fixpoint splitComma (s : string) : list string :=
  match s with
  | EmptyString => [EmptyString]
  | String c s' =>
      if Ascii.eqb c "," then EmptyString :: splitComma s'
      else match splitComma s' with
           | p :: ps => String c p :: ps
           | [] => [String c EmptyString]
           end
  end.

(** ** Readers *)
Section Env.
Context (env : Environ).

Definition envStr (key def : string) : string := match env key with Some v => v | None => def end.

Definition envInt (key : string) (def : Z) : Z :=
  match env key with
  | Some v => match Atoi (TrimSpace v) with Some n => n | None => def end
  | None => def
  end.

Definition envBool (key : string) (def : bool) : bool :=
  match env key with
  | Some v => match ParseBool (TrimSpace v) with Some b => b | None => def end
  | None => def
  end.

Definition envCSV (key : string) : list string :=
  let v := TrimSpace (default "" (env key)) in
  if String.eqb v "" then [] else
  filter (fun p => p <> "") (TrimSpace <$> splitComma v).
End Env.

(** ** The configuration *)
Record Config := mkConfig {
  ConnectPort : Z;
  MetricsPort : Z;
  DefaultProjectID : string;
  DefaultTenantID : string;
  DataRegion : string;
  PostgresDSN : string;
  PostgresAutoMigrate : bool;
  ServiceAuthTokens : list string;
  ServiceCredentials : list ServiceCredential;
  AdminAPISecret : string;
  AllowedOrigins : list string;
  HTTPMaxBodyBytes : Z;
  MaxListObjects : Z;
  MaxExpandNodes : Z;
  MaxBatchCheckItems : Z;
  MaxCheckReads : Z;
  AdminRateLimitPerMinute : Z;
  TenantRateLimitPerMinute : Z;
  DecisionLog : bool;
  AuditLog : bool;
}.

Definition DefaultProjectIDFallback : string := "default".
Definition DefaultMaxListObjects : Z := 1000.
Definition DefaultAdminRateLimitPerMinute : Z := 30.
Definition DefaultMaxExpandNodes : Z := 10000.
Definition DefaultMaxBatchCheckItems : Z := 1000.
Definition DefaultMaxCheckReads : Z := 5000.
Definition minAdminSecretLen : nat := 32.
Definition minServiceCredentialLen : nat := minAdminSecretLen.
Definition minTenantRateLimitPerMinute : Z := 60.
Definition MinMaxCheckReads : Z := 100.
Definition maxDataRegionLen : nat := 64.

(** ** Validation *)
Definition isRegionChar (c : ascii) : bool :=
  let n := nat_of_ascii c in
  ((97 <=? n) && (n <=? 122) || (48 <=? n) && (n <=? 57) || (n =? 45) || (n =? 95))%nat.

Definition validateDataRegion (region : string) : result unit :=
  if String.eqb region "" then Ok tt
  else if (maxDataRegionLen <? String.length region)%nat then Err (ErrPlain "GATEWAY_DATA_REGION length")
  else if all_chars isRegionChar region then Ok tt else Err (ErrPlain "GATEWAY_DATA_REGION charset").

(** [if bad { return err }] *)
Definition reject (bad : bool) (msg : string) (k : result unit) : result unit :=
  if bad then Err (ErrPlain msg) else k.

Definition Validate (c : Config) : result unit :=
  reject ((ConnectPort c <=? 0) || (65535 <? ConnectPort c)) "GATEWAY_CONNECT_PORT out of range" (
  reject ((MetricsPort c <=? 0) || (65535 <? MetricsPort c)) "GATEWAY_METRICS_PORT out of range" (
  reject (HTTPMaxBodyBytes c <=? 0) "GATEWAY_HTTP_MAX_BODY_BYTES must be positive" (
  reject (negb (String.eqb (AdminAPISecret c) "") && (String.length (AdminAPISecret c) <? minAdminSecretLen)%nat)
    "GATEWAY_ADMIN_API_SECRET too short" (
  reject ((0 <? TenantRateLimitPerMinute c) && (TenantRateLimitPerMinute c <? minTenantRateLimitPerMinute))
    "GATEWAY_TENANT_RATE_LIMIT_PER_MINUTE too small" (
  reject ((0 <? MaxCheckReads c) && (MaxCheckReads c <? MinMaxCheckReads)) "GATEWAY_MAX_CHECK_READS too small" (
  validateDataRegion (DataRegion c))))))).

(** The loop over the decoded entries: the first bad one is reported. *)
Fixpoint checkCredentials (creds : list ServiceCredential) : result unit :=
  match creds with
  | [] => Ok tt
  | c :: creds' =>
      reject (String.eqb (TrimSpace (cr_Token c)) "") "credential: token is required" (
      reject (String.length (cr_Token c) <? minServiceCredentialLen)%nat "credential: token too short" (
      reject (String.eqb (TrimSpace (cr_Name c)) "") "credential: name is required" (
      checkCredentials creds')))
  end.

Section Load.
Context `{CredentialsJson}.

Definition parseServiceCredentials (raw0 : string) : result (list ServiceCredential) :=
  let raw := TrimSpace raw0 in
  if String.eqb raw "" then Ok [] else
  match decodeCredentials raw with
  | None => Err (ErrPlain "GATEWAY_SERVICE_CREDENTIALS is not valid JSON")
  | Some creds => rbind (checkCredentials creds) (fun _ => Ok creds)
  end.

(** The fields as [Load] fills them before it validates. *)
Definition fromEnv (env : Environ) (creds : list ServiceCredential) : Config := {|
  ConnectPort := envInt env "GATEWAY_CONNECT_PORT" 8080;
  MetricsPort := envInt env "GATEWAY_METRICS_PORT" 9090;
  DefaultProjectID := envStr env "GATEWAY_DEFAULT_PROJECT_ID" DefaultProjectIDFallback;
  DefaultTenantID := envStr env "GATEWAY_DEFAULT_TENANT_ID" "";
  DataRegion := envStr env "GATEWAY_DATA_REGION" "";
  PostgresDSN := envStr env "GATEWAY_POSTGRES_DSN" "";
  PostgresAutoMigrate := envBool env "GATEWAY_POSTGRES_AUTO_MIGRATE" false;
  ServiceAuthTokens := envCSV env "GATEWAY_SERVICE_AUTH_TOKENS";
  ServiceCredentials := creds;
  AdminAPISecret := envStr env "GATEWAY_ADMIN_API_SECRET" "";
  AllowedOrigins := envCSV env "GATEWAY_ALLOWED_ORIGINS";
  HTTPMaxBodyBytes := envInt env "GATEWAY_HTTP_MAX_BODY_BYTES" (Z.shiftl 1 20);
  MaxListObjects := envInt env "GATEWAY_MAX_LIST_OBJECTS" DefaultMaxListObjects;
  MaxExpandNodes := envInt env "GATEWAY_MAX_EXPAND_NODES" DefaultMaxExpandNodes;
  MaxBatchCheckItems := envInt env "GATEWAY_MAX_BATCH_CHECK_ITEMS" DefaultMaxBatchCheckItems;
  MaxCheckReads := envInt env "GATEWAY_MAX_CHECK_READS" DefaultMaxCheckReads;
  AdminRateLimitPerMinute := envInt env "GATEWAY_ADMIN_RATE_LIMIT_PER_MINUTE" DefaultAdminRateLimitPerMinute;
  TenantRateLimitPerMinute := envInt env "GATEWAY_TENANT_RATE_LIMIT_PER_MINUTE" 0;
  DecisionLog := envBool env "GATEWAY_DECISION_LOG" false;
  AuditLog := envBool env "GATEWAY_AUDIT_LOG" false;
|}.

Definition Load (env : Environ) : result Config :=
  rbind (parseServiceCredentials (default "" (env "GATEWAY_SERVICE_CREDENTIALS"))) (fun creds =>
  let c := fromEnv env creds in
  rbind (Validate c) (fun _ => Ok c)).
End Load.

(** ** What a loaded configuration satisfies *)

(** A value that is unset (not positive) or at least [low]. *)
Definition unsetOrAtLeast (low n : Z) : Prop := n <= 0 \/ low <= n.

Record validConfig (c : Config) : Prop := mkValidConfig {
  vc_connect : 0 < ConnectPort c <= 65535;
  vc_metrics : 0 < MetricsPort c <= 65535;
  vc_body : 0 < HTTPMaxBodyBytes c;
  vc_secret : AdminAPISecret c = "" \/ (32 <= String.length (AdminAPISecret c))%nat;
  vc_rate : unsetOrAtLeast 60 (TenantRateLimitPerMinute c);
  vc_reads : unsetOrAtLeast 100 (MaxCheckReads c);
  vc_region : ValidateRegion (DataRegion c) = Ok tt;
}.

Definition validCredential (c : ServiceCredential) : Prop :=
  TrimSpace (cr_Token c) <> "" /\ (32 <= String.length (cr_Token c))%nat /\ TrimSpace (cr_Name c) <> "".

Lemma reject_ok b msg k u : reject b msg k = Ok u <-> b = false /\ k = Ok u.
Proof. unfold reject. destruct b; naive_solver. Qed.

(** The copy of the rule for regions accepts what the service's does. *)
Lemma validateDataRegion_agrees region : validateDataRegion region = Ok tt <-> ValidateRegion region = Ok tt.
Proof.
  unfold validateDataRegion, ValidateRegion. change maxDataRegionLen with Text.maxDataRegionLen.
  change isRegionChar with isRegionByte. repeat case_match; naive_solver.
Qed.

Lemma Validate_ok c : Validate c = Ok tt <-> validConfig c.
Proof.
  unfold Validate. rewrite !reject_ok, validateDataRegion_agrees.
  rewrite !andb_false_iff, !orb_false_iff, !Z.leb_gt, !Z.ltb_ge, negb_false_iff, String.eqb_eq, Nat.ltb_ge.
  unfold minTenantRateLimitPerMinute, MinMaxCheckReads, minAdminSecretLen. split.
  - intros ([] & [] & ? & ? & ? & ? & ?). split; unfold unsetOrAtLeast; auto; lia.
  - intros []. unfold unsetOrAtLeast in *. split_and!; auto; lia.
Qed.

Lemma checkCredentials_ok creds : checkCredentials creds = Ok tt <-> Forall validCredential creds.
Proof.
  induction creds as [|c creds IH]; simpl; [done|]. rewrite !reject_ok, IH, Forall_cons, !String.eqb_neq, Nat.ltb_ge.
  unfold validCredential, minServiceCredentialLen, minAdminSecretLen. naive_solver.
Qed.

(** C38.  [Load] accepts an environment exactly when the credentials decode to
    entries with a name and a token of at least 32 bytes, the ports are ports, the
    body limit is positive, an admin secret has at least 32 bytes, an enabled
    tenant rate limit is at least 60 a minute, an enabled read budget at least
    100, and the region passes the same rule as a project's region; the result is
    then the environment's values over the defaults. *)
Theorem load_iff `{CredentialsJson} env c :
  Load env = Ok c <->
  exists creds,
    (let raw := TrimSpace (default "" (env "GATEWAY_SERVICE_CREDENTIALS")) in
     raw = "" /\ creds = [] \/ raw <> "" /\ decodeCredentials raw = Some creds) /\
    Forall validCredential creds /\ c = fromEnv env creds /\ validConfig c.
Proof.
  unfold Load, parseServiceCredentials. set (raw := TrimSpace _). cbv zeta.
  assert (Hval : forall creds, rbind (Validate (fromEnv env creds)) (fun _ => Ok (fromEnv env creds)) = Ok c
                   <-> c = fromEnv env creds /\ validConfig c).
  { intros creds. pose proof (Validate_ok (fromEnv env creds)) as Hv.
    destruct (Validate (fromEnv env creds)) as [[]|e]; simpl; naive_solver. }
  destruct (String.eqb_spec raw "") as [Hr|Hr]; simpl.
  - rewrite Hval. split; [|naive_solver]. intros [-> Hv]. exists []. naive_solver.
  - destruct (decodeCredentials raw) as [creds|]; simpl; [|naive_solver].
    pose proof (checkCredentials_ok creds) as Hc. destruct (checkCredentials creds) as [[]|e]; simpl; [|naive_solver].
    rewrite Hval. naive_solver.
Qed.

Example load_defaults : exists c, @Load {| decodeCredentials _ := None |} (fun _ => None) = Ok c.
Proof. vm_compute. eexists. reflexivity. Qed.
