(* ===== verification/Wire.v ===== *)
(** * Messages of the wire and their conversions (internal/connect)

    The generated message types, with the fields the handlers touch: an enum is
    its named values and a number nobody knows, a oneof is an option of an
    inductive type, a message field is an option.  Timestamps and dynamic structs
    are types of the protobuf runtime and parameters here. *)

From stdpp Require Import base gmap strings list.
From Stdlib Require Import ZArith Lia.
From S2P Require Import Prelude Conditions Model ModelJson Types Engine Expand.
#[local] Open Scope Z_scope.

Class ProtoTypes := {
  Timestamp : Type;
  timestamp_New : Time -> Timestamp;
  AsTime : Timestamp -> Time;
  Struct : Type;
  AsMap : Struct -> anymap;
  NewStruct : anymap -> option Struct;
}.

(** ** Enums *)
Inductive PRole := ROLE_UNSPECIFIED | ROLE_OWNER | ROLE_ADMIN | ROLE_MEMBER | ROLE_GUEST | ROLE_OTHER (n : Z).
Inductive PWorkspaceType := WORKSPACE_TYPE_PERSONAL | WORKSPACE_TYPE_TEAM.
Inductive PMembershipStatus :=
  MEMBERSHIP_STATUS_UNSPECIFIED | MEMBERSHIP_STATUS_ACTIVE | MEMBERSHIP_STATUS_INVITED | MEMBERSHIP_STATUS_SUSPENDED.
Inductive PInvitationStatus :=
  INVITATION_STATUS_UNSPECIFIED | INVITATION_STATUS_PENDING | INVITATION_STATUS_ACCEPTED
  | INVITATION_STATUS_REVOKED | INVITATION_STATUS_EXPIRED.
Inductive PProjectStatus :=
  PROJECT_STATUS_UNSPECIFIED | PROJECT_STATUS_ACTIVE | PROJECT_STATUS_SUSPENDED | PROJECT_STATUS_OTHER (n : Z).
Inductive PEnrollmentState :=
  ENROLLMENT_STATE_UNSPECIFIED | ENROLLMENT_STATE_WAITLISTED | ENROLLMENT_STATE_ENROLLED | ENROLLMENT_STATE_ACTIVE
  | ENROLLMENT_STATE_COMPLETED | ENROLLMENT_STATE_DROPPED | ENROLLMENT_STATE_OTHER (n : Z).
Inductive PTupleOp := OP_INSERT | OP_DELETE | OP_OTHER (n : Z).
Inductive PNodeType := NODE_TYPE_UNION | NODE_TYPE_INTERSECTION | NODE_TYPE_EXCLUSION | NODE_TYPE_LEAF.

(** A Go [switch] over the values of a string type. *)
Fixpoint switch {A} (s : string) (cases : list (string * A)) (dflt : A) : A :=
  match cases with
  | [] => dflt
  | (k, a) :: cases' => if String.eqb s k then a else switch s cases' dflt
  end.

Definition roleToProto (r : Role) : PRole :=
  switch r [(RoleOwner, ROLE_OWNER); (RoleAdmin, ROLE_ADMIN); (RoleMember, ROLE_MEMBER); (RoleGuest, ROLE_GUEST)]
    ROLE_UNSPECIFIED.

Definition roleFromProto (r : PRole) : Role :=
  match r with
  | ROLE_OWNER => RoleOwner
  | ROLE_ADMIN => RoleAdmin
  | ROLE_MEMBER => RoleMember
  | ROLE_GUEST => RoleGuest
  | _ => ""
  end.

Definition wsTypeToProto (t : WorkspaceType) : PWorkspaceType :=
  if String.eqb t TypePersonal then WORKSPACE_TYPE_PERSONAL else WORKSPACE_TYPE_TEAM.

Definition membershipStatusToProto (s : MembershipStatus) : PMembershipStatus :=
  switch s [(StatusActive, MEMBERSHIP_STATUS_ACTIVE); (StatusInvited, MEMBERSHIP_STATUS_INVITED);
            (StatusSuspended, MEMBERSHIP_STATUS_SUSPENDED)] MEMBERSHIP_STATUS_UNSPECIFIED.

Definition inviteStatusToProto (s : InvitationStatus) : PInvitationStatus :=
  switch s [(InvitePending, INVITATION_STATUS_PENDING); (InviteAccepted, INVITATION_STATUS_ACCEPTED);
            (InviteRevoked, INVITATION_STATUS_REVOKED); (InviteExpired, INVITATION_STATUS_EXPIRED)]
    INVITATION_STATUS_UNSPECIFIED.

Definition projectStatusToProto (s : ProjectStatus) : PProjectStatus :=
  switch s [(ProjectActive, PROJECT_STATUS_ACTIVE); (ProjectSuspended, PROJECT_STATUS_SUSPENDED)]
    PROJECT_STATUS_UNSPECIFIED.

Definition projectStatusFromProto (s : PProjectStatus) : ProjectStatus :=
  match s with
  | PROJECT_STATUS_ACTIVE => ProjectActive
  | PROJECT_STATUS_SUSPENDED => ProjectSuspended
  | _ => ""
  end.

(** [connect.NewError(connect.CodeInvalidArgument, err)] *)
Definition invalidArgument {A} (err : error) : result A := Err (ErrConnect CodeInvalidArgument err).

Definition enrollmentStateFromProto (s : PEnrollmentState) : result EnrollmentState :=
  match s with
  | ENROLLMENT_STATE_WAITLISTED => Ok EnrollmentWaitlisted
  | ENROLLMENT_STATE_ENROLLED => Ok EnrollmentEnrolled
  | ENROLLMENT_STATE_ACTIVE => Ok EnrollmentActive
  | ENROLLMENT_STATE_COMPLETED => Ok EnrollmentCompleted
  | ENROLLMENT_STATE_DROPPED => Ok EnrollmentDropped
  | _ => invalidArgument (ErrPlain "state must be a known enrollment state")
  end.

Definition enrollmentStateToProto (s : EnrollmentState) : PEnrollmentState :=
  switch s [(EnrollmentWaitlisted, ENROLLMENT_STATE_WAITLISTED); (EnrollmentEnrolled, ENROLLMENT_STATE_ENROLLED);
            (EnrollmentActive, ENROLLMENT_STATE_ACTIVE); (EnrollmentCompleted, ENROLLMENT_STATE_COMPLETED);
            (EnrollmentDropped, ENROLLMENT_STATE_DROPPED)] ENROLLMENT_STATE_UNSPECIFIED.

(** [i32] saturates a count to [int32]. *)
Definition MaxInt32 : Z := 2 ^ 31 - 1.
Definition i32 (n : Z) : Z := if MaxInt32 <? n then MaxInt32 else if n <? 0 then 0 else n.

(** ** Subjects and tuples *)
Record PSubjectSet := mkPSubjectSet { ps_Namespace : string; ps_ObjectId : string; ps_Relation : string }.

Inductive PSubjectKind :=
  | Subject_UserId (userId : string)
  | Subject_Set (set : option PSubjectSet)
  | Subject_Wildcard (wildcard : bool).

Record PSubject := mkPSubject { Kind : option PSubjectKind }.

Definition setToProto (s : SubjectSet) : PSubjectSet := mkPSubjectSet (ss_Namespace s) (ss_ObjectID s) (ss_Relation s).
Definition setFromProto (s : PSubjectSet) : SubjectSet := mkSubjectSet (ps_Namespace s) (ps_ObjectId s) (ps_Relation s).

Definition subjectFromProto (s : option PSubject) : result Subject :=
  match s with
  | None => invalidArgument (ErrPlain "subject is required")
  | Some s =>
      match Kind s with
      | Some (Subject_UserId u) => Ok (mkSubject u None false None)
      | Some (Subject_Set None) => invalidArgument (ErrPlain "subject set is nil")
      | Some (Subject_Set (Some k)) => Ok (mkSubject "" (Some (setFromProto k)) false None)
      | Some (Subject_Wildcard w) => if w then Ok (mkSubject "" None true None) else invalidArgument (ErrPlain "wildcard subject must be true")
      | None => invalidArgument (ErrPlain "subject must set user_id, set, or wildcard")
      end
  end.

Definition subjectToProto (s : Subject) : PSubject :=
  if Wildcard s then mkPSubject (Some (Subject_Wildcard true))
  else match Set_ s with
       | Some ss => mkPSubject (Some (Subject_Set (Some (setToProto ss))))
       | None => mkPSubject (Some (Subject_UserId (UserID s)))
       end.

Section Messages.
Context `{ProtoTypes}.

Record RelationTuple := mkRelationTuple {
  rt_ProjectId : string;
  rt_TenantId : string;
  rt_Namespace : string;
  rt_ObjectId : string;
  rt_Relation : string;
  rt_Subject : option PSubject;
  rt_ExpiresAt : option Timestamp;
  rt_ConditionName : string;
  rt_ConditionParams : option Struct;
}.

Definition structMap (s : option Struct) : anymap := match s with None => ∅ | Some s => AsMap s end.
Definition optTime (ts : option Timestamp) : option Time := match ts with None => None | Some ts => Some (AsTime ts) end.
Definition optTimestamp (t : option Time) : option Timestamp := match t with None => None | Some t => Some (timestamp_New t) end.

Definition tupleFromProto (t : option RelationTuple) : result Tuple :=
  match t with
  | None => invalidArgument (ErrPlain "tuple is required")
  | Some t =>
      rbind (subjectFromProto (rt_Subject t)) (fun subj0 =>
      let subj := if negb (String.eqb (rt_ConditionName t) "")
                  then mkSubject (UserID subj0) (Set_ subj0) (Wildcard subj0)
                         (Some (mkCondition (rt_ConditionName t) (structMap (rt_ConditionParams t))))
                  else subj0 in
      Ok (mkTuple (rt_Namespace t) (rt_ObjectId t) (rt_Relation t) subj (optTime (rt_ExpiresAt t))))
  end.

Definition tupleToProto (projectID tenantID : string) (t : Tuple) : RelationTuple :=
  let rt name params := mkRelationTuple projectID tenantID (t_Namespace t) (t_ObjectID t) (t_Relation t)
                          (Some (subjectToProto (t_Subject t))) (optTimestamp (t_ExpiresAt t)) name params in
  match Cond (t_Subject t) with
  | Some c => if negb (String.eqb (c_Name c) "")
              then rt (c_Name c) (if decide (0 < size (c_Params c))%nat then NewStruct (c_Params c) else None)
              else rt "" None
  | None => rt "" None
  end.

(** ** Rows *)
Record PWorkspace := mkPWorkspace {
  pw_Id : string; pw_ProjectId : string; pw_TenantId : string; pw_Slug : string; pw_DisplayName : string;
  pw_Type : PWorkspaceType; pw_OwnerUserId : string; pw_CreatedAt : Timestamp; pw_UpdatedAt : Timestamp }.

Definition workspaceToProto (w : Workspace) : PWorkspace :=
  mkPWorkspace (w_ID w) (w_ProjectID w) (w_TenantID w) (w_Slug w) (w_DisplayName w)
    (wsTypeToProto (w_Type w)) (w_OwnerUserID w) (timestamp_New (w_CreatedAt w)) (timestamp_New (w_UpdatedAt w)).

Record PMembership := mkPMembership {
  pm_WorkspaceId : string; pm_UserId : string; pm_TenantId : string; pm_Role : PRole; pm_Status : PMembershipStatus;
  pm_CreatedAt : Timestamp; pm_UpdatedAt : Timestamp }.

Definition membershipToProto (m : Membership) : PMembership :=
  mkPMembership (mb_WorkspaceID m) (mb_UserID m) (mb_TenantID m) (roleToProto (mb_Role m))
    (membershipStatusToProto (mb_Status m)) (timestamp_New (mb_CreatedAt m)) (timestamp_New (mb_UpdatedAt m)).

Record PInvitation := mkPInvitation {
  pi_Id : string; pi_WorkspaceId : string; pi_TenantId : string; pi_Email : string; pi_Role : PRole;
  pi_Status : PInvitationStatus; pi_InvitedByUserId : string; pi_CreatedAt : Timestamp; pi_ExpiresAt : Timestamp;
  pi_Token : string }.

Definition invitationToProto (inv : Invitation) (token : string) : PInvitation :=
  mkPInvitation (inv_ID inv) (inv_WorkspaceID inv) (inv_TenantID inv) (inv_Email inv) (roleToProto (inv_Role inv))
    (inviteStatusToProto (inv_Status inv)) (inv_InvitedBy inv) (timestamp_New (inv_CreatedAt inv))
    (timestamp_New (inv_ExpiresAt inv)) token.

Record PGroup := mkPGroup {
  pg_Id : string; pg_ProjectId : string; pg_TenantId : string; pg_WorkspaceId : string; pg_Slug : string;
  pg_DisplayName : string; pg_CreatedByUserId : string; pg_CreatedAt : Timestamp; pg_UpdatedAt : Timestamp }.

Definition groupToProto (g : Group) : PGroup :=
  mkPGroup (g_ID g) (g_ProjectID g) (g_TenantID g) (g_WorkspaceID g) (g_Slug g) (g_DisplayName g) (g_CreatedBy g)
    (timestamp_New (g_CreatedAt g)) (timestamp_New (g_UpdatedAt g)).

Inductive PGroupMember := GroupMember_UserId (userId : string) | GroupMember_GroupId (groupId : string).

(** A missing message, and a message with nothing set. *)
Definition groupMemberFromProto (m : option (option PGroupMember)) : result GroupMember :=
  match m with
  | None => invalidArgument (ErrPlain "member is required")
  | Some (Some (GroupMember_UserId u)) => Ok (mkGroupMember u "")
  | Some (Some (GroupMember_GroupId g)) => Ok (mkGroupMember "" g)
  | Some None => invalidArgument (ErrPlain "member must set user_id or group_id")
  end.

Definition groupMemberToProto (m : GroupMember) : PGroupMember :=
  if negb (String.eqb (gm_GroupID m) "") then GroupMember_GroupId (gm_GroupID m) else GroupMember_UserId (gm_UserID m).

Record PEnrollment := mkPEnrollment {
  pe_GroupId : string; pe_Member : PGroupMember; pe_State : PEnrollmentState;
  pe_CreatedAt : Timestamp; pe_UpdatedAt : Timestamp }.

Definition enrollmentToProto (e : Enrollment) : PEnrollment :=
  mkPEnrollment (en_GroupID e) (groupMemberToProto (en_Member e)) (enrollmentStateToProto (en_State e))
    (timestamp_New (en_CreatedAt e)) (timestamp_New (en_UpdatedAt e)).

(** The model document is [None] for the empty text. *)
Record PProject `{JsonCodec} := mkPProject {
  pp_Id : string; pp_Name : string; pp_Status : PProjectStatus; pp_ModelJson : option JsonText;
  pp_DataRegion : string; pp_MaxCheckReads : Z; pp_CreatedAt : Timestamp; pp_UpdatedAt : Timestamp }.

Definition projectToProto `{JsonCodec} (p : Project) : result PProject :=
  let pb modelJSON := mkPProject _ (p_ID p) (p_Name p) (projectStatusToProto (p_Status p)) modelJSON
                        (p_DataRegion p) (i32 (p_MaxCheckReads p)) (timestamp_New (p_CreatedAt p)) (timestamp_New (p_UpdatedAt p)) in
  match p_Model p with
  | Some m => if decide (0 < size m)%nat then rbind (MarshalModel m) (fun raw => Ok (pb (Some raw))) else Ok (pb None)
  | None => Ok (pb None)
  end.

Definition modelFromJSON `{JsonCodec} (s : option JsonText) : result (option Model) :=
  match s with
  | None => Ok None
  | Some s => match ParseModel s with Ok m => Ok (Some m) | Err err => invalidArgument err end
  end.

(** ** Trees *)
Inductive UsersetTree := mkUsersetTree {
  ut_Type : PNodeType;
  ut_Expanded : PSubjectSet;
  ut_Children : list UsersetTree;
  ut_Include : option UsersetTree;
  ut_Exclude : option UsersetTree;
  ut_UserIds : list string;
  ut_Sets : list PSubjectSet;
  ut_Wildcard : bool;
}.

Fixpoint treeToProto (t : Tree) : UsersetTree :=
  let expanded := setToProto (tr_Expanded t) in
  if negb (is_nil (tr_Union t)) then
    mkUsersetTree NODE_TYPE_UNION expanded (map treeToProto (tr_Union t)) None None [] [] false
  else if negb (is_nil (tr_Intersection t)) then
    mkUsersetTree NODE_TYPE_INTERSECTION expanded (map treeToProto (tr_Intersection t)) None None [] [] false
  else match tr_Exclude t with
  | Some ex =>
      mkUsersetTree NODE_TYPE_EXCLUSION expanded [] (Some (treeToProto (xt_Include ex)))
        (Some (treeToProto (xt_Exclude ex))) [] [] false
  | None =>
      mkUsersetTree NODE_TYPE_LEAF expanded [] None None (tr_Users t) (setToProto <$> tr_Sets t) (tr_Wildcard t)
  end.
End Messages.
