(* ===== verification/Token.v ===== *)
(** * Consistency tokens (internal/consistencytoken/token.go)

    The unpadded URL-safe base64 of the standard library is written out and its
    round trip is proved.  The JSON text of a token is a parameter: [Marshal] and
    [Unmarshal] stand for the encoder and the strict decoder on the struct.  The
    sequence of a token is an [int64] in the code and does not wrap here. *)

From stdpp Require Import base strings list.
From Stdlib Require Import ZArith Lia Ascii.
From S2P Require Import Prelude.
#[local] Open Scope Z_scope.

Record Token := mkToken { tok_Project : string; tok_Tenant : string; tok_Seq : Z }.

Class TokenJson := {
  Marshal : Token -> string;
  Unmarshal : string -> option Token;
}.

Definition tokenPrefix : string := "ct1.".

Definition ErrMalformed : error := ErrPlain "malformed consistency token".

(** ** [base64.RawURLEncoding] *)
Definition byteOf (c : ascii) : Z := Z.of_N (N_of_ascii c).
Definition charOf (z : Z) : ascii := ascii_of_N (Z.to_N z).

(** The alphabet [A-Za-z0-9-_] and its inverse. *)
Definition encodeDigit (d : Z) : ascii :=
  charOf (if d <? 26 then d + 65
          else if d <? 52 then d - 26 + 97
          else if d <? 62 then d - 52 + 48
          else if d =? 62 then 45 else 95).

Definition decodeDigit (c : ascii) : option Z :=
  let b := byteOf c in
  if (65 <=? b) && (b <=? 90) then Some (b - 65)
  else if (97 <=? b) && (b <=? 122) then Some (b - 97 + 26)
  else if (48 <=? b) && (b <=? 57) then Some (b - 48 + 52)
  else if b =? 45 then Some 62
  else if b =? 95 then Some 63
  else None.

Fixpoint EncodeToString (s : string) : string :=
  match s with
  | String a (String b (String c s')) =>
      let v := byteOf a * 65536 + byteOf b * 256 + byteOf c in
      String (encodeDigit (v / 262144)) (String (encodeDigit (v / 4096 mod 64))
        (String (encodeDigit (v / 64 mod 64)) (String (encodeDigit (v mod 64)) (EncodeToString s'))))
  | String a (String b EmptyString) =>
      let v := byteOf a * 65536 + byteOf b * 256 in
      String (encodeDigit (v / 262144)) (String (encodeDigit (v / 4096 mod 64))
        (String (encodeDigit (v / 64 mod 64)) EmptyString))
  | String a EmptyString =>
      let v := byteOf a * 65536 in
      String (encodeDigit (v / 262144)) (String (encodeDigit (v / 4096 mod 64)) EmptyString)
  | EmptyString => EmptyString
  end.

(** The decoder skips carriage returns and newlines, refuses any other byte
    outside the alphabet and a last group of one digit, and ignores the unused
    low bits of a short last group. *)
Fixpoint digitsOf (s : string) : option (list Z) :=
  match s with
  | EmptyString => Some []
  | String c s' =>
      if (byteOf c =? 10) || (byteOf c =? 13) then digitsOf s'
      else match decodeDigit c, digitsOf s' with
           | Some d, Some ds => Some (d :: ds)
           | _, _ => None
           end
  end.

Fixpoint bytesOf (ds : list Z) : option string :=
  match ds with
  | [] => Some EmptyString
  | [_] => None
  | [a; b] =>
      let v := a * 262144 + b * 4096 in Some (String (charOf (v / 65536)) EmptyString)
  | [a; b; c] =>
      let v := a * 262144 + b * 4096 + c * 64 in
      Some (String (charOf (v / 65536)) (String (charOf (v / 256 mod 256)) EmptyString))
  | a :: b :: c :: d :: ds' =>
      let v := a * 262144 + b * 4096 + c * 64 + d in
      match bytesOf ds' with
      | Some s => Some (String (charOf (v / 65536)) (String (charOf (v / 256 mod 256)) (String (charOf (v mod 256)) s)))
      | None => None
      end
  end.

Definition DecodeString (s : string) : option string :=
  match digitsOf s with Some ds => bytesOf ds | None => None end.

(** [strings.CutPrefix]: the rest of [s] after [pre]. *)
Fixpoint CutPrefix (s pre : string) : option string :=
  match pre, s with
  | EmptyString, _ => Some s
  | String c pre', String d s' => if Ascii.eqb c d then CutPrefix s' pre' else None
  | String _ _, EmptyString => None
  end.

(** ** Encode and Decode *)
Section Codec.
Context `{TokenJson}.

Definition Encode (project tenant : string) (seq : Z) : string :=
  String.append tokenPrefix (EncodeToString (Marshal (mkToken project tenant seq))).

Definition Decode (s : string) : result Token :=
  match CutPrefix s tokenPrefix with
  | None => Err ErrMalformed
  | Some rest =>
      match DecodeString rest with
      | None => Err ErrMalformed
      | Some raw =>
          match Unmarshal raw with
          | None => Err ErrMalformed
          | Some t => if tok_Seq t <? 0 then Err ErrMalformed else Ok t
          end
      end
  end.
End Codec.

(** ** Round trips *)
Lemma byteOf_range c : 0 <= byteOf c < 256.
Proof. unfold byteOf. pose proof (N_ascii_bounded c). lia. Qed.

Lemma charOf_byteOf c : charOf (byteOf c) = c.
Proof. unfold charOf, byteOf. rewrite N2Z.id. apply ascii_N_embedding. Qed.

(** A property of the 64 digits holds when it holds of each of them. *)
Lemma digit_cases (P : Z -> bool) :
  forallb P (Z.of_nat <$> seq 0 64) = true -> forall d, 0 <= d < 64 -> P d = true.
Proof.
  rewrite forallb_Forall, Forall_forall. intros HP d Hd. apply HP, list_elem_of_fmap.
  exists (Z.to_nat d). split; [lia|]. apply elem_of_seq. lia.
Qed.

Lemma digitsOf_encodeDigit d s :
  0 <= d < 64 -> digitsOf (String (encodeDigit d) s) = match digitsOf s with Some ds => Some (d :: ds) | None => None end.
Proof.
  intros Hd. simpl.
  pose proof (digit_cases (fun d => negb ((byteOf (encodeDigit d) =? 10) || (byteOf (encodeDigit d) =? 13))
    && bool_decide (decodeDigit (encodeDigit d) = Some d)) ltac:(by vm_compute) d Hd) as Hc.
  apply andb_true_iff in Hc as [->%negb_true_iff Hdec%bool_decide_eq_true]. by rewrite Hdec.
Qed.

Lemma byte_of_quotient z c : z = byteOf c -> charOf z = c.
Proof. intros ->. apply charOf_byteOf. Qed.

Lemma base64_roundtrip s : DecodeString (EncodeToString s) = Some s.
Proof.
  enough (H : exists ds, digitsOf (EncodeToString s) = Some ds /\ bytesOf ds = Some s).
  { destruct H as (ds & Hd & Hb). unfold DecodeString. by rewrite Hd. }
  revert s. fix IH 1. intros s.
  destruct s as [|a [|b [|c s]]]; cbn [EncodeToString].
  - by exists [].
  - pose proof (byteOf_range a).
    rewrite !digitsOf_encodeDigit by (Z.to_euclidean_division_equations; lia). eexists. split; [done|].
    cbn [bytesOf]. do 2 f_equal. apply byte_of_quotient. Z.to_euclidean_division_equations; lia.
  - pose proof (byteOf_range a). pose proof (byteOf_range b).
    rewrite !digitsOf_encodeDigit by (Z.to_euclidean_division_equations; lia). eexists. split; [done|].
    cbn [bytesOf]. do 2 f_equal; [|f_equal]; apply byte_of_quotient; Z.to_euclidean_division_equations; lia.
  - pose proof (byteOf_range a). pose proof (byteOf_range b). pose proof (byteOf_range c).
    destruct (IH s) as (ds & Hd & Hb).
    rewrite !digitsOf_encodeDigit by (Z.to_euclidean_division_equations; lia). rewrite Hd.
    eexists. split; [done|]. cbn [bytesOf]. rewrite Hb.
    do 2 f_equal; [|f_equal; [|f_equal]]; apply byte_of_quotient; Z.to_euclidean_division_equations; lia.
Qed.

Lemma CutPrefix_append pre s : CutPrefix (String.append pre s) pre = Some s.
Proof. induction pre as [|c pre IH]; [by destruct s|]. rewrite string_app_cons. simpl. by rewrite Ascii.eqb_refl. Qed.

(** The JSON text of a token reads back as the token. *)
Definition jsonRoundtrips `{TokenJson} (t : Token) : Prop := Unmarshal (Marshal t) = Some t.

Lemma Decode_Encode `{TokenJson} project tenant seq :
  jsonRoundtrips (mkToken project tenant seq) -> 0 <= seq ->
  Decode (Encode project tenant seq) = Ok (mkToken project tenant seq).
Proof.
  intros Hj Hs. unfold Decode, Encode. rewrite CutPrefix_append, base64_roundtrip, Hj. simpl.
  by rewrite (proj2 (Z.ltb_ge _ _) Hs).
Qed.
