(* ===== verification/Service.v ===== *)
(** * The service: state, resolver and guards
      (internal/service/service.go, projects.go, authz.go)

    A request of the service runs against a [World]: the in-memory repository,
    the resolver's cache, the audit and decision logs, and counters into the
    sources of time, ids and tokens.  Requests run one after the other;
    [Flight] has the resolver under concurrent callers. *)

From stdpp Require Import base gmap strings list.
From Stdlib Require Import ZArith Lia Ascii.
From S2P Require Import Prelude Conditions Model ModelJson Types Text Engine Expand CheckSet Memory.
#[local] Open Scope Z_scope.

Record Principal := mkPrincipal {
  pr_UserID : string;
  pr_ProjectID : string;
  pr_TenantID : string;
  pr_Caller : string;
}.
#[global] Arguments pr_UserID _ : simpl never.
#[global] Arguments pr_ProjectID _ : simpl never.
#[global] Arguments pr_TenantID _ : simpl never.

(** ** Sources of time, ids, tokens and hashes

    [clock], [idgen] and [tokens] give the n-th value read from [s.now],
    [s.newID] and [randHex]; [hashToken] is the hex SHA-256 of a token. *)
Class Sources := {
  clock : nat -> Time;
  idgen : nat -> string;
  tokens : nat -> string;
  hashToken : string -> string;
}.

(** ** Audit and decision records *)
Inductive TupleOpKind := TupleOpInsert | TupleOpDelete.

Record TupleChangeRecord := mkTupleChange {
  tc_Op : TupleOpKind;
  tc_ProjectID : string;
  tc_TenantID : string;
  tc_Namespace : string;
  tc_ObjectID : string;
  tc_Relation : string;
  tc_SubjectUserID : string;
  tc_SubjectSet : option SubjectSet;
  tc_Wildcard : bool;
  tc_Caller : string;
  tc_At : Time;
}.

Inductive AdminAction := AdminActionCreateProject | AdminActionUpdateProject.

Record AdminAuditRecord := mkAdminAudit {
  aa_Action : AdminAction;
  aa_ProjectID : string;
  aa_NewStatus : ProjectStatus;
  aa_StatusChanged : bool;
  aa_ModelChanged : bool;
  aa_RegionChanged : bool;
  aa_BudgetChanged : bool;
  aa_At : Time;
}.

(** [d_Err] is the error of the decision, when it has one. *)
Record DecisionRecord := mkDecision {
  d_ProjectID : string;
  d_TenantID : string;
  d_Namespace : string;
  d_ObjectID : string;
  d_Relation : string;
  d_SubjectUserID : string;
  d_SubjectSet : option SubjectSet;
  d_Allowed : bool;
  d_Err : option error;
  d_Caller : string;
  d_DecidedAt : Time;
}.

(** ** Resolutions *)
Record resolved := mkResolved {
  r_model : option Model;
  r_suspended : bool;
  r_dataRegion : string;
  r_maxCheckReads : Z;
  r_at : Time;
}.

Definition modelOrDefault (e : resolved) : Model := default DefaultModel (r_model e).

Definition resolverTTL : Z := 30 * 10 ^ 9.
Definition resolverMaxEntries : nat := 4096.

(** ** State *)
Record World := mkWorld {
  w_repo : Store;
  w_cache : gmap string resolved;
  w_ticks : nat;
  w_ids : nat;
  w_tokens : nat;
  w_tupleAudit : list TupleChangeRecord;
  w_adminAudit : list AdminAuditRecord;
  w_decisions : list DecisionRecord;
}.

Definition set_repo s w := mkWorld s (w_cache w) (w_ticks w) (w_ids w) (w_tokens w) (w_tupleAudit w) (w_adminAudit w) (w_decisions w).
Definition set_cache f w := mkWorld (w_repo w) (f (w_cache w)) (w_ticks w) (w_ids w) (w_tokens w) (w_tupleAudit w) (w_adminAudit w) (w_decisions w).
Definition add_tupleAudit rs w := mkWorld (w_repo w) (w_cache w) (w_ticks w) (w_ids w) (w_tokens w) (w_tupleAudit w ++ rs) (w_adminAudit w) (w_decisions w).
Definition add_adminAudit r w := mkWorld (w_repo w) (w_cache w) (w_ticks w) (w_ids w) (w_tokens w) (w_tupleAudit w) (w_adminAudit w ++ [r]) (w_decisions w).
Definition add_decision r w := mkWorld (w_repo w) (w_cache w) (w_ticks w) (w_ids w) (w_tokens w) (w_tupleAudit w) (w_adminAudit w) (w_decisions w ++ [r]).

(** ** Configuration *)
Definition DefaultMaxListObjects : Z := 1000.
Definition DefaultMaxExpandNodes : Z := 10000.
Definition DefaultMaxCheckReads : Z := 5000.

(** The fields of the service that options set; the two logs are present or nil. *)
Record ServiceConfig := mkServiceConfig {
  s_maxListObjects : Z;
  s_maxExpandNodes : Z;
  s_maxCheckReads : Z;
  s_dataRegion : string;
  s_decisionLog : bool;
  s_auditLog : bool;
}.

Definition defaultConfig : ServiceConfig :=
  mkServiceConfig DefaultMaxListObjects DefaultMaxExpandNodes DefaultMaxCheckReads "" false false.

Definition WithMaxListObjects_ (n : Z) (s : ServiceConfig) : ServiceConfig :=
  mkServiceConfig (if 0 <? n then n else s_maxListObjects s) (s_maxExpandNodes s) (s_maxCheckReads s)
    (s_dataRegion s) (s_decisionLog s) (s_auditLog s).
Definition WithMaxExpandNodes (n : Z) (s : ServiceConfig) : ServiceConfig :=
  mkServiceConfig (s_maxListObjects s) (if 0 <? n then n else s_maxExpandNodes s) (s_maxCheckReads s)
    (s_dataRegion s) (s_decisionLog s) (s_auditLog s).
Definition WithMaxCheckReads (n : Z) (s : ServiceConfig) : ServiceConfig :=
  mkServiceConfig (s_maxListObjects s) (s_maxExpandNodes s) (if 0 <? n then n else s_maxCheckReads s)
    (s_dataRegion s) (s_decisionLog s) (s_auditLog s).
Definition WithDataRegion (region : string) (s : ServiceConfig) : ServiceConfig :=
  mkServiceConfig (s_maxListObjects s) (s_maxExpandNodes s) (s_maxCheckReads s)
    region (s_decisionLog s) (s_auditLog s).
Definition WithDecisionLogger (present : bool) (s : ServiceConfig) : ServiceConfig :=
  mkServiceConfig (s_maxListObjects s) (s_maxExpandNodes s) (s_maxCheckReads s)
    (s_dataRegion s) present (s_auditLog s).
Definition WithAuditLogger (present : bool) (s : ServiceConfig) : ServiceConfig :=
  mkServiceConfig (s_maxListObjects s) (s_maxExpandNodes s) (s_maxCheckReads s)
    (s_dataRegion s) (s_decisionLog s) present.

(** [New]: the options in order, over an empty cache and empty logs. *)
Definition NewService (opts : list (ServiceConfig -> ServiceConfig)) (repo : Store) : ServiceConfig * World :=
  (foldl (fun s opt => opt s) defaultConfig opts, mkWorld repo ∅ 0 0 0 [] [] []).

Definition isNotFound (err : error) : bool := errors_Is err ErrNotFound.
Definition isAlreadyExists (err : error) : bool := errors_Is err ErrAlreadyExists.

Definition mapBudgetErr (err : error) : error :=
  if errors_Is err ErrEvalBudgetExceeded then ErrResourceExhausted else err.

(** [if cond { return err }] and calls whose outcome is inspected. *)
Definition guard {S} (ok : bool) (e : error) : St S unit := if ok then ret tt else fail e.

Section Service.
Context `{Sources} `{MapRange} `{TextParsers} (svc : ServiceConfig).

Definition now_ : St World Time := fun w =>
  (Ok (clock (w_ticks w)),
   mkWorld (w_repo w) (w_cache w) (S (w_ticks w)) (w_ids w) (w_tokens w) (w_tupleAudit w) (w_adminAudit w) (w_decisions w)).
Definition newID : St World string := fun w =>
  (Ok (idgen (w_ids w)),
   mkWorld (w_repo w) (w_cache w) (w_ticks w) (S (w_ids w)) (w_tokens w) (w_tupleAudit w) (w_adminAudit w) (w_decisions w)).
Definition randHex : St World string := fun w =>
  (Ok (tokens (w_tokens w)),
   mkWorld (w_repo w) (w_cache w) (w_ticks w) (w_ids w) (S (w_tokens w)) (w_tupleAudit w) (w_adminAudit w) (w_decisions w)).

(** A call of the repository. *)
Definition repo {A} (c : St Store A) : St World A := fun w =>
  let '(r, s') := c (w_repo w) in (r, set_repo s' w).

(** A repository call that reads the time. *)
Definition repoAt {A} (c : Time -> St Store A) : St World A :=
  let! t := now_ in repo (c t).

(** ** The model resolver *)
Definition lookupCache (projectID : string) : St World (option resolved) := fun w =>
  match w_cache w !! projectID with
  | None => (Ok None, w)
  | Some e =>
      (let! t := now_ in
       if resolverTTL <? t - r_at e
       then do! modify (set_cache (delete projectID)) in ret None
       else ret (Some e)) w
  end.

(** The second loop of [evictLocked], over the keys in iteration order. *)
Fixpoint evictSome (max : nat) (keys : list string) (cache : gmap string resolved) : gmap string resolved :=
  match keys with
  | [] => cache
  | k :: keys' => if decide (size cache < max)%nat then cache else evictSome max keys' (delete k cache)
  end.

Definition evictLocked : St World unit :=
  let! t := now_ in
  modify (set_cache (fun cache =>
    let live := filter (fun kv => (resolverTTL <? t - r_at kv.2) = false) cache in
    evictSome resolverMaxEntries (range_map live).*1 live)).

Definition storeCache (projectID : string) (e : resolved) : St World unit := fun w =>
  (do! (if decide (resolverMaxEntries <= size (w_cache w))%nat then evictLocked else ret tt) in
   modify (set_cache (<[projectID := e]>))) w.

Definition invalidate (projectID : string) : St World unit := modify (set_cache (delete projectID)).

(** A configured model overlaid onto the built-in one, namespace by namespace. *)
Definition overlay (m : option Model) : option Model :=
  match m with
  | Some m => if decide (size m = 0%nat) then None else Some (m ∪ DefaultModel)
  | None => None
  end.

Definition load (projectID : string) : St World resolved :=
  let! r := attempt (repo (GetProject projectID)) in
  match r with
  | Err err =>
      if errors_Is err ErrNotFound then let! t := now_ in ret (mkResolved None false "" 0 t)
      else fail err
  | Ok p =>
      let! t := now_ in
      ret (mkResolved (overlay (p_Model p)) (String.eqb (p_Status p) ProjectSuspended)
             (p_DataRegion p) (p_MaxCheckReads p) t)
  end.

Definition resolve (projectID : string) : St World resolved :=
  let! hit := lookupCache projectID in
  match hit with
  | Some e => ret e
  | None =>
      let! hit' := lookupCache projectID in
      match hit' with
      | Some e => ret e
      | None =>
          let! e := load projectID in
          do! storeCache projectID e in
          ret e
      end
  end.

Definition resolverModelFor (projectID : string) : St World Model :=
  let! e := resolve projectID in ret (modelOrDefault e).

(** ** Guards *)
Definition regionServable (res : resolved) : St World unit :=
  guard (String.eqb (s_dataRegion svc) "" || String.eqb (r_dataRegion res) ""
         || String.eqb (r_dataRegion res) (s_dataRegion svc)) ErrRegionNotServable.

Definition ensureRegion (p : Principal) : St World unit :=
  if String.eqb (s_dataRegion svc) "" then ret tt
  else let! res := resolve (pr_ProjectID p) in regionServable res.

Definition EnsureServable (p : Principal) : St World unit := ensureRegion p.

Definition ensureProjectActive (p : Principal) : St World unit :=
  let! res := resolve (pr_ProjectID p) in
  do! regionServable res in
  guard (negb (r_suspended res)) ErrFailedPrecondition.

(** ** The engine of the service

    One evaluation sees the repository at one instant.  The resolver of the
    engine is the cached one; its answer is computed first. *)
Definition engineWith (m : Model) (t : Time) (s : Store) : Engine :=
  WithMaxListObjects (s_maxListObjects svc)
    (WithMaxReads (s_maxCheckReads svc)
       (NewEngine (Some {| ModelFor := fun _ => Ok m |}) (storeReader t s))).

Definition evalWith {A} (m : Model) (f : Engine -> result A) : St World A :=
  let! t := now_ in
  let! w := get in
  lift (match f (engineWith m t (w_repo w)) with
        | Ok a => Ok a
        | Err err => Err (mapBudgetErr err)
        end).

Definition allowed (p : Principal) (workspaceID : string) (rel : Role) : St World bool :=
  let! m := resolverModelFor (pr_ProjectID p) in
  evalWith m (fun e =>
    (Check e (pr_ProjectID p) (pr_TenantID p) "workspace" workspaceID rel (pr_UserID p) ∅ None).1).

Definition requireWorkspace (p : Principal) (workspaceID : string) (rel : Role) : St World Workspace :=
  let! w := repo (GetWorkspace (pr_ProjectID p) (pr_TenantID p) workspaceID) in
  let! ok := allowed p workspaceID rel in
  if ok : bool then ret w else fail ErrPermissionDenied.
End Service.
