(* ===== verification/ServiceWorkspaces.v ===== *)
(** * Workspaces, members, ownership and invitations
      (internal/service/workspaces.go, members.go, ownership.go, invitations.go) *)

From stdpp Require Import base gmap strings list.
From Stdlib Require Import ZArith Lia Ascii.
From S2P Require Import Prelude Conditions Model Types Text Engine Memory Service.
#[local] Open Scope Z_scope.

Definition InvitationTTL : Z := 7 * 24 * 3600 * 10 ^ 9.

Section Workspaces.
Context `{Sources} `{MapRange} `{TextParsers} (svc : ServiceConfig).

Definition roleTuple (workspaceID : string) (role : Role) (userID : string) : Tuple :=
  userTuple "workspace" workspaceID role userID.

(** ** Workspaces *)
Definition createWorkspaceWithOwner (w : Workspace) : St World unit :=
  do! repo (Memory.CreateWorkspace w) in
  repo (PutMembershipAndTuples
    (mkMembership (w_ProjectID w) (w_TenantID w) (w_ID w) (w_OwnerUserID w) RoleOwner StatusActive
       (w_CreatedAt w) (w_UpdatedAt w))
    [roleTuple (w_ID w) RoleOwner (w_OwnerUserID w)] []).

Definition EnsurePersonalWorkspace (p : Principal) : St World Workspace :=
  let! r := attempt (repo (PersonalWorkspace (pr_ProjectID p) (pr_TenantID p) (pr_UserID p))) in
  match r with
  | Ok w => ret w
  | Err err =>
      if negb (isNotFound err) then fail err else
      let! t := now_ in
      let! id := newID in
      let w := mkWorkspace id (pr_ProjectID p) (pr_TenantID p) "personal" "Personal" TypePersonal (pr_UserID p) t t in
      let! r := attempt (createWorkspaceWithOwner w) in
      match r with
      | Ok _ => ret w
      | Err err =>
          if isAlreadyExists err
          then repo (PersonalWorkspace (pr_ProjectID p) (pr_TenantID p) (pr_UserID p))
          else fail err
      end
  end.

Definition CreateWorkspace (p : Principal) (displayName slug : string) : St World Workspace :=
  do! ensureProjectActive svc p in
  let displayName := trimName displayName in
  do! guard (negb (String.eqb displayName "")) ErrInvalidArgument in
  let slug := if String.eqb slug "" then slugify displayName else slugify slug in
  let! t := now_ in
  let! id := newID in
  let w := mkWorkspace id (pr_ProjectID p) (pr_TenantID p) slug displayName TypeTeam (pr_UserID p) t t in
  do! createWorkspaceWithOwner w in
  ret w.

Definition GetWorkspace (p : Principal) (id : string) : St World Workspace :=
  requireWorkspace svc p id RoleGuest.

Definition ListWorkspaces (p : Principal) : St World (list Workspace) :=
  do! EnsurePersonalWorkspace p in
  repo (WorkspacesForUser (pr_ProjectID p) (pr_TenantID p) (pr_UserID p)).

Definition UpdateWorkspace (p : Principal) (id displayName : string) : St World Workspace :=
  let! w := requireWorkspace svc p id RoleAdmin in
  let displayName := trimName displayName in
  do! guard (negb (String.eqb displayName "")) ErrInvalidArgument in
  let! t := now_ in
  let w' := mkWorkspace (w_ID w) (w_ProjectID w) (w_TenantID w) (w_Slug w) displayName (w_Type w)
              (w_OwnerUserID w) (w_CreatedAt w) t in
  do! repo (Memory.UpdateWorkspace w') in
  ret w'.

Definition DeleteWorkspace (p : Principal) (id : string) : St World unit :=
  let! w := requireWorkspace svc p id RoleOwner in
  do! guard (negb (String.eqb (w_Type w) TypePersonal)) ErrFailedPrecondition in
  repo (Memory.DeleteWorkspace (pr_ProjectID p) (pr_TenantID p) id).

(** ** Members *)
Definition grantableRole (role : Role) : bool := Role_Valid role && negb (String.eqb role RoleOwner).

Definition putMember (p : Principal) (workspaceID userID : string) (role : Role) : St World Membership :=
  do! ensureProjectActive svc p in
  let! t := now_ in
  let m := mkMembership (pr_ProjectID p) (pr_TenantID p) workspaceID userID role StatusActive t t in
  do! repo (PutMembershipAndTuples m [roleTuple workspaceID role userID] []) in
  ret m.

Definition AddMember (p : Principal) (workspaceID userID : string) (role : Role) : St World Membership :=
  do! guard (grantableRole role) ErrInvalidArgument in
  do! guard (negb (String.eqb userID "")) ErrInvalidArgument in
  let! w := requireWorkspace svc p workspaceID RoleAdmin in
  do! guard (negb (String.eqb (w_Type w) TypePersonal)) ErrFailedPrecondition in
  let! r := attempt (repo (GetMembership (pr_ProjectID p) (pr_TenantID p) workspaceID userID)) in
  match r with
  | Ok _ => fail ErrAlreadyExists
  | Err err => if negb (isNotFound err) then fail err else putMember p workspaceID userID role
  end.

(** The row with a new role, status and update time. *)
Definition membershipWith (m : Membership) (role : Role) (status : MembershipStatus) (t : Time) : Membership :=
  mkMembership (mb_ProjectID m) (mb_TenantID m) (mb_WorkspaceID m) (mb_UserID m) role status (mb_CreatedAt m) t.

Definition UpdateMemberRole (p : Principal) (workspaceID userID : string) (role : Role) : St World Membership :=
  do! guard (grantableRole role) ErrInvalidArgument in
  do! requireWorkspace svc p workspaceID RoleAdmin in
  let! m := repo (GetMembership (pr_ProjectID p) (pr_TenantID p) workspaceID userID) in
  do! guard (negb (String.eqb (mb_Role m) RoleOwner)) ErrFailedPrecondition in
  do! guard (negb (String.eqb (mb_Status m) StatusSuspended)) ErrFailedPrecondition in
  if String.eqb (mb_Role m) role then ret m else
  let! t := now_ in
  let m' := membershipWith m role (mb_Status m) t in
  do! repo (PutMembershipAndTuples m' [roleTuple workspaceID role userID]
              [roleTuple workspaceID (mb_Role m) userID]) in
  ret m'.

Definition RemoveMember (p : Principal) (workspaceID userID : string) : St World unit :=
  do! requireWorkspace svc p workspaceID RoleAdmin in
  let! m := repo (GetMembership (pr_ProjectID p) (pr_TenantID p) workspaceID userID) in
  do! guard (negb (String.eqb (mb_Role m) RoleOwner)) ErrFailedPrecondition in
  repo (DeleteMembershipAndTuples (pr_ProjectID p) (pr_TenantID p) workspaceID userID
          [roleTuple workspaceID (mb_Role m) userID]).

Definition ListMembers (p : Principal) (workspaceID : string) : St World (list Membership) :=
  do! requireWorkspace svc p workspaceID RoleGuest in
  repo (Memory.ListMembers (pr_ProjectID p) (pr_TenantID p) workspaceID).

Definition SuspendMember (p : Principal) (workspaceID userID : string) : St World Membership :=
  do! requireWorkspace svc p workspaceID RoleAdmin in
  let! m := repo (GetMembership (pr_ProjectID p) (pr_TenantID p) workspaceID userID) in
  do! guard (negb (String.eqb (mb_Role m) RoleOwner)) ErrFailedPrecondition in
  if String.eqb (mb_Status m) StatusSuspended then ret m else
  let! t := now_ in
  let m' := membershipWith m (mb_Role m) StatusSuspended t in
  do! repo (PutMembershipAndTuples m' [] [roleTuple workspaceID (mb_Role m') userID]) in
  ret m'.

Definition ReinstateMember (p : Principal) (workspaceID userID : string) : St World Membership :=
  do! requireWorkspace svc p workspaceID RoleAdmin in
  let! m := repo (GetMembership (pr_ProjectID p) (pr_TenantID p) workspaceID userID) in
  if negb (String.eqb (mb_Status m) StatusSuspended) then ret m else
  let! t := now_ in
  let m' := membershipWith m (mb_Role m) StatusActive t in
  do! repo (PutMembershipAndTuples m' [roleTuple workspaceID (mb_Role m') userID] []) in
  ret m'.

(** ** Ownership *)
Definition TransferOwnership (p : Principal) (workspaceID newOwnerID : string) : St World Workspace :=
  do! guard (negb (String.eqb newOwnerID "")) ErrInvalidArgument in
  let! w := requireWorkspace svc p workspaceID RoleOwner in
  do! ensureProjectActive svc p in
  do! guard (negb (String.eqb (w_Type w) TypePersonal)) ErrFailedPrecondition in
  let oldOwnerID := w_OwnerUserID w in
  if String.eqb newOwnerID oldOwnerID then ret w else
  let! t := now_ in
  let! existing := attempt (repo (GetMembership (pr_ProjectID p) (pr_TenantID p) workspaceID newOwnerID)) in
  let! prior :=
    match existing with
    | Ok m => ret (Some m)
    | Err err => if isNotFound err then ret None else fail err
    end in
  let deletes :=
    match prior with
    | Some m => if negb (String.eqb (mb_Role m) RoleOwner) then [roleTuple workspaceID (mb_Role m) newOwnerID] else []
    | None => []
    end in
  let newOwner := mkMembership (pr_ProjectID p) (pr_TenantID p) workspaceID newOwnerID RoleOwner StatusActive
                    (match prior with Some m => mb_CreatedAt m | None => t end) t in
  do! repo (PutMembershipAndTuples newOwner [roleTuple workspaceID RoleOwner newOwnerID] deletes) in
  let w' := mkWorkspace (w_ID w) (w_ProjectID w) (w_TenantID w) (w_Slug w) (w_DisplayName w) (w_Type w)
              newOwnerID (w_CreatedAt w) t in
  do! repo (Memory.UpdateWorkspace w') in
  let adminInsert := [roleTuple workspaceID RoleAdmin oldOwnerID] in
  let ownerDelete := [roleTuple workspaceID RoleOwner oldOwnerID] in
  let! old := attempt (repo (GetMembership (pr_ProjectID p) (pr_TenantID p) workspaceID oldOwnerID)) in
  do! match old with
      | Ok m => repo (PutMembershipAndTuples (membershipWith m RoleAdmin (mb_Status m) t) adminInsert ownerDelete)
      | Err err =>
          if isNotFound err
          then repo (WriteTuples (pr_ProjectID p) (pr_TenantID p) adminInsert ownerDelete)
          else fail err
      end in
  ret w'.

(** ** Invitations *)
Definition CreateInvitation (p : Principal) (workspaceID email : string) (role : Role)
    : St World (Invitation * string) :=
  do! ensureProjectActive svc p in
  do! guard (grantableRole role) ErrInvalidArgument in
  let email := trimName email in
  do! guard (negb (String.eqb email "")) ErrInvalidArgument in
  let! w := requireWorkspace svc p workspaceID RoleAdmin in
  do! guard (negb (String.eqb (w_Type w) TypePersonal)) ErrFailedPrecondition in
  let! t := now_ in
  let! token := randHex in
  let! id := newID in
  let inv := mkInvitation id (pr_ProjectID p) (pr_TenantID p) workspaceID email role InvitePending
               (pr_UserID p) (hashToken token) t (t + InvitationTTL) in
  do! repo (Memory.CreateInvitation inv) in
  ret (inv, token).

Definition invitationWith (inv : Invitation) (status : InvitationStatus) : Invitation :=
  mkInvitation (inv_ID inv) (inv_ProjectID inv) (inv_TenantID inv) (inv_WorkspaceID inv) (inv_Email inv)
    (inv_Role inv) status (inv_InvitedBy inv) (inv_TokenHash inv) (inv_CreatedAt inv) (inv_ExpiresAt inv).

Definition AcceptInvitation (p : Principal) (token : string) : St World Membership :=
  do! guard (negb (String.eqb token "")) ErrInvalidArgument in
  let! inv := repo (GetInvitationByTokenHash (pr_ProjectID p) (pr_TenantID p) (hashToken token)) in
  do! guard (String.eqb (inv_Status inv) InvitePending) ErrFailedPrecondition in
  let! t := now_ in
  if inv_ExpiresAt inv <? t then
    do! attempt (repo (UpdateInvitation (invitationWith inv InviteExpired))) in
    fail ErrFailedPrecondition
  else
  let! r := attempt (repo (GetMembership (pr_ProjectID p) (pr_TenantID p) (inv_WorkspaceID inv) (pr_UserID p))) in
  match r with
  | Ok m =>
      do! repo (UpdateInvitation (invitationWith inv InviteAccepted)) in
      ret m
  | Err err =>
      if negb (isNotFound err) then fail err else
      let! m := putMember p (inv_WorkspaceID inv) (pr_UserID p) (inv_Role inv) in
      do! repo (UpdateInvitation (invitationWith inv InviteAccepted)) in
      ret m
  end.

Definition ListInvitations (p : Principal) (workspaceID : string) : St World (list Invitation) :=
  do! requireWorkspace svc p workspaceID RoleAdmin in
  repo (Memory.ListInvitations (pr_ProjectID p) (pr_TenantID p) workspaceID).

Definition RevokeInvitation (p : Principal) (invitationID : string) : St World unit :=
  let! inv := repo (GetInvitation (pr_ProjectID p) (pr_TenantID p) invitationID) in
  do! requireWorkspace svc p (inv_WorkspaceID inv) RoleAdmin in
  if String.eqb (inv_Status inv) InvitePending
  then repo (UpdateInvitation (invitationWith inv InviteRevoked))
  else ret tt.
End Workspaces.
