(* ===== verification/ServiceGroups.v ===== *)
(** * Groups, enrollments and seats (internal/service/groups.go, seats.go) *)

From stdpp Require Import base gmap strings list.
From Stdlib Require Import ZArith Lia Ascii.
From S2P Require Import Prelude Conditions Model Types Text Engine Memory Service.
#[local] Open Scope Z_scope.

Definition seatNamespace : string := "seat".
Definition SeatRelation : string := "holder".

Definition seatTuple (sku userID : string) : Tuple := userTuple seatNamespace sku SeatRelation userID.

Record SeatLimit := mkSeatLimit { sl_SKU : string; sl_Limit : Z; sl_Limited : bool }.

Definition groupMemberTuple (groupID : string) (m : GroupMember) : result Tuple :=
  if negb (String.eqb (gm_UserID m) "") && String.eqb (gm_GroupID m) "" then
    Ok (userTuple "group" groupID "member" (gm_UserID m))
  else if negb (String.eqb (gm_GroupID m) "") && String.eqb (gm_UserID m) "" then
    Ok (mkTuple "group" groupID "member"
          (mkSubject "" (Some (mkSubjectSet "group" (gm_GroupID m) "member")) false None) None)
  else Err ErrInvalidArgument.

(** The loop of [ListGroupMembers]. *)
Definition groupMemberOf (sub : Subject) : option GroupMember :=
  match Set_ sub with
  | None => Some (mkGroupMember (UserID sub) "")
  | Some ss => if String.eqb (ss_Namespace ss) "group" then Some (mkGroupMember "" (ss_ObjectID ss)) else None
  end.

Section Groups.
Context `{Sources} `{MapRange} `{TextParsers} (svc : ServiceConfig).

(** ** Groups *)
Definition CreateGroup (p : Principal) (displayName slug workspaceID : string) : St World Group :=
  do! ensureProjectActive svc p in
  let displayName := trimName displayName in
  do! guard (negb (String.eqb displayName "")) ErrInvalidArgument in
  do! (if negb (String.eqb workspaceID "")
       then do! requireWorkspace svc p workspaceID RoleMember in ret tt
       else ret tt) in
  let slug := if String.eqb slug "" then slugify displayName else slugify slug in
  let! t := now_ in
  let! id := newID in
  let g := mkGroup id (pr_ProjectID p) (pr_TenantID p) workspaceID slug displayName (pr_UserID p) t t in
  do! repo (Memory.CreateGroup g) in
  ret g.

Definition GetGroup (p : Principal) (id : string) : St World Group :=
  repo (Memory.GetGroup (pr_ProjectID p) (pr_TenantID p) id).

Definition ListGroups (p : Principal) (workspaceID : string) : St World (list Group) :=
  do! (if negb (String.eqb workspaceID "")
       then do! requireWorkspace svc p workspaceID RoleGuest in ret tt
       else ret tt) in
  repo (Memory.ListGroups (pr_ProjectID p) (pr_TenantID p) workspaceID).

Definition requireGroupManager (p : Principal) (g : Group) : St World unit :=
  if String.eqb (g_CreatedBy g) (pr_UserID p) then ret tt
  else if negb (String.eqb (g_WorkspaceID g) "") then
    let! ok := allowed svc p (g_WorkspaceID g) RoleAdmin in
    if ok : bool then ret tt else fail ErrPermissionDenied
  else fail ErrPermissionDenied.

Definition DeleteGroup (p : Principal) (id : string) : St World unit :=
  let! g := repo (Memory.GetGroup (pr_ProjectID p) (pr_TenantID p) id) in
  do! requireGroupManager p g in
  repo (Memory.DeleteGroup (pr_ProjectID p) (pr_TenantID p) id).

Definition enrollmentWith (e : Enrollment) (state : EnrollmentState) (t : Time) : Enrollment :=
  mkEnrollment (en_ProjectID e) (en_TenantID e) (en_GroupID e) (en_Member e) state (en_CreatedAt e) t.

Definition AddGroupMember (p : Principal) (groupID : string) (member : GroupMember) : St World unit :=
  do! ensureProjectActive svc p in
  let! g := repo (Memory.GetGroup (pr_ProjectID p) (pr_TenantID p) groupID) in
  do! requireGroupManager p g in
  let! tu := lift (groupMemberTuple groupID member) in
  let! r := attempt (repo (GetEnrollment (pr_ProjectID p) (pr_TenantID p) groupID member)) in
  match r with
  | Ok enr =>
      let! t := now_ in
      repo (SetEnrollmentAndTuples (enrollmentWith enr EnrollmentEnrolled t) [tu] [])
  | Err gerr =>
      if negb (isNotFound gerr) then fail gerr
      else repo (WriteTuples (pr_ProjectID p) (pr_TenantID p) [tu] [])
  end.

Definition RemoveGroupMember (p : Principal) (groupID : string) (member : GroupMember) : St World unit :=
  let! g := repo (Memory.GetGroup (pr_ProjectID p) (pr_TenantID p) groupID) in
  do! requireGroupManager p g in
  let! tu := lift (groupMemberTuple groupID member) in
  let! r := attempt (repo (GetEnrollment (pr_ProjectID p) (pr_TenantID p) groupID member)) in
  match r with
  | Ok enr =>
      let! t := now_ in
      repo (SetEnrollmentAndTuples (enrollmentWith enr EnrollmentDropped t) [] [tu])
  | Err gerr =>
      if negb (isNotFound gerr) then fail gerr
      else repo (WriteTuples (pr_ProjectID p) (pr_TenantID p) [] [tu])
  end.

Definition ListGroupMembers (p : Principal) (groupID : string) : St World (list GroupMember) :=
  do! repo (Memory.GetGroup (pr_ProjectID p) (pr_TenantID p) groupID) in
  let! subjects := repoAt (fun t s => (ListSubjects_ t s (pr_ProjectID p) (pr_TenantID p) "group" groupID "member", s)) in
  ret (omap groupMemberOf subjects).

Definition SetEnrollmentState (p : Principal) (groupID : string) (member : GroupMember) (state : EnrollmentState)
    : St World Enrollment :=
  do! ensureProjectActive svc p in
  do! guard (EnrollmentState_Valid state) ErrInvalidArgument in
  let! tu := lift (groupMemberTuple groupID member) in
  let! g := repo (Memory.GetGroup (pr_ProjectID p) (pr_TenantID p) groupID) in
  do! requireGroupManager p g in
  let! t := now_ in
  let! r := attempt (repo (GetEnrollment (pr_ProjectID p) (pr_TenantID p) groupID member)) in
  let! created :=
    match r with
    | Ok existing => ret (en_CreatedAt existing)
    | Err gerr => if negb (isNotFound gerr) then fail gerr else ret t
    end in
  let e := mkEnrollment (pr_ProjectID p) (pr_TenantID p) groupID member state created t in
  do! repo (SetEnrollmentAndTuples e (if GrantsAccess state then [tu] else [])
              (if GrantsAccess state then [] else [tu])) in
  ret e.

Definition ListEnrollments (p : Principal) (groupID : string) : St World (list Enrollment) :=
  let! g := repo (Memory.GetGroup (pr_ProjectID p) (pr_TenantID p) groupID) in
  do! requireGroupManager p g in
  repo (Memory.ListEnrollments (pr_ProjectID p) (pr_TenantID p) groupID).

(** ** Seats *)
Definition SetSeatLimit (p : Principal) (sku : string) (limit : option Z) : St World SeatLimit :=
  do! guard (negb (String.eqb sku "")) ErrInvalidArgument in
  do! guard (match limit with Some n => 0 <=? n | None => true end) ErrInvalidArgument in
  do! ensureProjectActive svc p in
  do! repo (Memory.SetSeatLimit (pr_ProjectID p) (pr_TenantID p) sku limit) in
  ret (mkSeatLimit sku (default 0 limit) (match limit with Some _ => true | None => false end)).

Definition SeatUsage (p : Principal) (sku : string) : St World SeatUsage_ :=
  do! guard (negb (String.eqb sku "")) ErrInvalidArgument in
  repo (GetSeatUsage (pr_ProjectID p) (pr_TenantID p) sku).

Definition AssignSeat (p : Principal) (sku userID : string) : St World bool :=
  do! guard (negb (String.eqb sku "" || String.eqb userID "")) ErrInvalidArgument in
  do! ensureProjectActive svc p in
  let! t := now_ in
  repo (AssignSeatAndTuple (mkSeatAssignment (pr_ProjectID p) (pr_TenantID p) sku userID t) (seatTuple sku userID)).

Definition RevokeSeat (p : Principal) (sku userID : string) : St World unit :=
  do! guard (negb (String.eqb sku "" || String.eqb userID "")) ErrInvalidArgument in
  do! ensureProjectActive svc p in
  repo (RevokeSeatAndTuple (pr_ProjectID p) (pr_TenantID p) sku userID (seatTuple sku userID)).

Definition ListSeats (p : Principal) (sku : string) : St World (list SeatAssignment) :=
  do! guard (negb (String.eqb sku "")) ErrInvalidArgument in
  repo (Memory.ListSeats (pr_ProjectID p) (pr_TenantID p) sku).
End Groups.
