(* ===== verification/ServiceProjects.v ===== *)
(** * Project configuration (internal/service/projects.go) *)

From stdpp Require Import base gmap strings list.
From Stdlib Require Import ZArith Lia Ascii.
From S2P Require Import Config.
From S2P Require Import Prelude Conditions Model ModelJson Types Text Engine Memory Service.
#[local] Open Scope Z_scope.

Definition ValidateMaxCheckReads (n : Z) : result unit :=
  if (0 <? n) && (n <? MinMaxCheckReads) then Err ErrInvalidArgument else Ok tt.

(** [len(m)] of a model that may be nil. *)
Definition modelEmpty (m : option Model) : bool :=
  match m with None => true | Some m => bool_decide (size m = 0%nat) end.

Section Projects.
Context `{Sources} `{MapRange} `{JsonCodec} (svc : ServiceConfig).

Definition validateModel (m : option Model) : result unit :=
  match m with
  | None => Ok tt
  | Some m =>
      if decide (size m = 0%nat) then Ok tt else
      match MarshalModel m with
      | Err _ => Err ErrInvalidArgument
      | Ok data =>
          match ParseModel data with
          | Err _ => Err ErrInvalidArgument
          | Ok _ =>
              match ValidateModelRefs m with
              | Err _ => Err ErrInvalidArgument
              | Ok _ => Ok tt
              end
          end
      end
  end.

Definition audit (r : AdminAuditRecord) : St World unit :=
  if s_auditLog svc then modify (add_adminAudit r) else ret tt.

Definition CreateProject (id name : string) (model : option Model) (dataRegion : string) (maxCheckReads : Z)
    : St World Project :=
  do! guard (negb (String.eqb id "")) ErrInvalidArgument in
  do! guard (negb (HasControlChar id)) ErrInvalidArgument in
  do! lift (validateModel model) in
  do! lift (ValidateRegion dataRegion) in
  do! lift (ValidateMaxCheckReads maxCheckReads) in
  let! t := now_ in
  let p := mkProject id name ProjectActive model dataRegion maxCheckReads t t in
  do! repo (Memory.CreateProject p) in
  do! invalidate id in
  do! audit (mkAdminAudit AdminActionCreateProject id (p_Status p) true (negb (modelEmpty model))
               (negb (String.eqb dataRegion "")) (0 <? maxCheckReads) t) in
  ret p.

Definition GetProject (id : string) : St World Project :=
  do! guard (negb (String.eqb id "")) ErrInvalidArgument in
  repo (Memory.GetProject id).

Definition ListProjects : St World (list Project) := repo Memory.ListProjects.

Definition UpdateProject (id name : string) (status : ProjectStatus) (model : option Model)
    (dataRegion : string) (clearRegion : bool) (maxCheckReads : Z) (clearBudget : bool) : St World Project :=
  do! guard (negb (String.eqb id "")) ErrInvalidArgument in
  do! guard (negb (HasControlChar id)) ErrInvalidArgument in
  do! guard (String.eqb status "" || String.eqb status ProjectActive || String.eqb status ProjectSuspended)
        ErrInvalidArgument in
  do! lift (validateModel model) in
  do! lift (ValidateRegion dataRegion) in
  do! guard (negb (clearRegion && negb (String.eqb dataRegion ""))) ErrInvalidArgument in
  do! lift (ValidateMaxCheckReads maxCheckReads) in
  do! guard (negb (clearBudget && (0 <? maxCheckReads))) ErrInvalidArgument in
  let! old := repo (Memory.GetProject id) in
  let! t := now_ in
  let p := mkProject (p_ID old)
    (if negb (String.eqb name "") then name else p_Name old)
    (if negb (String.eqb status "") then status else p_Status old)
    (if negb (modelEmpty model) then model else p_Model old)
    (if clearRegion then "" else if negb (String.eqb dataRegion "") then dataRegion else p_DataRegion old)
    (if clearBudget then 0 else if 0 <? maxCheckReads then maxCheckReads else p_MaxCheckReads old)
    (p_CreatedAt old) t in
  do! repo (Memory.UpdateProject p) in
  do! invalidate id in
  do! audit (mkAdminAudit AdminActionUpdateProject id (p_Status p)
               (negb (String.eqb status "") && negb (String.eqb status (p_Status old)))
               (negb (modelEmpty model))
               (negb (String.eqb (p_DataRegion p) (p_DataRegion old)))
               (negb (p_MaxCheckReads p =? p_MaxCheckReads old)) t) in
  ret p.

Definition EnsureDefaultProject (id : string) : St World unit :=
  if String.eqb id "" then ret tt else
  let! r := attempt (repo (Memory.GetProject id)) in
  match r with
  | Ok existing =>
      guard (negb (negb (String.eqb (s_dataRegion svc) "") && negb (String.eqb (p_DataRegion existing) "")
                   && negb (String.eqb (p_DataRegion existing) (s_dataRegion svc)))) ErrFailedPrecondition
  | Err err =>
      if negb (isNotFound err) then fail err else
      let! r := attempt (CreateProject id "Default" None "" 0) in
      match r with
      | Ok _ => ret tt
      | Err err => if isAlreadyExists err then ret tt else fail err
      end
  end.
End Projects.
