(* ===== verification/ServiceAuthz.v ===== *)
(** * The authorization API of the service
      (internal/service/authz.go, batchcheck.go, auditlog.go, decisionlog.go) *)

From stdpp Require Import base gmap strings list.
From Stdlib Require Import ZArith Lia Ascii.
From S2P Require Import Prelude Conditions Model ModelJson Types Text Engine Expand CheckSet Memory Token Service ServiceGroups.
#[local] Open Scope Z_scope.

Record TupleOp := mkTupleOp { op_Delete : bool; op_Tuple : Tuple }.

Record SubjectGrant := mkSubjectGrant {
  sg_TenantID : string;
  sg_Namespace : string;
  sg_ObjectID : string;
  sg_Relation : string;
  sg_ViaGroup : string;
}.

Record BatchCheckItem := mkBatchCheckItem {
  bc_Namespace : string;
  bc_ObjectID : string;
  bc_Relation : string;
  bc_SubjectUserID : string;
}.

Record BatchCheckResult := mkBatchCheckResult { br_Allowed : bool; br_Err : option error }.

(** [rguard ok e]: [if !ok { return e }]. *)
Definition rguard (ok : bool) (e : error) : result unit := if ok then Ok tt else Err e.

Section Validate.
Context `{TextParsers}.

(** The number of subject kinds that are set. *)
Definition subjectKinds (s : Subject) : Z :=
  (if String.eqb (UserID s) "" then 0 else 1)
  + (match Set_ s with Some _ => 1 | None => 0 end)
  + (if Wildcard s then 1 else 0).

Definition validateTuple (t : Tuple) : result unit :=
  let sub := t_Subject t in
  rbind (rguard (negb (String.eqb (t_Namespace t) "" || String.eqb (t_ObjectID t) "" || String.eqb (t_Relation t) ""))
           ErrInvalidArgument) (fun _ =>
  rbind (rguard (negb (String.eqb (t_Namespace t) seatNamespace)) ErrInvalidArgument) (fun _ =>
  rbind (rguard (negb (existsb HasControlChar [t_Namespace t; t_ObjectID t; t_Relation t; UserID sub]))
           ErrInvalidArgument) (fun _ =>
  rbind (rguard (match Set_ sub with
                 | Some st => negb (HasControlChar (ss_Namespace st) || HasControlChar (ss_ObjectID st)
                                    || HasControlChar (ss_Relation st))
                 | None => true
                 end) ErrInvalidArgument) (fun _ =>
  rbind (rguard (subjectKinds sub =? 1) ErrInvalidArgument) (fun _ =>
  rbind (rguard (match Set_ sub with
                 | Some st => negb (String.eqb (ss_Namespace st) "" || String.eqb (ss_ObjectID st) "")
                 | None => true
                 end) ErrInvalidArgument) (fun _ =>
  rguard (match Cond sub with
          | Some c => String.eqb (c_Name c) "" || KnownCondition (c_Name c)
          | None => true
          end) ErrInvalidArgument)))))).

(** The first loop of [WriteTuples]: the first invalid tuple is reported. *)
Fixpoint splitOps (ops : list TupleOp) : result (list Tuple * list Tuple) :=
  match ops with
  | [] => Ok ([], [])
  | op :: ops' =>
      rbind (validateTuple (op_Tuple op)) (fun _ =>
      rbind (splitOps ops') (fun '(inserts, deletes) =>
        Ok (if op_Delete op then (inserts, op_Tuple op :: deletes) else (op_Tuple op :: inserts, deletes))))
  end.

End Validate.

Definition grantOf (via : string) (ta : TupleAt) : SubjectGrant :=
  mkSubjectGrant (ta_TenantID ta) (t_Namespace (ta_Tuple ta)) (t_ObjectID (ta_Tuple ta))
    (t_Relation (ta_Tuple ta)) via.

(** [ta.Tuple.Subject.Set.ObjectID]; the query returns userset tuples only. *)
Definition viaOf (ta : TupleAt) : string :=
  match Set_ (t_Subject (ta_Tuple ta)) with Some ss => ss_ObjectID ss | None => "" end.

Definition groupSetsOf (direct : list TupleAt) : list SubjectSet :=
  omap (fun ta => if String.eqb (t_Namespace (ta_Tuple ta)) "group" && String.eqb (t_Relation (ta_Tuple ta)) "member"
                  then Some (mkSubjectSet "group" (t_ObjectID (ta_Tuple ta)) "member") else None) direct.

Section Authz.
Context `{Sources} `{MapRange} `{TextParsers} `{TokenJson} (svc : ServiceConfig).

Definition tupleChange (p : Principal) (t : Time) (op : TupleOpKind) (tu : Tuple) : TupleChangeRecord :=
  mkTupleChange op (pr_ProjectID p) (pr_TenantID p) (t_Namespace tu) (t_ObjectID tu) (t_Relation tu)
    (UserID (t_Subject tu)) (Set_ (t_Subject tu)) (Wildcard (t_Subject tu)) (pr_Caller p) t.

Definition auditTupleChanges (p : Principal) (inserts deletes : list Tuple) : St World unit :=
  if negb (s_auditLog svc) then ret tt else
  let! t := now_ in
  modify (add_tupleAudit ((tupleChange p t TupleOpInsert <$> inserts) ++ (tupleChange p t TupleOpDelete <$> deletes))).

Definition WriteTuples (p : Principal) (ops : list TupleOp) : St World string :=
  let! (inserts, deletes) := lift (splitOps ops) in
  do! ensureProjectActive svc p in
  do! (if is_nil inserts then ret tt else
       let! res := resolve (pr_ProjectID p) in
       guard (forallb (fun t => WritableRelation (modelOrDefault res) (t_Namespace t) (t_Relation t)) inserts)
         ErrInvalidArgument) in
  do! repo (Memory.WriteTuples (pr_ProjectID p) (pr_TenantID p) inserts deletes) in
  do! auditTupleChanges p inserts deletes in
  let! seq := repo (ConsistencyToken (pr_ProjectID p) (pr_TenantID p)) in
  ret (Encode (pr_ProjectID p) (pr_TenantID p) seq).

Definition EnsureConsistency (p : Principal) (token : string) : St World unit :=
  if String.eqb token "" then ret tt else
  match Decode token with
  | Err _ => fail ErrInvalidArgument
  | Ok tok =>
      do! guard (String.eqb (tok_Project tok) (pr_ProjectID p) && String.eqb (tok_Tenant tok) (pr_TenantID p))
            ErrInvalidArgument in
      let! current := repo (ConsistencyToken (pr_ProjectID p) (pr_TenantID p)) in
      guard (negb (current <? tok_Seq tok)) ErrFailedPrecondition
  end.

Definition ReadTuples (p : Principal) (f : TupleFilter) : St World (list Tuple) :=
  do! ensureRegion svc p in
  repoAt (fun t => Memory.ReadTuples t (pr_ProjectID p) (pr_TenantID p) f).

(** The deferred record of a decision: emitted after the result is known,
    whatever it is, when a logger is configured. *)
Definition logged (rec : bool -> option error -> Time -> DecisionRecord) (c : St World bool) : St World bool :=
  if negb (s_decisionLog svc) then c else
  let! r := attempt c in
  let! t := now_ in
  do! modify (add_decision (match r with
                            | Ok allowed => rec allowed None t
                            | Err err => rec false (Some err) t
                            end)) in
  lift r.

(** The part [Check] and [CheckSet] share: a suspended project denies. *)
Definition decide_ (p : Principal) (f : Engine -> Model -> Z -> result bool) : St World bool :=
  let! res := resolve (pr_ProjectID p) in
  do! regionServable svc res in
  if r_suspended res then ret false else
  evalWith svc (modelOrDefault res) (fun e => f e (modelOrDefault res) (r_maxCheckReads res)).

Definition Check (p : Principal) (namespace objectID relation subjectUserID : string) (reqContext : anymap)
    : St World bool :=
  do! guard (negb (String.eqb namespace "" || String.eqb objectID "" || String.eqb relation ""
                   || String.eqb subjectUserID "")) ErrInvalidArgument in
  logged (fun allowed err t =>
      mkDecision (pr_ProjectID p) (pr_TenantID p) namespace objectID relation subjectUserID None allowed err
        (pr_Caller p) t)
    (decide_ p (fun e m maxReads =>
      (CheckWithModel e m (pr_ProjectID p) (pr_TenantID p) namespace objectID relation subjectUserID
         reqContext maxReads None).1)).

Definition CheckSet (p : Principal) (namespace objectID relation : string) (set : SubjectSet) (reqContext : anymap)
    : St World bool :=
  do! guard (negb (String.eqb namespace "" || String.eqb objectID "" || String.eqb relation "")) ErrInvalidArgument in
  do! guard (negb (String.eqb (ss_Namespace set) "" || String.eqb (ss_ObjectID set) ""
                   || String.eqb (ss_Relation set) "")) ErrInvalidArgument in
  logged (fun allowed err t =>
      mkDecision (pr_ProjectID p) (pr_TenantID p) namespace objectID relation "" (Some set) allowed err
        (pr_Caller p) t)
    (decide_ p (fun e m maxReads =>
      (CheckSetWithModel e m (pr_ProjectID p) (pr_TenantID p) namespace objectID relation set
         reqContext maxReads None).1)).

(** A query that a suspended project refuses and whose size error is reported
    as exhaustion of resources. *)
Definition query {A} (p : Principal) (tooLarge : error) (f : Engine -> Model -> Z -> result A) : St World A :=
  let! res := resolve (pr_ProjectID p) in
  do! regionServable svc res in
  do! guard (negb (r_suspended res)) ErrFailedPrecondition in
  evalWith svc (modelOrDefault res) (fun e =>
    match f e (modelOrDefault res) (r_maxCheckReads res) with
    | Err err => if errors_Is err tooLarge then Err ErrResourceExhausted else Err err
    | Ok a => Ok a
    end).

Definition Expand (p : Principal) (namespace objectID relation : string) : St World Tree :=
  do! guard (negb (String.eqb namespace "" || String.eqb objectID "" || String.eqb relation "")) ErrInvalidArgument in
  query p ErrExpandTooLarge (fun e m maxReads =>
    (ExpandWithModel e m (pr_ProjectID p) (pr_TenantID p) namespace objectID relation
       (s_maxExpandNodes svc) maxReads None).1).

Definition ListObjects (p : Principal) (namespace relation subjectUserID : string) : St World (list string) :=
  do! guard (negb (String.eqb namespace "" || String.eqb relation "" || String.eqb subjectUserID "")) ErrInvalidArgument in
  query p ErrTooManyObjects (fun e m maxReads =>
    (ListObjectsWithModel e m (pr_ProjectID p) (pr_TenantID p) namespace relation subjectUserID
       (s_maxListObjects svc) maxReads None).1).

Definition DeprovisionUser (p : Principal) (userID : string) : St World Z :=
  do! guard (negb (String.eqb userID "")) ErrInvalidArgument in
  do! ensureRegion svc p in
  repo (DeleteAllSubjectTuplesInProject (pr_ProjectID p) userID).

Definition ExportSubjectGrants (p : Principal) (userID : string) : St World (list SubjectGrant) :=
  do! guard (negb (String.eqb userID "")) ErrInvalidArgument in
  do! ensureRegion svc p in
  let! direct := repoAt (fun t => ListSubjectTuplesInProject t (pr_ProjectID p) userID) in
  let out := grantOf "" <$> direct in
  let groupSets := groupSetsOf direct in
  if is_nil groupSets then ret out else
  let! viaGroup := repoAt (fun t => ListTuplesForSubjectSetsInProject t (pr_ProjectID p) groupSets) in
  ret (out ++ ((fun ta => grantOf (viaOf ta) ta) <$> viaGroup)).

(** One step of the loop of [BatchCheck]. *)
Definition batchItem (p : Principal) (it : BatchCheckItem) : St World BatchCheckResult :=
  let! r := attempt (Check p (bc_Namespace it) (bc_ObjectID it) (bc_Relation it) (bc_SubjectUserID it) ∅) in
  match r with
  | Ok allowed => ret (mkBatchCheckResult allowed None)
  | Err err =>
      if errors_Is err ErrInvalidArgument || errors_Is err ErrResourceExhausted
      then ret (mkBatchCheckResult false (Some err))
      else fail err
  end.

(** [ctxErr i] is what [ctx.Err()] returns before the i-th item. *)
Fixpoint batchLoop (ctxErr : nat -> option error) (p : Principal) (i : nat) (items : list BatchCheckItem)
    : St World (list BatchCheckResult) :=
  match items with
  | [] => ret []
  | it :: items' =>
      match ctxErr i with
      | Some err => fail err
      | None =>
          let! r := batchItem p it in
          let! rs := batchLoop ctxErr p (S i) items' in
          ret (r :: rs)
      end
  end.

Definition BatchCheck (ctxErr : nat -> option error) (p : Principal) (items : list BatchCheckItem)
    : St World (list BatchCheckResult) := batchLoop ctxErr p 0 items.
End Authz.
