(* ===== verification/AsyncLog.v ===== *)
(** * The asynchronous loggers (internal/auditlog, internal/decisionlog)

    Both loggers are the same machine around a bounded channel: writers put a
    record in or give up at once, one goroutine takes records out and prints them,
    and Close stops the goroutine.  The machine is an event system: an event is one
    atomic step of a writer, of the goroutine or of Close, and [pick] is the choice
    a [select] makes when two of its cases are ready.  A sequence of events is an
    interleaving. *)

From stdpp Require Import base gmap strings list.
From Stdlib Require Import ZArith Lia.
From S2P Require Import Prelude Conditions Model ModelJson Types Text Engine Memory Token Service.
#[local] Open Scope Z_scope.

Definition DefaultBufferSize : Z := 4096.

(** Where the goroutine is: in its loop, in the loop that empties the channel, or
    gone ([done] is closed). *)
Inductive phase := Running | Draining | Returned.

#[global] Instance phase_eq_dec : EqDecision phase.
Proof. solve_decision. Defined.

(** How a writer's [select] ended. *)
Inductive outcome := Sent | QuitSeen | Dropped.

#[global] Instance outcome_eq_dec : EqDecision outcome.
Proof. solve_decision. Defined.

Section Queue.
Context {E : Type}.

(** [z_out] is what [emit] printed; [z_warned] the count Close reported. *)
Record ZapLogger := mkZapLogger {
  z_cap : nat;
  z_ch : list E;
  z_quit : bool;
  z_phase : phase;
  z_dropped : Z;
  z_out : list E;
  z_warned : option Z;
}.

Definition NewZap (bufSize : Z) : ZapLogger :=
  mkZapLogger (Z.to_nat (if bufSize <=? 0 then DefaultBufferSize else bufSize)) [] false Running 0 [] None.

Definition set_ch ch z := mkZapLogger (z_cap z) ch (z_quit z) (z_phase z) (z_dropped z) (z_out z) (z_warned z).
Definition set_phase ph z := mkZapLogger (z_cap z) (z_ch z) (z_quit z) ph (z_dropped z) (z_out z) (z_warned z).
Definition set_quit z := mkZapLogger (z_cap z) (z_ch z) true (z_phase z) (z_dropped z) (z_out z) (z_warned z).
Definition add_dropped z := mkZapLogger (z_cap z) (z_ch z) (z_quit z) (z_phase z) (z_dropped z + 1) (z_out z) (z_warned z).
Definition emitTo e z := mkZapLogger (z_cap z) (z_ch z) (z_quit z) (z_phase z) (z_dropped z) (z_out z ++ [e]) (z_warned z).
Definition set_warned n z := mkZapLogger (z_cap z) (z_ch z) (z_quit z) (z_phase z) (z_dropped z) (z_out z) n.

(** [select { case ch <- e: ; case <-quit: ; default: dropped.Add(1) }] *)
Definition enqueue (pick : bool) (e : E) (z : ZapLogger) : outcome * ZapLogger :=
  if (length (z_ch z) <? z_cap z)%nat && (negb (z_quit z) || pick) then (Sent, set_ch (z_ch z ++ [e]) z)
  else if z_quit z then (QuitSeen, z)
  else (Dropped, add_dropped z).

(** One step of the goroutine; [None] when it waits or is gone. *)
Definition runStep (pick : bool) (z : ZapLogger) : option ZapLogger :=
  match z_phase z, z_ch z with
  | Running, e :: ch =>
      if negb (z_quit z) || pick then Some (emitTo e (set_ch ch z)) else Some (set_phase Draining z)
  | Running, [] => if z_quit z then Some (set_phase Draining z) else None
  | Draining, e :: ch => Some (emitTo e (set_ch ch z))
  | Draining, [] => Some (set_phase Returned z)
  | Returned, _ => None
  end.

(** The two steps of Close: closing [quit], and, when [done] is closed, the report. *)
Definition closeQuit (z : ZapLogger) : ZapLogger := set_quit z.
Definition closeReport (z : ZapLogger) : ZapLogger :=
  match z_phase z with
  | Returned => if z_quit z then set_warned (if 0 <? z_dropped z then Some (z_dropped z) else None) z else z
  | _ => z
  end.

(** ** Interleavings *)
Inductive logEvent := EvEnqueue (pick : bool) (e : E) | EvRun (pick : bool) | EvCloseQuit | EvCloseReport.

(** An event and, for a writer, what became of its record. *)
Definition logStep (ev : logEvent) (z : ZapLogger) : option (E * outcome) * ZapLogger :=
  match ev with
  | EvEnqueue pick e => let '(o, z') := enqueue pick e z in (Some (e, o), z')
  | EvRun pick => (None, default z (runStep pick z))
  | EvCloseQuit => (None, closeQuit z)
  | EvCloseReport => (None, closeReport z)
  end.

Fixpoint logRun (evs : list logEvent) (z : ZapLogger) : list (E * outcome) * ZapLogger :=
  match evs with
  | [] => ([], z)
  | ev :: evs' =>
      let '(h, z1) := logStep ev z in
      let '(hs, z2) := logRun evs' z1 in (option_list h ++ hs, z2)
  end.

(** The goroutine alone. *)
Fixpoint runAlone (n : nat) (picks : nat -> bool) (z : ZapLogger) : ZapLogger :=
  match n with
  | O => z
  | S n' => runAlone n' picks (default z (runStep (picks n') z))
  end.

(** The records of a history with a given fate, in the order they were offered. *)
Definition withFate (o : outcome) (hist : list (E * outcome)) : list E := (filter (fun x => x.2 = o) hist).*1.

(** ** Accounting *)
Record accounted (hist : list (E * outcome)) (z : ZapLogger) : Prop := mkAccounted {
  ac_sent : withFate Sent hist = z_out z ++ z_ch z;
  ac_dropped : z_dropped z = Z.of_nat (length (withFate Dropped hist));
  ac_bounded : (length (z_ch z) <= z_cap z)%nat;
  ac_quit : withFate QuitSeen hist <> [] -> z_quit z = true;
  ac_phase : z_phase z <> Running -> z_quit z = true;
}.

Lemma withFate_app o h h' : withFate o (h ++ h') = withFate o h ++ withFate o h'.
Proof. unfold withFate. by rewrite list.filter_app, fmap_app. Qed.

Lemma withFate_one o e o' : withFate o [(e, o')] = if decide (o' = o) then [e] else [].
Proof. unfold withFate. rewrite filter_cons, filter_nil. simpl. by destruct (decide (o' = o)). Qed.

Lemma accounted_enqueue hist pick e z :
  accounted hist z -> accounted (hist ++ [(e, (enqueue pick e z).1)]) (enqueue pick e z).2.
Proof.
  intros [Hs Hd Hb Hq Hp]. unfold enqueue. destruct (Nat.ltb_spec (length (z_ch z)) (z_cap z)) as [Hlt|Hge]; simpl.
  2: destruct (z_quit z) eqn:Ez; simpl.
  1: destruct (negb (z_quit z) || pick) eqn:Eq; [|destruct (z_quit z) eqn:Ez; [|done]]; simpl.
  all: split; rewrite ?withFate_app, ?withFate_one, ?app_nil_r; simpl; rewrite ?app_nil_r, ?length_app; simpl; auto.
  - rewrite Hs. by rewrite <-app_assoc.
  - lia.
  - lia.
  - by rewrite Ez.
  - by rewrite Ez.
Qed.

Lemma accounted_run hist pick z z' : accounted hist z -> runStep pick z = Some z' -> accounted hist z'.
Proof.
  intros [Hs Hd Hb Hq Hp]. unfold runStep. destruct (z_phase z) eqn:Eph, (z_ch z) as [|e ch] eqn:Ech; try done.
  - destruct (z_quit z) eqn:Ez; [|done]. intros [= <-]. split; simpl; rewrite ?Ech; auto.
  - destruct (negb (z_quit z) || pick) eqn:Eq; intros [= <-]; split; simpl; rewrite ?Ech; auto.
    + by rewrite Hs, <-app_assoc.
    + simpl in Hb. lia.
    + destruct (z_quit z); [done|]. by destruct pick.
  - intros [= <-]. split; simpl; rewrite ?Ech; auto.
  - intros [= <-]. split; simpl; rewrite ?Ech; auto; [by rewrite Hs, <-app_assoc|simpl in Hb; lia].
Qed.

Lemma accounted_step hist ev z :
  accounted hist z -> accounted (hist ++ option_list (logStep ev z).1) (logStep ev z).2.
Proof.
  intros Ha. destruct ev as [pick e|pick| |]; simpl.
  - pose proof (accounted_enqueue hist pick e z Ha) as H1. by destruct (enqueue pick e z).
  - rewrite app_nil_r. destruct (runStep pick z) as [z1|] eqn:Er; [by eapply accounted_run|done].
  - rewrite app_nil_r. destruct Ha. by split.
  - rewrite app_nil_r. unfold closeReport.
    assert (Hw : forall n, accounted hist (set_warned n z)) by (intros n; destruct Ha; by split).
    destruct (z_phase z); [done..|]. by destruct (z_quit z).
Qed.

Lemma logRun_accounted evs hist z : accounted hist z -> accounted (hist ++ (logRun evs z).1) (logRun evs z).2.
Proof.
  revert hist z. induction evs as [|ev evs IH]; intros hist z Ha; simpl; [by rewrite app_nil_r|].
  apply (accounted_step hist ev) in Ha. destruct (logStep ev z) as [h z1]. apply IH in Ha. simpl in Ha.
  destruct (logRun evs z1) as [hs z2]. simpl in *. by rewrite app_assoc.
Qed.

Lemma accounted_new bufSize : accounted [] (NewZap bufSize).
Proof. split; simpl; try done. lia. Qed.

(** ** The goroutine comes to its end *)
Definition runMeasure (z : ZapLogger) : nat :=
  (length (z_ch z) + match z_phase z with Running => 2 | Draining => 1 | Returned => 0 end)%nat.

Lemma runStep_decreases pick z z' : runStep pick z = Some z' -> (runMeasure z' < runMeasure z)%nat.
Proof.
  unfold runStep, runMeasure. destruct (z_phase z) eqn:Eph, (z_ch z) as [|e ch] eqn:Ech; try done.
  - destruct (z_quit z); [|done]. intros [= <-]. simpl. rewrite Ech. simpl. lia.
  - destruct (_ || _); intros [= <-]; simpl; rewrite ?Eph, ?Ech; simpl; lia.
  - intros [= <-]. simpl. rewrite Ech. simpl. lia.
  - intros [= <-]. simpl. rewrite Eph. lia.
Qed.

Lemma runStep_progress pick z : z_quit z = true -> z_phase z <> Returned -> is_Some (runStep pick z).
Proof.
  intros Hq Hp. unfold runStep. rewrite Hq. destruct (z_phase z), (z_ch z); try done; simpl; try (destruct pick); by eexists.
Qed.

(** A step keeps the records: what is printed and what waits, in order. *)
Lemma runStep_keeps pick z z' :
  runStep pick z = Some z' ->
  z_out z' ++ z_ch z' = z_out z ++ z_ch z /\ z_quit z' = z_quit z /\ z_dropped z' = z_dropped z /\
  (z_phase z' = Returned -> z_ch z' = []).
Proof.
  unfold runStep. destruct (z_phase z) eqn:Eph, (z_ch z) as [|e ch] eqn:Ech; try done.
  - destruct (z_quit z) eqn:Ez; [|done]. intros [= <-]. simpl. by rewrite Ech, Ez.
  - destruct (_ || _); intros [= <-]; simpl; rewrite ?Ech, ?Eph, <-?app_assoc; done.
  - intros [= <-]. simpl. by rewrite Ech.
  - intros [= <-]. simpl. by rewrite Eph, <-app_assoc.
Qed.

Lemma runAlone_drains n picks z :
  z_quit z = true -> (runMeasure z <= n)%nat -> (z_phase z = Returned -> z_ch z = []) ->
  let z' := runAlone n picks z in
  z_phase z' = Returned /\ z_ch z' = [] /\ z_out z' = z_out z ++ z_ch z /\ z_dropped z' = z_dropped z.
Proof.
  revert z. induction n as [|n IH]; intros z Hq Hn Hret; simpl.
  { unfold runMeasure in Hn. destruct (z_phase z); [lia..|]. by rewrite Hret, app_nil_r. }
  destruct (runStep (picks n) z) as [z1|] eqn:Er; simpl.
  - pose proof (runStep_decreases _ _ _ Er). destruct (runStep_keeps _ _ _ Er) as (Ho & Hq1 & Hd & Hr).
    destruct (IH z1) as (? & ? & Ho1 & ?); [congruence|lia|done|].
    split_and!; [done|done|by rewrite Ho1, Ho|congruence].
  - destruct (decide (z_phase z = Returned)) as [Hp|Hp].
    + apply IH; [done| |done]. unfold runMeasure. rewrite Hp, Hret by done. simpl. lia.
    + destruct (runStep_progress (picks n) z Hq) as [? ?]; [done|]. congruence.
Qed.

(** Once the goroutine is gone nothing is printed any more. *)
Lemma returned_silent evs z : z_phase z = Returned -> z_out (logRun evs z).2 = z_out z.
Proof.
  revert z. induction evs as [|ev evs IH]; intros z Hp; simpl; [done|].
  assert (Hs : z_phase (logStep ev z).2 = Returned /\ z_out (logStep ev z).2 = z_out z).
  { destruct ev as [pick e|pick| |]; simpl.
    - unfold enqueue. repeat case_match; by simplify_eq/=.
    - unfold runStep. by rewrite Hp.
    - done.
    - unfold closeReport. rewrite Hp. by destruct (z_quit z). }
  destruct (logStep ev z) as [h z1]. simpl in Hs. destruct Hs as [Hp1 <-]. specialize (IH z1 Hp1).
  by destruct (logRun evs z1).
Qed.
End Queue.
Arguments ZapLogger : clear implicits.
Arguments logEvent : clear implicits.

(** ** Log lines *)
Inductive zapField := ZString (key value : string) | ZBool (key : string) (value : bool) | ZTime (key : string) (value : Time).

Record logLine := mkLogLine { ll_Message : string; ll_Fields : list zapField }.

Definition setText (s : SubjectSet) : string :=
  String.append (ss_Namespace s) (String.append ":" (String.append (ss_ObjectID s) (String.append "#" (ss_Relation s)))).

Module AuditLog.
(** The audit logger (auditlog/zaplogger.go). *)
Inductive event := tuple (r : TupleChangeRecord) | admin (r : AdminAuditRecord).

Definition opText (op : TupleOpKind) : string := match op with TupleOpInsert => "insert" | TupleOpDelete => "delete" end.
Definition actionText (a : AdminAction) : string :=
  match a with AdminActionCreateProject => "create_project" | AdminActionUpdateProject => "update_project" end.

Definition emit (e : event) : logLine :=
  match e with
  | tuple r =>
      mkLogLine "authz_tuple_change"
        ([ZString "op" (opText (tc_Op r)); ZString "project" (tc_ProjectID r); ZString "tenant" (tc_TenantID r);
          ZString "namespace" (tc_Namespace r); ZString "object" (tc_ObjectID r); ZString "relation" (tc_Relation r);
          ZTime "at" (tc_At r)]
         ++ [ZString "subject" (if tc_Wildcard r then "*"
                                else match tc_SubjectSet r with
                                     | Some s => setText s
                                     | None => tc_SubjectUserID r
                                     end)]
         ++ (if String.eqb (tc_Caller r) "" then [] else [ZString "caller" (tc_Caller r)]))
  | admin r =>
      mkLogLine "authz_admin_mutation"
        [ZString "action" (actionText (aa_Action r)); ZString "project" (aa_ProjectID r);
         ZString "new_status" (aa_NewStatus r); ZBool "status_changed" (aa_StatusChanged r);
         ZBool "model_changed" (aa_ModelChanged r); ZBool "region_changed" (aa_RegionChanged r);
         ZBool "budget_changed" (aa_BudgetChanged r); ZTime "at" (aa_At r)]
  end.

Definition LogTupleChange (pick : bool) (rec : TupleChangeRecord) : ZapLogger event -> outcome * ZapLogger event :=
  enqueue pick (tuple rec).
Definition LogAdminMutation (pick : bool) (rec : AdminAuditRecord) : ZapLogger event -> outcome * ZapLogger event :=
  enqueue pick (admin rec).

(** The lines on the output. *)
Definition lines (z : ZapLogger event) : list logLine := emit <$> z_out z.
End AuditLog.

Module DecisionLog.
(** The decision logger (decisionlog/zaplogger.go); [errText] is [err.Error()]. *)
Section Emit.
Context (errText : error -> string).

Definition emit (rec : DecisionRecord) : logLine :=
  let err := match d_Err rec with Some e => errText e | None => "" end in
  mkLogLine "authz_decision"
    ([ZString "project" (d_ProjectID rec); ZString "tenant" (d_TenantID rec); ZString "namespace" (d_Namespace rec);
      ZString "object" (d_ObjectID rec); ZString "relation" (d_Relation rec); ZBool "allowed" (d_Allowed rec);
      ZTime "decided_at" (d_DecidedAt rec)]
     ++ (if String.eqb (d_SubjectUserID rec) "" then [] else [ZString "subject_user" (d_SubjectUserID rec)])
     ++ (match d_SubjectSet rec with Some s => [ZString "subject_set" (setText s)] | None => [] end)
     ++ (if String.eqb (d_Caller rec) "" then [] else [ZString "caller" (d_Caller rec)])
     ++ (if String.eqb err "" then [] else [ZString "error" err])).

Definition lines (z : ZapLogger DecisionRecord) : list logLine := emit <$> z_out z.
End Emit.

(** The logger's own code is that of the audit logger, for decision records. *)
Definition Log (pick : bool) (rec : DecisionRecord) : ZapLogger DecisionRecord -> outcome * ZapLogger DecisionRecord :=
  enqueue pick rec.
Definition NewZap (bufSize : Z) : ZapLogger DecisionRecord := NewZap bufSize.
Definition run (pick : bool) : ZapLogger DecisionRecord -> option (ZapLogger DecisionRecord) := runStep pick.
Definition close : ZapLogger DecisionRecord -> ZapLogger DecisionRecord := closeQuit.
Definition report : ZapLogger DecisionRecord -> ZapLogger DecisionRecord := closeReport.
End DecisionLog.

(** ** Claims *)

(** C24.  The loggers account for every record: in any interleaving of writers,
    goroutine and Close, the records that got into the channel are, in the order
    they were offered, those printed followed by those still waiting; the drop
    counter is the number of records refused for a full channel; the channel stays
    within its size, and only a closing logger turns a record away silently. *)
Theorem log_accounts_for_records {E} bufSize (evs : list (logEvent E)) :
  let '(hist, z) := logRun evs (NewZap bufSize) in
  withFate Sent hist = z_out z ++ z_ch z /\
  z_dropped z = Z.of_nat (length (withFate Dropped hist)) /\
  (length (z_ch z) <= z_cap z)%nat /\
  (withFate QuitSeen hist <> [] -> z_quit z = true).
Proof.
  pose proof (logRun_accounted evs [] _ (accounted_new bufSize)) as Ha. simpl in Ha.
  destruct (logRun evs (NewZap bufSize)) as [hist z]. by destruct Ha.
Qed.

(** C39.  What got into the channel while the goroutine was there is printed.  In
    any interleaving of writers, goroutine and Close, at the step with which the
    goroutine leaves the channel is empty and everything that ever got into it is
    printed, in order.  And once [quit] is closed the goroutine does leave, as long
    as it has not and no writer puts in more records: running on its own, whatever
    its [select] picks, it needs two steps more than there are records waiting.  A
    record that gets into the channel after the goroutine left is not printed
    ([log_late_record_lost]). *)
Theorem log_close_drains {E} bufSize (evs : list (logEvent E)) :
  let '(hist, z) := logRun evs (NewZap bufSize) in
  z_phase z <> Returned ->
  (forall pick, let z' := (logStep (EvRun pick) z).2 in
     z_phase z' = Returned -> z_ch z' = [] /\ z_out z' = withFate Sent hist) /\
  (z_quit z = true -> forall picks n, (length (z_ch z) + 2 <= n)%nat ->
     let z' := runAlone n picks z in
     z_phase z' = Returned /\ z_ch z' = [] /\ z_out z' = withFate Sent hist /\ z_dropped z' = z_dropped z).
Proof.
  pose proof (logRun_accounted evs [] _ (accounted_new bufSize)) as Ha. simpl in Ha.
  destruct (logRun evs (NewZap bufSize)) as [hist z]. simpl in Ha. intros Hp. rewrite (ac_sent _ _ Ha). split.
  - intros pick. simpl. destruct (runStep pick z) as [z1|] eqn:Er; simpl; [|done]. intros Hr.
    destruct (runStep_keeps _ _ _ Er) as (Ho & _ & _ & Hch). rewrite (Hch Hr), app_nil_r in Ho. auto.
  - intros Hq picks n Hn. apply runAlone_drains; [done| |done]. unfold runMeasure. destruct (z_phase z); lia.
Qed.

Definition closingRun : list (logEvent nat) :=
  [EvEnqueue true 1%nat; EvEnqueue true 2%nat; EvRun true; EvEnqueue true 3%nat; EvCloseQuit].

Lemma log_close_drains_witness :
  let z := (logRun closingRun (NewZap 2)).2 in
  z_phase (runAlone 4 (fun _ => false) z) = Returned /\ z_ch (runAlone 4 (fun _ => false) z) = [] /\
  z_out (runAlone 4 (fun _ => false) z) = [1; 2; 3]%nat /\ z_dropped (runAlone 4 (fun _ => false) z) = 0.
Proof.
  apply (log_close_drains 2 closingRun); [vm_compute; discriminate|reflexivity|vm_compute; lia].
Defined.

(** A record offered after the goroutine has left can still be taken by the
    channel, is never printed and is not counted as dropped. *)
Theorem log_late_record_lost :
  let late := [EvCloseQuit; EvRun true; EvRun true; EvCloseReport; EvEnqueue true 7%nat] in
  let '(hist, z) := logRun late (NewZap 2) in
  withFate Sent hist = [7%nat] /\ z_dropped z = 0 /\ (forall evs, 7%nat ∉ z_out (logRun evs z).2).
Proof.
  simpl. split; [done|]. split; [done|]. intros evs. rewrite returned_silent by done. apply not_elem_of_nil.
Qed.

(** A record offered to a closing logger is turned away without being counted. *)
Theorem log_closing_record_uncounted :
  let '(hist, z) := logRun [EvCloseQuit; EvEnqueue false 7%nat] (NewZap 2) in
  withFate QuitSeen hist = [7%nat] /\ z_dropped z = 0.
Proof. done. Qed.
