(* ===== verification/Handler.v ===== *)
(** * The RPC handlers: state, guards and error codes
      (internal/connect/handler.go, admin.go, metrics.go, ratelimit.go)

    A handler runs against the service's world, the two rate limiters and the
    metrics; its errors are [ErrConnect].  The fields of a request message are
    arguments of its handler.  The histogram of durations counts observations;
    the backstop counters are fed outside the handlers ([Backstops]). *)

From stdpp Require Import base gmap strings list.
From Stdlib Require Import ZArith Lia Ascii.
From S2P Require Import Config.
From S2P Require Import Prelude Conditions Model ModelJson Types Text Engine Memory RateLimit Middleware Wire.
From S2P Require Import Service.
#[local] Open Scope Z_scope.

(** ** Metrics *)
Record Metrics := mkMetrics {
  m_decisions : gmap (string * string * bool) Z;
  m_duration : gmap string Z;
  m_errors : gmap string Z;
  m_batchItems : list Z;
  m_regionRefused : Z;
}.

Definition newMetrics : Metrics := mkMetrics ∅ ∅ ∅ [] 0.

Definition Inc {K} `{Countable K} (k : K) (m : gmap K Z) : gmap K Z := <[k := default 0 (m !! k) + 1]> m.

Definition recordDecision (namespace relation : string) (allowed : bool) (m : Metrics) : Metrics :=
  mkMetrics (Inc (namespace, relation, allowed) (m_decisions m)) (m_duration m) (m_errors m) (m_batchItems m) (m_regionRefused m).
Definition observe (rpc : string) (m : Metrics) : Metrics :=
  mkMetrics (m_decisions m) (Inc rpc (m_duration m)) (m_errors m) (m_batchItems m) (m_regionRefused m).
Definition recordError (rpc : string) (m : Metrics) : Metrics :=
  mkMetrics (m_decisions m) (m_duration m) (Inc rpc (m_errors m)) (m_batchItems m) (m_regionRefused m).
Definition observeBatchItems (n : Z) (m : Metrics) : Metrics :=
  mkMetrics (m_decisions m) (m_duration m) (m_errors m) (m_batchItems m ++ [n]) (m_regionRefused m).
Definition recordRegionRefused (m : Metrics) : Metrics :=
  mkMetrics (m_decisions m) (m_duration m) (m_errors m) (m_batchItems m) (m_regionRefused m + 1).

(** ** State and configuration of the handler

    [h_ticks] counts the readings of the limiters' clock. *)
Record HState := mkHState {
  h_world : World;
  h_adminLimiter : option rateLimiter;
  h_tenantLimiter : option rateLimiter;
  h_metrics : Metrics;
  h_ticks : nat;
}.

Record Handler := mkHandler {
  h_svc : ServiceConfig;
  h_defaultProjectID : string;
  h_defaultTenantID : string;
  h_adminSecret : string;
  h_maxBatchCheckItems : Z;
}.

Definition NewHandler (svc : ServiceConfig) (w : World) (defaultProjectID defaultTenantID adminSecret : string)
    (maxBatchCheckItems adminRateLimitPerMinute tenantRateLimitPerMinute : Z) : Handler * HState :=
  (mkHandler svc (if String.eqb defaultProjectID "" then "default" else defaultProjectID) defaultTenantID adminSecret
     (if maxBatchCheckItems <=? 0 then DefaultMaxBatchCheckItems else maxBatchCheckItems),
   mkHState w (newRateLimiter adminRateLimitPerMinute) (newRateLimiter tenantRateLimitPerMinute) newMetrics 0).

Definition set_world w s := mkHState w (h_adminLimiter s) (h_tenantLimiter s) (h_metrics s) (h_ticks s).
Definition set_metrics f s := mkHState (h_world s) (h_adminLimiter s) (h_tenantLimiter s) (f (h_metrics s)) (h_ticks s).

(** ** Errors *)
Definition errToConnect (err : error) : error :=
  if errors_Is err ErrNotFound then ErrConnect CodeNotFound err
  else if errors_Is err ErrAlreadyExists then ErrConnect CodeAlreadyExists err
  else if errors_Is err ErrInvalidArgument then ErrConnect CodeInvalidArgument err
  else if errors_Is err ErrPermissionDenied then ErrConnect CodePermissionDenied err
  else if errors_Is err ErrFailedPrecondition then ErrConnect CodeFailedPrecondition err
  else if errors_Is err ErrResourceExhausted then ErrConnect CodeResourceExhausted err
  else ErrConnect CodeInternal err.

(** A call of the service, with its own error. *)
Definition raw {A} (c : St World A) : St HState A := fun s =>
  let '(r, w) := c (h_world s) in (r, set_world w s).

(** [x, err := h.svc.F(...); if err != nil { return nil, errToConnect(err) }] *)
Definition call {A} (c : St World A) : St HState A :=
  let! r := attempt (raw c) in
  match r with Ok a => ret a | Err err => fail (errToConnect err) end.

(** The same with [h.metrics.recordError(rpc)] on the error path. *)
Definition counted {A} (rpc : string) (c : St World A) : St HState A :=
  let! r := attempt (raw c) in
  match r with
  | Ok a => ret a
  | Err err => do! modify (set_metrics (recordError rpc)) in fail (errToConnect err)
  end.

(** [defer func() { h.metrics.observe(rpc, start) }()] *)
Definition observed {A} (rpc : string) (c : St HState A) : St HState A := fun s =>
  let '(r, s') := c s in (r, set_metrics (observe rpc) s').

(** ** Caller keys *)
Fixpoint indexByte (c : ascii) (s : string) : option nat :=
  match s with
  | EmptyString => None
  | String d s' => if Ascii.eqb c d then Some 0%nat else S <$> indexByte c s'
  end.

Definition lastIndexByte (c : ascii) (s : string) : option nat :=
  match indexByte c (rev_string s) with Some i => Some (String.length s - 1 - i)%nat | None => None end.

Definition take_string (n : nat) (s : string) : string := String.substring 0 n s.
Definition drop_string (n : nat) (s : string) : string := String.substring n (String.length s - n) s.

(** The host of [net.SplitHostPort]; [None] for its errors. *)
Definition splitHost (hostport : string) : option string :=
  match lastIndexByte ":" hostport with
  | None => None
  | Some i =>
      let checked j k host :=
        match indexByte "[" (drop_string j hostport), indexByte "]" (drop_string k hostport) with
        | None, None => Some host
        | _, _ => None
        end in
      match indexByte "[" hostport with
      | Some O =>
          match indexByte "]" hostport with
          | None => None
          | Some e => if (e + 1 =? i)%nat then checked 1%nat (e + 1)%nat (take_string (e - 1) (drop_string 1 hostport)) else None
          end
      | _ =>
          let host := take_string i hostport in
          match indexByte ":" host with
          | Some _ => None
          | None => checked 0%nat 0%nat host
          end
      end
  end.

Definition callerKey (req : HttpRequest) : string :=
  let xff := hr_Header req "X-Forwarded-For" in
  if negb (String.eqb xff "") then
    match indexByte "," xff with
    | Some i => TrimSpace (take_string i xff)
    | None => TrimSpace xff
    end
  else match splitHost (hr_Peer req) with Some host => host | None => hr_Peer req end.

(** [limiterClock n] is the n-th reading of [time.Now] by a limiter; [fused] tells
    how its arithmetic is compiled. *)
Class LimiterEnv := { limiterClock : nat -> Time; fused : bool }.

Section Guards.
Context `{Sources} `{MapRange} `{LimiterEnv} (h : Handler).

(** [r.allow(key)] on one of the two limiters; a nil limiter reads no clock. *)
Definition limiterAllow (admin : bool) (key : string) : St HState bool := fun s =>
  match (if admin then h_adminLimiter s else h_tenantLimiter s) with
  | None => (Ok true, s)
  | Some r =>
      let '(ok, r') := allowLocked fused (limiterClock (h_ticks s)) key r in
      (Ok ok, if admin then mkHState (h_world s) (Some r') (h_tenantLimiter s) (h_metrics s) (S (h_ticks s))
              else mkHState (h_world s) (h_adminLimiter s) (Some r') (h_metrics s) (S (h_ticks s)))
  end.

(** ** Scopes *)
Definition validateScopeIDs (ids : list string) : St HState unit :=
  guard (negb (existsb HasControlChar ids))
    (ErrConnect CodeInvalidArgument (ErrPlain "project_id/tenant_id must not contain control characters")).

Definition projectOr (projectID : string) : string :=
  if String.eqb projectID "" then h_defaultProjectID h else projectID.

Definition tenantOr (tenantID : string) : string :=
  if String.eqb tenantID "" then h_defaultTenantID h else tenantID.

Definition callerProject (ctx : Ctx) (projectID : string) : string :=
  let pinned := ci_ProjectID (CallerFrom ctx) in
  if negb (String.eqb pinned "") then pinned else projectOr projectID.

Definition tenantRateKey (ctx : Ctx) (projectID tenantID : string) : string :=
  String.append (callerProject ctx projectID) (String.append NUL (tenantOr tenantID)).

Definition rpcRateKey (ctx : Ctx) (projectID rpc : string) : string :=
  String.append (callerProject ctx projectID) (String.append NUL (String.append NUL rpc)).

Definition requireTenantRate (ctx : Ctx) (projectID tenantID : string) : St HState unit :=
  do! validateScopeIDs [projectID; tenantID] in
  let! ok := limiterAllow false (tenantRateKey ctx projectID tenantID) in
  guard ok (ErrConnect CodeResourceExhausted (ErrPlain "tenant rate limit exceeded")).

Definition requireRPCRate (ctx : Ctx) (projectID rpc : string) : St HState unit :=
  do! validateScopeIDs [projectID] in
  let! ok := limiterAllow false (rpcRateKey ctx projectID rpc) in
  guard ok (ErrConnect CodeResourceExhausted (ErrPlain "rate limit exceeded")).

(** A residency refusal is counted before it is mapped. *)
Definition ensureServable (p : Principal) : St HState unit :=
  let! r := attempt (raw (EnsureServable (h_svc h) p)) in
  match r with
  | Ok _ => ret tt
  | Err err =>
      do! (if errors_Is err ErrRegionNotServable then modify (set_metrics recordRegionRefused) else ret tt) in
      fail (errToConnect err)
  end.

Definition acting (ctx : Ctx) (actingUserID projectID tenantID : string) : St HState Principal :=
  do! guard (negb (String.eqb actingUserID ""))
        (ErrConnect CodeInvalidArgument (ErrPlain "acting_user_id is required")) in
  do! validateScopeIDs [projectID; tenantID] in
  let p := mkPrincipal actingUserID (callerProject ctx projectID) (tenantOr tenantID) (ci_Name (CallerFrom ctx)) in
  do! ensureServable p in
  ret p.

Definition scoped (ctx : Ctx) (projectID tenantID : string) : St HState Principal :=
  do! validateScopeIDs [projectID; tenantID] in
  let p := mkPrincipal "" (callerProject ctx projectID) (tenantOr tenantID) (ci_Name (CallerFrom ctx)) in
  do! ensureServable p in
  ret p.

(** ** The admin gate (admin.go) *)
Definition adminSecretHeader : string := "X-Admin-Secret".

Definition requireAdmin (req : HttpRequest) : St HState unit :=
  do! guard (negb (String.eqb (h_adminSecret h) ""))
        (ErrConnect CodeUnimplemented (ErrPlain "admin API is disabled (no admin secret configured)")) in
  let! ok := limiterAllow true (callerKey req) in
  do! guard ok (ErrConnect CodeResourceExhausted (ErrPlain "admin API rate limit exceeded")) in
  guard (String.eqb (hr_Header req adminSecretHeader) (h_adminSecret h))
    (ErrConnect CodeUnauthenticated (ErrPlain "invalid or missing admin secret")).
End Guards.
