(* ===== verification/HandlerRpc.v ===== *)
(** * The RPC handlers (internal/connect/workspace.go, group.go, seat.go, admin.go,
      authz.go, batchcheck.go)

    One definition per RPC: the guards of the transport, the conversion of the
    message, the call of the service and the conversion of the answer. *)

From stdpp Require Import base gmap strings list pretty.
From Stdlib Require Import ZArith Lia Ascii.
From S2P Require Import Prelude Conditions Model ModelJson Types Text Engine Expand Memory RateLimit Middleware Wire Token.
From S2P Require Import Service ServiceWorkspaces ServiceGroups ServiceProjects ServiceAuthz Handler.
#[local] Open Scope Z_scope.

Section Rpcs.
Context `{Sources} `{MapRange} `{JsonCodec} `{TextParsers} `{TokenJson} `{ProtoTypes}.
Context `{LimiterEnv} (h : Handler) (ctx : Ctx).
#[local] Abbreviation svc := (h_svc h).

(** ** WorkspaceService *)
Section Acting.
Context (actingUserId projectId tenantId : string).
#[local] Abbreviation principal := (acting h ctx actingUserId projectId tenantId).

Definition CreateWorkspace (displayName slug : string) : St HState PWorkspace :=
  let! p := principal in
  let! w := call (ServiceWorkspaces.CreateWorkspace svc p displayName slug) in
  ret (workspaceToProto w).

Definition GetWorkspace (workspaceId : string) : St HState PWorkspace :=
  let! p := principal in
  let! w := call (ServiceWorkspaces.GetWorkspace svc p workspaceId) in
  ret (workspaceToProto w).

Definition ListWorkspaces : St HState (list PWorkspace) :=
  let! p := principal in
  let! ws := call (ServiceWorkspaces.ListWorkspaces p) in
  ret (workspaceToProto <$> ws).

Definition UpdateWorkspace (workspaceId displayName : string) : St HState PWorkspace :=
  let! p := principal in
  let! w := call (ServiceWorkspaces.UpdateWorkspace svc p workspaceId displayName) in
  ret (workspaceToProto w).

Definition TransferOwnership (workspaceId newOwnerUserId : string) : St HState PWorkspace :=
  let! p := principal in
  let! w := call (ServiceWorkspaces.TransferOwnership svc p workspaceId newOwnerUserId) in
  ret (workspaceToProto w).

Definition DeleteWorkspace (workspaceId : string) : St HState unit :=
  let! p := principal in
  call (ServiceWorkspaces.DeleteWorkspace svc p workspaceId).

Definition AddMember (workspaceId userId : string) (role : PRole) : St HState PMembership :=
  let! p := principal in
  let! m := call (ServiceWorkspaces.AddMember svc p workspaceId userId (roleFromProto role)) in
  ret (membershipToProto m).

Definition UpdateMemberRole (workspaceId userId : string) (role : PRole) : St HState PMembership :=
  let! p := principal in
  let! m := call (ServiceWorkspaces.UpdateMemberRole svc p workspaceId userId (roleFromProto role)) in
  ret (membershipToProto m).

Definition RemoveMember (workspaceId userId : string) : St HState unit :=
  let! p := principal in
  call (ServiceWorkspaces.RemoveMember svc p workspaceId userId).

Definition SuspendMember (workspaceId userId : string) : St HState PMembership :=
  let! p := principal in
  let! m := call (ServiceWorkspaces.SuspendMember svc p workspaceId userId) in
  ret (membershipToProto m).

Definition ReinstateMember (workspaceId userId : string) : St HState PMembership :=
  let! p := principal in
  let! m := call (ServiceWorkspaces.ReinstateMember svc p workspaceId userId) in
  ret (membershipToProto m).

Definition ListMembers (workspaceId : string) : St HState (list PMembership) :=
  let! p := principal in
  let! ms := call (ServiceWorkspaces.ListMembers svc p workspaceId) in
  ret (membershipToProto <$> ms).

Definition CreateInvitation (workspaceId email : string) (role : PRole) : St HState PInvitation :=
  let! p := principal in
  let! it := call (ServiceWorkspaces.CreateInvitation svc p workspaceId email (roleFromProto role)) in
  ret (invitationToProto it.1 it.2).

Definition AcceptInvitation (token : string) : St HState PMembership :=
  let! p := principal in
  let! m := call (ServiceWorkspaces.AcceptInvitation svc p token) in
  ret (membershipToProto m).

(** The token is never echoed. *)
Definition ListInvitations (workspaceId : string) : St HState (list PInvitation) :=
  let! p := principal in
  let! invs := call (ServiceWorkspaces.ListInvitations svc p workspaceId) in
  ret ((fun inv => invitationToProto inv "") <$> invs).

Definition RevokeInvitation (invitationId : string) : St HState unit :=
  let! p := principal in
  call (ServiceWorkspaces.RevokeInvitation svc p invitationId).

(** ** GroupService *)
Definition CreateGroup (displayName slug workspaceId : string) : St HState PGroup :=
  let! p := principal in
  let! g := call (ServiceGroups.CreateGroup svc p displayName slug workspaceId) in
  ret (groupToProto g).

Definition GetGroup (groupId : string) : St HState PGroup :=
  let! p := principal in
  let! g := call (ServiceGroups.GetGroup p groupId) in
  ret (groupToProto g).

Definition ListGroups (workspaceId : string) : St HState (list PGroup) :=
  let! p := principal in
  let! gs := call (ServiceGroups.ListGroups svc p workspaceId) in
  ret (groupToProto <$> gs).

Definition DeleteGroup (groupId : string) : St HState unit :=
  let! p := principal in
  call (ServiceGroups.DeleteGroup svc p groupId).

Definition AddGroupMember (groupId : string) (member : option (option PGroupMember)) : St HState unit :=
  let! p := principal in
  let! m := lift (groupMemberFromProto member) in
  call (ServiceGroups.AddGroupMember svc p groupId m).

Definition RemoveGroupMember (groupId : string) (member : option (option PGroupMember)) : St HState unit :=
  let! p := principal in
  let! m := lift (groupMemberFromProto member) in
  call (ServiceGroups.RemoveGroupMember svc p groupId m).

Definition SetEnrollmentState (groupId : string) (member : option (option PGroupMember)) (state : PEnrollmentState)
    : St HState PEnrollment :=
  let! p := principal in
  let! m := lift (groupMemberFromProto member) in
  let! st := lift (enrollmentStateFromProto state) in
  let! e := call (ServiceGroups.SetEnrollmentState svc p groupId m st) in
  ret (enrollmentToProto e).

Definition ListEnrollments (groupId : string) : St HState (list PEnrollment) :=
  let! p := principal in
  let! es := call (ServiceGroups.ListEnrollments svc p groupId) in
  ret (enrollmentToProto <$> es).

Definition ListGroupMembers (groupId : string) : St HState (list PGroupMember) :=
  let! p := principal in
  let! ms := call (ServiceGroups.ListGroupMembers p groupId) in
  ret (groupMemberToProto <$> ms).
End Acting.

Section Scoped.
Context (projectId tenantId : string).
#[local] Abbreviation principal := (scoped h ctx projectId tenantId).
#[local] Abbreviation tenantRate := (requireTenantRate h ctx projectId tenantId).

(** ** SeatService *)
Definition SetSeatLimit (sku : string) (limit : option Z) : St HState (string * option Z) :=
  do! tenantRate in
  let! p := principal in
  let! lim := call (ServiceGroups.SetSeatLimit svc p sku limit) in
  ret (sl_SKU lim, if sl_Limited lim then Some (i32 (sl_Limit lim)) else None).

Definition GetSeatUsage (sku : string) : St HState SeatUsage_ :=
  let! p := principal in
  let! u := call (ServiceGroups.SeatUsage p sku) in
  ret (mkSeatUsage (su_SKU u) (i32 (su_Used u)) (i32 (su_Limit u)) (su_Limited u)).

Definition AssignSeat (sku userId : string) : St HState bool :=
  do! tenantRate in
  let! p := principal in
  call (ServiceGroups.AssignSeat svc p sku userId).

Definition RevokeSeat (sku userId : string) : St HState unit :=
  do! tenantRate in
  let! p := principal in
  call (ServiceGroups.RevokeSeat svc p sku userId).

Definition ListSeats (sku : string) : St HState (list (string * string * Timestamp)) :=
  let! p := principal in
  let! seats := call (ServiceGroups.ListSeats p sku) in
  ret ((fun a => (sa_SKU a, sa_UserID a, timestamp_New (sa_AssignedAt a))) <$> seats).

(** ** AuthzService *)

(** The loop over the updates: the first bad one ends the request. *)
Definition opFromProto (u : PTupleOp * option RelationTuple) : result TupleOp :=
  rbind (tupleFromProto u.2) (fun t =>
  match u.1 with
  | OP_INSERT => Ok (mkTupleOp false t)
  | OP_DELETE => Ok (mkTupleOp true t)
  | OP_OTHER _ => invalidArgument (ErrPlain "update op must be INSERT or DELETE")
  end).

Definition WriteRelationTuples (updates : list (PTupleOp * option RelationTuple)) : St HState string :=
  do! tenantRate in
  let! p := principal in
  let! ops := lift (rmap opFromProto updates) in
  call (ServiceAuthz.WriteTuples svc p ops).

Definition ReadRelationTuples (atLeast : string) (f : TupleFilter) : St HState (list RelationTuple) :=
  let! p := principal in
  do! call (ServiceAuthz.EnsureConsistency p atLeast) in
  let! ts := call (ServiceAuthz.ReadTuples svc p f) in
  ret (tupleToProto (pr_ProjectID p) (pr_TenantID p) <$> ts).

Definition Check (atLeast namespace objectId relation subjectUserId : string) (subjectSet : option PSubjectSet)
    (context : option Struct) : St HState bool :=
  observed "Check" (
  do! tenantRate in
  let! p := principal in
  do! counted "Check" (ServiceAuthz.EnsureConsistency p atLeast) in
  do! guard (negb (Bool.eqb (String.eqb subjectUserId "") (match subjectSet with None => true | Some _ => false end)))
        (ErrConnect CodeInvalidArgument (ErrPlain "exactly one of subject_user_id or subject_set is required")) in
  let! allowed :=
    match subjectSet with
    | Some set => counted "Check" (ServiceAuthz.CheckSet svc p namespace objectId relation (setFromProto set) (structMap context))
    | None => counted "Check" (ServiceAuthz.Check svc p namespace objectId relation subjectUserId (structMap context))
    end in
  do! modify (set_metrics (recordDecision namespace relation allowed)) in
  ret allowed).

Definition Expand (atLeast namespace objectId relation : string) : St HState UsersetTree :=
  observed "Expand" (
  do! tenantRate in
  let! p := principal in
  do! counted "Expand" (ServiceAuthz.EnsureConsistency p atLeast) in
  let! tree := counted "Expand" (ServiceAuthz.Expand svc p namespace objectId relation) in
  ret (treeToProto tree)).

Definition ListObjects (atLeast namespace relation subjectUserId : string) : St HState (list string) :=
  observed "ListObjects" (
  do! tenantRate in
  let! p := principal in
  do! counted "ListObjects" (ServiceAuthz.EnsureConsistency p atLeast) in
  counted "ListObjects" (ServiceAuthz.ListObjects svc p namespace relation subjectUserId)).

Definition DeprovisionUser (userId : string) : St HState Z :=
  do! requireRPCRate h ctx projectId "deprovision" in
  let! p := principal in
  call (ServiceAuthz.DeprovisionUser svc p userId).

(** One result of a batch, with its metric; an error is carried as its text. *)
Definition recordBatchItem (it : BatchCheckItem) (r : BatchCheckResult) : Metrics -> Metrics :=
  match br_Err r with
  | Some _ => recordError "BatchCheck"
  | None => recordDecision (bc_Namespace it) (bc_Relation it) (br_Allowed r)
  end.

Definition recordBatch (items : list BatchCheckItem) (rs : list BatchCheckResult) (m : Metrics) : Metrics :=
  foldl (fun m ir => recordBatchItem ir.1 ir.2 m) m (zip items rs).

Definition BatchCheck (ctxErr : nat -> option error) (atLeast : string) (items : list BatchCheckItem)
    : St HState (list BatchCheckResult) :=
  observed "BatchCheck" (
  do! tenantRate in
  do! guard (negb ((0 <? h_maxBatchCheckItems h) && (h_maxBatchCheckItems h <? Z.of_nat (length items))))
        (ErrConnect CodeInvalidArgument (ErrPlain
          ("batch_check: " ++ pretty (Z.of_nat (length items)) ++ " items exceeds max " ++ pretty (h_maxBatchCheckItems h)))) in
  do! modify (set_metrics (observeBatchItems (Z.of_nat (length items)))) in
  let! p := principal in
  do! call (ServiceAuthz.EnsureConsistency p atLeast) in
  let! results := counted "BatchCheck" (ServiceAuthz.BatchCheck svc ctxErr p items) in
  do! modify (set_metrics (recordBatch items results)) in
  ret results).
End Scoped.

Definition ExportSubjectGrants (projectId userId : string) : St HState (list SubjectGrant) :=
  do! requireRPCRate h ctx projectId "export" in
  let! p := scoped h ctx projectId "" in
  call (ServiceAuthz.ExportSubjectGrants svc p userId).

(** ** AdminService *)
Section Admin.
Context (req : HttpRequest).
#[local] Abbreviation admin := (requireAdmin h req).

(** [projectToProto] with its error mapped. *)
Definition projectReply (p : Project) : St HState PProject :=
  lift (match projectToProto p with Ok pb => Ok pb | Err err => Err (errToConnect err) end).

Definition CreateProject (id name : string) (modelJson : option JsonText) (dataRegion : string) (maxCheckReads : Z)
    : St HState PProject :=
  do! admin in
  let! model := lift (modelFromJSON modelJson) in
  let! p := call (ServiceProjects.CreateProject svc id name model dataRegion maxCheckReads) in
  projectReply p.

Definition GetProject (id : string) : St HState PProject :=
  do! admin in
  let! p := call (ServiceProjects.GetProject id) in
  projectReply p.

Definition UpdateProject (id name : string) (status : PProjectStatus) (modelJson : option JsonText)
    (dataRegion : string) (clearDataRegion : bool) (maxCheckReads : Z) (clearMaxCheckReads : bool) : St HState PProject :=
  do! admin in
  let! model := lift (modelFromJSON modelJson) in
  let! p := call (ServiceProjects.UpdateProject svc id name (projectStatusFromProto status) model dataRegion
                    clearDataRegion maxCheckReads clearMaxCheckReads) in
  projectReply p.

(** The loop over the rows: the first that does not convert ends the request. *)
Definition ListProjects : St HState (list PProject) :=
  do! admin in
  let! ps := call ServiceProjects.ListProjects in
  lift (match rmap projectToProto ps with Ok pbs => Ok pbs | Err err => Err (errToConnect err) end).
End Admin.
End Rpcs.
