(* ===== verification/ServiceFrame.v ===== *)
(** * Running service operations

    Inversion of sequenced calls, and the class of computations that leave the
    repository as it is: guards, the resolver, permission checks and reads. *)

From stdpp Require Import base gmap strings list.
From Stdlib Require Import ZArith Lia.
From S2P Require Import Prelude Conditions Model ModelJson Types Text Engine Expand CheckSet Memory Token Service ServiceAuthz.
#[local] Open Scope Z_scope.

(** ** Inversion *)
Lemma bind_inv {S A B} (c : St S A) (k : A -> St S B) s r s' :
  bind c k s = (r, s') ->
  (exists a s1, c s = (Ok a, s1) /\ k a s1 = (r, s')) \/ (exists e, c s = (Err e, s') /\ r = Err e).
Proof. unfold bind. destruct (c s) as [[a|e] s1]; naive_solver. Qed.

Lemma guard_inv {S} b e (s : S) r s' :
  guard b e s = (r, s') -> s' = s /\ ((b = true /\ r = Ok tt) \/ (b = false /\ r = Err e)).
Proof. destruct b; simpl; intros [= <- <-]; auto. Qed.

Lemma attempt_inv {S A} (c : St S A) s r s' :
  attempt c s = (r, s') -> exists r', c s = (r', s') /\ r = Ok r'.
Proof. unfold attempt. destruct (c s). intros [= <- <-]. eauto. Qed.

Lemma repo_inv {A} (c : St Store A) w r w' :
  repo c w = (r, w') -> exists s', c (w_repo w) = (r, s') /\ w' = set_repo s' w.
Proof. unfold repo. destruct (c (w_repo w)). intros [= <- <-]. eauto. Qed.

(** ** Computations that do not write to the repository *)
Class Reads {A} (c : St World A) : Prop := reads_repo : forall w, w_repo (c w).2 = w_repo w.

Lemma reads_inv {A} (c : St World A) `{Reads A c} w r w' : c w = (r, w') -> w_repo w' = w_repo w.
Proof. intros Hc. by rewrite <-(reads_repo w), Hc. Qed.

(** A repository call that only looks. *)
Class Looks {A} (c : St Store A) : Prop := looks_store : forall s, (c s).2 = s.

Section Instances.
#[export] Instance Reads_ret {A} (a : A) : Reads (ret a). Proof. done. Qed.
#[export] Instance Reads_fail {A} e : Reads (fail (A := A) e). Proof. done. Qed.
#[export] Instance Reads_lift {A} (r : result A) : Reads (lift r). Proof. done. Qed.
#[export] Instance Reads_get : Reads get. Proof. done. Qed.
#[export] Instance Reads_guard b e : Reads (guard b e). Proof. by destruct b. Qed.
#[export] Instance Reads_attempt {A} (c : St World A) : Reads c -> Reads (attempt c).
Proof. intros Hc w. unfold attempt. specialize (Hc w). by destruct (c w). Qed.
#[export] Instance Reads_bind {A B} (c : St World A) (k : A -> St World B) :
  Reads c -> (forall a, Reads (k a)) -> Reads (bind c k).
Proof.
  intros Hc Hk w. unfold bind. specialize (Hc w). destruct (c w) as [[a|e] w1]; simpl in *; [|done].
  by rewrite (Hk a w1).
Qed.
#[export] Instance Reads_if {A} (b : bool) (c d : St World A) : Reads c -> Reads d -> Reads (if b then c else d).
Proof. by destruct b. Qed.
#[export] Instance Reads_option {A B} (o : option B) (c : B -> St World A) (d : St World A) :
  (forall b, Reads (c b)) -> Reads d -> Reads (match o with Some b => c b | None => d end).
Proof. by destruct o. Qed.
#[export] Instance Reads_result {A B} (o : result B) (c : B -> St World A) (d : error -> St World A) :
  (forall b, Reads (c b)) -> (forall e, Reads (d e)) -> Reads (match o with Ok b => c b | Err e => d e end).
Proof. by destruct o. Qed.

#[export] Instance Reads_set_cache f : Reads (modify (set_cache f)). Proof. done. Qed.
#[export] Instance Reads_add_decision r : Reads (modify (add_decision r)). Proof. done. Qed.
#[export] Instance Reads_add_tupleAudit r : Reads (modify (add_tupleAudit r)). Proof. done. Qed.
#[export] Instance Reads_add_adminAudit r : Reads (modify (add_adminAudit r)). Proof. done. Qed.
#[export] Instance Reads_repo {A} (c : St Store A) : Looks c -> Reads (repo c).
Proof. intros Hc w. unfold repo. specialize (Hc (w_repo w)). by destruct (c (w_repo w)). Qed.

#[export] Instance Looks_GetProject id : Looks (GetProject id).
Proof. intros s. unfold GetProject. by case_match. Qed.
#[export] Instance Looks_GetWorkspace p t id : Looks (GetWorkspace p t id).
Proof. intros s. unfold GetWorkspace. by case_match. Qed.
#[export] Instance Looks_GetMembership p t ws u : Looks (GetMembership p t ws u).
Proof. intros s. unfold GetMembership. by case_match. Qed.
#[export] Instance Looks_GetInvitation p t id : Looks (GetInvitation p t id).
Proof. intros s. unfold GetInvitation. by case_match. Qed.
#[export] Instance Looks_GetGroup p t id : Looks (GetGroup p t id).
Proof. intros s. unfold GetGroup. by case_match. Qed.
#[export] Instance Looks_GetEnrollment p t g m : Looks (GetEnrollment p t g m).
Proof. intros s. unfold GetEnrollment. by case_match. Qed.
#[export] Instance Looks_ConsistencyToken p t : Looks (ConsistencyToken p t). Proof. done. Qed.
#[export] Instance Looks_GetSeatUsage p t sku : Looks (GetSeatUsage p t sku). Proof. done. Qed.
End Instances.

Section Listings.
Context `{MapRange}.
#[export] Instance Looks_ListProjects : Looks ListProjects. Proof. done. Qed.
#[export] Instance Looks_PersonalWorkspace p t u : Looks (PersonalWorkspace p t u).
Proof. intros s. unfold PersonalWorkspace. by case_match. Qed.
#[export] Instance Looks_WorkspacesForUser p t u : Looks (WorkspacesForUser p t u). Proof. done. Qed.
#[export] Instance Looks_ListMembers p t ws : Looks (ListMembers p t ws). Proof. done. Qed.
#[export] Instance Looks_GetInvitationByTokenHash p t h : Looks (GetInvitationByTokenHash p t h).
Proof. intros s. unfold GetInvitationByTokenHash. by case_match. Qed.
#[export] Instance Looks_ListInvitations p t ws : Looks (ListInvitations p t ws). Proof. done. Qed.
#[export] Instance Looks_ListGroups p t ws : Looks (ListGroups p t ws). Proof. done. Qed.
#[export] Instance Looks_ListEnrollments p t g : Looks (ListEnrollments p t g). Proof. done. Qed.
#[export] Instance Looks_ListSeats p t sku : Looks (ListSeats p t sku). Proof. done. Qed.
#[export] Instance Looks_ReadTuples now p t f : Looks (Memory.ReadTuples now p t f). Proof. done. Qed.
#[export] Instance Looks_ListSubjectTuplesInProject now p u : Looks (ListSubjectTuplesInProject now p u).
Proof. done. Qed.
#[export] Instance Looks_ListTuplesForSubjectSetsInProject now p sets :
  Looks (ListTuplesForSubjectSetsInProject now p sets).
Proof. intros s. unfold ListTuplesForSubjectSetsInProject. by case_match. Qed.
#[export] Instance Looks_result {A} (f : Store -> result A) : Looks (fun s => (f s, s)). Proof. done. Qed.
End Listings.

(** ** The resolver, the guards and the checks only read *)
Section ServiceReads.
Context `{Sources} `{MapRange} `{TextParsers} `{TokenJson} (svc : ServiceConfig).

#[export] Instance Reads_now : Reads now_. Proof. done. Qed.
#[export] Instance Reads_newID : Reads newID. Proof. done. Qed.
#[export] Instance Reads_randHex : Reads randHex. Proof. done. Qed.
#[export] Instance Reads_repoAt {A} (c : Time -> St Store A) : (forall t, Looks (c t)) -> Reads (repoAt c).
Proof. intros Hc. unfold repoAt. apply _. Qed.

#[export] Instance Reads_lookupCache id : Reads (lookupCache id).
Proof.
  intros w. unfold lookupCache. destruct (w_cache w !! id) as [e|]; [|done].
  rewrite (reads_repo (c := bind now_ _)). done.
Qed.
#[export] Instance Reads_evictLocked : Reads evictLocked. Proof. unfold evictLocked. apply _. Qed.
#[export] Instance Reads_storeCache id e : Reads (storeCache id e).
Proof. intros w. unfold storeCache. case_decide; by rewrite (reads_repo (c := bind _ _)). Qed.
#[export] Instance Reads_invalidate id : Reads (invalidate id). Proof. done. Qed.
#[export] Instance Reads_load id : Reads (load id). Proof. unfold load. apply _. Qed.
#[export] Instance Reads_resolve id : Reads (resolve id). Proof. unfold resolve. apply _. Qed.
#[export] Instance Reads_resolverModelFor id : Reads (resolverModelFor id).
Proof. unfold resolverModelFor. apply _. Qed.
#[export] Instance Reads_regionServable e : Reads (regionServable svc e). Proof. unfold regionServable. apply _. Qed.
#[export] Instance Reads_ensureRegion p : Reads (ensureRegion svc p). Proof. unfold ensureRegion. apply _. Qed.
#[export] Instance Reads_EnsureServable p : Reads (EnsureServable svc p). Proof. unfold EnsureServable. apply _. Qed.
#[export] Instance Reads_ensureProjectActive p : Reads (ensureProjectActive svc p).
Proof. unfold ensureProjectActive. apply _. Qed.
#[export] Instance Reads_evalWith {A} m (f : Engine -> result A) : Reads (evalWith svc m f).
Proof. unfold evalWith. apply _. Qed.
#[export] Instance Reads_allowed p ws rel : Reads (allowed svc p ws rel). Proof. unfold allowed. apply _. Qed.
#[export] Instance Reads_requireWorkspace p ws rel : Reads (requireWorkspace svc p ws rel).
Proof. unfold requireWorkspace. apply _. Qed.

#[export] Instance Reads_logged rec c : Reads c -> Reads (logged svc rec c). Proof. intros Hc. unfold logged. apply _. Qed.
#[export] Instance Reads_decide_ p f : Reads (decide_ svc p f). Proof. unfold decide_. apply _. Qed.
#[export] Instance Reads_query {A} p e (f : Engine -> Model -> Z -> result A) : Reads (query svc p e f).
Proof. unfold query. apply _. Qed.
#[export] Instance Reads_Check p ns o r u cc : Reads (Check svc p ns o r u cc). Proof. unfold Check. apply _. Qed.
#[export] Instance Reads_auditTupleChanges p i d : Reads (auditTupleChanges svc p i d).
Proof. unfold auditTupleChanges. apply _. Qed.

(** What a successful permission guard establishes. *)
Lemma requireWorkspace_inv p ws rel w W w' :
  requireWorkspace svc p ws rel w = (Ok W, w') ->
  inner (workspaces (w_repo w)) (scope (pr_ProjectID p) (pr_TenantID p)) !! ws = Some W /\
  allowed svc p ws rel w = (Ok true, w').
Proof.
  unfold requireWorkspace, bind, repo, GetWorkspace.
  destruct (inner _ _ !! ws) as [W0|] eqn:HW; [|done].
  replace (set_repo (w_repo w) w) with w by by destruct w.
  destruct (allowed svc p ws rel w) as [[[]|e] w1] eqn:Ha; [|done|done].
  by intros [= <- <-].
Qed.
End ServiceReads.

(** ** Automation: run a sequence of calls backwards from its outcome *)
Ltac run_step :=
  match goal with
  | H : bind _ _ _ = (_, _) |- _ =>
      apply bind_inv in H as [(? & ? & ? & H)|(? & ? & ?)]
  | H : guard _ _ _ = (_, _) |- _ => apply guard_inv in H as (? & [(? & ?)|(? & ?)])
  | H : attempt _ _ = (_, _) |- _ => apply attempt_inv in H as (? & ? & ?)
  | H : ret _ _ = (_, _) |- _ => unfold ret in H
  | H : fail _ _ = (_, _) |- _ => unfold fail in H
  | H : lift _ _ = (_, _) |- _ => unfold lift in H
  end; simplify_eq.

Lemma repo_looks_inv {A} (c : St Store A) `{Looks A c} w r w' :
  repo c w = (r, w') -> w' = w /\ r = (c (w_repo w)).1.
Proof.
  unfold repo. specialize (looks_store (c := c) (w_repo w)). destruct (c (w_repo w)) as [r0 s0]. simpl.
  intros -> [= <- <-]. split; [by destruct w|done].
Qed.

Lemma bind_look {A B} (c : St Store A) `{Looks A c} (k : result A -> St World B) w :
  bind (attempt (repo c)) k w = k (c (w_repo w)).1 w.
Proof.
  unfold bind, attempt. destruct (repo c w) as [r w'] eqn:Hr. apply repo_looks_inv in Hr as [-> ->]; done.
Qed.

Lemma bind_now `{Sources} {B} (k : Time -> St World B) w : bind now_ k w = k (clock (w_ticks w)) (now_ w).2.
Proof. done. Qed.

Lemma bind_repo_ok {A B} (c : St Store A) (k : A -> St World B) w a s' :
  c (w_repo w) = (Ok a, s') -> bind (repo c) k w = k a (set_repo s' w).
Proof. intros Hc. unfold bind, repo. by rewrite Hc. Qed.

(** Run an operation backwards and carry the repository through the calls that
    only read it. *)
Ltac frame_step :=
  match goal with
  | H : requireWorkspace _ _ _ _ _ = (Ok _, _) |- _ =>
      let Hw := fresh "HW" in let Ha := fresh "Hallowed" in
      pose proof (requireWorkspace_inv _ _ _ _ _ _ _ H) as [Hw Ha]; apply reads_inv in H; [|apply _]
  | H : repo _ _ = (_, _) |- _ => apply repo_looks_inv in H as [? ?]; [|apply _]
  | H : repo _ _ = (_, _) |- _ => apply repo_inv in H as (? & ? & ?)
  | H : _ ?w = (_, ?w') |- _ => is_var w'; apply reads_inv in H; [|apply _]
  | H : PutMembershipAndTuples _ _ _ _ = _ |- _ => unfold PutMembershipAndTuples, modify in H
  | H : Memory.WriteTuples _ _ _ _ _ = _ |- _ => unfold Memory.WriteTuples, modify in H
  | H : negb (String.eqb _ _) = true |- _ => apply negb_true_iff, String.eqb_neq in H
  | H : negb (String.eqb _ _) = false |- _ => apply negb_false_iff, String.eqb_eq in H
  | H : w_repo ?w = w_repo _, H' : context [w_repo ?w] |- _ => lazymatch H' with H => fail | _ => rewrite H in H' end
  | H : w_repo ?w = w_repo _ |- context [w_repo ?w] => rewrite H
  end; simplify_eq/=.
Ltac run := repeat first [run_step | frame_step]; try done.

(** ** Invariants of the repository *)
Section Keeps.
Context (I : Store -> Prop).

(** A computation keeps the invariant, whatever it returns. *)
Definition keeps {A} (c : St World A) : Prop := forall w, I (w_repo w) -> I (w_repo (c w).2).
Definition keepsStore {A} (c : St Store A) : Prop := forall s, I s -> I (c s).2.

Lemma keeps_intro {A} (c : St World A) :
  (forall w r w', c w = (r, w') -> I (w_repo w) -> I (w_repo w')) -> keeps c.
Proof. intros Hc w Hw. destruct (c w) as [r w'] eqn:E. by eapply Hc. Qed.

Lemma keeps_reads {A} (c : St World A) `{Reads A c} : keeps c.
Proof. intros w Hw. by rewrite reads_repo. Qed.

Lemma keeps_repo {A} (c : St Store A) : keepsStore c -> keeps (repo c).
Proof. intros Hc w Hw. specialize (Hc _ Hw). unfold repo. by destruct (c (w_repo w)). Qed.

Lemma keeps_bind {A B} (c : St World A) (k : A -> St World B) :
  keeps c -> (forall a, keeps (k a)) -> keeps (bind c k).
Proof.
  intros Hc Hk w Hw. unfold bind. specialize (Hc w Hw). destruct (c w) as [[a|e] w1]; simpl in *; [|done].
  by apply Hk.
Qed.

Lemma keeps_attempt {A} (c : St World A) : keeps c -> keeps (attempt c).
Proof. intros Hc w Hw. specialize (Hc w Hw). unfold attempt. by destruct (c w). Qed.

Lemma keeps_if {A} (b : bool) (c d : St World A) : keeps c -> keeps d -> keeps (if b then c else d).
Proof. by destruct b. Qed.

Lemma keeps_result {A B} (o : result B) (c : B -> St World A) (d : error -> St World A) :
  (forall b, keeps (c b)) -> (forall e, keeps (d e)) -> keeps (match o with Ok b => c b | Err e => d e end).
Proof. by destruct o. Qed.
End Keeps.

Ltac keeps_step :=
  first [ apply keeps_bind; [|intros ?]
        | apply keeps_attempt
        | apply keeps_if
        | apply keeps_result; intros ?
        | apply keeps_repo
        | lazymatch goal with |- context [match ?p with (_, _) => _ end] => destruct p end ].
(** Split an operation into its calls; those that only read are done. *)
Ltac keeps := repeat first [apply keeps_reads; apply _ | keeps_step].
