(* ===== verification/WorkspaceInv.v ===== *)
(** * The membership table and the role tuples

    The product keeps a membership row and a role tuple for the same fact: who
    is what in a workspace.  [wsInv] says that the two agree, that every
    workspace has exactly one owner and that rows and invitations belong to
    workspaces that exist.  This file proves how the repository operations that
    the product uses act on it. *)

From stdpp Require Import base gmap strings list.
From Stdlib Require Import ZArith Lia.
From S2P Require Import Prelude Conditions Model Types Engine Memory MemoryKeys MemoryTheorems Service ServiceWorkspaces.
#[local] Open Scope Z_scope.

(** ** Views of a store, per scope key *)
Definition wsAt (s : Store) (sk id : string) : option Workspace := inner (workspaces s) sk !! id.
Definition rowAt (s : Store) (sk ws u : string) : option Membership := inner (inner (memberships s) sk) ws !! u.
Definition invAt (s : Store) (sk id : string) : option Invitation := inner (invitations s) sk !! id.
Definition hasRole (s : Store) (sk ws r u : string) : Prop :=
  present s sk (roleTuple ws r u).

(** ** The invariant *)
Definition rowOK (sk ws : string) (W : Workspace) (u : string) (m : Membership) : Prop :=
  mb_WorkspaceID m = ws /\ mb_UserID m = u /\ scope (mb_ProjectID m) (mb_TenantID m) = sk /\
  Role_Valid (mb_Role m) = true /\ (mb_Role m = RoleOwner <-> u = w_OwnerUserID W) /\
  (mb_Status m = StatusActive \/ mb_Status m = StatusSuspended /\ mb_Role m <> RoleOwner).

(** One workspace: its rows, and its role tuples, which mirror the active rows. *)
Record wsLocal (sk ws : string) (W : option Workspace) (rows : string -> option Membership)
    (role : string -> string -> Prop) : Prop := mkWsLocal {
  l_key : forall W0, W = Some W0 -> w_ID W0 = ws /\ scope (w_ProjectID W0) (w_TenantID W0) = sk;
  l_row : forall u m, rows u = Some m -> exists W0, W = Some W0 /\ rowOK sk ws W0 u m;
  l_owner : forall W0, W = Some W0 -> is_Some (rows (w_OwnerUserID W0));
  l_role : forall r u, role r u <-> exists m, rows u = Some m /\ mb_Role m = r /\ mb_Status m = StatusActive;
}.

Definition invOK (s : Store) (sk id : string) (i : Invitation) : Prop :=
  inv_ID i = id /\ scope (inv_ProjectID i) (inv_TenantID i) = sk /\ grantableRole (inv_Role i) = true /\
  is_Some (wsAt s sk (inv_WorkspaceID i)).

(** The workspace namespace holds nothing but plain role tuples. *)
Definition onlyRoles (s : Store) : Prop :=
  forall sk k x, inner (tuples s) sk !! k = Some x -> t_Namespace x = "workspace" ->
  exists ws r u, x = roleTuple ws r u.

Record wsInv (s : Store) : Prop := mkWsInv {
  wi_keyed : storeKeyed s;
  wi_only : onlyRoles s;
  wi_local : forall sk ws, wsLocal sk ws (wsAt s sk ws) (rowAt s sk ws) (hasRole s sk ws);
  wi_inv : forall sk id i, invAt s sk id = Some i -> invOK s sk id i;
}.

(** ** How writes change the views *)
Lemma lookup_put3 {B} (ms : gmap string (gmap string (gmap string B))) k j i x k' j' i' :
  inner (inner (<[k := put2 j i x (inner ms k)]> ms) k') j' !! i'
  = if decide (k' = k /\ j' = j /\ i' = i) then Some x else inner (inner ms k') j' !! i'.
Proof.
  destruct (decide (k' = k)) as [->|Hk]; [|rewrite inner_insert_ne, decide_False by naive_solver; done].
  rewrite inner_insert. destruct (decide (j' = j)) as [->|Hj];
    [|rewrite inner_put2_ne, decide_False by naive_solver; done].
  rewrite inner_put2. destruct (decide (i' = i)) as [->|Hi].
  - rewrite lookup_insert_eq, decide_True by done. done.
  - rewrite lookup_insert_ne, decide_False by naive_solver. done.
Qed.

Lemma rowAt_put m s sk ws u :
  rowAt (putMembershipLocked m s) sk ws u
  = if decide (sk = scope (mb_ProjectID m) (mb_TenantID m) /\ ws = mb_WorkspaceID m /\ u = mb_UserID m)
    then Some m else rowAt s sk ws u.
Proof. apply lookup_put3. Qed.

Lemma tupleIdent_role ws r u ws' r' u' :
  tupleIdent (roleTuple ws r u) = tupleIdent (roleTuple ws' r' u') <-> ws = ws' /\ r = r' /\ u = u'.
Proof. unfold tupleIdent, roleTuple, userTuple. simpl. naive_solver. Qed.

Lemma hasRole_write p t ins del s sk ws r u :
  hasRole (writeTuplesLocked p t ins del s) sk ws r u <->
  if decide (sk = scope p t)
  then (exists y, y ∈ ins /\ tupleIdent y = tupleIdent (roleTuple ws r u))
       \/ ((forall y, y ∈ del -> tupleIdent y <> tupleIdent (roleTuple ws r u)) /\ hasRole s sk ws r u)
  else hasRole s sk ws r u.
Proof. apply present_write. Qed.

(** A batch that only names roles of one user in one workspace. *)
Definition rolesOf (ws u : string) (l : list Tuple) : Prop := Forall (fun x => exists r, x = roleTuple ws r u) l.

Lemma hasRole_write_user p t ins del s sk ws u r ws' u' :
  rolesOf ws u ins -> rolesOf ws u del -> (sk, ws', u') <> (scope p t, ws, u) ->
  hasRole (writeTuplesLocked p t ins del s) sk ws' r u' <-> hasRole s sk ws' r u'.
Proof.
  unfold rolesOf. rewrite !Forall_forall. intros Hi Hd Hne. rewrite hasRole_write.
  case_decide as Hsk; [|done]. subst sk.
  assert (Hno : forall l : list Tuple, (forall x, x ∈ l -> exists r, x = roleTuple ws r u) ->
            forall y, y ∈ l -> tupleIdent y <> tupleIdent (roleTuple ws' r u')).
  { intros l Hl y Hy. destruct (Hl y Hy) as [r' ->]. rewrite tupleIdent_role. naive_solver. }
  split; [|intros ?; right; split; [by apply Hno|done]].
  intros [(y & Hy & Hid)|[_ ?]]; [|done]. by destruct (Hno ins Hi y Hy).
Qed.

(** The roles of that user afterwards. *)
Lemma hasRole_write_self p t ins del s ws u r (Ri Rd : list string) :
  ins = (fun r => roleTuple ws r u) <$> Ri -> del = (fun r => roleTuple ws r u) <$> Rd ->
  hasRole (writeTuplesLocked p t ins del s) (scope p t) ws r u <->
  (r ∈ Ri) \/ ((r ∉ Rd) /\ hasRole s (scope p t) ws r u).
Proof.
  intros -> ->. rewrite hasRole_write, decide_True by done.
  assert (Hin : forall l : list string, (exists y, y ∈ (fun r => roleTuple ws r u) <$> l
            /\ tupleIdent y = tupleIdent (roleTuple ws r u)) <-> r ∈ l).
  { intros l. split.
    - intros (y & Hy & Hid). apply list_elem_of_fmap in Hy as (r' & -> & Hr). apply tupleIdent_role in Hid. naive_solver.
    - intros Hr. exists (roleTuple ws r u). split; [|done]. by apply (list_elem_of_fmap_2 (fun r => roleTuple ws r u)). }
  rewrite Hin.
  rewrite <-(Hin Rd). split.
  - intros [?|[Hn ?]]; [by left|]. right. split; [|done]. intros (y & Hy & Hid). by destruct (Hn y).
  - intros [?|[Hn ?]]; [by left|]. right. split; [|done]. intros y Hy Hid. apply Hn. eauto.
Qed.

Lemma onlyRoles_write p t ins del s :
  onlyRoles s -> (forall x, x ∈ ins -> t_Namespace x = "workspace" -> exists ws r u, x = roleTuple ws r u) ->
  onlyRoles (writeTuplesLocked p t ins del s).
Proof.
  intros Hs Hi sk k x. unfold writeTuplesLocked. simpl.
  destruct (decide (sk = scope p t)) as [->|Hne]; [|rewrite inner_insert_ne by done; apply Hs].
  rewrite inner_insert, foldl_insert_lookup, foldl_delete_lookup.
  destruct (last _) as [y|] eqn:Hl.
  - intros [= <-]. apply last_Some_elem_of, list_elem_of_filter in Hl as [_ Hy]. by apply Hi.
  - case_decide; [done|]. apply Hs.
Qed.

Lemma onlyRoles_rolesOf ws u l :
  rolesOf ws u l -> forall x, x ∈ l -> t_Namespace x = "workspace" -> exists ws r u, x = roleTuple ws r u.
Proof. unfold rolesOf. rewrite Forall_forall. intros Hl x Hx _. destruct (Hl x Hx) as [r ->]. eauto. Qed.

(** ** Changes at one workspace *)
Lemma wsLocal_ext sk ws W rows rows' role role' :
  (forall u, rows' u = rows u) -> (forall r u, role' r u <-> role r u) ->
  wsLocal sk ws W rows role -> wsLocal sk ws W rows' role'.
Proof.
  intros Hr Ht [Hk Hrow Ho Hrole]. split; [done| | |].
  - intros u m. rewrite Hr. apply Hrow.
  - intros W0 HW. rewrite Hr. by apply Ho.
  - intros r u. rewrite Ht, Hrole. by setoid_rewrite Hr.
Qed.

Lemma wsInv_at s s' sk ws :
  wsInv s -> storeKeyed s' -> onlyRoles s' ->
  (forall sk' ws', (sk', ws') <> (sk, ws) ->
     wsAt s' sk' ws' = wsAt s sk' ws' /\ (forall u, rowAt s' sk' ws' u = rowAt s sk' ws' u) /\
     (forall r u, hasRole s' sk' ws' r u <-> hasRole s sk' ws' r u)) ->
  wsLocal sk ws (wsAt s' sk ws) (rowAt s' sk ws) (hasRole s' sk ws) ->
  invitations s' = invitations s -> (is_Some (wsAt s sk ws) -> is_Some (wsAt s' sk ws)) ->
  wsInv s'.
Proof.
  intros [_ _ Hloc Hinv] Hk Ho Hoth Hl Hi Hex. split; [done|done| |].
  - intros sk' ws'. destruct (decide ((sk', ws') = (sk, ws))) as [[= -> ->]|Hne]; [done|].
    destruct (Hoth sk' ws' Hne) as (-> & Hr & Ht). by eapply wsLocal_ext; [..|apply Hloc].
  - intros sk' id i. unfold invAt. rewrite Hi. intros Hid.
    destruct (Hinv sk' id i Hid) as (H1 & H2 & H3 & H4). split_and!; [done..|].
    destruct (decide ((sk', inv_WorkspaceID i) = (sk, ws))) as [[= -> Heq]|Hne].
    + rewrite Heq in *. auto.
    + by destruct (Hoth _ _ Hne) as (-> & _).
Qed.

(** The row of one user is written together with its role tuples. *)
Section PutRow.
Context (s : Store) (m : Membership) (ins del : list Tuple).
#[local] Abbreviation sk := (scope (mb_ProjectID m) (mb_TenantID m)).
#[local] Abbreviation ws := (mb_WorkspaceID m).
#[local] Abbreviation u := (mb_UserID m).
#[local] Abbreviation s' := (writeTuplesLocked (mb_ProjectID m) (mb_TenantID m) ins del (putMembershipLocked m s)).

Lemma putRow_row sk' ws' v :
  rowAt s' sk' ws' v = if decide (sk' = sk /\ ws' = ws /\ v = u) then Some m else rowAt s sk' ws' v.
Proof. apply rowAt_put. Qed.

Hypothesis (Hins : rolesOf ws u ins) (Hdel : rolesOf ws u del).

Lemma putRow_role sk' ws' r v :
  (sk', ws', v) <> (sk, ws, u) -> hasRole s' sk' ws' r v <-> hasRole s sk' ws' r v.
Proof. apply (hasRole_write_user _ _ _ _ (putMembershipLocked m s)); done. Qed.

Lemma putRow_keyed : storeKeyed s -> storeKeyed s'.
Proof. intros Hs. apply storeKeyed_write. exact Hs. Qed.

Lemma putRow_only : onlyRoles s -> onlyRoles s'.
Proof. intros Hs. apply onlyRoles_write; [exact Hs|]. by eapply onlyRoles_rolesOf. Qed.

Lemma putRow_other sk' ws' :
  (sk', ws') <> (sk, ws) ->
  wsAt s' sk' ws' = wsAt s sk' ws' /\ (forall v, rowAt s' sk' ws' v = rowAt s sk' ws' v) /\
  (forall r v, hasRole s' sk' ws' r v <-> hasRole s sk' ws' r v).
Proof.
  intros Hne. split_and!; [done| |].
  - intros v. rewrite putRow_row, decide_False; naive_solver.
  - intros r v. apply putRow_role. naive_solver.
Qed.

(** A member other than the owner. *)
Lemma wsInv_putRow W :
  wsInv s -> wsAt s sk ws = Some W -> u <> w_OwnerUserID W -> grantableRole (mb_Role m) = true ->
  (mb_Status m = StatusActive \/ mb_Status m = StatusSuspended) ->
  (forall r, hasRole s' sk ws r u <-> r = mb_Role m /\ mb_Status m = StatusActive) ->
  wsInv s'.
Proof.
  intros Hs HW Hu [Hrv Hro%negb_true_iff%String.eqb_neq]%andb_prop Hst Hrole.
  destruct Hs as [Hk Ho Hloc Hinv] eqn:E. clear E.
  eapply (wsInv_at s s' sk ws); [done|by apply putRow_keyed|by apply putRow_only|apply putRow_other| |done|done].
  destruct (Hloc sk ws) as [Hkey Hrow Hown Hr].
  change (wsAt s' sk ws) with (wsAt s sk ws). split; [done| | |].
  - intros v m0. rewrite putRow_row. case_decide as Hd; [|apply Hrow].
    destruct Hd as (_ & _ & ->). intros [= <-]. exists W. split; [done|]. unfold rowOK. naive_solver.
  - intros W0 HW0. rewrite putRow_row. case_decide; eauto.
  - intros r v. rewrite putRow_row. case_decide as Hd.
    + destruct Hd as (_ & _ & ->). rewrite Hrole. naive_solver.
    + rewrite putRow_role, Hr by naive_solver. done.
Qed.
End PutRow.

Lemma rolesOf_nil ws u : rolesOf ws u [].
Proof. constructor. Qed.
Lemma rolesOf_one ws r u : rolesOf ws u [roleTuple ws r u].
Proof. repeat constructor. by eexists. Qed.
#[export] Hint Resolve rolesOf_nil rolesOf_one : go.

(** Facts about stored rows and roles. *)
Section Stored.
Context (s : Store) (Hs : wsInv s).

Lemma stored_row sk ws u m :
  rowAt s sk ws u = Some m -> exists W, wsAt s sk ws = Some W /\ rowOK sk ws W u m.
Proof. apply (wi_local s Hs sk ws). Qed.

Lemma stored_ws sk ws W :
  wsAt s sk ws = Some W ->
  w_ID W = ws /\ scope (w_ProjectID W) (w_TenantID W) = sk /\
  exists m, rowAt s sk ws (w_OwnerUserID W) = Some m /\ mb_Role m = RoleOwner /\ mb_Status m = StatusActive.
Proof.
  intros HW. destruct (wi_local s Hs sk ws) as [Hk Hrow Ho _]. destruct (Hk W HW) as [? ?]. split_and!; [done..|].
  destruct (Ho W HW) as [m Hm]. exists m. split; [done|].
  destruct (Hrow _ _ Hm) as (W' & HW' & Hok). rewrite HW in HW'. injection HW' as <-.
  destruct Hok as (_ & _ & _ & _ & [_ Hro] & Hst). specialize (Hro eq_refl). naive_solver.
Qed.

Lemma stored_role sk ws r u :
  hasRole s sk ws r u <-> exists m, rowAt s sk ws u = Some m /\ mb_Role m = r /\ mb_Status m = StatusActive.
Proof. apply (wi_local s Hs sk ws). Qed.

Lemma stored_nonowner sk ws W u :
  wsAt s sk ws = Some W ->
  (rowAt s sk ws u = None \/ exists m, rowAt s sk ws u = Some m /\ mb_Role m <> RoleOwner) ->
  u <> w_OwnerUserID W.
Proof.
  intros HW Hu ->. destruct (stored_ws _ _ _ HW) as (_ & _ & m & Hm & Hr & _). naive_solver.
Qed.
End Stored.

(** Creating a workspace with its owner row. *)
Lemma lookup_put2 {B} (m : gmap string (gmap string B)) k j x k' j' :
  inner (put2 k j x m) k' !! j' = if decide (k' = k /\ j' = j) then Some x else inner m k' !! j'.
Proof.
  destruct (decide (k' = k)) as [->|Hk]; [|rewrite inner_put2_ne, decide_False by naive_solver; done].
  rewrite inner_put2. destruct (decide (j' = j)) as [->|Hj].
  - by rewrite lookup_insert_eq, decide_True.
  - rewrite lookup_insert_ne, decide_False by naive_solver. done.
Qed.

Section Create.
Context (s : Store) (W : Workspace) (t t' : Time) (Hs : wsInv s).
#[local] Abbreviation sk := (scope (w_ProjectID W) (w_TenantID W)).
#[local] Abbreviation m :=
  (mkMembership (w_ProjectID W) (w_TenantID W) (w_ID W) (w_OwnerUserID W) RoleOwner StatusActive t t').
#[local] Abbreviation ins := [roleTuple (w_ID W) RoleOwner (w_OwnerUserID W)].

Definition createdStore : Store :=
  writeTuplesLocked (w_ProjectID W) (w_TenantID W) ins []
    (putMembershipLocked m (set_workspaces (put2 sk (w_ID W) W) (set_workspaces (ensureInner sk) s))).

Lemma created_ws sk' id :
  wsAt createdStore sk' id = if decide (sk' = sk /\ id = w_ID W) then Some W else wsAt s sk' id.
Proof. unfold wsAt. simpl. by rewrite lookup_put2, inner_ensure. Qed.

Lemma created_row sk' ws' v :
  rowAt createdStore sk' ws' v
  = if decide (sk' = sk /\ ws' = w_ID W /\ v = w_OwnerUserID W) then Some m else rowAt s sk' ws' v.
Proof. exact (lookup_put3 (memberships s) sk (w_ID W) (w_OwnerUserID W) m sk' ws' v). Qed.

Lemma created_role_other sk' ws' r v :
  (sk', ws', v) <> (sk, w_ID W, w_OwnerUserID W) -> hasRole createdStore sk' ws' r v <-> hasRole s sk' ws' r v.
Proof. exact (hasRole_write_user _ _ _ _ _ _ _ _ r _ _ (rolesOf_one _ _ _) (rolesOf_nil _ _)). Qed.

Hypothesis (HW : wsAt s sk (w_ID W) = None).

Lemma created_norow u : rowAt s sk (w_ID W) u = None.
Proof.
  destruct (rowAt s sk (w_ID W) u) as [m0|] eqn:Hm0; [|done].
  destruct (stored_row s Hs _ _ _ _ Hm0) as (W' & HW' & _). congruence.
Qed.

Lemma created_role r :
  hasRole createdStore sk (w_ID W) r (w_OwnerUserID W) <-> r = RoleOwner.
Proof.
  unfold createdStore.
  rewrite (hasRole_write_self _ _ ins [] _ (w_ID W) (w_OwnerUserID W) r [RoleOwner] [] eq_refl eq_refl).
  rewrite list_elem_of_singleton. split; [|by left]. intros [->|[_ Hr]]; [done|].
  apply (stored_role s Hs) in Hr as (m0 & Hm0 & _). by rewrite created_norow in Hm0.
Qed.

Lemma wsInv_create : wsInv createdStore.
Proof.
  eapply (wsInv_at s _ sk (w_ID W)); [done| | | | |done|].
  - apply storeKeyed_write. apply Hs.
  - apply (putRow_only _ m); eauto with go. apply Hs.
  - intros sk' ws' Hne. split_and!.
    + rewrite created_ws, decide_False; naive_solver.
    + intros u. rewrite created_row, decide_False; naive_solver.
    + intros r u. apply created_role_other. naive_solver.
  - rewrite created_ws, decide_True by done. split.
    + by intros W0 [= <-].
    + intros u m0. rewrite created_row. case_decide as Hd; [|by rewrite created_norow].
      destruct Hd as (_ & _ & ->). intros [= <-]. exists W. split; [done|]. repeat split; try done. by left.
    + intros W0 [= <-]. rewrite created_row, decide_True by done. done.
    + intros r u. rewrite created_row. destruct (decide (u = w_OwnerUserID W)) as [->|Hne].
      * rewrite decide_True, created_role by done. naive_solver.
      * rewrite decide_False, created_role_other by naive_solver. apply (stored_role s Hs).
  - by rewrite created_ws, decide_True.
Qed.
End Create.
