(* ===== verification/WorkspaceSteps.v ===== *)
(** * The remaining store-level steps: removal, transfer, deletion, invitations *)

From stdpp Require Import base gmap strings list.
From Stdlib Require Import ZArith Lia.
From S2P Require Import Prelude Conditions Model Types Engine Memory MemoryKeys MemoryTheorems Service ServiceWorkspaces WorkspaceInv.
#[local] Open Scope Z_scope.

(** ** Stores that look the same from the workspaces' side *)
Definition sameRoles (s s' : Store) : Prop := forall sk ws r u, hasRole s' sk ws r u <-> hasRole s sk ws r u.

Lemma wsInv_frame s s' :
  wsInv s -> workspaces s' = workspaces s -> memberships s' = memberships s -> invitations s' = invitations s ->
  storeKeyed s' -> onlyRoles s' -> sameRoles s s' -> wsInv s'.
Proof.
  intros [_ _ Hloc Hinv] Hw Hm Hi Hk Ho Hr. split; [done|done| |].
  - intros sk ws. unfold wsAt, rowAt. rewrite Hw, Hm. eapply wsLocal_ext; [done| |apply Hloc]. apply Hr.
  - intros sk id i. unfold invAt, invOK, wsAt. rewrite Hi, Hw. apply Hinv.
Qed.

Lemma wsInv_tuples_same s s' :
  wsInv s -> workspaces s' = workspaces s -> memberships s' = memberships s -> invitations s' = invitations s ->
  tuples s' = tuples s -> wsInv s'.
Proof.
  intros Hs Hw Hm Hi Ht. apply (wsInv_frame s); [done..| | |].
  - unfold storeKeyed. rewrite Ht. apply Hs.
  - unfold onlyRoles. rewrite Ht. apply Hs.
  - intros sk ws r u. unfold hasRole, present. by rewrite Ht.
Qed.

(** A batch outside the workspace namespace. *)
Lemma wsInv_foreign s p t ins del :
  wsInv s -> Forall (fun x => t_Namespace x <> "workspace") (ins ++ del) -> wsInv (writeTuplesLocked p t ins del s).
Proof.
  rewrite Forall_app, !Forall_forall. intros Hs [Hi Hd].
  apply (wsInv_frame s); [done..|by apply storeKeyed_write, Hs| |].
  - apply onlyRoles_write; [apply Hs|]. intros x Hx Hn. by destruct (Hi x Hx).
  - intros sk ws r u. rewrite hasRole_write. case_decide; [|done].
    assert (Hno : forall l : list Tuple, (forall x, x ∈ l -> t_Namespace x <> "workspace") ->
              forall y, y ∈ l -> tupleIdent y <> tupleIdent (roleTuple ws r u)).
    { intros l Hl y Hy Hid. apply (Hl y Hy). by injection Hid. }
    split; [|intros ?; right; split; [by apply Hno|done]].
    intros [(y & Hy & Hid)|[_ ?]]; [|done]. by destruct (Hno ins Hi y Hy).
Qed.

(** A filter of one shard that keeps the workspace namespace. *)
Lemma wsInv_filter s s' sk (P : string * Tuple -> Prop) `{forall kv, Decision (P kv)} :
  wsInv s -> workspaces s' = workspaces s -> memberships s' = memberships s -> invitations s' = invitations s ->
  tuples s' = alter (filter P) sk (tuples s) ->
  (forall k x, t_Namespace x = "workspace" -> P (k, x)) -> wsInv s'.
Proof.
  intros Hs Hw Hm Hi Ht HP.
  assert (Hin : forall sk' k x, inner (tuples s') sk' !! k = Some x -> inner (tuples s) sk' !! k = Some x).
  { intros sk' k x. rewrite Ht. destruct (decide (sk = sk')) as [<-|Hne].
    - rewrite inner_alter by apply map_filter_empty. by intros [? _]%map_lookup_filter_Some.
    - by rewrite inner_alter_ne. }
  apply (wsInv_frame s); [done..| | |].
  - unfold storeKeyed. rewrite Ht. apply storeKeyed_filter; [|apply Hs]. by intros m k x [? _]%map_lookup_filter_Some.
  - intros sk' k x Hx. eapply (wi_only s Hs). by apply Hin.
  - intros sk' ws r u. unfold hasRole, present. split; intros [x Hx]; exists x; [by apply Hin|].
    rewrite Ht. destruct (decide (sk = sk')) as [<-|Hne]; [|by rewrite inner_alter_ne].
    rewrite inner_alter by apply map_filter_empty. apply map_lookup_filter_Some. split; [done|]. apply HP.
    pose proof (storeKeyed_shard s sk (wi_keyed s Hs) _ _ Hx) as Hk. simpl in Hk.
    by apply tupleKey_ident in Hk; injection Hk.
Qed.

(** ** Removing a member *)
Lemma lookup_del3 {B} (ms : gmap string (gmap string (gmap string B))) k j i k' j' i' :
  inner (inner (alter (alter (delete i) j) k ms) k') j' !! i'
  = if decide (k' = k /\ j' = j /\ i' = i) then None else inner (inner ms k') j' !! i'.
Proof.
  destruct (decide (k' = k)) as [->|Hk]; [|rewrite inner_alter_ne, decide_False by naive_solver; done].
  rewrite (inner_alter _ k) by apply alter_empty.
  destruct (decide (j' = j)) as [->|Hj]; [|rewrite inner_alter_ne, decide_False by naive_solver; done].
  rewrite inner_alter by apply delete_empty. destruct (decide (i' = i)) as [->|Hi].
  - by rewrite lookup_delete_eq, decide_True.
  - rewrite lookup_delete_ne, decide_False by naive_solver. done.
Qed.

Section Remove.
Context (s : Store) (p t ws u : string) (m : Membership) (Hs : wsInv s).
Context (Hm : rowAt s (scope p t) ws u = Some m) (Hr : mb_Role m <> RoleOwner).

Definition removedStore : Store :=
  writeTuplesLocked p t [] [roleTuple ws (mb_Role m) u]
    (set_memberships (alter (alter (delete u) ws) (scope p t)) s).

Lemma removed_row sk ws' v :
  rowAt removedStore sk ws' v = if decide (sk = scope p t /\ ws' = ws /\ v = u) then None else rowAt s sk ws' v.
Proof. exact (lookup_del3 (memberships s) (scope p t) ws u sk ws' v). Qed.

Lemma removed_role_other sk ws' r v :
  (sk, ws', v) <> (scope p t, ws, u) -> hasRole removedStore sk ws' r v <-> hasRole s sk ws' r v.
Proof. exact (hasRole_write_user _ _ _ _ _ _ _ _ r _ _ (rolesOf_nil _ _) (rolesOf_one _ _ _)). Qed.

Lemma removed_role r : ~ hasRole removedStore (scope p t) ws r u.
Proof.
  unfold removedStore. intros Hh.
  apply (hasRole_write_self p t [] [roleTuple ws (mb_Role m) u] _ ws u r [] [mb_Role m] eq_refl eq_refl) in Hh.
  rewrite list_elem_of_singleton in Hh.
  destruct Hh as [?%not_elem_of_nil|[Hr1 (m1 & Hm1 & Hr2 & _)%(stored_role s Hs)]]; naive_solver.
Qed.

Lemma wsInv_remove : wsInv removedStore.
Proof.
  destruct (stored_row s Hs _ _ _ _ Hm) as (W & HW & Hok).
  eapply (wsInv_at s _ (scope p t) ws); [done| | | | |done|done].
  - apply storeKeyed_write. apply Hs.
  - apply onlyRoles_write; [apply Hs|]. by intros x ?%not_elem_of_nil.
  - intros sk' ws' Hne. split_and!; [done| |].
    + intros v. rewrite removed_row, decide_False; naive_solver.
    + intros r v. apply removed_role_other. naive_solver.
  - destruct (wi_local s Hs (scope p t) ws) as [Hkey Hrows Hown Hrole]. split; [done| | |].
    + intros v m0. rewrite removed_row. case_decide; [done|]. apply Hrows.
    + intros W0 HW0. rewrite removed_row, decide_False; [by apply Hown|].
      intros (_ & _ & Heq). eapply (stored_nonowner s Hs _ _ _ u HW0); [|done]. eauto.
    + intros r v. rewrite removed_row. destruct (decide (v = u)) as [->|Hne].
      * rewrite decide_True by done. split; [by intros ?%removed_role|naive_solver].
      * rewrite decide_False, removed_role_other by naive_solver. apply Hrole.
Qed.
End Remove.

(** ** Rewriting a workspace row *)
Section Update.
Context (s : Store) (W W' : Workspace) (Hs : wsInv s).
#[local] Abbreviation sk := (scope (w_ProjectID W') (w_TenantID W')).
Context (HW : wsAt s sk (w_ID W') = Some W).

Lemma updated_ws sk' id :
  wsAt (set_workspaces (put2 sk (w_ID W') W') s) sk' id
  = if decide (sk' = sk /\ id = w_ID W') then Some W' else wsAt s sk' id.
Proof. apply lookup_put2. Qed.

Lemma wsInv_update :
  w_OwnerUserID W' = w_OwnerUserID W -> wsInv (set_workspaces (put2 sk (w_ID W') W') s).
Proof.
  intros Ho. eapply (wsInv_at s _ sk (w_ID W')); [done|apply Hs|apply Hs| | |done|].
  - intros sk' ws' Hne. split; [|done]. rewrite updated_ws, decide_False; naive_solver.
  - rewrite updated_ws, decide_True by done.
    destruct (wi_local s Hs sk (w_ID W')) as [Hkey Hrows Hown Hrole]. split; [by intros W0 [= <-]| | |done].
    + intros v m Hv. destruct (Hrows v m Hv) as (W0 & HW0 & Hok). rewrite HW in HW0. injection HW0 as <-.
      exists W'. split; [done|]. unfold rowOK in *. by rewrite Ho.
    + intros W0 [= <-]. rewrite Ho. by apply Hown.
  - by rewrite updated_ws, decide_True.
Qed.
End Update.

(** ** Invitations *)
Lemma wsInv_invite s i :
  let sk := scope (inv_ProjectID i) (inv_TenantID i) in
  wsInv s -> invOK s sk (inv_ID i) i -> wsInv (set_invitations (put2 sk (inv_ID i) i) s).
Proof.
  intros sk [Hk Ho Hl Hi] Hok. split; [done|done|done|].
  intros sk' id i'. unfold invAt. simpl. rewrite lookup_put2. case_decide as Hd; [|apply Hi].
  destruct Hd as [-> ->]. by intros [= <-].
Qed.

Lemma wsInv_ensure_invitations s sk : wsInv s -> wsInv (set_invitations (ensureInner sk) s).
Proof.
  intros [Hk Ho Hl Hi]. split; [done|done|done|].
  intros sk' id i. unfold invAt. simpl. rewrite inner_ensure. apply Hi.
Qed.

Lemma wsInv_ensure_workspaces s sk : wsInv s -> wsInv (set_workspaces (ensureInner sk) s).
Proof.
  intros [Hk Ho Hl Hi]. assert (Hw : forall sk' id, wsAt (set_workspaces (ensureInner sk) s) sk' id = wsAt s sk' id).
  { intros sk' id. unfold wsAt. simpl. by rewrite inner_ensure. }
  split; [done|done| |].
  - intros sk' ws. rewrite Hw. apply Hl.
  - intros sk' id i Hid. unfold invOK. rewrite Hw. by apply Hi.
Qed.

(** ** Deleting a workspace *)
Section Delete.
Context (s : Store) (sk ws : string) (Hs : wsInv s).

Definition deletedStore : Store :=
  set_seqs (incr sk)
    (set_invitations (alter (filter (fun kv => inv_WorkspaceID kv.2 <> ws)) sk)
       (set_tuples (alter (filter (fun kv => ~ (t_Namespace kv.2 = "workspace" /\ t_ObjectID kv.2 = ws))) sk)
          (set_memberships (alter (delete ws) sk) (set_workspaces (alter (delete ws) sk) s)))).

Lemma deleted_ws sk' id :
  wsAt deletedStore sk' id = if decide (sk' = sk /\ id = ws) then None else wsAt s sk' id.
Proof.
  unfold wsAt. simpl. destruct (decide (sk' = sk)) as [->|Hk]; [|rewrite inner_alter_ne, decide_False by naive_solver; done].
  rewrite inner_alter by apply delete_empty. destruct (decide (id = ws)) as [->|Hi].
  - by rewrite lookup_delete_eq, decide_True.
  - rewrite lookup_delete_ne, decide_False by naive_solver. done.
Qed.

Lemma deleted_row sk' ws' u :
  rowAt deletedStore sk' ws' u = if decide (sk' = sk /\ ws' = ws) then None else rowAt s sk' ws' u.
Proof.
  unfold rowAt. simpl. destruct (decide (sk' = sk)) as [->|Hk]; [|rewrite inner_alter_ne, decide_False by naive_solver; done].
  rewrite inner_alter by apply delete_empty. unfold inner at 1. destruct (decide (ws' = ws)) as [->|Hi].
  - by rewrite lookup_delete_eq, decide_True.
  - rewrite lookup_delete_ne, decide_False by naive_solver. done.
Qed.

Lemma deleted_inv sk' id i :
  invAt deletedStore sk' id = Some i -> invAt s sk' id = Some i /\ (sk', inv_WorkspaceID i) <> (sk, ws).
Proof.
  unfold invAt. simpl. destruct (decide (sk = sk')) as [<-|Hk].
  - rewrite inner_alter by apply map_filter_empty. intros [Hi Hw]%map_lookup_filter_Some. simpl in Hw. naive_solver.
  - rewrite inner_alter_ne by done. naive_solver.
Qed.

Lemma deleted_tuple sk' k x :
  inner (tuples deletedStore) sk' !! k = Some x <->
  inner (tuples s) sk' !! k = Some x /\ ~ (sk' = sk /\ t_Namespace x = "workspace" /\ t_ObjectID x = ws).
Proof.
  simpl. destruct (decide (sk = sk')) as [<-|Hk].
  - rewrite inner_alter by apply map_filter_empty. rewrite map_lookup_filter_Some. simpl. naive_solver.
  - rewrite inner_alter_ne by done. naive_solver.
Qed.

Lemma deleted_role sk' ws' r u :
  hasRole deletedStore sk' ws' r u <-> hasRole s sk' ws' r u /\ (sk', ws') <> (sk, ws).
Proof.
  unfold hasRole, present, is_Some. setoid_rewrite deleted_tuple. split.
  - intros (x & Hx & Hn). split; [eauto|]. intros [= -> ->]. apply Hn.
    pose proof (storeKeyed_shard s sk (wi_keyed s Hs) _ _ Hx) as Hk. simpl in Hk.
    apply tupleKey_ident in Hk. by injection Hk.
  - intros ((x & Hx) & Hne). exists x. split; [done|]. intros (-> & _ & Ho). apply Hne.
    pose proof (storeKeyed_shard s sk (wi_keyed s Hs) _ _ Hx) as Hk. simpl in Hk.
    apply tupleKey_ident in Hk. injection Hk. congruence.
Qed.

Lemma wsInv_delete : wsInv deletedStore.
Proof.
  split.
  - intros sk' m. simpl. apply storeKeyed_filter; [|apply Hs]. by intros m' k x [? _]%map_lookup_filter_Some.
  - intros sk' k x [Hx _]%deleted_tuple. by eapply (wi_only s Hs).
  - intros sk' ws'. rewrite deleted_ws. destruct (decide (sk' = sk /\ ws' = ws)) as [[-> ->]|Hne].
    + split; [done| |done|].
      * intros u m. rewrite deleted_row, decide_True by done. done.
      * intros r u. rewrite deleted_row, decide_True, deleted_role by done. naive_solver.
    + eapply wsLocal_ext; [| |apply (wi_local s Hs)].
      * intros u. rewrite deleted_row, decide_False by done. done.
      * intros r u. rewrite deleted_role. naive_solver.
  - intros sk' id i [Hi Hne]%deleted_inv. destruct (wi_inv s Hs _ _ _ Hi) as (? & ? & ? & ?).
    split_and!; [done..|]. rewrite deleted_ws, decide_False; [done|]. naive_solver.
Qed.
End Delete.

(** ** Handing a workspace over *)
Lemma writeTuplesLocked_scope p t p' t' ins del s :
  scope p t = scope p' t' -> writeTuplesLocked p t ins del s = writeTuplesLocked p' t' ins del s.
Proof. intros Hsk. unfold writeTuplesLocked. by rewrite Hsk. Qed.

Section Transfer.
Context (s : Store) (W : Workspace) (newRow oldRow : Membership) (dels : list string) (Hs : wsInv s).
#[local] Abbreviation p := (mb_ProjectID newRow).
#[local] Abbreviation t := (mb_TenantID newRow).
#[local] Abbreviation sk := (scope p t).
#[local] Abbreviation ws := (mb_WorkspaceID newRow).
#[local] Abbreviation new := (mb_UserID newRow).
#[local] Abbreviation old := (w_OwnerUserID W).
Context (W' : Workspace) (HW : wsAt s sk ws = Some W) (Hne : new <> old).
Context (HWkey : w_ID W' = ws /\ scope (w_ProjectID W') (w_TenantID W') = sk /\ w_OwnerUserID W' = new).
Context (Hnew : mb_Role newRow = RoleOwner /\ mb_Status newRow = StatusActive).
Context (Hold : scope (mb_ProjectID oldRow) (mb_TenantID oldRow) = sk /\ mb_WorkspaceID oldRow = ws
                /\ mb_UserID oldRow = old /\ mb_Role oldRow = RoleAdmin /\ mb_Status oldRow = StatusActive).
Context (Hdels : forall m, rowAt s sk ws new = Some m -> mb_Role m ∈ dels).

Definition handedStore : Store :=
  writeTuplesLocked p t [roleTuple ws RoleAdmin old] [roleTuple ws RoleOwner old]
    (putMembershipLocked oldRow
       (set_workspaces (put2 sk ws W')
          (writeTuplesLocked p t [roleTuple ws RoleOwner new] ((fun r => roleTuple ws r new) <$> dels)
             (putMembershipLocked newRow s)))).

Lemma handed_row sk' ws' v :
  rowAt handedStore sk' ws' v
  = if decide (sk' = sk /\ ws' = ws /\ v = old) then Some oldRow
    else if decide (sk' = sk /\ ws' = ws /\ v = new) then Some newRow else rowAt s sk' ws' v.
Proof.
  destruct Hold as (Hsk & Hw & Hu & _). rewrite <-Hu, <-(rowAt_put newRow s).
  transitivity (rowAt (putMembershipLocked oldRow (putMembershipLocked newRow s)) sk' ws' v); [done|].
  rewrite rowAt_put, Hsk, Hw. done.
Qed.

Lemma handed_ws sk' id : wsAt handedStore sk' id = if decide (sk' = sk /\ id = ws) then Some W' else wsAt s sk' id.
Proof. exact (lookup_put2 (workspaces s) sk ws W' sk' id). Qed.

Lemma rolesOf_fmap (l : list string) u : rolesOf ws u ((fun r => roleTuple ws r u) <$> l).
Proof. apply Forall_forall. intros x (r & -> & _)%list_elem_of_fmap. eauto. Qed.

Lemma handed_role_other sk' ws' r v :
  (sk', ws', v) <> (sk, ws, old) -> (sk', ws', v) <> (sk, ws, new) ->
  hasRole handedStore sk' ws' r v <-> hasRole s sk' ws' r v.
Proof.
  intros H1 H2. etransitivity.
  - exact (hasRole_write_user _ _ _ _ _ _ _ _ r _ _ (rolesOf_one _ _ _) (rolesOf_one _ _ _) H1).
  - exact (hasRole_write_user _ _ _ _ _ _ _ _ r _ _ (rolesOf_one _ _ _) (rolesOf_fmap dels _) H2).
Qed.

Lemma handed_role_old r : hasRole handedStore sk ws r old <-> r = RoleAdmin.
Proof.
  unfold handedStore.
  rewrite (hasRole_write_self p t [_] [_] _ ws old r [RoleAdmin] [RoleOwner] eq_refl eq_refl).
  rewrite !list_elem_of_singleton. split; [|by left]. intros [?|[Hr Hh]]; [done|].
  pose proof (hasRole_write_user p t [roleTuple ws RoleOwner new] ((fun r => roleTuple ws r new) <$> dels)
    (putMembershipLocked newRow s) sk ws new r ws old (rolesOf_one _ _ _) (rolesOf_fmap dels _)
    ltac:(intros [=]; done)) as [Hh' _].
  apply Hh', (stored_role s Hs) in Hh as (m & Hm & Hmr & _).
  destruct (stored_ws s Hs _ _ _ HW) as (_ & _ & m' & Hm' & Hr' & _). naive_solver.
Qed.

Lemma handed_role_new r : hasRole handedStore sk ws r new <-> r = RoleOwner.
Proof.
  unfold handedStore. etransitivity.
  { refine (hasRole_write_user _ _ _ _ _ _ _ _ r _ _ (rolesOf_one ws _ old) (rolesOf_one _ _ _) _).
    intros [=]. done. }
  etransitivity.
  { exact (hasRole_write_self p t [roleTuple ws RoleOwner new] _ (putMembershipLocked newRow s) ws new r [RoleOwner] dels eq_refl eq_refl). }
  rewrite list_elem_of_singleton. split; [|by left]. intros [?|[Hr Hh]]; [done|].
  apply (stored_role s Hs) in Hh as (m & Hm & <- & _). by destruct Hr; apply Hdels.
Qed.

Lemma wsInv_handed : wsInv handedStore.
Proof.
  destruct HWkey as (HWid & HWsk & HWo), Hnew as (Hnr & Hns), Hold as (Hosk & How & Hou & Hor & Hos).
  eapply (wsInv_at s _ sk ws); [done| | | | |done|].
  - do 2 apply storeKeyed_write. apply Hs.
  - apply onlyRoles_write; [|exact (onlyRoles_rolesOf _ _ _ (rolesOf_one _ _ _))].
    apply onlyRoles_write; [apply Hs|exact (onlyRoles_rolesOf _ _ _ (rolesOf_one _ _ _))].
  - intros sk' ws' Hd. split_and!.
    + rewrite handed_ws, decide_False; naive_solver.
    + intros v. rewrite handed_row, !decide_False; naive_solver.
    + intros r v. apply handed_role_other; naive_solver.
  - rewrite handed_ws, decide_True by done.
    destruct (wi_local s Hs sk ws) as [_ Hrows _ Hrole]. split.
    + by intros W0 [= <-].
    + intros v m. rewrite handed_row. case_decide as Hd1; [|case_decide as Hd2].
      * destruct Hd1 as (_ & _ & ->). intros [= <-]. exists W'. split; [done|]. unfold rowOK.
        rewrite Hor, Hosk, How, Hou, HWo. naive_solver.
      * destruct Hd2 as (_ & _ & ->). intros [= <-]. exists W'. split; [done|]. unfold rowOK.
        rewrite Hnr, HWo. split_and!; try done. by left.
      * intros (W0 & HW0 & Hok)%Hrows. rewrite HW in HW0. injection HW0 as <-. exists W'. split; [done|].
        unfold rowOK in *. rewrite HWo. naive_solver.
    + intros W0 [= <-]. rewrite handed_row, HWo. case_decide; [done|]. rewrite decide_True; done.
    + intros r v. rewrite handed_row. destruct (decide (v = old)) as [->|Ho].
      { rewrite decide_True, handed_role_old by done. naive_solver. }
      rewrite decide_False by naive_solver. destruct (decide (v = new)) as [->|Hn].
      { rewrite decide_True, handed_role_new by done. naive_solver. }
      rewrite decide_False, handed_role_other by naive_solver. apply Hrole.
  - by rewrite handed_ws, decide_True.
Qed.
End Transfer.
