(* ===== verification/WorkspaceOps.v ===== *)
(** * The workspace, member, ownership and invitation operations keep [wsInv] *)

From stdpp Require Import base gmap strings list.
From Stdlib Require Import ZArith Lia.
From S2P Require Import Prelude Conditions Model ModelJson Types Text Engine Memory MemoryKeys MemoryTheorems.
From S2P Require Import Token Service ServiceWorkspaces ServiceAuthz ServiceFrame WorkspaceInv WorkspaceSteps.
#[local] Open Scope Z_scope.

(** One row with the role tuples [Ri] added and [Rd] removed. *)
Lemma wsInv_setRole s m W Ri Rd :
  let sk := scope (mb_ProjectID m) (mb_TenantID m) in
  wsInv s -> wsAt s sk (mb_WorkspaceID m) = Some W -> mb_UserID m <> w_OwnerUserID W ->
  grantableRole (mb_Role m) = true -> (mb_Status m = StatusActive \/ mb_Status m = StatusSuspended) ->
  (forall r, ((r ∈ Ri) \/ ((r ∉ Rd) /\ hasRole s sk (mb_WorkspaceID m) r (mb_UserID m)))
             <-> r = mb_Role m /\ mb_Status m = StatusActive) ->
  wsInv (writeTuplesLocked (mb_ProjectID m) (mb_TenantID m)
           ((fun r => roleTuple (mb_WorkspaceID m) r (mb_UserID m)) <$> Ri)
           ((fun r => roleTuple (mb_WorkspaceID m) r (mb_UserID m)) <$> Rd) (putMembershipLocked m s)).
Proof.
  intros sk Hs HW Hu Hg Hst Hr.
  eapply wsInv_putRow; [apply rolesOf_fmap|apply rolesOf_fmap|done|exact HW|done|done|done|].
  intros r. rewrite (hasRole_write_self _ _ _ _ _ _ _ _ Ri Rd eq_refl eq_refl). apply Hr.
Qed.

Lemma rowOK_grantable sk ws W u m :
  rowOK sk ws W u m -> mb_Role m <> RoleOwner -> grantableRole (mb_Role m) = true.
Proof.
  intros (_ & _ & _ & Hv & _) Hr. unfold grantableRole. rewrite Hv. by apply negb_true_iff, String.eqb_neq.
Qed.

Lemma GetMembership_none p t ws u s e :
  (GetMembership p t ws u s).1 = Err e -> rowAt s (scope p t) ws u = None.
Proof. unfold GetMembership, membershipRow, rowAt. by destruct (_ !! u). Qed.

Lemma GetMembership_some p t ws u s m :
  (GetMembership p t ws u s).1 = Ok m -> rowAt s (scope p t) ws u = Some m.
Proof. unfold GetMembership, membershipRow, rowAt. destruct (_ !! u); [|done]. by intros [= ->]. Qed.

Lemma GetInvitation_some p t id s i :
  Ok i = (GetInvitation p t id s).1 -> invAt s (scope p t) id = Some i.
Proof. unfold GetInvitation, invAt. destruct (_ !! id); [|done]. by intros [= ->]. Qed.

Lemma GetInvitationByTokenHash_some `{MapRange} p t h s i :
  Ok i = (GetInvitationByTokenHash p t h s).1 ->
  exists id, invAt s (scope p t) id = Some i /\ inv_TokenHash i = h.
Proof.
  unfold GetInvitationByTokenHash. destruct (List.find _ _) as [i0|] eqn:Hf; [|done]. intros [= ->].
  apply List.find_some in Hf as [Hin Hh%String.eqb_eq]. apply list_elem_of_In, elem_of_rangeValues in Hin as [id Hid].
  by exists id.
Qed.

Lemma membership_facts s p t ws u m :
  wsInv s -> Ok m = (GetMembership p t ws u s).1 ->
  rowAt s (scope p t) ws u = Some m /\ exists W, wsAt s (scope p t) ws = Some W /\ rowOK (scope p t) ws W u m.
Proof. intros Hs Hm. apply eq_sym, GetMembership_some in Hm. split; [done|]. by apply stored_row. Qed.

(** The role or status of a stored row other than the owner's changes. *)
Lemma wsInv_changeRow s p t ws u m role status tm Ri Rd :
  wsInv s -> Ok m = (GetMembership p t ws u s).1 -> mb_Role m <> RoleOwner ->
  grantableRole role = true -> (status = StatusActive \/ status = StatusSuspended) ->
  (forall r, ((r ∈ Ri) \/ ((r ∉ Rd) /\ r = mb_Role m /\ mb_Status m = StatusActive))
             <-> r = role /\ status = StatusActive) ->
  wsInv (writeTuplesLocked (mb_ProjectID m) (mb_TenantID m)
           ((fun r => roleTuple ws r u) <$> Ri) ((fun r => roleTuple ws r u) <$> Rd)
           (putMembershipLocked (membershipWith m role status tm) s)).
Proof.
  intros Hs Hm Hro Hg Hst Hr. destruct (membership_facts s p t ws u m Hs Hm) as (Hrow & W & HW & Hok).
  destruct Hok as (<- & <- & Hsk & Hok). rewrite <-Hsk in *.
  apply (wsInv_setRole s (membershipWith m role status tm) W); try done.
  - eapply (stored_nonowner _ Hs); eauto.
  - intros r. rewrite <-Hr, (stored_role _ Hs). simpl. setoid_rewrite Hrow. naive_solver.
Qed.

Lemma nonowner_grantable s p t ws u m :
  wsInv s -> Ok m = (GetMembership p t ws u s).1 -> mb_Role m <> RoleOwner -> grantableRole (mb_Role m) = true.
Proof. intros Hs Hm. destruct (membership_facts s p t ws u m Hs Hm) as (_ & W & _ & Hok). by eapply rowOK_grantable. Qed.

Lemma status_cases s p t ws u m :
  wsInv s -> Ok m = (GetMembership p t ws u s).1 ->
  mb_Status m = StatusActive \/ mb_Status m = StatusSuspended /\ mb_Role m <> RoleOwner.
Proof. intros Hs Hm. destruct (membership_facts s p t ws u m Hs Hm) as (_ & W & _ & Hok). apply Hok. Qed.

(** A row rewritten under its own key. *)
Lemma UpdateWorkspace_inv s sk ws W W' r s' :
  wsInv s -> wsAt s sk ws = Some W ->
  w_ID W' = w_ID W -> w_ProjectID W' = w_ProjectID W -> w_TenantID W' = w_TenantID W ->
  Memory.UpdateWorkspace W' s = (r, s') -> s' = set_workspaces (put2 sk ws W') s /\ r = Ok tt.
Proof.
  intros Hs HW Hid Hp Ht. destruct (stored_ws _ Hs _ _ _ HW) as (Hw & Hsk & _).
  unfold Memory.UpdateWorkspace. rewrite Hid, Hp, Ht, Hw, Hsk. unfold wsAt in HW. rewrite HW. by intros [= <- <-].
Qed.

Lemma wsInv_rewrite s sk ws W W' r s' :
  wsInv s -> wsAt s sk ws = Some W ->
  w_ID W' = w_ID W -> w_ProjectID W' = w_ProjectID W -> w_TenantID W' = w_TenantID W ->
  w_OwnerUserID W' = w_OwnerUserID W -> Memory.UpdateWorkspace W' s = (r, s') -> wsInv s'.
Proof.
  intros Hs HW Hid Hp Ht Ho Hu. destruct (UpdateWorkspace_inv _ _ _ _ _ _ _ Hs HW Hid Hp Ht Hu) as [-> _].
  destruct (stored_ws _ Hs _ _ _ HW) as (Hw & Hsk & _). rewrite <-Hw, <-Hsk, <-Hid, <-Hp, <-Ht in *.
  by apply (wsInv_update _ W W').
Qed.

Lemma CreateInvitation_store s i r s' :
  wsInv s -> grantableRole (inv_Role i) = true ->
  is_Some (wsAt s (scope (inv_ProjectID i) (inv_TenantID i)) (inv_WorkspaceID i)) ->
  Memory.CreateInvitation i s = (r, s') -> wsInv s'.
Proof.
  intros Hs Hg HW. unfold Memory.CreateInvitation. cbv zeta.
  set (sk := scope _ _) in *. pose proof (wsInv_ensure_invitations s sk Hs) as Hens.
  destruct (_ !! inv_ID i); intros [= <- <-]; [done|]. by apply wsInv_invite.
Qed.

Lemma UpdateInvitation_keeps s i st r s' sk id :
  wsInv s -> invAt s sk id = Some i -> UpdateInvitation (invitationWith i st) s = (r, s') -> wsInv s'.
Proof.
  intros Hs Hi. destruct (wi_inv s Hs _ _ _ Hi) as (<- & <- & Hg & HW). unfold UpdateInvitation. simpl.
  unfold invAt in Hi. rewrite Hi. intros [= <- <-]. by apply (wsInv_invite s (invitationWith i st)).
Qed.

Ltac name_member m Hm :=
  match goal with H : Ok ?x = (GetMembership _ _ _ _ _).1 |- _ => rename x into m; rename H into Hm end.

Section Keeps.
Context `{Sources} `{MapRange} `{TextParsers} (svc : ServiceConfig).

#[local] Abbreviation Keeps := (keeps wsInv).

(** ** Creation *)
Lemma createWorkspaceWithOwner_keeps W : Keeps (createWorkspaceWithOwner W).
Proof.
  apply keeps_intro. intros w r w' Hc Hs. unfold createWorkspaceWithOwner in Hc.
  unfold bind, repo, Memory.CreateWorkspace in Hc. cbv zeta in Hc.
  set (sk := scope (w_ProjectID W) (w_TenantID W)) in *.
  pose proof (wsInv_ensure_workspaces _ sk Hs) as Hens.
  destruct (inner (workspaces (set_workspaces (ensureInner sk) (w_repo w))) sk !! w_ID W) eqn:HW.
  { by injection Hc as _ <-. }
  destruct (String.eqb (w_Type W) TypePersonal && _); [by injection Hc as _ <-|].
  injection Hc as _ <-. simpl in HW. rewrite inner_ensure in HW. by apply wsInv_create.
Qed.

Lemma EnsurePersonalWorkspace_keeps p : Keeps (EnsurePersonalWorkspace p).
Proof.
  unfold EnsurePersonalWorkspace. apply keeps_bind; [apply keeps_reads, _|]. intros [W|err]; [apply keeps_reads, _|].
  apply keeps_if; [apply keeps_reads, _|].
  apply keeps_bind; [apply keeps_reads, _|]. intros t. apply keeps_bind; [apply keeps_reads, _|]. intros id.
  apply keeps_bind; [apply keeps_attempt, createWorkspaceWithOwner_keeps|]. intros [?|e]; apply keeps_reads, _.
Qed.

Lemma CreateWorkspace_keeps p n sl : Keeps (CreateWorkspace svc p n sl).
Proof.
  unfold CreateWorkspace. do 4 (apply keeps_bind; [apply keeps_reads, _|intros ?]).
  apply keeps_bind; [apply createWorkspaceWithOwner_keeps|]. intros _. apply keeps_reads, _.
Qed.

Lemma ListWorkspaces_keeps p : Keeps (ListWorkspaces p).
Proof.
  unfold ListWorkspaces. apply keeps_bind; [apply EnsurePersonalWorkspace_keeps|]. intros _. apply keeps_reads, _.
Qed.

(** ** Members *)
Lemma putMember_keeps p ws u role w r w' W s :
  putMember svc p ws u role w = (r, w') -> w_repo w = s -> wsInv s ->
  wsAt s (scope (pr_ProjectID p) (pr_TenantID p)) ws = Some W ->
  rowAt s (scope (pr_ProjectID p) (pr_TenantID p)) ws u = None ->
  grantableRole role = true -> wsInv (w_repo w').
Proof.
  unfold putMember. intros Hc <- Hs HW Hrow Hg. run.
  apply (wsInv_setRole _ (mkMembership (pr_ProjectID p) (pr_TenantID p) ws u role StatusActive _ _) W
           [role] []); simpl; try done; [|by left|].
  - eapply (stored_nonowner _ Hs); eauto.
  - intros r. rewrite list_elem_of_singleton, (stored_role _ Hs). simpl. naive_solver.
Qed.

Lemma AddMember_keeps p ws u role : Keeps (AddMember svc p ws u role).
Proof.
  apply keeps_intro. unfold AddMember. intros w r w' Hc Hs. run.
  destruct (GetMembership _ _ _ _ _).1 as [m0|e] eqn:Hrow; run. destruct (isNotFound e); simpl in Hc; run.
  eapply putMember_keeps; eauto. by eapply GetMembership_none.
Qed.

Lemma UpdateMemberRole_keeps p ws u role : Keeps (UpdateMemberRole svc p ws u role).
Proof.
  apply keeps_intro. unfold UpdateMemberRole. intros w r w' Hc Hs. run. name_member m Hm.
  destruct (String.eqb_spec (mb_Role m) role) as [?|Hne]; run.
  destruct (status_cases _ _ _ _ _ _ Hs Hm) as [Hst|[? _]]; [|done].
  apply (wsInv_changeRow _ _ _ ws u m role (mb_Status m) _ [role] [mb_Role m] Hs Hm); try done; [by left|].
  intros r. rewrite !list_elem_of_singleton. naive_solver.
Qed.

Lemma SuspendMember_keeps p ws u : Keeps (SuspendMember svc p ws u).
Proof.
  apply keeps_intro. unfold SuspendMember. intros w r w' Hc Hs. run. name_member m Hm.
  destruct (String.eqb_spec (mb_Status m) StatusSuspended) as [?|Hne]; run.
  apply (wsInv_changeRow _ _ _ ws u m (mb_Role m) StatusSuspended _ [] [mb_Role m] Hs Hm);
    eauto using nonowner_grantable.
  intros r. rewrite list_elem_of_singleton. split; [intros [?%not_elem_of_nil|?]; naive_solver|naive_solver].
Qed.

Lemma ReinstateMember_keeps p ws u : Keeps (ReinstateMember svc p ws u).
Proof.
  apply keeps_intro. unfold ReinstateMember. intros w r w' Hc Hs. run. name_member m Hm.
  destruct (String.eqb_spec (mb_Status m) StatusSuspended) as [Hsu|Hne]; simpl in Hc; run.
  destruct (status_cases _ _ _ _ _ _ Hs Hm) as [Hst|[_ Hno]]; [by rewrite Hst in Hsu|].
  apply (wsInv_changeRow _ _ _ ws u m (mb_Role m) StatusActive _ [mb_Role m] [] Hs Hm);
    eauto using nonowner_grantable.
  intros r. rewrite list_elem_of_singleton, Hsu. naive_solver.
Qed.

Lemma RemoveMember_keeps p ws u : Keeps (RemoveMember svc p ws u).
Proof.
  apply keeps_intro. unfold RemoveMember. intros w r w' Hc Hs. run. name_member m Hm.
  destruct (membership_facts _ _ _ _ _ _ Hs Hm) as [Hrow _].
  match goal with Hd : DeleteMembershipAndTuples _ _ _ _ _ _ = _ |- _ =>
    revert Hd; unfold DeleteMembershipAndTuples, bind, deleteMembershipLocked, membershipRow end.
  unfold rowAt in Hrow. rewrite Hrow. intros [= <- <-]. by apply wsInv_remove.
Qed.

(** ** Workspaces *)
Lemma GetWorkspace_keeps p id : Keeps (GetWorkspace svc p id).
Proof. apply keeps_reads, _. Qed.

Lemma UpdateWorkspace_keeps p id name : Keeps (UpdateWorkspace svc p id name).
Proof.
  apply keeps_intro. unfold UpdateWorkspace. intros w r w' Hc Hs. run.
  all: eapply wsInv_rewrite; [exact Hs|exact HW| | | | |eassumption]; done.
Qed.

Lemma DeleteWorkspace_keeps p id : Keeps (DeleteWorkspace svc p id).
Proof.
  apply keeps_intro. unfold DeleteWorkspace. intros w r w' Hc Hs. run.
  match goal with Hd : Memory.DeleteWorkspace _ _ _ _ = _ |- _ => revert Hd; unfold Memory.DeleteWorkspace end.
  rewrite HW. intros [= <- <-]. by apply wsInv_delete.
Qed.

(** ** Invitations *)
Lemma CreateInvitation_keeps p ws email role : Keeps (CreateInvitation svc p ws email role).
Proof.
  apply keeps_intro. unfold CreateInvitation. intros w r w' Hc Hs. run.
  all: eapply CreateInvitation_store; [exact Hs| | |eassumption]; [done|by eexists].
Qed.

Lemma RevokeInvitation_keeps p id : Keeps (RevokeInvitation svc p id).
Proof.
  apply keeps_intro. unfold RevokeInvitation. intros w r w' Hc Hs. run.
  destruct (String.eqb (inv_Status _) InvitePending); run.
  eapply UpdateInvitation_keeps; [exact Hs| |eassumption]. by apply GetInvitation_some.
Qed.

Lemma putMember_invitations p ws u role w r w' :
  putMember svc p ws u role w = (r, w') -> invitations (w_repo w') = invitations (w_repo w).
Proof. unfold putMember. intros Hc. run; congruence. Qed.

Lemma AcceptInvitation_keeps p token : Keeps (AcceptInvitation svc p token).
Proof.
  apply keeps_intro. unfold AcceptInvitation. intros w r w' Hc Hs. run.
  match goal with Hi : Ok ?i = _.1 |- _ =>
    rename i into inv; apply GetInvitationByTokenHash_some in Hi as (id & Hi & _) end.
  destruct (wi_inv _ Hs _ _ _ H3) as (_ & _ & Hg & [W HW]).
  destruct (inv_ExpiresAt inv <? _); run; [by eapply UpdateInvitation_keeps|].
  destruct (GetMembership _ _ _ _ _).1 as [m0|e] eqn:Hrow; run; try by eapply UpdateInvitation_keeps.
  destruct (isNotFound e); simpl in Hc; run.
  all: match goal with Hp : putMember _ _ _ _ _ _ = _ |- _ =>
    pose proof (putMember_invitations _ _ _ _ _ _ _ Hp) as Hinv;
    eapply (putMember_keeps _ _ _ _ _ _ _ W (w_repo w)) in Hp;
      [|by eauto|done|done|by eapply GetMembership_none|done] end; try done.
  all: eapply UpdateInvitation_keeps; [| |eassumption]; [done|]; unfold invAt; rewrite Hinv.
  all: match goal with Hw : w_repo _ = w_repo _ |- _ => rewrite Hw; exact H3 end.
Qed.

(** ** Ownership *)
Lemma GetMembership_row p t ws u s :
  GetMembership p t ws u s
  = (match rowAt s (scope p t) ws u with Some m => Ok m | None => Err ErrNotFound end, s).
Proof. unfold GetMembership, membershipRow, rowAt. by destruct (_ !! u). Qed.

(** What the three writes of a transfer leave behind. *)
Lemma transfer_store s p t ws W W' c d dels tm :
  let newRow := mkMembership p t ws (w_OwnerUserID W') RoleOwner StatusActive c d in
  wsInv s -> wsAt s (scope p t) ws = Some W -> w_OwnerUserID W' <> w_OwnerUserID W ->
  w_ID W' = w_ID W -> w_ProjectID W' = w_ProjectID W -> w_TenantID W' = w_TenantID W ->
  (forall m, rowAt s (scope p t) ws (w_OwnerUserID W') = Some m -> mb_Role m ∈ dels) ->
  let s1 := writeTuplesLocked p t [roleTuple ws RoleOwner (w_OwnerUserID W')]
              ((fun r => roleTuple ws r (w_OwnerUserID W')) <$> dels) (putMembershipLocked newRow s) in
  let s2 := set_workspaces (put2 (scope p t) ws W') s1 in
  Memory.UpdateWorkspace W' s1 = (Ok tt, s2) /\
  exists m, GetMembership p t ws (w_OwnerUserID W) s2 = (Ok m, s2) /\
    wsInv (PutMembershipAndTuples (membershipWith m RoleAdmin (mb_Status m) tm)
             [roleTuple ws RoleAdmin (w_OwnerUserID W)] [roleTuple ws RoleOwner (w_OwnerUserID W)] s2).2.
Proof.
  intros newRow Hs HW Hne Hid Hp Ht Hdels s1 s2.
  destruct (stored_ws _ Hs _ _ _ HW) as (Hwid & Hwsk & m & Hm & Hmr & Hms).
  destruct (stored_row _ Hs _ _ _ _ Hm) as (W0 & HW0 & Hmws & Hmu & Hmsk & _).
  split.
  { unfold Memory.UpdateWorkspace. rewrite Hid, Hp, Ht, Hwid, Hwsk.
    change (workspaces s1) with (workspaces s). unfold wsAt in HW. by rewrite HW. }
  exists m. split.
  - rewrite GetMembership_row. assert (Hr : rowAt s2 (scope p t) ws (w_OwnerUserID W) = Some m); [|by rewrite Hr].
    change (rowAt (putMembershipLocked newRow s) (scope p t) ws (w_OwnerUserID W) = Some m).
    rewrite rowAt_put, decide_False; [done|]. simpl. naive_solver.
  - simpl. rewrite (writeTuplesLocked_scope _ _ p t) by done.
    apply (wsInv_handed s W newRow
             (membershipWith m RoleAdmin (mb_Status m) tm) dels Hs W'); simpl; try done; split_and!; congruence.
Qed.

(** [existing, err := GetMembership(...)] with a missing row accepted. *)
Lemma bind_prior {B} (o : option Membership) (k : option Membership -> St World B) w :
  bind (match match o with Some m => Ok m | None => Err ErrNotFound end with
        | Ok m => ret (Some m)
        | Err err => if isNotFound err then ret None else fail err
        end) k w = k o w.
Proof. by destruct o. Qed.

Lemma priorRole_deletes s sk ws W u :
  wsInv s -> wsAt s sk ws = Some W -> u <> w_OwnerUserID W ->
  let dels := match rowAt s sk ws u with Some m => [mb_Role m] | None => [] end in
  match rowAt s sk ws u with
  | Some m => if negb (String.eqb (mb_Role m) RoleOwner) then [roleTuple ws (mb_Role m) u] else []
  | None => []
  end = (fun r => roleTuple ws r u) <$> dels /\ forall m, rowAt s sk ws u = Some m -> mb_Role m ∈ dels.
Proof.
  intros Hs HW Hne. destruct (rowAt s sk ws u) as [m|] eqn:Hm; [|done].
  destruct (stored_row s Hs _ _ _ _ Hm) as (W' & HW' & _ & _ & _ & _ & Ho & _).
  rewrite (proj2 (String.eqb_neq (mb_Role m) RoleOwner)) by naive_solver. split; [done|].
  intros m' [= <-]. by apply list_elem_of_singleton.
Qed.

Lemma TransferOwnership_keeps p ws u : Keeps (TransferOwnership svc p ws u).
Proof.
  apply keeps_intro. unfold TransferOwnership. intros w r w' Hc Hs. run.
  match goal with HW : _ = Some ?W |- _ => rename W into W0 end.
  destruct (String.eqb_spec u (w_OwnerUserID W0)) as [?|Hne]; [by run|].
  rewrite bind_now, bind_look, GetMembership_row in Hc by apply _.
  set (w1 := (now_ x4).2) in Hc. set (tm := clock _) in Hc.
  assert (Hw1 : w_repo w1 = w_repo w) by done. clearbody w1 tm. rewrite Hw1 in Hc. simpl in Hc.
  rewrite bind_prior in Hc.
  destruct (priorRole_deletes _ _ _ _ _ Hs HW Hne) as [Hd1 Hd2]. rewrite Hd1 in Hc. clear Hd1.
  match type of Hc with context [Memory.UpdateWorkspace ?W'] =>
  match type of Hc with context [mkMembership _ _ _ _ RoleOwner StatusActive ?c ?d] =>
    destruct (transfer_store _ (pr_ProjectID p) (pr_TenantID p) ws W0 W' c d _ tm Hs HW Hne eq_refl eq_refl eq_refl Hd2)
      as [Hupd (m & Hget & Hinv)] end end.
  erewrite bind_repo_ok in Hc by (rewrite Hw1; reflexivity).
  erewrite bind_repo_ok in Hc by exact Hupd.
  rewrite bind_look in Hc by apply _. simpl in Hc. simpl in Hget. rewrite Hget in Hc. simpl in Hc.
  erewrite bind_repo_ok in Hc by reflexivity. injection Hc as _ <-. exact Hinv.
Qed.
End Keeps.
