(* ===== verification/Requests.v ===== *)
(** * Requests: the public operations of the service as one type

    [exec svc req] is the world after a request, whatever it answered.  A
    property of the tuple shards, the seat table and the write sequences that
    the handful of ways to write them keep is kept by every request. *)

From stdpp Require Import base gmap strings list.
From Stdlib Require Import ZArith Lia.
From S2P Require Import Prelude Conditions Model ModelJson Types Text Engine Memory MemoryKeys MemoryTheorems Token.
From S2P Require Import Service ServiceWorkspaces ServiceGroups ServiceProjects ServiceAuthz ServiceFrame.
#[local] Open Scope Z_scope.

Inductive request :=
  (* workspaces.go *)
  | ReqEnsurePersonalWorkspace (p : Principal)
  | ReqCreateWorkspace (p : Principal) (displayName slug : string)
  | ReqGetWorkspace (p : Principal) (id : string)
  | ReqListWorkspaces (p : Principal)
  | ReqUpdateWorkspace (p : Principal) (id displayName : string)
  | ReqDeleteWorkspace (p : Principal) (id : string)
  (* members.go *)
  | ReqAddMember (p : Principal) (workspaceID userID role : string)
  | ReqUpdateMemberRole (p : Principal) (workspaceID userID role : string)
  | ReqRemoveMember (p : Principal) (workspaceID userID : string)
  | ReqListMembers (p : Principal) (workspaceID : string)
  | ReqSuspendMember (p : Principal) (workspaceID userID : string)
  | ReqReinstateMember (p : Principal) (workspaceID userID : string)
  (* ownership.go *)
  | ReqTransferOwnership (p : Principal) (workspaceID newOwnerID : string)
  (* invitations.go *)
  | ReqCreateInvitation (p : Principal) (workspaceID email role : string)
  | ReqAcceptInvitation (p : Principal) (token : string)
  | ReqListInvitations (p : Principal) (workspaceID : string)
  | ReqRevokeInvitation (p : Principal) (invitationID : string)
  (* groups.go *)
  | ReqCreateGroup (p : Principal) (displayName slug workspaceID : string)
  | ReqGetGroup (p : Principal) (id : string)
  | ReqListGroups (p : Principal) (workspaceID : string)
  | ReqDeleteGroup (p : Principal) (id : string)
  | ReqAddGroupMember (p : Principal) (groupID : string) (member : GroupMember)
  | ReqRemoveGroupMember (p : Principal) (groupID : string) (member : GroupMember)
  | ReqListGroupMembers (p : Principal) (groupID : string)
  | ReqSetEnrollmentState (p : Principal) (groupID : string) (member : GroupMember) (state : string)
  | ReqListEnrollments (p : Principal) (groupID : string)
  (* seats.go *)
  | ReqSetSeatLimit (p : Principal) (sku : string) (limit : option Z)
  | ReqSeatUsage (p : Principal) (sku : string)
  | ReqAssignSeat (p : Principal) (sku userID : string)
  | ReqRevokeSeat (p : Principal) (sku userID : string)
  | ReqListSeats (p : Principal) (sku : string)
  (* projects.go *)
  | ReqCreateProject (id name : string) (model : option Model) (dataRegion : string) (maxCheckReads : Z)
  | ReqGetProject (id : string)
  | ReqListProjects
  | ReqUpdateProject (id name status : string) (model : option Model) (dataRegion : string) (clearRegion : bool)
      (maxCheckReads : Z) (clearBudget : bool)
  | ReqEnsureDefaultProject (id : string)
  | ReqEnsureServable (p : Principal)
  (* authz.go, batchcheck.go *)
  | ReqWriteTuples (p : Principal) (ops : list TupleOp)
  | ReqEnsureConsistency (p : Principal) (token : string)
  | ReqReadTuples (p : Principal) (f : TupleFilter)
  | ReqCheck (p : Principal) (namespace objectID relation subjectUserID : string) (reqContext : anymap)
  | ReqCheckSet (p : Principal) (namespace objectID relation : string) (set : SubjectSet) (reqContext : anymap)
  | ReqExpand (p : Principal) (namespace objectID relation : string)
  | ReqListObjects (p : Principal) (namespace relation subjectUserID : string)
  | ReqDeprovisionUser (p : Principal) (userID : string)
  | ReqExportSubjectGrants (p : Principal) (userID : string)
  | ReqBatchCheck (ctxErr : nat -> option error) (p : Principal) (items : list BatchCheckItem).

(** The error of a call, if it failed. *)
Definition errorOf {S A} (c : result A * S) : option error := match c.1 with Ok _ => None | Err e => Some e end.

Section Exec.
Context `{Sources} `{MapRange} `{JsonCodec} `{TextParsers} `{TokenJson} (svc : ServiceConfig).

Definition exec (req : request) (w : World) : World :=
  match req with
  | ReqEnsurePersonalWorkspace p => (EnsurePersonalWorkspace p w).2
  | ReqCreateWorkspace p n sl => (CreateWorkspace svc p n sl w).2
  | ReqGetWorkspace p id => (GetWorkspace svc p id w).2
  | ReqListWorkspaces p => (ListWorkspaces p w).2
  | ReqUpdateWorkspace p id n => (UpdateWorkspace svc p id n w).2
  | ReqDeleteWorkspace p id => (DeleteWorkspace svc p id w).2
  | ReqAddMember p ws u r => (AddMember svc p ws u r w).2
  | ReqUpdateMemberRole p ws u r => (UpdateMemberRole svc p ws u r w).2
  | ReqRemoveMember p ws u => (RemoveMember svc p ws u w).2
  | ReqListMembers p ws => (ListMembers svc p ws w).2
  | ReqSuspendMember p ws u => (SuspendMember svc p ws u w).2
  | ReqReinstateMember p ws u => (ReinstateMember svc p ws u w).2
  | ReqTransferOwnership p ws u => (TransferOwnership svc p ws u w).2
  | ReqCreateInvitation p ws e r => (CreateInvitation svc p ws e r w).2
  | ReqAcceptInvitation p tok => (AcceptInvitation svc p tok w).2
  | ReqListInvitations p ws => (ListInvitations svc p ws w).2
  | ReqRevokeInvitation p id => (RevokeInvitation svc p id w).2
  | ReqCreateGroup p n sl ws => (CreateGroup svc p n sl ws w).2
  | ReqGetGroup p id => (GetGroup p id w).2
  | ReqListGroups p ws => (ListGroups svc p ws w).2
  | ReqDeleteGroup p id => (DeleteGroup svc p id w).2
  | ReqAddGroupMember p g m => (AddGroupMember svc p g m w).2
  | ReqRemoveGroupMember p g m => (RemoveGroupMember svc p g m w).2
  | ReqListGroupMembers p g => (ListGroupMembers p g w).2
  | ReqSetEnrollmentState p g m st => (SetEnrollmentState svc p g m st w).2
  | ReqListEnrollments p g => (ListEnrollments svc p g w).2
  | ReqSetSeatLimit p sku l => (SetSeatLimit svc p sku l w).2
  | ReqSeatUsage p sku => (SeatUsage p sku w).2
  | ReqAssignSeat p sku u => (AssignSeat svc p sku u w).2
  | ReqRevokeSeat p sku u => (RevokeSeat svc p sku u w).2
  | ReqListSeats p sku => (ListSeats p sku w).2
  | ReqCreateProject id n m r b => (CreateProject svc id n m r b w).2
  | ReqGetProject id => (GetProject id w).2
  | ReqListProjects => (ListProjects w).2
  | ReqUpdateProject id n st m r cr b cb => (UpdateProject svc id n st m r cr b cb w).2
  | ReqEnsureDefaultProject id => (EnsureDefaultProject svc id w).2
  | ReqEnsureServable p => (EnsureServable svc p w).2
  | ReqWriteTuples p ops => (WriteTuples svc p ops w).2
  | ReqEnsureConsistency p tok => (EnsureConsistency p tok w).2
  | ReqReadTuples p f => (ReadTuples svc p f w).2
  | ReqCheck p ns o r u cc => (Check svc p ns o r u cc w).2
  | ReqCheckSet p ns o r set cc => (CheckSet svc p ns o r set cc w).2
  | ReqExpand p ns o r => (Expand svc p ns o r w).2
  | ReqListObjects p ns r u => (ListObjects svc p ns r u w).2
  | ReqDeprovisionUser p u => (DeprovisionUser svc p u w).2
  | ReqExportSubjectGrants p u => (ExportSubjectGrants svc p u w).2
  | ReqBatchCheck ctxErr p items => (BatchCheck svc ctxErr p items w).2
  end.

(** The error a request ends with. *)
Definition failure (req : request) (w : World) : option error :=
  match req with
  | ReqEnsurePersonalWorkspace p => errorOf (EnsurePersonalWorkspace p w)
  | ReqCreateWorkspace p n sl => errorOf (CreateWorkspace svc p n sl w)
  | ReqGetWorkspace p id => errorOf (GetWorkspace svc p id w)
  | ReqListWorkspaces p => errorOf (ListWorkspaces p w)
  | ReqUpdateWorkspace p id n => errorOf (UpdateWorkspace svc p id n w)
  | ReqDeleteWorkspace p id => errorOf (DeleteWorkspace svc p id w)
  | ReqAddMember p ws u r => errorOf (AddMember svc p ws u r w)
  | ReqUpdateMemberRole p ws u r => errorOf (UpdateMemberRole svc p ws u r w)
  | ReqRemoveMember p ws u => errorOf (RemoveMember svc p ws u w)
  | ReqListMembers p ws => errorOf (ListMembers svc p ws w)
  | ReqSuspendMember p ws u => errorOf (SuspendMember svc p ws u w)
  | ReqReinstateMember p ws u => errorOf (ReinstateMember svc p ws u w)
  | ReqTransferOwnership p ws u => errorOf (TransferOwnership svc p ws u w)
  | ReqCreateInvitation p ws e r => errorOf (CreateInvitation svc p ws e r w)
  | ReqAcceptInvitation p tok => errorOf (AcceptInvitation svc p tok w)
  | ReqListInvitations p ws => errorOf (ListInvitations svc p ws w)
  | ReqRevokeInvitation p id => errorOf (RevokeInvitation svc p id w)
  | ReqCreateGroup p n sl ws => errorOf (CreateGroup svc p n sl ws w)
  | ReqGetGroup p id => errorOf (GetGroup p id w)
  | ReqListGroups p ws => errorOf (ListGroups svc p ws w)
  | ReqDeleteGroup p id => errorOf (DeleteGroup svc p id w)
  | ReqAddGroupMember p g m => errorOf (AddGroupMember svc p g m w)
  | ReqRemoveGroupMember p g m => errorOf (RemoveGroupMember svc p g m w)
  | ReqListGroupMembers p g => errorOf (ListGroupMembers p g w)
  | ReqSetEnrollmentState p g m st => errorOf (SetEnrollmentState svc p g m st w)
  | ReqListEnrollments p g => errorOf (ListEnrollments svc p g w)
  | ReqSetSeatLimit p sku l => errorOf (SetSeatLimit svc p sku l w)
  | ReqSeatUsage p sku => errorOf (SeatUsage p sku w)
  | ReqAssignSeat p sku u => errorOf (AssignSeat svc p sku u w)
  | ReqRevokeSeat p sku u => errorOf (RevokeSeat svc p sku u w)
  | ReqListSeats p sku => errorOf (ListSeats p sku w)
  | ReqCreateProject id n m r b => errorOf (CreateProject svc id n m r b w)
  | ReqGetProject id => errorOf (GetProject id w)
  | ReqListProjects => errorOf (ListProjects w)
  | ReqUpdateProject id n st m r cr b cb => errorOf (UpdateProject svc id n st m r cr b cb w)
  | ReqEnsureDefaultProject id => errorOf (EnsureDefaultProject svc id w)
  | ReqEnsureServable p => errorOf (EnsureServable svc p w)
  | ReqWriteTuples p ops => errorOf (WriteTuples svc p ops w)
  | ReqEnsureConsistency p tok => errorOf (EnsureConsistency p tok w)
  | ReqReadTuples p f => errorOf (ReadTuples svc p f w)
  | ReqCheck p ns o r u cc => errorOf (Check svc p ns o r u cc w)
  | ReqCheckSet p ns o r set cc => errorOf (CheckSet svc p ns o r set cc w)
  | ReqExpand p ns o r => errorOf (Expand svc p ns o r w)
  | ReqListObjects p ns r u => errorOf (ListObjects svc p ns r u w)
  | ReqDeprovisionUser p u => errorOf (DeprovisionUser svc p u w)
  | ReqExportSubjectGrants p u => errorOf (ExportSubjectGrants svc p u w)
  | ReqBatchCheck ctxErr p items => errorOf (BatchCheck svc ctxErr p items w)
  end.

(** A sequence of requests, one after the other. *)
Definition execs (reqs : list request) (w : World) : World := foldl (fun w req => exec req w) w reqs.

Lemma execs_keeps (I : World -> Prop) (ok : request -> Prop) reqs w :
  (forall req w, ok req -> I w -> I (exec req w)) -> Forall ok reqs -> I w -> I (execs reqs w).
Proof.
  intros Hk Hok. revert w. induction Hok as [|req reqs Hreq _ IH]; intros w Hw; [done|].
  apply IH. by apply Hk.
Qed.
End Exec.
