(* ===== verification/RequestFrame.v ===== *)
(** * Every request keeps what the shard writes keep *)

From stdpp Require Import base gmap strings list.
From Stdlib Require Import ZArith Lia.
From S2P Require Import Prelude Conditions Model ModelJson Types Text Engine Memory MemoryKeys MemoryTheorems Token.
From S2P Require Import Service ServiceWorkspaces ServiceGroups ServiceProjects ServiceAuthz ServiceFrame Requests.
#[local] Open Scope Z_scope.

(** Tuples outside the reserved namespace. *)
Definition foreign (ts : list Tuple) : Prop := Forall (fun x => t_Namespace x <> seatNamespace) ts.

(** A property of the tuple shards, the seat table and the write sequences that
    every way of writing them keeps. *)
Record shardInvariant (I : Store -> Prop) : Prop := {
  si_tables : forall s s', tuples s' = tuples s -> seatAssigns s' = seatAssigns s -> seqs s' = seqs s -> I s -> I s';
  si_write : forall p t ins del s, foreign ins -> foreign del -> I s -> I (writeTuplesLocked p t ins del s);
  si_filter : forall ns id sk s, ns <> seatNamespace -> I s ->
    I (set_seqs (incr sk)
         (set_tuples (alter (filter (fun kv => ~ (t_Namespace kv.2 = ns /\ t_ObjectID kv.2 = id))) sk) s));
  si_assign : forall p t sku u tm s, I s -> I (AssignSeatAndTuple (mkSeatAssignment p t sku u tm) (seatTuple sku u) s).2;
  si_revoke : forall p t sku u s, I s -> I (RevokeSeatAndTuple p t sku u (seatTuple sku u) s).2;
  si_deprovision : forall p u s, I s -> I (DeleteAllSubjectTuplesInProject p u s).2;
}.

Lemma foreign_nil : foreign []. Proof. constructor. Qed.
Lemma foreign_role ws r u : foreign [roleTuple ws r u]. Proof. by repeat constructor. Qed.
Lemma foreign_group g m tu : groupMemberTuple g m = Ok tu -> foreign [tu].
Proof. unfold groupMemberTuple. intros Hg. repeat case_match; simplify_eq; by repeat constructor. Qed.
Lemma foreign_if (b : bool) l l' : foreign l -> foreign l' -> foreign (if b then l else l').
Proof. by destruct b. Qed.
#[export] Hint Resolve foreign_nil foreign_role foreign_if : go.

Section Shard.
Context (I : Store -> Prop) (HI : shardInvariant I).

(** *** Repository calls *)
#[local] Ltac by_tables Hs := eapply (si_tables I HI); [| | |exact Hs]; done.
#[local] Ltac tables := intros s Hs; repeat case_match; simpl; try done; by_tables Hs.

Lemma ks_CreateProject p : keepsStore I (Memory.CreateProject p). Proof. unfold Memory.CreateProject. tables. Qed.
Lemma ks_UpdateProject p : keepsStore I (Memory.UpdateProject p). Proof. unfold Memory.UpdateProject. tables. Qed.
Lemma ks_UpdateWorkspace W : keepsStore I (Memory.UpdateWorkspace W). Proof. unfold Memory.UpdateWorkspace. tables. Qed.
Lemma ks_CreateInvitation i : keepsStore I (Memory.CreateInvitation i). Proof. unfold Memory.CreateInvitation. tables. Qed.
Lemma ks_UpdateInvitation i : keepsStore I (UpdateInvitation i). Proof. unfold UpdateInvitation. tables. Qed.
Lemma ks_CreateGroup g : keepsStore I (Memory.CreateGroup g). Proof. unfold Memory.CreateGroup. tables. Qed.
Lemma ks_SetSeatLimit p t sku l : keepsStore I (Memory.SetSeatLimit p t sku l).
Proof. unfold Memory.SetSeatLimit. tables. Qed.
Lemma ks_CreateWorkspace `{MapRange} W : keepsStore I (Memory.CreateWorkspace W).
Proof. unfold Memory.CreateWorkspace. tables. Qed.

Lemma ks_WriteTuples p t ins del : foreign ins -> foreign del -> keepsStore I (Memory.WriteTuples p t ins del).
Proof. intros Hi Hd s Hs. by apply (si_write I HI). Qed.
Lemma ks_PutMembershipAndTuples m ins del :
  foreign ins -> foreign del -> keepsStore I (PutMembershipAndTuples m ins del).
Proof. intros Hi Hd s Hs. apply (si_write I HI); [done|done|]. by_tables Hs. Qed.
Lemma ks_DeleteMembershipAndTuples p t ws u del : foreign del -> keepsStore I (DeleteMembershipAndTuples p t ws u del).
Proof.
  intros Hd s Hs. unfold DeleteMembershipAndTuples, bind, deleteMembershipLocked. destruct (membershipRow _ _ _ _ _); simpl; [|done].
  apply (si_write I HI); [constructor|done|]. by_tables Hs.
Qed.
Lemma ks_SetEnrollmentAndTuples e ins del :
  foreign ins -> foreign del -> keepsStore I (SetEnrollmentAndTuples e ins del).
Proof. intros Hi Hd s Hs. apply (si_write I HI); [done|done|]. by_tables Hs. Qed.
Lemma ks_DeleteWorkspace p t id : keepsStore I (Memory.DeleteWorkspace p t id).
Proof.
  intros s Hs. unfold Memory.DeleteWorkspace. case_match; simpl; [|done].
  eapply (si_tables I HI); [..|exact (si_filter I HI "workspace" id (scope p t) s ltac:(done) Hs)]; done.
Qed.
Lemma ks_DeleteGroup p t id : keepsStore I (Memory.DeleteGroup p t id).
Proof.
  intros s Hs. unfold Memory.DeleteGroup. case_match; simpl; [|done].
  eapply (si_tables I HI); [..|exact (si_filter I HI "group" id (scope p t) s ltac:(done) Hs)]; done.
Qed.
Lemma ks_AssignSeat p t sku u tm : keepsStore I (AssignSeatAndTuple (mkSeatAssignment p t sku u tm) (seatTuple sku u)).
Proof. intros s. apply (si_assign I HI). Qed.
Lemma ks_RevokeSeat p t sku u : keepsStore I (RevokeSeatAndTuple p t sku u (seatTuple sku u)).
Proof. intros s. apply (si_revoke I HI). Qed.
Lemma ks_Deprovision p u : keepsStore I (DeleteAllSubjectTuplesInProject p u).
Proof. intros s. apply (si_deprovision I HI). Qed.
End Shard.

#[export] Hint Resolve ks_CreateProject ks_UpdateProject ks_UpdateWorkspace ks_CreateInvitation ks_UpdateInvitation
  ks_CreateGroup ks_SetSeatLimit ks_CreateWorkspace ks_WriteTuples ks_PutMembershipAndTuples
  ks_DeleteMembershipAndTuples ks_SetEnrollmentAndTuples ks_DeleteWorkspace ks_DeleteGroup ks_AssignSeat
  ks_RevokeSeat ks_Deprovision : go.

(** Tuples that pass validation are outside the reserved namespace. *)
Lemma validateTuple_foreign `{TextParsers} t : validateTuple t = Ok tt -> t_Namespace t <> seatNamespace.
Proof.
  unfold validateTuple, rguard. cbv zeta. intros Hv Hns. rewrite Hns in Hv. simpl in Hv.
  by destruct (negb _) in Hv.
Qed.

Lemma splitOps_foreign `{TextParsers} ops ins del : splitOps ops = Ok (ins, del) -> foreign ins /\ foreign del.
Proof.
  revert ins del. induction ops as [|op ops IH]; intros ins del; simpl.
  { intros [= <- <-]. split; constructor. }
  intros ([] & Hv%validateTuple_foreign & ([i d] & Hs & Heq)%rbind_inv_ok)%rbind_inv_ok.
  destruct (IH _ _ Hs) as [Hi Hd].
  destruct (op_Delete op); simplify_eq; split; by try constructor.
Qed.

Section Requests.
Context `{Sources} `{MapRange} `{JsonCodec} `{TextParsers} `{TokenJson} (svc : ServiceConfig).
Context (I : Store -> Prop) (HI : shardInvariant I).

Lemma keeps_EnsurePersonalWorkspace p : keeps I (EnsurePersonalWorkspace p).
Proof. unfold EnsurePersonalWorkspace, createWorkspaceWithOwner. keeps; eauto with go. Qed.

Lemma keeps_groupTuple {A} g m (k : Tuple -> St World A) :
  (forall tu, foreign [tu] -> keeps I (k tu)) -> keeps I (bind (lift (groupMemberTuple g m)) k).
Proof.
  intros Hk. destruct (groupMemberTuple g m) as [tu|e] eqn:Hg; [|intros w Hw; done].
  intros w Hw. apply Hk; [|done]. by eapply foreign_group.
Qed.

Lemma keeps_AddGroupMember p g m : keeps I (AddGroupMember svc p g m).
Proof.
  unfold AddGroupMember. do 3 (apply keeps_bind; [apply keeps_reads; unfold requireGroupManager; apply _|intros ?]).
  apply keeps_groupTuple. intros tu Htu. keeps; eauto with go.
Qed.
Lemma keeps_RemoveGroupMember p g m : keeps I (RemoveGroupMember svc p g m).
Proof.
  unfold RemoveGroupMember. do 2 (apply keeps_bind; [apply keeps_reads; unfold requireGroupManager; apply _|intros ?]).
  apply keeps_groupTuple. intros tu Htu. keeps; eauto with go.
Qed.
Lemma keeps_SetEnrollmentState p g m st : keeps I (SetEnrollmentState svc p g m st).
Proof.
  unfold SetEnrollmentState. do 2 (apply keeps_bind; [apply keeps_reads; apply _|intros ?]).
  apply keeps_groupTuple. intros tu Htu. unfold requireGroupManager. keeps; eauto with go.
Qed.

Lemma keeps_lift_ok {A B} (a : A) (k : A -> St World B) : keeps I (k a) -> keeps I (bind (lift (Ok a)) k).
Proof. done. Qed.

Lemma keeps_WriteTuples p ops : keeps I (WriteTuples svc p ops).
Proof.
  unfold WriteTuples. destruct (splitOps ops) as [[ins del]|e] eqn:Hs; [|by intros w Hw].
  destruct (splitOps_foreign _ _ _ Hs) as [Hi Hd]. apply keeps_lift_ok. keeps; eauto with go.
Qed.

Lemma keeps_EnsureDefaultProject id : keeps I (EnsureDefaultProject svc id).
Proof. unfold EnsureDefaultProject, CreateProject, audit. keeps; eauto with go. Qed.

Lemma Reads_BatchCheck ctxErr p items : Reads (BatchCheck svc ctxErr p items).
Proof.
  unfold BatchCheck. generalize 0%nat. induction items as [|it items IH]; intros i; simpl; [apply _|].
  destruct (ctxErr i); [apply _|]. unfold batchItem. specialize (IH (S i)). apply _.
Qed.

Lemma keeps_TransferOwnership p ws u : keeps I (TransferOwnership svc p ws u).
Proof.
  unfold TransferOwnership. keeps; eauto with go.
  apply ks_PutMembershipAndTuples; [done|apply foreign_role|].
  match goal with |- foreign (match ?o with Some _ => _ | None => _ end) => destruct o end; eauto with go.
Qed.

(** Every request keeps the property. *)
Lemma exec_keeps_shard req : keeps I (fun w => (Ok tt, exec svc req w)).
Proof.
  assert (Hk : forall {A} (c : St World A), keeps I c -> keeps I (fun w => (Ok tt, (c w).2))) by done.
  destruct req; apply Hk;
    first [ apply keeps_reads; apply _ | apply keeps_EnsurePersonalWorkspace | apply keeps_AddGroupMember
          | apply keeps_RemoveGroupMember | apply keeps_SetEnrollmentState | apply keeps_WriteTuples
          | apply keeps_EnsureDefaultProject | apply keeps_TransferOwnership | idtac ].
  all: try (apply keeps_reads, Reads_BatchCheck).
  all: unfold CreateWorkspace, ListWorkspaces, UpdateWorkspace, DeleteWorkspace, AddMember, UpdateMemberRole,
    RemoveMember, SuspendMember, ReinstateMember, CreateInvitation, AcceptInvitation, RevokeInvitation, CreateGroup,
    DeleteGroup, SetSeatLimit, AssignSeat, RevokeSeat, CreateProject, UpdateProject, DeprovisionUser,
    ExportSubjectGrants, putMember, createWorkspaceWithOwner, requireGroupManager, audit.
  all: cbv zeta; keeps; eauto using keeps_EnsurePersonalWorkspace with go.
Qed.

Lemma execs_keeps_shard reqs w : I (w_repo w) -> I (w_repo (execs svc reqs w)).
Proof.
  apply (execs_keeps svc (fun w => I (w_repo w)) (fun _ => True)); [|by apply Forall_true].
  intros req w0 _. exact (exec_keeps_shard req w0).
Qed.
End Requests.
