(* ===== verification/Serve.v ===== *)
(** * RPCs as one type, and what they may do to the service

    [serve] runs an RPC.  Every RPC is a client of the
    service: what it does to the world is a sequence of service requests made with
    the principal of the call, so what holds of all request sequences holds of a
    server that is driven through its RPCs. *)

From stdpp Require Import base gmap strings list.
From Stdlib Require Import ZArith Lia Ascii.
From S2P Require Import Prelude Conditions Model ModelJson Types Text Engine Expand Memory RateLimit Middleware Wire Token.
From S2P Require Import Service ServiceWorkspaces ServiceGroups ServiceProjects ServiceAuthz ServiceFrame Requests ModelJsonTheorems.
From S2P Require Import Handler HandlerRpc.
#[local] Open Scope Z_scope.

Section Types.
Context `{JsonCodec} `{ProtoTypes}.

(** RPCs that act for a user. *)
Inductive actingRpc :=
  | RpcCreateWorkspace (displayName slug : string)
  | RpcGetWorkspace (workspaceId : string)
  | RpcListWorkspaces
  | RpcUpdateWorkspace (workspaceId displayName : string)
  | RpcTransferOwnership (workspaceId newOwnerUserId : string)
  | RpcDeleteWorkspace (workspaceId : string)
  | RpcAddMember (workspaceId userId : string) (role : PRole)
  | RpcUpdateMemberRole (workspaceId userId : string) (role : PRole)
  | RpcRemoveMember (workspaceId userId : string)
  | RpcSuspendMember (workspaceId userId : string)
  | RpcReinstateMember (workspaceId userId : string)
  | RpcListMembers (workspaceId : string)
  | RpcCreateInvitation (workspaceId email : string) (role : PRole)
  | RpcAcceptInvitation (token : string)
  | RpcListInvitations (workspaceId : string)
  | RpcRevokeInvitation (invitationId : string)
  | RpcCreateGroup (displayName slug workspaceId : string)
  | RpcGetGroup (groupId : string)
  | RpcListGroups (workspaceId : string)
  | RpcDeleteGroup (groupId : string)
  | RpcAddGroupMember (groupId : string) (member : option (option PGroupMember))
  | RpcRemoveGroupMember (groupId : string) (member : option (option PGroupMember))
  | RpcSetEnrollmentState (groupId : string) (member : option (option PGroupMember)) (state : PEnrollmentState)
  | RpcListEnrollments (groupId : string)
  | RpcListGroupMembers (groupId : string).

(** RPCs of a project and tenant. *)
Inductive scopedRpc :=
  | RpcSetSeatLimit (sku : string) (limit : option Z)
  | RpcGetSeatUsage (sku : string)
  | RpcAssignSeat (sku userId : string)
  | RpcRevokeSeat (sku userId : string)
  | RpcListSeats (sku : string)
  | RpcWriteRelationTuples (updates : list (PTupleOp * option RelationTuple))
  | RpcReadRelationTuples (atLeast : string) (f : TupleFilter)
  | RpcCheck (atLeast namespace objectId relation subjectUserId : string) (subjectSet : option PSubjectSet)
      (context : option Struct)
  | RpcExpand (atLeast namespace objectId relation : string)
  | RpcListObjects (atLeast namespace relation subjectUserId : string)
  | RpcDeprovisionUser (userId : string)
  | RpcBatchCheck (ctxErr : nat -> option error) (atLeast : string) (items : list BatchCheckItem).

Inductive adminRpc :=
  | RpcCreateProject (id name : string) (modelJson : option JsonText) (dataRegion : string) (maxCheckReads : Z)
  | RpcGetProject (id : string)
  | RpcUpdateProject (id name : string) (status : PProjectStatus) (modelJson : option JsonText)
      (dataRegion : string) (clearDataRegion : bool) (maxCheckReads : Z) (clearMaxCheckReads : bool)
  | RpcListProjects.

Inductive rpc :=
  | Acting (actingUserId projectId tenantId : string) (r : actingRpc)
  | Scoped (projectId tenantId : string) (r : scopedRpc)
  | Export (projectId userId : string)
  | Admin (r : adminRpc).

(** What a response carries. *)
Inductive reply :=
  | RepEmpty (u : unit)
  | RepWorkspace (w : PWorkspace)
  | RepWorkspaces (ws : list PWorkspace)
  | RepMembership (m : PMembership)
  | RepMemberships (ms : list PMembership)
  | RepInvitation (i : PInvitation)
  | RepInvitations (invs : list PInvitation)
  | RepGroup (g : PGroup)
  | RepGroups (gs : list PGroup)
  | RepGroupMembers (ms : list PGroupMember)
  | RepEnrollment (e : PEnrollment)
  | RepEnrollments (es : list PEnrollment)
  | RepSeatLimit (l : string * option Z)
  | RepSeatUsage (u : SeatUsage_)
  | RepAssigned (added : bool)
  | RepSeats (seats : list (string * string * Timestamp))
  | RepToken (token : string)
  | RepTuples (ts : list RelationTuple)
  | RepAllowed (allowed : bool)
  | RepTree (t : UsersetTree)
  | RepObjects (ids : list string)
  | RepRemoved (n : Z)
  | RepResults (rs : list BatchCheckResult)
  | RepGrants (gs : list SubjectGrant)
  | RepProject (p : PProject)
  | RepProjects (ps : list PProject).
End Types.

Section Serve.
Context `{Sources} `{MapRange} `{JsonCodec} `{TextParsers} `{TokenJson} `{ProtoTypes} `{LimiterEnv}.
Context (h : Handler).

Definition replyWith {A} (f : A -> reply) (c : St HState A) : St HState reply := let! a := c in ret (f a).

Definition serveActing (ctx : Ctx) (u p t : string) (r : actingRpc) : St HState reply :=
  match r with
  | RpcCreateWorkspace n sl => replyWith RepWorkspace (CreateWorkspace h ctx u p t n sl)
  | RpcGetWorkspace id => replyWith RepWorkspace (GetWorkspace h ctx u p t id)
  | RpcListWorkspaces => replyWith RepWorkspaces (ListWorkspaces h ctx u p t)
  | RpcUpdateWorkspace id n => replyWith RepWorkspace (UpdateWorkspace h ctx u p t id n)
  | RpcTransferOwnership id o => replyWith RepWorkspace (TransferOwnership h ctx u p t id o)
  | RpcDeleteWorkspace id => replyWith RepEmpty (DeleteWorkspace h ctx u p t id)
  | RpcAddMember ws v r => replyWith RepMembership (AddMember h ctx u p t ws v r)
  | RpcUpdateMemberRole ws v r => replyWith RepMembership (UpdateMemberRole h ctx u p t ws v r)
  | RpcRemoveMember ws v => replyWith RepEmpty (RemoveMember h ctx u p t ws v)
  | RpcSuspendMember ws v => replyWith RepMembership (SuspendMember h ctx u p t ws v)
  | RpcReinstateMember ws v => replyWith RepMembership (ReinstateMember h ctx u p t ws v)
  | RpcListMembers ws => replyWith RepMemberships (ListMembers h ctx u p t ws)
  | RpcCreateInvitation ws e r => replyWith RepInvitation (CreateInvitation h ctx u p t ws e r)
  | RpcAcceptInvitation tok => replyWith RepMembership (AcceptInvitation h ctx u p t tok)
  | RpcListInvitations ws => replyWith RepInvitations (ListInvitations h ctx u p t ws)
  | RpcRevokeInvitation id => replyWith RepEmpty (RevokeInvitation h ctx u p t id)
  | RpcCreateGroup n sl ws => replyWith RepGroup (CreateGroup h ctx u p t n sl ws)
  | RpcGetGroup id => replyWith RepGroup (GetGroup h ctx u p t id)
  | RpcListGroups ws => replyWith RepGroups (ListGroups h ctx u p t ws)
  | RpcDeleteGroup id => replyWith RepEmpty (DeleteGroup h ctx u p t id)
  | RpcAddGroupMember g m => replyWith RepEmpty (AddGroupMember h ctx u p t g m)
  | RpcRemoveGroupMember g m => replyWith RepEmpty (RemoveGroupMember h ctx u p t g m)
  | RpcSetEnrollmentState g m st => replyWith RepEnrollment (SetEnrollmentState h ctx u p t g m st)
  | RpcListEnrollments g => replyWith RepEnrollments (ListEnrollments h ctx u p t g)
  | RpcListGroupMembers g => replyWith RepGroupMembers (ListGroupMembers h ctx u p t g)
  end.

Definition serveScoped (ctx : Ctx) (p t : string) (r : scopedRpc) : St HState reply :=
  match r with
  | RpcSetSeatLimit sku l => replyWith RepSeatLimit (SetSeatLimit h ctx p t sku l)
  | RpcGetSeatUsage sku => replyWith RepSeatUsage (GetSeatUsage h ctx p t sku)
  | RpcAssignSeat sku u => replyWith RepAssigned (AssignSeat h ctx p t sku u)
  | RpcRevokeSeat sku u => replyWith RepEmpty (RevokeSeat h ctx p t sku u)
  | RpcListSeats sku => replyWith RepSeats (ListSeats h ctx p t sku)
  | RpcWriteRelationTuples us => replyWith RepToken (WriteRelationTuples h ctx p t us)
  | RpcReadRelationTuples tok f => replyWith RepTuples (ReadRelationTuples h ctx p t tok f)
  | RpcCheck tok ns o r u set c => replyWith RepAllowed (Check h ctx p t tok ns o r u set c)
  | RpcExpand tok ns o r => replyWith RepTree (Expand h ctx p t tok ns o r)
  | RpcListObjects tok ns r u => replyWith RepObjects (ListObjects h ctx p t tok ns r u)
  | RpcDeprovisionUser u => replyWith RepRemoved (DeprovisionUser h ctx p t u)
  | RpcBatchCheck ctxErr tok items => replyWith RepResults (BatchCheck h ctx p t ctxErr tok items)
  end.

Definition serveAdmin (req : HttpRequest) (r : adminRpc) : St HState reply :=
  match r with
  | RpcCreateProject id n m dr b => replyWith RepProject (CreateProject h req id n m dr b)
  | RpcGetProject id => replyWith RepProject (GetProject h req id)
  | RpcUpdateProject id n st m dr cr b cb => replyWith RepProject (UpdateProject h req id n st m dr cr b cb)
  | RpcListProjects => replyWith RepProjects (ListProjects h req)
  end.

Definition serve (req : HttpRequest) (ctx : Ctx) (r : rpc) : St HState reply :=
  match r with
  | Acting u p t r => serveActing ctx u p t r
  | Scoped p t r => serveScoped ctx p t r
  | Export p u => replyWith RepGrants (ExportSubjectGrants h ctx p u)
  | Admin r => serveAdmin req r
  end.

(** A run: each RPC with the HTTP request and the context it came with. *)
Definition serves (calls : list (HttpRequest * Ctx * rpc)) (s : HState) : HState :=
  foldl (fun s c => (serve c.1.1 c.1.2 c.2 s).2) s calls.
End Serve.

(** ** The principal of a request *)
Definition requestPrincipal (req : request) : option Principal :=
  match req with
  | ReqEnsurePersonalWorkspace p | ReqCreateWorkspace p _ _ | ReqGetWorkspace p _ | ReqListWorkspaces p
  | ReqUpdateWorkspace p _ _ | ReqDeleteWorkspace p _ | ReqAddMember p _ _ _ | ReqUpdateMemberRole p _ _ _
  | ReqRemoveMember p _ _ | ReqListMembers p _ | ReqSuspendMember p _ _ | ReqReinstateMember p _ _
  | ReqTransferOwnership p _ _ | ReqCreateInvitation p _ _ _ | ReqAcceptInvitation p _ | ReqListInvitations p _
  | ReqRevokeInvitation p _ | ReqCreateGroup p _ _ _ | ReqGetGroup p _ | ReqListGroups p _ | ReqDeleteGroup p _
  | ReqAddGroupMember p _ _ | ReqRemoveGroupMember p _ _ | ReqListGroupMembers p _ | ReqSetEnrollmentState p _ _ _
  | ReqListEnrollments p _ | ReqSetSeatLimit p _ _ | ReqSeatUsage p _ | ReqAssignSeat p _ _ | ReqRevokeSeat p _ _
  | ReqListSeats p _ | ReqEnsureServable p | ReqWriteTuples p _ | ReqEnsureConsistency p _ | ReqReadTuples p _
  | ReqCheck p _ _ _ _ _ | ReqCheckSet p _ _ _ _ _ | ReqExpand p _ _ _ | ReqListObjects p _ _ _
  | ReqDeprovisionUser p _ | ReqExportSubjectGrants p _ | ReqBatchCheck _ p _ => Some p
  | ReqCreateProject _ _ _ _ _ | ReqGetProject _ | ReqListProjects | ReqUpdateProject _ _ _ _ _ _ _ _
  | ReqEnsureDefaultProject _ => None
  end.

(** ** What an RPC asks of the service

    The principal the transport builds, and the one request the message stands
    for; [None] when the message does not convert. *)
Section Translation.
Context `{Sources} `{MapRange} `{JsonCodec} `{TextParsers} `{TokenJson} `{ProtoTypes}.
Context (h : Handler) (ctx : Ctx).

Definition rpcPrincipal (r : rpc) : option Principal :=
  match r with
  | Acting u p t _ => Some (mkPrincipal u (callerProject h ctx p) (tenantOr h t) (ci_Name (CallerFrom ctx)))
  | Scoped p t _ => Some (mkPrincipal "" (callerProject h ctx p) (tenantOr h t) (ci_Name (CallerFrom ctx)))
  | Export p _ => Some (mkPrincipal "" (callerProject h ctx p) (tenantOr h "") (ci_Name (CallerFrom ctx)))
  | Admin _ => None
  end.

Definition withOk {A} (r : result A) (f : A -> request) : option request :=
  match r with Ok a => Some (f a) | Err _ => None end.

Definition actingRequest (q : Principal) (r : actingRpc) : option request :=
  match r with
  | RpcCreateWorkspace n sl => Some (ReqCreateWorkspace q n sl)
  | RpcGetWorkspace id => Some (ReqGetWorkspace q id)
  | RpcListWorkspaces => Some (ReqListWorkspaces q)
  | RpcUpdateWorkspace id n => Some (ReqUpdateWorkspace q id n)
  | RpcTransferOwnership id o => Some (ReqTransferOwnership q id o)
  | RpcDeleteWorkspace id => Some (ReqDeleteWorkspace q id)
  | RpcAddMember ws v ro => Some (ReqAddMember q ws v (roleFromProto ro))
  | RpcUpdateMemberRole ws v ro => Some (ReqUpdateMemberRole q ws v (roleFromProto ro))
  | RpcRemoveMember ws v => Some (ReqRemoveMember q ws v)
  | RpcSuspendMember ws v => Some (ReqSuspendMember q ws v)
  | RpcReinstateMember ws v => Some (ReqReinstateMember q ws v)
  | RpcListMembers ws => Some (ReqListMembers q ws)
  | RpcCreateInvitation ws e ro => Some (ReqCreateInvitation q ws e (roleFromProto ro))
  | RpcAcceptInvitation tok => Some (ReqAcceptInvitation q tok)
  | RpcListInvitations ws => Some (ReqListInvitations q ws)
  | RpcRevokeInvitation id => Some (ReqRevokeInvitation q id)
  | RpcCreateGroup n sl ws => Some (ReqCreateGroup q n sl ws)
  | RpcGetGroup id => Some (ReqGetGroup q id)
  | RpcListGroups ws => Some (ReqListGroups q ws)
  | RpcDeleteGroup id => Some (ReqDeleteGroup q id)
  | RpcAddGroupMember g m => withOk (groupMemberFromProto m) (ReqAddGroupMember q g)
  | RpcRemoveGroupMember g m => withOk (groupMemberFromProto m) (ReqRemoveGroupMember q g)
  | RpcSetEnrollmentState g m st =>
      withOk (rbind (groupMemberFromProto m) (fun m => rbind (enrollmentStateFromProto st) (fun st => Ok (m, st))))
        (fun ms => ReqSetEnrollmentState q g ms.1 ms.2)
  | RpcListEnrollments g => Some (ReqListEnrollments q g)
  | RpcListGroupMembers g => Some (ReqListGroupMembers q g)
  end.

Definition scopedRequest (q : Principal) (r : scopedRpc) : option request :=
  match r with
  | RpcSetSeatLimit sku l => Some (ReqSetSeatLimit q sku l)
  | RpcGetSeatUsage sku => Some (ReqSeatUsage q sku)
  | RpcAssignSeat sku u => Some (ReqAssignSeat q sku u)
  | RpcRevokeSeat sku u => Some (ReqRevokeSeat q sku u)
  | RpcListSeats sku => Some (ReqListSeats q sku)
  | RpcWriteRelationTuples us => withOk (rmap opFromProto us) (ReqWriteTuples q)
  | RpcReadRelationTuples _ f => Some (ReqReadTuples q f)
  | RpcCheck _ ns o r u set c =>
      Some match set with
           | Some set => ReqCheckSet q ns o r (setFromProto set) (structMap c)
           | None => ReqCheck q ns o r u (structMap c)
           end
  | RpcExpand _ ns o r => Some (ReqExpand q ns o r)
  | RpcListObjects _ ns r u => Some (ReqListObjects q ns r u)
  | RpcDeprovisionUser u => Some (ReqDeprovisionUser q u)
  | RpcBatchCheck ctxErr _ items => Some (ReqBatchCheck ctxErr q items)
  end.

Definition adminRequest (r : adminRpc) : option request :=
  match r with
  | RpcCreateProject id n m dr b => withOk (modelFromJSON m) (fun m => ReqCreateProject id n m dr b)
  | RpcGetProject id => Some (ReqGetProject id)
  | RpcUpdateProject id n st m dr cr b cb =>
      withOk (modelFromJSON m) (fun m => ReqUpdateProject id n (projectStatusFromProto st) m dr cr b cb)
  | RpcListProjects => Some ReqListProjects
  end.

(** The consistency guard of the RPCs that take a token. *)
Definition scopedConsistency (q : Principal) (r : scopedRpc) : option request :=
  match r with
  | RpcReadRelationTuples tok _ | RpcCheck tok _ _ _ _ _ _ | RpcExpand tok _ _ _ | RpcListObjects tok _ _ _
  | RpcBatchCheck _ tok _ => Some (ReqEnsureConsistency q tok)
  | _ => None
  end.

(** What an RPC asks of the service, in order: the residency guard, the
    consistency guard, and its own request. *)
Definition rpcScript (r : rpc) : list request :=
  match r, rpcPrincipal r with
  | Acting _ _ _ a, Some q => ReqEnsureServable q :: option_list (actingRequest q a)
  | Scoped _ _ a, Some q => ReqEnsureServable q :: option_list (scopedConsistency q a) ++ option_list (scopedRequest q a)
  | Export _ u, Some q => [ReqEnsureServable q; ReqExportSubjectGrants q u]
  | Admin a, _ => option_list (adminRequest a)
  | _, None => []
  end.
End Translation.

(** ** Every RPC runs its script *)
Section Client.
Context `{Sources} `{MapRange} `{JsonCodec} `{TextParsers} `{TokenJson} `{ProtoTypes} `{LimiterEnv}.
Context (h : Handler).
#[local] Abbreviation svc := (h_svc h).

(** The codes the handlers refuse a request with on their own; the last two are
    of the admin gate. *)
Definition refusalCodes (admin : bool) : list Code :=
  [CodeInvalidArgument; CodeResourceExhausted] ++ if admin then [CodeUnimplemented; CodeUnauthenticated] else [].

Section Own.
Context (admin : bool).

(** The errors that are not of the service: refusals, and projects that do not
    convert. *)
Definition ownError (e : error) : Prop :=
  (exists code text, code ∈ refusalCodes admin /\ e = ErrConnect code (ErrPlain text)) \/
  (exists p err, projectToProto p = Err err /\ e = errToConnect err).

(** [ran] ended with [e]: its last request failed, and [e] wraps that failure. *)
Definition endedWith (ran : list request) (w : World) (e : error) : Prop :=
  exists before req cause, ran = before ++ [req] /\ failure svc req (execs svc before w) = Some cause /\ e = errToConnect cause.

(** [c] changes the world as a prefix of [script] does; a call that succeeds ran
    all of it, and a call that fails did so on its own or with its last request. *)
Definition Client {A} (script : list request) (c : St HState A) : Prop :=
  forall s, exists k, h_world (c s).2 = execs svc (take k script) (h_world s) /\
    (forall a, (c s).1 = Ok a -> (length script <= k)%nat) /\
    forall e, (c s).1 = Err e -> ownError e \/ endedWith (take k script) (h_world s) e.

Lemma Client_silent {A} (c : St HState A) :
  (forall s, h_world (c s).2 = h_world s) -> (forall s e, (c s).1 = Err e -> ownError e) -> Client [] c.
Proof. intros Hc He s. exists 0%nat. split_and!; [apply Hc|simpl; lia|]. eauto. Qed.

(** A call that cannot succeed does not get to its script. *)
Lemma Client_stuck {A} l (c : St HState A) e : ownError e -> (forall s, c s = (Err e, s)) -> Client l c.
Proof. intros He Hc s. exists 0%nat. rewrite Hc. split_and!; [done..|]. intros ? [= <-]. by left. Qed.

Lemma refusal code text : code ∈ refusalCodes admin -> ownError (ErrConnect code (ErrPlain text)).
Proof. intros Hc. left. eauto. Qed.
Lemma invalidArgument_own text : ownError (ErrConnect CodeInvalidArgument (ErrPlain text)).
Proof. apply refusal. unfold refusalCodes. set_solver. Qed.

Lemma Client_ret {A} (a : A) : Client [] (ret a). Proof. by apply Client_silent. Qed.
Lemma Client_lift {A} (r : result A) : (forall e, r = Err e -> ownError e) -> Client [] (lift r).
Proof. intros Hr. by apply Client_silent. Qed.
Lemma Client_guard b code text : code ∈ refusalCodes admin -> Client [] (guard b (ErrConnect code (ErrPlain text))).
Proof.
  intros Hc. apply Client_silent; [by destruct b|]. intros s e. destruct b; [done|]. intros [= <-]. by apply refusal.
Qed.
Lemma Client_metrics f : Client [] (modify (set_metrics f)). Proof. by apply Client_silent. Qed.

(** What does not convert is refused. *)
Lemma groupMember_own m e : groupMemberFromProto m = Err e -> ownError e.
Proof. destruct m as [[[]|]|]; simpl; intros [= <-]; apply invalidArgument_own. Qed.
Lemma enrollmentState_own st e : enrollmentStateFromProto st = Err e -> ownError e.
Proof. destruct st; simpl; intros [= <-]; apply invalidArgument_own. Qed.
Lemma model_own m e : modelFromJSON m = Err e -> ownError e.
Proof.
  destruct m as [m|]; simpl; [|done]. destruct (ParseModel m) as [|e'] eqn:E; [done|]. intros [= <-].
  apply ParseModel_text in E as [text ->]. apply invalidArgument_own.
Qed.
Lemma subject_own s e : subjectFromProto s = Err e -> ownError e.
Proof. destruct s as [[[[| [|] |[]]|]]|]; simpl; intros [= <-]; apply invalidArgument_own. Qed.
Lemma op_own u e : opFromProto u = Err e -> ownError e.
Proof.
  unfold opFromProto, tupleFromProto. destruct u as [op [t|]]; simpl; [|intros [= <-]; apply invalidArgument_own].
  destruct (subjectFromProto (rt_Subject t)) as [sj|e'] eqn:E; simpl; [|intros [= <-]; by eapply subject_own].
  destruct op; intros [= <-]; apply invalidArgument_own.
Qed.
Lemma ops_own us e : rmap opFromProto us = Err e -> ownError e.
Proof. intros (u & _ & Hu)%rmap_err. by eapply op_own. Qed.

(** The projects of a reply. *)
Lemma Client_project p : Client [] (projectReply p).
Proof.
  apply Client_lift. intros e. destruct (projectToProto p) as [|err] eqn:Ep; [done|]. intros [= <-]. right. eauto.
Qed.
Lemma Client_projects ps :
  Client [] (lift (match rmap projectToProto ps with Ok pbs => Ok pbs | Err err => Err (errToConnect err) end)).
Proof.
  apply Client_lift. intros e. destruct (rmap projectToProto ps) as [|err] eqn:Ep; [done|]. intros [= <-].
  apply rmap_err in Ep as (p & _ & Hp). right. eauto.
Qed.

Lemma execs_take_app l l' k w :
  execs svc (take (length l + k) (l ++ l')) w = execs svc (take k l') (execs svc l w).
Proof. rewrite take_app_add. unfold execs. by rewrite foldl_app. Qed.

(** What a call always returns is what the rest of it runs with. *)
Lemma Client_known {A B} l l' (c : St HState A) (k : A -> St HState B) (Q : A -> Prop) :
  Client l c -> (forall s a s', c s = (Ok a, s') -> Q a) -> (forall a, Q a -> Client l' (k a)) -> Client (l ++ l') (bind c k).
Proof.
  intros Hc HQ Hk s. unfold bind. destruct (Hc s) as (n & Heq & Hn & He). destruct (c s) as [[a|e] s1] eqn:Hs; simpl in *.
  - destruct (Hk a (HQ _ _ _ Hs) s1) as (m & Heq' & Hm & He'). rewrite (take_ge l n) in Heq by eauto.
    exists (length l + m)%nat. split_and!.
    + by rewrite execs_take_app, Heq', Heq.
    + intros b Hb. rewrite length_app. specialize (Hm b Hb). lia.
    + intros e Hf. destruct (He' e Hf) as [|(before & req & cause & Hran & Hfl & ->)]; [by left|right].
      exists (l ++ before), req, cause. rewrite take_app_add, Hran, app_assoc. split_and!; [done| |done].
      unfold execs. rewrite foldl_app. fold (execs svc l (h_world s)). by rewrite <-Heq.
  - assert (Ht : take (Nat.min n (length l)) (l ++ l') = take n l).
    { rewrite take_app_le by lia. destruct (decide (n <= length l)%nat); [by rewrite Nat.min_l by lia|].
      by rewrite Nat.min_r, !take_ge by lia. }
    exists (Nat.min n (length l)). rewrite Ht. split_and!; [done..|]. intros ? [= <-]. by apply He.
Qed.

Lemma Client_bind {A B} l l' (c : St HState A) (k : A -> St HState B) :
  Client l c -> (forall a, Client l' (k a)) -> Client (l ++ l') (bind c k).
Proof. intros Hc Hk. by apply (Client_known _ _ _ _ (fun _ => True)). Qed.

Lemma Client_skip {A B} l (c : St HState A) (k : A -> St HState B) :
  Client [] c -> (forall a, Client l (k a)) -> Client l (bind c k).
Proof. apply (Client_bind [] l). Qed.

Lemma Client_reply {A} l (f : A -> reply) (c : St HState A) : Client l c -> Client l (replyWith f c).
Proof. intros Hc. rewrite <-(app_nil_r l). apply Client_bind; [done|]. intros ?. apply Client_ret. Qed.

Lemma Client_lift_bind {A B} l (r : result A) (k : A -> St HState B) :
  (forall e, r = Err e -> ownError e) -> (forall a, r = Ok a -> Client l (k a)) -> Client l (bind (lift r) k).
Proof. intros He Hk. destruct r as [a|e]; [|eapply Client_stuck; [by apply He|done]]. intros s. by apply Hk. Qed.

Lemma Client_observed {A} l n (c : St HState A) : Client l c -> Client l (observed n c).
Proof. intros Hc s. destruct (Hc s) as (k & Heq & Hk). exists k. unfold observed. by destruct (c s). Qed.

Lemma Client_limiter ad key : Client [] (limiterAllow ad key).
Proof.
  apply Client_silent; intros s; unfold limiterAllow; (destruct (if ad then _ else _); [|done]);
    destruct (allowLocked _ _ _ _); by destruct ad.
Qed.

(** A service call is one request; a handler that looks at its error and fails
    itself is that request too. *)
Definition asks {A} (c : St World A) (req : request) : Prop :=
  forall w, (c w).2 = exec svc req w /\ errorOf (c w) = failure svc req w.

Lemma Client_handled {A B} (c : St World A) (f : A -> B) (d : error -> St HState B) req :
  asks c req -> (forall e s, (d e s).1 = Err (errToConnect e) /\ h_world (d e s).2 = h_world s) ->
  Client [req] (bind (attempt (raw c)) (fun r => match r with Ok a => ret (f a) | Err e => d e end)).
Proof.
  intros Hc Hd s. exists 1%nat. unfold bind, attempt, raw. simpl. destruct (Hc (h_world s)) as [Hw Hf].
  destruct (c (h_world s)) as [[a|e] w]; simpl in *; [split_and!; [done|lia|done]|].
  destruct (Hd e (set_world w s)) as [-> ->]. split_and!; [done..|]. intros ? [= <-]. right. by exists [], req, e.
Qed.

Lemma Client_call {A} (c : St World A) req : asks c req -> Client [req] (call c).
Proof. intros Hc. by apply (Client_handled _ (fun a => a)). Qed.

Lemma Client_counted {A} n (c : St World A) req : asks c req -> Client [req] (counted n c).
Proof. intros Hc. by apply (Client_handled _ (fun a => a)). Qed.

(** Guards: conditions and limiters in a row. *)
#[local] Ltac refused := apply Client_guard; unfold refusalCodes; destruct admin; try discriminate; set_solver.
#[local] Ltac guards := repeat (apply Client_skip; [first [refused|apply Client_limiter]|intros ?]); refused.

Lemma Client_tenantRate ctx p t : Client [] (requireTenantRate h ctx p t).
Proof. unfold requireTenantRate, validateScopeIDs. guards. Qed.
Lemma Client_rpcRate ctx p n : Client [] (requireRPCRate h ctx p n).
Proof. unfold requireRPCRate, validateScopeIDs. guards. Qed.
Lemma Client_requireAdmin req : admin = true -> Client [] (requireAdmin h req).
Proof. intros Had. unfold requireAdmin. guards. Qed.

Lemma Client_ensureServable p : Client [ReqEnsureServable p] (ensureServable h p).
Proof.
  apply (Client_handled _ (fun _ => tt) (fun err => do! (if errors_Is err ErrRegionNotServable then modify (set_metrics recordRegionRefused) else ret tt) in
      fail (errToConnect err))); [done|]. intros e s. by destruct (errors_Is e ErrRegionNotServable).
Qed.

Lemma Client_acting {A} l ctx u p t (k : Principal -> St HState A) :
  let q := mkPrincipal u (callerProject h ctx p) (tenantOr h t) (ci_Name (CallerFrom ctx)) in
  Client l (k q) -> Client (ReqEnsureServable q :: l) (bind (acting h ctx u p t) k).
Proof.
  intros q Hk. apply (Client_known [ReqEnsureServable q] l _ _ (fun q' => q' = q)); [| |by intros ? ->].
  - unfold acting, validateScopeIDs. apply Client_skip; [refused|intros _]. apply Client_skip; [refused|intros _].
    apply (Client_bind [_] []); [apply Client_ensureServable|intros _; apply Client_ret].
  - intros s q' s' (? & ? & _ & (? & ? & _ & (? & ? & _ & [= <- _])%bind_inv_ok)%bind_inv_ok)%bind_inv_ok. done.
Qed.

Lemma Client_scoped {A} l ctx p t (k : Principal -> St HState A) :
  let q := mkPrincipal "" (callerProject h ctx p) (tenantOr h t) (ci_Name (CallerFrom ctx)) in
  Client l (k q) -> Client (ReqEnsureServable q :: l) (bind (scoped h ctx p t) k).
Proof.
  intros q Hk. apply (Client_known [ReqEnsureServable q] l _ _ (fun q' => q' = q)); [| |by intros ? ->].
  - unfold scoped, validateScopeIDs. apply Client_skip; [refused|intros _].
    apply (Client_bind [_] []); [apply Client_ensureServable|intros _; apply Client_ret].
  - intros s q' s' (? & ? & _ & (? & ? & _ & [= <- _])%bind_inv_ok)%bind_inv_ok. done.
Qed.
End Own.
End Client.

Create HintDb own.
#[export] Hint Resolve groupMember_own enrollmentState_own model_own ops_own : own.

(** The request that a service call is. *)
Ltac request_of c :=
  lazymatch c with
  | ServiceWorkspaces.EnsurePersonalWorkspace ?p => constr:(ReqEnsurePersonalWorkspace p)
  | ServiceWorkspaces.CreateWorkspace _ ?p ?n ?sl => constr:(ReqCreateWorkspace p n sl)
  | ServiceWorkspaces.GetWorkspace _ ?p ?id => constr:(ReqGetWorkspace p id)
  | ServiceWorkspaces.ListWorkspaces ?p => constr:(ReqListWorkspaces p)
  | ServiceWorkspaces.UpdateWorkspace _ ?p ?id ?n => constr:(ReqUpdateWorkspace p id n)
  | ServiceWorkspaces.DeleteWorkspace _ ?p ?id => constr:(ReqDeleteWorkspace p id)
  | ServiceWorkspaces.AddMember _ ?p ?ws ?u ?r => constr:(ReqAddMember p ws u r)
  | ServiceWorkspaces.UpdateMemberRole _ ?p ?ws ?u ?r => constr:(ReqUpdateMemberRole p ws u r)
  | ServiceWorkspaces.RemoveMember _ ?p ?ws ?u => constr:(ReqRemoveMember p ws u)
  | ServiceWorkspaces.ListMembers _ ?p ?ws => constr:(ReqListMembers p ws)
  | ServiceWorkspaces.SuspendMember _ ?p ?ws ?u => constr:(ReqSuspendMember p ws u)
  | ServiceWorkspaces.ReinstateMember _ ?p ?ws ?u => constr:(ReqReinstateMember p ws u)
  | ServiceWorkspaces.TransferOwnership _ ?p ?ws ?u => constr:(ReqTransferOwnership p ws u)
  | ServiceWorkspaces.CreateInvitation _ ?p ?ws ?e ?r => constr:(ReqCreateInvitation p ws e r)
  | ServiceWorkspaces.AcceptInvitation _ ?p ?tok => constr:(ReqAcceptInvitation p tok)
  | ServiceWorkspaces.ListInvitations _ ?p ?ws => constr:(ReqListInvitations p ws)
  | ServiceWorkspaces.RevokeInvitation _ ?p ?id => constr:(ReqRevokeInvitation p id)
  | ServiceGroups.CreateGroup _ ?p ?n ?sl ?ws => constr:(ReqCreateGroup p n sl ws)
  | ServiceGroups.GetGroup ?p ?id => constr:(ReqGetGroup p id)
  | ServiceGroups.ListGroups _ ?p ?ws => constr:(ReqListGroups p ws)
  | ServiceGroups.DeleteGroup _ ?p ?id => constr:(ReqDeleteGroup p id)
  | ServiceGroups.AddGroupMember _ ?p ?g ?m => constr:(ReqAddGroupMember p g m)
  | ServiceGroups.RemoveGroupMember _ ?p ?g ?m => constr:(ReqRemoveGroupMember p g m)
  | ServiceGroups.ListGroupMembers ?p ?g => constr:(ReqListGroupMembers p g)
  | ServiceGroups.SetEnrollmentState _ ?p ?g ?m ?st => constr:(ReqSetEnrollmentState p g m st)
  | ServiceGroups.ListEnrollments _ ?p ?g => constr:(ReqListEnrollments p g)
  | ServiceGroups.SetSeatLimit _ ?p ?sku ?l => constr:(ReqSetSeatLimit p sku l)
  | ServiceGroups.SeatUsage ?p ?sku => constr:(ReqSeatUsage p sku)
  | ServiceGroups.AssignSeat _ ?p ?sku ?u => constr:(ReqAssignSeat p sku u)
  | ServiceGroups.RevokeSeat _ ?p ?sku ?u => constr:(ReqRevokeSeat p sku u)
  | ServiceGroups.ListSeats ?p ?sku => constr:(ReqListSeats p sku)
  | ServiceProjects.CreateProject _ ?id ?n ?m ?r ?b => constr:(ReqCreateProject id n m r b)
  | ServiceProjects.GetProject ?id => constr:(ReqGetProject id)
  | ServiceProjects.ListProjects => constr:(ReqListProjects)
  | ServiceProjects.UpdateProject _ ?id ?n ?st ?m ?r ?cr ?b ?cb => constr:(ReqUpdateProject id n st m r cr b cb)
  | ServiceProjects.EnsureDefaultProject _ ?id => constr:(ReqEnsureDefaultProject id)
  | ServiceAuthz.WriteTuples _ ?p ?ops => constr:(ReqWriteTuples p ops)
  | ServiceAuthz.EnsureConsistency ?p ?tok => constr:(ReqEnsureConsistency p tok)
  | ServiceAuthz.ReadTuples _ ?p ?f => constr:(ReqReadTuples p f)
  | ServiceAuthz.Check _ ?p ?ns ?o ?r ?u ?cc => constr:(ReqCheck p ns o r u cc)
  | ServiceAuthz.CheckSet _ ?p ?ns ?o ?r ?set ?cc => constr:(ReqCheckSet p ns o r set cc)
  | ServiceAuthz.Expand _ ?p ?ns ?o ?r => constr:(ReqExpand p ns o r)
  | ServiceAuthz.ListObjects _ ?p ?ns ?r ?u => constr:(ReqListObjects p ns r u)
  | ServiceAuthz.DeprovisionUser _ ?p ?u => constr:(ReqDeprovisionUser p u)
  | ServiceAuthz.ExportSubjectGrants _ ?p ?u => constr:(ReqExportSubjectGrants p u)
  | ServiceAuthz.BatchCheck _ ?ctxErr ?p ?items => constr:(ReqBatchCheck ctxErr p items)
  end.

(** A call that leaves the world alone. *)
Ltac client_silent :=
  first [apply Client_ret | apply Client_guard; unfold refusalCodes; set_solver | apply Client_metrics
        | apply Client_tenantRate | apply Client_rpcRate | apply Client_requireAdmin; reflexivity].

(** A call of the service. *)
Ltac client_call :=
  lazymatch goal with
  | |- Client _ _ _ (call ?c) => let req := request_of c in apply (Client_call _ _ _ req); by intros ?
  | |- Client _ _ _ (counted _ ?c) => let req := request_of c in apply (Client_counted _ _ _ _ req); by intros ?
  end.

(** Split a handler into its calls, along its script. *)
Ltac client_step :=
  lazymatch goal with
  | |- Client _ _ _ (bind (acting _ _ _ _ _) _) => apply Client_acting
  | |- Client _ _ _ (bind (scoped _ _ _ _) _) => apply Client_scoped
  | |- Client _ _ _ (bind (lift _) _) =>
      apply Client_lift_bind; [eauto with own|let Hr := fresh in intros ? Hr; rewrite ?Hr; simpl]
  | |- Client _ _ _ (bind _ _) =>
      first [apply Client_skip; [client_silent|intros ?]
            | lazymatch goal with |- Client _ _ (?req :: ?l) _ => apply (Client_bind _ _ [req] l); [client_call|intros ?] end]
  | |- Client _ _ _ (observed _ _) => apply Client_observed
  | |- Client _ _ _ (projectReply _) => apply Client_project
  | |- Client _ _ _ (lift _) => apply Client_projects
  | |- _ => first [client_silent | client_call]
  end.

(** The definition of the RPC behind [replyWith]. *)
Ltac open_rpc := lazymatch goal with |- Client _ _ _ (replyWith _ ?c) => let c' := eval red in c in change c with c' end.

Section Refines.
Context `{Sources} `{MapRange} `{JsonCodec} `{TextParsers} `{TokenJson} `{ProtoTypes} `{LimiterEnv}.
Context (h : Handler).

Definition isAdmin (r : rpc) : bool := match r with Admin _ => true | _ => false end.

Lemma serve_client req ctx r : Client h (isAdmin r) (rpcScript h ctx r) (serve h req ctx r).
Proof.
  destruct r as [u p t r|p t r|p u|r]; [destruct r|destruct r| |destruct r]; cbn [serve serveActing serveScoped serveAdmin].
  all: lazymatch goal with |- context [Check _ _ _ _ _ _ _ _ _ ?set _] => destruct set | _ => idtac end.
  all: open_rpc; apply Client_reply; simpl; repeat client_step.
Qed.

(** A run of RPCs is a run of requests. *)
Lemma serves_execs calls s :
  exists reqs, h_world (serves h calls s) = execs (h_svc h) reqs (h_world s).
Proof.
  revert s. induction calls as [|[[req ctx] r] calls IH]; intros s; [by exists []|].
  destruct (serve_client req ctx r s) as (k & Heq & _). simpl.
  destruct (IH (serve h req ctx r s).2) as [reqs' Heq']. exists (take k (rpcScript h ctx r) ++ reqs').
  rewrite Heq', Heq. unfold execs. by rewrite foldl_app.
Qed.
End Refines.
