(* ===== verification/Isolation.v ===== *)
(** * Projects are isolated from each other

    A request only changes the shards of its principal's project.  Operations that
    write a row they read before write it where it was found: every stored row
    carries the project and tenant of its shard. *)

From stdpp Require Import base gmap strings list.
From Stdlib Require Import ZArith Lia.
From S2P Require Import Prelude Conditions Model ModelJson Types Text Engine Memory MemoryKeys MemoryTheorems Token.
From S2P Require Import Service ServiceWorkspaces ServiceGroups ServiceProjects ServiceAuthz ServiceFrame Requests.
From S2P Require Import RequestFrame WorkspaceInv WorkspaceSteps Serve.
#[local] Open Scope Z_scope.

(** ** Rows are where they say

    [loc2 l m]: each row of a table of shards lies in the shard [l] gives for it;
    [loc3] is the same for a table with one more level. *)
Section Located.
Context {B : Type} (l : B -> string).

Definition loc2 (m : gmap string (gmap string B)) : Prop :=
  forall sk id x, inner m sk !! id = Some x -> l x = sk.
Definition loc3 (m : gmap string (gmap string (gmap string B))) : Prop :=
  forall sk j id x, inner (inner m sk) j !! id = Some x -> l x = sk.

Lemma loc2_ensure k m : loc2 m -> loc2 (ensureInner k m).
Proof. intros Hm sk id x. rewrite inner_ensure. apply Hm. Qed.

Lemma loc2_put k j x m : l x = k -> loc2 m -> loc2 (put2 k j x m).
Proof.
  intros Hx Hm sk id y. rewrite lookup_put2. case_decide as Hd; [|apply Hm].
  destruct Hd as [-> ->]. by intros [= <-].
Qed.

Lemma loc2_alter f k m : (forall (n : gmap string B) id x, f n !! id = Some x -> n !! id = Some x) -> loc2 m -> loc2 (alter f k m).
Proof.
  intros Hf Hm sk id x. destruct (decide (k = sk)) as [<-|Hne]; [|rewrite inner_alter_ne by done; apply Hm].
  unfold inner. rewrite lookup_alter_eq. destruct (m !! k) as [n|] eqn:Hk; simpl; [|done].
  intros Hx%Hf. apply (Hm k id). unfold inner. by rewrite Hk.
Qed.

Lemma loc3_put k j i x m : l x = k -> loc3 m -> loc3 (<[k := put2 j i x (inner m k)]> m).
Proof.
  intros Hx Hm sk j' id y. rewrite lookup_put3. case_decide as Hd; [|apply Hm].
  destruct Hd as (-> & -> & ->). by intros [= <-].
Qed.

Lemma loc3_del1 k j m : loc3 m -> loc3 (alter (delete j) k m).
Proof.
  intros Hm sk j' id x. destruct (decide (k = sk)) as [<-|Hne]; [|rewrite inner_alter_ne by done; apply Hm].
  rewrite inner_alter by apply delete_empty. destruct (decide (j = j')) as [<-|Hj].
  - unfold inner at 1. by rewrite lookup_delete_eq.
  - intros Hx. apply (Hm k j' id x). revert Hx. unfold inner at 1 3. by rewrite lookup_delete_ne.
Qed.

Lemma loc3_del2 k j i m : loc3 m -> loc3 (alter (alter (delete i) j) k m).
Proof. intros Hm sk j' id x. rewrite lookup_del3. case_decide; [done|apply Hm]. Qed.
End Located.

#[local] Abbreviation wsAt := (fun W => scope (w_ProjectID W) (w_TenantID W)).
#[local] Abbreviation mbAt := (fun m => scope (mb_ProjectID m) (mb_TenantID m)).
#[local] Abbreviation invAt := (fun i => scope (inv_ProjectID i) (inv_TenantID i)).
#[local] Abbreviation enAt := (fun e => scope (en_ProjectID e) (en_TenantID e)).

Record located (s : Store) : Prop := mkLocated {
  lo_workspaces : loc2 wsAt (workspaces s);
  lo_memberships : loc3 mbAt (memberships s);
  lo_invitations : loc2 invAt (invitations s);
  lo_enrollments : loc3 enAt (enrollments s);
}.

(** ** Shards outside [own] are left alone *)
Record agreeAt (sk : string) (s s0 : Store) : Prop := mkAgreeAt {
  aa_workspaces : workspaces s !! sk = workspaces s0 !! sk;
  aa_memberships : memberships s !! sk = memberships s0 !! sk;
  aa_invitations : invitations s !! sk = invitations s0 !! sk;
  aa_groups : groups s !! sk = groups s0 !! sk;
  aa_enrollments : enrollments s !! sk = enrollments s0 !! sk;
  aa_seatLimits : seatLimits s !! sk = seatLimits s0 !! sk;
  aa_seatAssigns : seatAssigns s !! sk = seatAssigns s0 !! sk;
  aa_tuples : tuples s !! sk = tuples s0 !! sk;
  aa_seqs : seqs s !! sk = seqs s0 !! sk;
}.

Section Isolation.
Context (own : string -> bool) (s0 : Store).

Record sameOutside (s : Store) : Prop := mkSameOutside {
  so_projects : projects s = projects s0;
  so_shards : forall sk, own sk = false -> agreeAt sk s s0;
}.

Definition isolated (s : Store) : Prop := located s /\ sameOutside s.

(** A change of one table that only touches shards of [own]. *)
Class Within {B} (f : gmap string B -> gmap string B) : Prop :=
  within : forall m sk, own sk = false -> f m !! sk = m !! sk.

Section Keys.
Context (k : string) (Hk : own k = true).

Lemma own_ne sk : own sk = false -> k <> sk. Proof. intros Hsk ->. congruence. Qed.

Lemma Within_insert {B} (g : gmap string B -> B) : Within (fun m => <[k := g m]> m).
Proof. intros m sk Hsk. by rewrite lookup_insert_ne by by apply own_ne. Qed.
Lemma Within_alter {B} (g : B -> B) : Within (alter g k).
Proof. intros m sk Hsk. by rewrite lookup_alter_ne by by apply own_ne. Qed.
Lemma Within_const {B} (x : B) : Within (insert k x). Proof. apply (Within_insert (fun _ => x)). Qed.
Lemma Within_ensure {B} : Within (ensureInner (B := B) k). Proof. apply (Within_insert (fun m => inner m k)). Qed.
Lemma Within_put2 {B} j (x : B) : Within (put2 k j x). Proof. apply (Within_insert (fun m => <[j := x]> (inner m k))). Qed.
Lemma Within_incr : Within (incr k). Proof. apply (Within_insert (fun m => default 0 (m !! k) + 1)). Qed.
End Keys.

#[local] Ltac same_set := intros Hf [Hp Hs]; split; [done|]; intros sk Hsk; destruct (Hs sk Hsk); split; simpl; auto; by rewrite (Hf _ _ Hsk).
Lemma same_workspaces f s : Within f -> sameOutside s -> sameOutside (set_workspaces f s). Proof. same_set. Qed.
Lemma same_memberships f s : Within f -> sameOutside s -> sameOutside (set_memberships f s). Proof. same_set. Qed.
Lemma same_invitations f s : Within f -> sameOutside s -> sameOutside (set_invitations f s). Proof. same_set. Qed.
Lemma same_groups f s : Within f -> sameOutside s -> sameOutside (set_groups f s). Proof. same_set. Qed.
Lemma same_enrollments f s : Within f -> sameOutside s -> sameOutside (set_enrollments f s). Proof. same_set. Qed.
Lemma same_seatLimits f s : Within f -> sameOutside s -> sameOutside (set_seatLimits f s). Proof. same_set. Qed.
Lemma same_seatAssigns f s : Within f -> sameOutside s -> sameOutside (set_seatAssigns f s). Proof. same_set. Qed.
Lemma same_tuples f s : Within f -> sameOutside s -> sameOutside (set_tuples f s). Proof. same_set. Qed.
Lemma same_seqs f s : Within f -> sameOutside s -> sameOutside (set_seqs f s). Proof. same_set. Qed.
End Isolation.

Create HintDb iso.
#[export] Hint Resolve Within_insert Within_alter Within_const Within_ensure Within_put2 Within_incr
  same_workspaces same_memberships same_invitations same_groups same_enrollments same_seatLimits same_seatAssigns
  same_tuples same_seqs : iso.
#[export] Hint Resolve loc2_ensure loc2_put loc3_put loc3_del1 loc3_del2 : iso.

(** ** The repository *)
Section Store.
Context (own : string -> bool) (s0 : Store).
#[local] Abbreviation isolated := (isolated own s0).

Lemma iso_write p t ins del s : own (scope p t) = true -> isolated s -> isolated (writeTuplesLocked p t ins del s).
Proof.
  intros Ho [[? ? ? ?] Hs]. split; [by split|]. unfold writeTuplesLocked. auto with iso.
Qed.

Lemma iso_putMembership m s : own (scope (mb_ProjectID m) (mb_TenantID m)) = true -> isolated s -> isolated (putMembershipLocked m s).
Proof.
  intros Ho [[? Hm ? ?] Hs]. unfold putMembershipLocked. split; [split; simpl; auto with iso|].
  apply same_memberships; [|done]. by apply (Within_insert own _ Ho (fun ms => put2 (mb_WorkspaceID m) (mb_UserID m) m (inner ms _))).
Qed.

#[local] Ltac iso_op := intros s [[? ? ? ?] Hs]; repeat case_match; simpl; (split; [split; simpl; auto with iso|auto 10 with iso]).

Lemma iso_CreateWorkspace `{MapRange} W : own (wsAt W) = true -> keepsStore isolated (Memory.CreateWorkspace W).
Proof. intros Ho. unfold Memory.CreateWorkspace. iso_op. Qed.
Lemma iso_UpdateWorkspace W : own (wsAt W) = true -> keepsStore isolated (Memory.UpdateWorkspace W).
Proof. intros Ho. unfold Memory.UpdateWorkspace. iso_op. Qed.
Lemma iso_CreateInvitation i : own (invAt i) = true -> keepsStore isolated (Memory.CreateInvitation i).
Proof. intros Ho. unfold Memory.CreateInvitation. iso_op. Qed.
Lemma iso_UpdateInvitation i : own (invAt i) = true -> keepsStore isolated (UpdateInvitation i).
Proof. intros Ho. unfold UpdateInvitation. iso_op. Qed.
Lemma iso_CreateGroup g : own (scope (g_ProjectID g) (g_TenantID g)) = true -> keepsStore isolated (Memory.CreateGroup g).
Proof. intros Ho. unfold Memory.CreateGroup. iso_op. Qed.
Lemma iso_SetSeatLimit p t sku l : own (scope p t) = true -> keepsStore isolated (Memory.SetSeatLimit p t sku l).
Proof. intros Ho. unfold Memory.SetSeatLimit. destruct l; iso_op. Qed.
Lemma iso_WriteTuples p t ins del : own (scope p t) = true -> keepsStore isolated (Memory.WriteTuples p t ins del).
Proof. intros Ho s Hs. by apply iso_write. Qed.
Lemma iso_PutMembershipAndTuples m ins del : own (mbAt m) = true -> keepsStore isolated (PutMembershipAndTuples m ins del).
Proof. intros Ho s Hs. by apply iso_write, iso_putMembership. Qed.
Lemma iso_DeleteMembershipAndTuples p t ws u del :
  own (scope p t) = true -> keepsStore isolated (DeleteMembershipAndTuples p t ws u del).
Proof.
  intros Ho s [[? ? ? ?] Hs]. unfold DeleteMembershipAndTuples, bind, deleteMembershipLocked.
  destruct (membershipRow _ _ _ _ _); simpl; [|by split]. apply iso_write; [done|].
  split; [split; simpl; auto with iso|auto with iso].
Qed.
Lemma iso_SetEnrollmentAndTuples e ins del : own (enAt e) = true -> keepsStore isolated (SetEnrollmentAndTuples e ins del).
Proof.
  intros Ho s [[? ? ? ?] Hs]. apply iso_write; [done|]. split; [split; simpl; auto with iso|]. apply same_enrollments; [|done].
  apply (Within_insert own _ Ho (fun es => put2 (en_GroupID e) (memberKeyString (en_Member e)) e (inner es _))).
Qed.
Lemma iso_DeleteWorkspace p t id : own (scope p t) = true -> keepsStore isolated (Memory.DeleteWorkspace p t id).
Proof.
  intros Ho s [[? ? ? ?] Hs]. unfold Memory.DeleteWorkspace. case_match; simpl; [|by split].
  split; [split; simpl; auto with iso|auto 10 with iso].
  - apply loc2_alter; [|done]. intros n k x. destruct (decide (id = k)) as [<-|]; [by rewrite lookup_delete_eq|by rewrite lookup_delete_ne].
  - apply loc2_alter; [|done]. by intros n k x [? _]%map_lookup_filter_Some.
Qed.
Lemma iso_DeleteGroup p t id : own (scope p t) = true -> keepsStore isolated (Memory.DeleteGroup p t id).
Proof. intros Ho. unfold Memory.DeleteGroup. iso_op. Qed.
Lemma iso_AssignSeat a tu :
  own (scope (sa_ProjectID a) (sa_TenantID a)) = true -> keepsStore isolated (AssignSeatAndTuple a tu).
Proof.
  intros Ho s [[? ? ? ?] Hs]. unfold AssignSeatAndTuple. cbv zeta.
  assert (He : isolated (set_seatAssigns (fun m => <[scope (sa_ProjectID a) (sa_TenantID a) := ensureInner (sa_SKU a) (inner m (scope (sa_ProjectID a) (sa_TenantID a)))]> m) s)).
  { split; [by split|]. apply same_seatAssigns; [|done]. by apply (Within_insert own _ Ho (fun m => ensureInner (sa_SKU a) (inner m _))). }
  destruct (_ !! _); simpl; [by apply iso_write|].
  destruct (match inner (seatLimits s) _ !! sa_SKU a with Some n => _ | None => false end); simpl; [done|].
  apply iso_write; [done|]. destruct He as [[? ? ? ?] ?]. split; [by split|]. apply same_seatAssigns; [|done].
  by apply (Within_insert own _ Ho (fun m => put2 (sa_SKU a) (sa_UserID a) a (inner m _))).
Qed.
Lemma iso_RevokeSeat p t sku u tu : own (scope p t) = true -> keepsStore isolated (RevokeSeatAndTuple p t sku u tu).
Proof. intros Ho s [[? ? ? ?] Hs]. apply iso_write; [done|]. split; [by split|]. auto with iso. Qed.
Lemma iso_Deprovision p u :
  (forall sk, inProject p sk = true -> own sk = true) -> keepsStore isolated (DeleteAllSubjectTuplesInProject p u).
Proof.
  intros Ho s [[? ? ? ?] Hs]. split; [by split|]. simpl.
  assert (Hout : forall {B} (f : string -> B -> B) (m : gmap string B) sk, (forall x, own sk = false -> f sk x = x) ->
            own sk = false -> map_imap (fun sk x => Some (f sk x)) m !! sk = m !! sk).
  { intros B f m sk Hf Hsk. rewrite map_lookup_imap. destruct (m !! sk); simpl; [by rewrite Hf|done]. }
  assert (Hnot : forall sk, own sk = false -> inProject p sk = false).
  { intros sk Hsk. destruct (inProject p sk) eqn:E; [|done]. apply Ho in E. congruence. }
  apply same_seatAssigns; [|apply same_tuples; [|done]]; intros m sk Hsk; apply (Hout _ (fun sk x => if inProject p sk then _ else _)); [|done| |done];
    intros x Hx; by rewrite Hnot.
Qed.
End Store.

#[export] Hint Resolve iso_CreateWorkspace iso_UpdateWorkspace iso_CreateInvitation iso_UpdateInvitation iso_CreateGroup
  iso_SetSeatLimit iso_WriteTuples iso_PutMembershipAndTuples iso_DeleteMembershipAndTuples iso_SetEnrollmentAndTuples
  iso_DeleteWorkspace iso_DeleteGroup iso_AssignSeat iso_RevokeSeat iso_Deprovision : iso.

(** ** Reading a row tells where it goes back *)
Section Rows.
Context (I : Store -> Prop).

Lemma keeps_look {A B} (c : St Store A) `{Looks A c} (Q : A -> Prop) (k : A -> St World B) :
  (forall s a, I s -> (c s).1 = Ok a -> Q a) -> (forall a, Q a -> keeps I (k a)) -> keeps I (bind (repo c) k).
Proof.
  intros HQ Hk w Hw. unfold bind. destruct (repo c w) as [r w'] eqn:Hr. apply repo_looks_inv in Hr as [-> Hr]; [|done].
  destruct r as [a|e]; [|done]. apply Hk; [|done]. by eapply HQ.
Qed.

Lemma keeps_look_attempt {A B} (c : St Store A) `{Looks A c} (Q : A -> Prop) (k : result A -> St World B) :
  (forall s a, I s -> (c s).1 = Ok a -> Q a) ->
  (forall r, (forall a, r = Ok a -> Q a) -> keeps I (k r)) -> keeps I (bind (attempt (repo c)) k).
Proof.
  intros HQ Hk w Hw. rewrite bind_look by done. apply Hk; [|done]. intros a Ha. by eapply HQ.
Qed.
End Rows.

Section Requests.
Context `{Sources} `{MapRange} `{JsonCodec} `{TextParsers} `{TokenJson} (svc : ServiceConfig).
Context (own : string -> bool) (s0 : Store) (p : Principal).
Context (Hown : own (scope (pr_ProjectID p) (pr_TenantID p)) = true).
#[local] Abbreviation isolated := (isolated own s0).
#[local] Abbreviation keepsI := (keeps isolated).

Lemma look_membership ws u s m :
  isolated s -> (GetMembership (pr_ProjectID p) (pr_TenantID p) ws u s).1 = Ok m -> own (mbAt m) = true.
Proof.
  intros [[_ Hm _ _] _]. unfold GetMembership, membershipRow. destruct (inner _ _ !! u) as [m'|] eqn:E; [|done].
  intros [= ->]. apply Hm in E. by rewrite E.
Qed.
Lemma look_enrollment g mem s e :
  isolated s -> (GetEnrollment (pr_ProjectID p) (pr_TenantID p) g mem s).1 = Ok e -> own (enAt e) = true.
Proof.
  intros [[_ _ _ Hm] _]. unfold GetEnrollment, enrollmentRow. destruct (inner _ _ !! _) as [m'|] eqn:E; [|done].
  intros [= ->]. apply Hm in E. by rewrite E.
Qed.
Lemma look_invitation id s i :
  isolated s -> (GetInvitation (pr_ProjectID p) (pr_TenantID p) id s).1 = Ok i -> own (invAt i) = true.
Proof.
  intros [[_ _ Hm _] _]. unfold GetInvitation. destruct (inner _ _ !! _) as [m'|] eqn:E; [|done].
  intros [= ->]. apply Hm in E. by rewrite E.
Qed.
Lemma look_invitationByHash hash s i :
  isolated s -> (GetInvitationByTokenHash (pr_ProjectID p) (pr_TenantID p) hash s).1 = Ok i -> own (invAt i) = true.
Proof.
  intros [[_ _ Hm _] _]. unfold GetInvitationByTokenHash. destruct (List.find _ _) as [m'|] eqn:E; [|done].
  intros [= ->]. apply List.find_some in E as [Hin _]. apply list_elem_of_In, elem_of_rangeValues in Hin as [k Hk].
  apply Hm in Hk. by rewrite Hk.
Qed.

Lemma keeps_requireWorkspace {A} ws rel (k : Workspace -> St World A) :
  (forall W, own (wsAt W) = true -> keepsI (k W)) -> keepsI (bind (requireWorkspace svc p ws rel) k).
Proof.
  intros Hk w Hw. unfold bind. destruct (requireWorkspace svc p ws rel w) as [[W|e] w'] eqn:Hr.
  - pose proof (requireWorkspace_inv svc _ _ _ _ _ _ Hr) as [HW _]. apply reads_inv in Hr; [|apply _].
    apply Hk; [|by rewrite Hr]. destruct Hw as [[Hl _ _ _] _]. apply Hl in HW. by rewrite HW.
  - apply reads_inv in Hr; [|apply _]. simpl. by rewrite Hr.
Qed.

(** Split a request into its calls, keeping what is known of the rows it read. *)
#[local] Ltac iso_row :=
  lazymatch goal with
  | |- keeps _ (bind (requireWorkspace _ _ _ _) _) => apply keeps_requireWorkspace; intros ? ?
  | |- keeps _ (bind (repo (GetMembership _ _ _ _)) _) =>
      eapply keeps_look; [apply _|apply look_membership|intros ? ?; cbv beta]
  | |- keeps _ (bind (repo (GetInvitation _ _ _)) _) =>
      eapply keeps_look; [apply _|apply look_invitation|intros ? ?; cbv beta]
  | |- keeps _ (bind (repo (GetInvitationByTokenHash _ _ _)) _) =>
      eapply keeps_look; [apply _|apply look_invitationByHash|intros ? ?; cbv beta]
  | |- keeps _ (bind (attempt (repo (GetMembership _ _ _ _))) _) =>
      eapply keeps_look_attempt; [apply _|apply look_membership|let Hr := fresh "Hrow" in intros [?|?] Hr; [specialize (Hr _ eq_refl); cbv beta in Hr|clear Hr]; cbv beta iota]
  | |- keeps _ (bind (attempt (repo (GetEnrollment _ _ _ _))) _) =>
      eapply keeps_look_attempt; [apply _|apply look_enrollment|let Hr := fresh "Hrow" in intros [?|?] Hr; [specialize (Hr _ eq_refl); cbv beta in Hr|clear Hr]; cbv beta iota]
  end.
#[local] Ltac iso := cbv zeta; repeat first [iso_row | apply keeps_reads; apply _ | keeps_step]; eauto with iso.

Lemma iso_EnsurePersonalWorkspace : keepsI (EnsurePersonalWorkspace p).
Proof. unfold EnsurePersonalWorkspace, createWorkspaceWithOwner. iso. Qed.

Lemma exec_isolated req :
  requestPrincipal req = Some p ->
  (forall u, req = ReqDeprovisionUser p u -> forall sk, inProject (pr_ProjectID p) sk = true -> own sk = true) ->
  keepsI (fun w => (Ok tt, exec svc req w)).
Proof.
  intros Hp Hproj.
  assert (Hk : forall {A} (c : St World A), keepsI c -> keepsI (fun w => (Ok tt, (c w).2))) by done.
  destruct req; try discriminate Hp; injection Hp as ->; apply Hk; clear Hk;
    first [apply keeps_reads; apply _ | apply keeps_reads, Reads_BatchCheck | apply iso_EnsurePersonalWorkspace | idtac].
  all: unfold CreateWorkspace, ListWorkspaces, UpdateWorkspace, DeleteWorkspace, AddMember, UpdateMemberRole,
    RemoveMember, SuspendMember, ReinstateMember, TransferOwnership, CreateInvitation, AcceptInvitation, RevokeInvitation,
    CreateGroup, DeleteGroup, AddGroupMember, RemoveGroupMember, SetEnrollmentState, SetSeatLimit, AssignSeat, RevokeSeat,
    WriteTuples, DeprovisionUser, ExportSubjectGrants, putMember, createWorkspaceWithOwner, requireGroupManager.
  all: iso.
Qed.
End Requests.

(** ** Rows stay where they say *)
Section Located.
Context `{Sources} `{MapRange} `{JsonCodec} `{TextParsers} `{TokenJson} (svc : ServiceConfig).

Lemma located_tables s s' :
  workspaces s' = workspaces s -> memberships s' = memberships s -> invitations s' = invitations s ->
  enrollments s' = enrollments s -> located s -> located s'.
Proof. intros Hw Hm Hi He []. split; by rewrite ?Hw, ?Hm, ?Hi, ?He. Qed.

Lemma located_projects f s : located s -> located (set_projects f s).
Proof. by apply located_tables. Qed.

Lemma located_CreateProject P : keepsStore located (Memory.CreateProject P).
Proof. intros s Hs. unfold Memory.CreateProject. by case_match; [|apply located_projects]. Qed.
Lemma located_UpdateProject P : keepsStore located (Memory.UpdateProject P).
Proof. intros s Hs. unfold Memory.UpdateProject. by case_match; [apply located_projects|]. Qed.

Lemma exec_located req : keeps located (fun w => (Ok tt, exec svc req w)).
Proof.
  destruct (requestPrincipal req) as [p|] eqn:Hp.
  - intros w Hw. apply (exec_isolated svc (fun _ => true) (w_repo w) p eq_refl req Hp (fun _ _ _ _ => eq_refl) w).
    split; [done|]. split; [done|]. intros sk [=].
  - assert (Hk : forall {A} (c : St World A), keeps located c -> keeps located (fun w => (Ok tt, (c w).2))) by done.
    destruct req; try discriminate Hp; apply Hk; clear Hk.
    all: first [apply keeps_reads; apply _ | unfold EnsureDefaultProject, CreateProject, UpdateProject, audit; cbv zeta; keeps].
    all: first [apply located_CreateProject | apply located_UpdateProject].
Qed.

Lemma execs_located reqs w : located (w_repo w) -> located (w_repo (execs svc reqs w)).
Proof.
  apply (execs_keeps svc (fun w => located (w_repo w)) (fun _ => True)); [|by apply Forall_true].
  intros req w0 _. exact (exec_located req w0).
Qed.

Lemma located_New : located New.
Proof. split; repeat intros ?; done. Qed.

(** A run of requests of one principal changes only its shards. *)
Lemma execs_isolated own p reqs w :
  own (scope (pr_ProjectID p) (pr_TenantID p)) = true ->
  Forall (fun req => requestPrincipal req = Some p /\
            forall u, req = ReqDeprovisionUser p u -> forall sk, inProject (pr_ProjectID p) sk = true -> own sk = true) reqs ->
  located (w_repo w) -> sameOutside own (w_repo w) (w_repo (execs svc reqs w)).
Proof.
  intros Hown Hreqs Hw.
  assert (Hi : isolated own (w_repo w) (w_repo (execs svc reqs w))); [|apply Hi].
  apply (execs_keeps svc (fun w' => isolated own (w_repo w) (w_repo w')) _ reqs w) with (2 := Hreqs).
  - intros req w' [Hp Hd]. exact (exec_isolated svc own (w_repo w) p Hown req Hp Hd w').
  - split; [done|]. by split.
Qed.
End Located.
