(* ===== verification/App.v ===== *)
(** * The HTTP server: routing, assembly and life cycle of the handler
      (workspace.connect.go, internal/app/app.go, workspaceserver/server.go)

    The generated handlers of the five services dispatch on the path; the message
    they decode and the response they write belong to the Connect runtime and are
    a parameter ([ConnectRuntime]).  The interceptor of the handlers only feeds the
    backstop counters ([Backstops]).  Paths are those without escapes, where the mux and the
    generated switch see the same text. *)

From stdpp Require Import base gmap strings list.
From Stdlib Require Import ZArith Lia Ascii.
From S2P Require Import Prelude Conditions Model ModelJson Types Text Engine Memory RateLimit Middleware Config Wire Token.
From S2P Require Import Service ServiceProjects Handler HandlerRpc Serve.
#[local] Open Scope Z_scope.

(** ** Procedures (workspace.connect.go) *)
Inductive procedure :=
  | WorkspaceServiceCreateWorkspace | WorkspaceServiceGetWorkspace | WorkspaceServiceListWorkspaces | WorkspaceServiceUpdateWorkspace | WorkspaceServiceTransferOwnership | WorkspaceServiceDeleteWorkspace | WorkspaceServiceAddMember | WorkspaceServiceUpdateMemberRole | WorkspaceServiceRemoveMember | WorkspaceServiceSuspendMember | WorkspaceServiceReinstateMember | WorkspaceServiceListMembers | WorkspaceServiceCreateInvitation | WorkspaceServiceAcceptInvitation | WorkspaceServiceListInvitations | WorkspaceServiceRevokeInvitation
  | GroupServiceCreateGroup | GroupServiceGetGroup | GroupServiceListGroups | GroupServiceDeleteGroup | GroupServiceAddGroupMember | GroupServiceRemoveGroupMember | GroupServiceListGroupMembers | GroupServiceSetEnrollmentState | GroupServiceListEnrollments
  | AuthzServiceWriteRelationTuples | AuthzServiceReadRelationTuples | AuthzServiceCheck | AuthzServiceBatchCheck | AuthzServiceExpand | AuthzServiceListObjects | AuthzServiceDeprovisionUser | AuthzServiceExportSubjectGrants
  | AdminServiceCreateProject | AdminServiceGetProject | AdminServiceUpdateProject | AdminServiceListProjects
  | SeatServiceSetSeatLimit | SeatServiceGetSeatUsage | SeatServiceAssignSeat | SeatServiceRevokeSeat | SeatServiceListSeats.

#[global] Instance procedure_eq_dec : EqDecision procedure.
Proof. solve_decision. Defined.

Definition WorkspaceServiceProcedures : list (string * procedure) :=
  [("/workspace.v1.WorkspaceService/CreateWorkspace", WorkspaceServiceCreateWorkspace);
   ("/workspace.v1.WorkspaceService/GetWorkspace", WorkspaceServiceGetWorkspace);
   ("/workspace.v1.WorkspaceService/ListWorkspaces", WorkspaceServiceListWorkspaces);
   ("/workspace.v1.WorkspaceService/UpdateWorkspace", WorkspaceServiceUpdateWorkspace);
   ("/workspace.v1.WorkspaceService/TransferOwnership", WorkspaceServiceTransferOwnership);
   ("/workspace.v1.WorkspaceService/DeleteWorkspace", WorkspaceServiceDeleteWorkspace);
   ("/workspace.v1.WorkspaceService/AddMember", WorkspaceServiceAddMember);
   ("/workspace.v1.WorkspaceService/UpdateMemberRole", WorkspaceServiceUpdateMemberRole);
   ("/workspace.v1.WorkspaceService/RemoveMember", WorkspaceServiceRemoveMember);
   ("/workspace.v1.WorkspaceService/SuspendMember", WorkspaceServiceSuspendMember);
   ("/workspace.v1.WorkspaceService/ReinstateMember", WorkspaceServiceReinstateMember);
   ("/workspace.v1.WorkspaceService/ListMembers", WorkspaceServiceListMembers);
   ("/workspace.v1.WorkspaceService/CreateInvitation", WorkspaceServiceCreateInvitation);
   ("/workspace.v1.WorkspaceService/AcceptInvitation", WorkspaceServiceAcceptInvitation);
   ("/workspace.v1.WorkspaceService/ListInvitations", WorkspaceServiceListInvitations);
   ("/workspace.v1.WorkspaceService/RevokeInvitation", WorkspaceServiceRevokeInvitation)].

Definition GroupServiceProcedures : list (string * procedure) :=
  [("/workspace.v1.GroupService/CreateGroup", GroupServiceCreateGroup);
   ("/workspace.v1.GroupService/GetGroup", GroupServiceGetGroup);
   ("/workspace.v1.GroupService/ListGroups", GroupServiceListGroups);
   ("/workspace.v1.GroupService/DeleteGroup", GroupServiceDeleteGroup);
   ("/workspace.v1.GroupService/AddGroupMember", GroupServiceAddGroupMember);
   ("/workspace.v1.GroupService/RemoveGroupMember", GroupServiceRemoveGroupMember);
   ("/workspace.v1.GroupService/ListGroupMembers", GroupServiceListGroupMembers);
   ("/workspace.v1.GroupService/SetEnrollmentState", GroupServiceSetEnrollmentState);
   ("/workspace.v1.GroupService/ListEnrollments", GroupServiceListEnrollments)].

Definition AuthzServiceProcedures : list (string * procedure) :=
  [("/workspace.v1.AuthzService/WriteRelationTuples", AuthzServiceWriteRelationTuples);
   ("/workspace.v1.AuthzService/ReadRelationTuples", AuthzServiceReadRelationTuples);
   ("/workspace.v1.AuthzService/Check", AuthzServiceCheck);
   ("/workspace.v1.AuthzService/BatchCheck", AuthzServiceBatchCheck);
   ("/workspace.v1.AuthzService/Expand", AuthzServiceExpand);
   ("/workspace.v1.AuthzService/ListObjects", AuthzServiceListObjects);
   ("/workspace.v1.AuthzService/DeprovisionUser", AuthzServiceDeprovisionUser);
   ("/workspace.v1.AuthzService/ExportSubjectGrants", AuthzServiceExportSubjectGrants)].

Definition AdminServiceProcedures : list (string * procedure) :=
  [("/workspace.v1.AdminService/CreateProject", AdminServiceCreateProject);
   ("/workspace.v1.AdminService/GetProject", AdminServiceGetProject);
   ("/workspace.v1.AdminService/UpdateProject", AdminServiceUpdateProject);
   ("/workspace.v1.AdminService/ListProjects", AdminServiceListProjects)].

Definition SeatServiceProcedures : list (string * procedure) :=
  [("/workspace.v1.SeatService/SetSeatLimit", SeatServiceSetSeatLimit);
   ("/workspace.v1.SeatService/GetSeatUsage", SeatServiceGetSeatUsage);
   ("/workspace.v1.SeatService/AssignSeat", SeatServiceAssignSeat);
   ("/workspace.v1.SeatService/RevokeSeat", SeatServiceRevokeSeat);
   ("/workspace.v1.SeatService/ListSeats", SeatServiceListSeats)].

(** A service: the path it is mounted at and its procedures. *)
Record serviceHandler := mkServiceHandler { sh_Path : string; sh_Procedures : list (string * procedure) }.

Definition NewWorkspaceServiceHandler : serviceHandler := mkServiceHandler "/workspace.v1.WorkspaceService/" WorkspaceServiceProcedures.
Definition NewGroupServiceHandler : serviceHandler := mkServiceHandler "/workspace.v1.GroupService/" GroupServiceProcedures.
Definition NewAuthzServiceHandler : serviceHandler := mkServiceHandler "/workspace.v1.AuthzService/" AuthzServiceProcedures.
Definition NewAdminServiceHandler : serviceHandler := mkServiceHandler "/workspace.v1.AdminService/" AdminServiceProcedures.
Definition NewSeatServiceHandler : serviceHandler := mkServiceHandler "/workspace.v1.SeatService/" SeatServiceProcedures.

(** [switch r.URL.Path] *)
Definition procedureAt (sh : serviceHandler) (path : string) : option procedure :=
  switch path (prod_map id Some <$> sh_Procedures sh) None.

(** ** The mux (net/http.ServeMux) *)
Fixpoint splitSlash (s : string) : list string :=
  match s with
  | EmptyString => [EmptyString]
  | String c s' =>
      if Ascii.eqb c "/" then EmptyString :: splitSlash s'
      else match splitSlash s' with
           | p :: ps => String c p :: ps
           | [] => [String c EmptyString]
           end
  end.

(** [path.Clean] of a rooted path: empty and [.] elements go, [..] takes back one. *)
Definition cleanElems (elems : list string) : list string :=
  reverse (foldl (fun out e =>
    if String.eqb e "" || String.eqb e "." then out else if String.eqb e ".." then tail out else e :: out) [] elems).

Definition cleanPath (p0 : string) : string :=
  if String.eqb p0 "" then "/"
  else
    let p := if HasPrefix p0 "/" then p0 else String.append "/" p0 in
    let elems := cleanElems (splitSlash p) in
    let np := String.concat "" (String.append "/" <$> elems) in
    if is_nil elems then "/"
    else if HasPrefix (rev_string p) "/" then String.append np "/" else np.

Definition MethodConnect : string := "CONNECT".

Inductive muxRoute := ToHealth | ToService (sh : serviceHandler) | Redirected | NotFound.

Definition muxServices : list serviceHandler :=
  [NewWorkspaceServiceHandler; NewGroupServiceHandler; NewAuthzServiceHandler; NewAdminServiceHandler; NewSeatServiceHandler].

(** The registered pattern that matches, a redirect to the clean path or to the
    subtree of a service, or nothing. *)
Definition muxFind (method path : string) : muxRoute :=
  let clean := if String.eqb method MethodConnect then path else cleanPath path in
  let found r := if String.eqb clean path then r else Redirected in
  if String.eqb clean "/healthz" || String.eqb clean "/readyz" then found ToHealth
  else match List.find (fun sh => HasPrefix clean (sh_Path sh)) muxServices with
  | Some sh => found (ToService sh)
  | None => if existsb (fun sh => String.eqb (sh_Path sh) (String.append clean "/")) muxServices then Redirected
            else found NotFound
  end.

(** ** The procedure of an RPC *)
Definition rpcProcedure `{JsonCodec} `{ProtoTypes} (r : rpc) : procedure :=
  match r with
  | Acting _ _ _ r =>
      match r with
      | RpcCreateWorkspace _ _ => WorkspaceServiceCreateWorkspace
      | RpcGetWorkspace _ => WorkspaceServiceGetWorkspace
      | RpcListWorkspaces => WorkspaceServiceListWorkspaces
      | RpcUpdateWorkspace _ _ => WorkspaceServiceUpdateWorkspace
      | RpcTransferOwnership _ _ => WorkspaceServiceTransferOwnership
      | RpcDeleteWorkspace _ => WorkspaceServiceDeleteWorkspace
      | RpcAddMember _ _ _ => WorkspaceServiceAddMember
      | RpcUpdateMemberRole _ _ _ => WorkspaceServiceUpdateMemberRole
      | RpcRemoveMember _ _ => WorkspaceServiceRemoveMember
      | RpcSuspendMember _ _ => WorkspaceServiceSuspendMember
      | RpcReinstateMember _ _ => WorkspaceServiceReinstateMember
      | RpcListMembers _ => WorkspaceServiceListMembers
      | RpcCreateInvitation _ _ _ => WorkspaceServiceCreateInvitation
      | RpcAcceptInvitation _ => WorkspaceServiceAcceptInvitation
      | RpcListInvitations _ => WorkspaceServiceListInvitations
      | RpcRevokeInvitation _ => WorkspaceServiceRevokeInvitation
      | RpcCreateGroup _ _ _ => GroupServiceCreateGroup
      | RpcGetGroup _ => GroupServiceGetGroup
      | RpcListGroups _ => GroupServiceListGroups
      | RpcDeleteGroup _ => GroupServiceDeleteGroup
      | RpcAddGroupMember _ _ => GroupServiceAddGroupMember
      | RpcRemoveGroupMember _ _ => GroupServiceRemoveGroupMember
      | RpcSetEnrollmentState _ _ _ => GroupServiceSetEnrollmentState
      | RpcListEnrollments _ => GroupServiceListEnrollments
      | RpcListGroupMembers _ => GroupServiceListGroupMembers
      end
  | Scoped _ _ r =>
      match r with
      | RpcSetSeatLimit _ _ => SeatServiceSetSeatLimit
      | RpcGetSeatUsage _ => SeatServiceGetSeatUsage
      | RpcAssignSeat _ _ => SeatServiceAssignSeat
      | RpcRevokeSeat _ _ => SeatServiceRevokeSeat
      | RpcListSeats _ => SeatServiceListSeats
      | RpcWriteRelationTuples _ => AuthzServiceWriteRelationTuples
      | RpcReadRelationTuples _ _ => AuthzServiceReadRelationTuples
      | RpcCheck _ _ _ _ _ _ _ => AuthzServiceCheck
      | RpcExpand _ _ _ _ => AuthzServiceExpand
      | RpcListObjects _ _ _ _ => AuthzServiceListObjects
      | RpcDeprovisionUser _ => AuthzServiceDeprovisionUser
      | RpcBatchCheck _ _ _ => AuthzServiceBatchCheck
      end
  | Export _ _ => AuthzServiceExportSubjectGrants
  | Admin r =>
      match r with
      | RpcCreateProject _ _ _ _ _ => AdminServiceCreateProject
      | RpcGetProject _ => AdminServiceGetProject
      | RpcUpdateProject _ _ _ _ _ _ _ _ => AdminServiceUpdateProject
      | RpcListProjects => AdminServiceListProjects
      end
  end.

(** The Connect runtime: the message of a request, or the refusal the runtime
    answers itself, and the response for a handler's result; a message decoded for
    a procedure is a message of that procedure.  The mux writes its redirects. *)
Class ConnectRuntime `{JsonCodec} `{ProtoTypes} := {
  decode : procedure -> HttpRequest -> rpc + HttpResponse reply;
  encode : HttpRequest -> result reply -> HttpResponse reply;
  redirectTo : HttpRequest -> HttpResponse reply;
  decode_typed : forall p req r, decode p req = inl r -> rpcProcedure r = p;
}.

Section App.
Context `{Sources} `{MapRange} `{JsonCodec} `{TextParsers} `{TokenJson} `{ProtoTypes} `{LimiterEnv} `{!ConnectRuntime}.

Definition unaryHandler (h : Handler) (p : procedure) : HttpHandler HState reply := fun r ctx s =>
  match decode p r with
  | inl msg => let '(res, s') := serve h r ctx msg s in (Some (encode r res), s')
  | inr resp => (Some resp, s)
  end.

Definition serviceHTTP (h : Handler) (sh : serviceHandler) : HttpHandler HState reply := fun r ctx s =>
  match procedureAt sh (hr_Path r) with
  | Some p => unaryHandler h p r ctx s
  | None => (Some (httpError StatusNotFound "404 page not found"), s)
  end.

Definition mux (h : Handler) : HttpHandler HState reply := fun r ctx s =>
  match muxFind (hr_Method r) (hr_Path r) with
  | ToHealth => Health r ctx s
  | ToService sh => serviceHTTP h sh r ctx s
  | Redirected => (Some (redirectTo r), s)
  | NotFound => (Some (httpError StatusNotFound "404 page not found"), s)
  end.

(** ** Assembly (app.go) *)
Record Deps := mkDeps {
  d_Config : option Config;
  d_Repo : Store;
  d_DecisionLogger : bool;
  d_AuditLogger : bool;
}.

Definition zeroConfig : Config := mkConfig 0 0 "" "" "" "" false [] [] "" [] 0 0 0 0 0 0 0 false false.

Definition serviceOptions (cfg : Config) (d : Deps) : list (ServiceConfig -> ServiceConfig) :=
  [WithMaxListObjects_ (MaxListObjects cfg); WithMaxExpandNodes (MaxExpandNodes cfg);
   WithMaxCheckReads (MaxCheckReads cfg); WithDataRegion (DataRegion cfg)]
  ++ (if d_DecisionLogger d then [WithDecisionLogger true] else [])
  ++ (if d_AuditLogger d then [WithAuditLogger true] else []).

Definition New (d : Deps) : result (HttpHandler HState reply * HState) :=
  let cfg := default zeroConfig (d_Config d) in
  let '(svc, w) := NewService (serviceOptions cfg d) (d_Repo d) in
  match EnsureDefaultProject svc (DefaultProjectID cfg) w with
  | (Err err, _) => Err err
  | (Ok _, w') =>
      let '(h, s) := NewHandler svc w' (DefaultProjectID cfg) (DefaultTenantID cfg) (AdminAPISecret cfg)
                       (MaxBatchCheckItems cfg) (AdminRateLimitPerMinute cfg) (TenantRateLimitPerMinute cfg) in
      Ok (Chain (mux h) [Recover; CORS (AllowedOrigins cfg); ServiceAuth (ServiceAuthTokens cfg) (ServiceCredentials cfg)], s)
  end.

(** ** The embeddable server (server.go) *)
Record Options := mkOptions { o_Repo : option Store; o_Config : Config }.

Definition OptionsFromEnv `{CredentialsJson} (env : Environ) : result Options :=
  match Load env with Ok cfg => Ok (mkOptions None cfg) | Err err => Err err end.

Definition with_project (id : string) (c : Config) : Config :=
  mkConfig (ConnectPort c) (MetricsPort c) id (DefaultTenantID c) (DataRegion c) (PostgresDSN c) (PostgresAutoMigrate c)
    (ServiceAuthTokens c) (ServiceCredentials c) (AdminAPISecret c) (AllowedOrigins c) (HTTPMaxBodyBytes c) (MaxListObjects c)
    (MaxExpandNodes c) (MaxBatchCheckItems c) (MaxCheckReads c) (AdminRateLimitPerMinute c) (TenantRateLimitPerMinute c)
    (DecisionLog c) (AuditLog c).

Definition NewServer (opts : Options) : result (HttpHandler HState reply * HState) :=
  let repo := default Memory.New (o_Repo opts) in
  rbind (ValidateRegion (DataRegion (o_Config opts))) (fun _ =>
  let cfg := if String.eqb (DefaultProjectID (o_Config opts)) "" then with_project DefaultProjectIDFallback (o_Config opts)
             else o_Config opts in
  New (mkDeps (Some cfg) repo (DecisionLog cfg) (AuditLog cfg))).

(** A run of the server: each request arrives with an empty context. *)
Definition handleAll (handler : HttpHandler HState reply) (reqs : list HttpRequest) (s : HState) : HState :=
  foldl (fun s r => (handler r (mkCtx None) s).2) s reqs.
End App.
