(* ===== verification/Samples.v ===== *)
(** * A concrete environment

    Instances of the parameters of the development, for examples: clocks that
    tick, readable ids, texts that carry their contents. *)

From stdpp Require Import base gmap strings list pretty.
From Stdlib Require Import ZArith Lia Ascii.
From S2P Require Import Prelude Conditions Model ModelJson Types Text Engine Memory RateLimit Middleware Wire Token.
From S2P Require Import Service Handler HandlerRpc Serve App.
#[local] Open Scope Z_scope.

Definition sampleSources : Sources := {|
  clock n := Z.of_nat n * 10 ^ 9;
  idgen n := String.append "id-" (Itoa n);
  tokens n := String.append "token-" (Itoa n);
  hashToken s := String.append "hash-of-" s;
|}.

(** Project, tenant and a sequence written in unary, separated by bars. *)
Fixpoint strokes (n : nat) : string := match n with O => EmptyString | S n' => String "1"%char (strokes n') end.
Fixpoint splitBar (s : string) : string * string :=
  match s with
  | EmptyString => (EmptyString, EmptyString)
  | String c s' => if Ascii.eqb c "|"%char then (EmptyString, s') else let '(a, b) := splitBar s' in (String c a, b)
  end.
Definition sampleTokenJson : TokenJson := {|
  Marshal t := String.append (tok_Project t) (String.append "|" (String.append (tok_Tenant t)
                 (String.append "|" (strokes (Z.to_nat (tok_Seq t))))));
  Unmarshal s := let '(p, r) := splitBar s in let '(t, q) := splitBar r in
                 Some (mkToken p t (Z.of_nat (String.length q)));
|}.


(** Protobuf values as the Go values they stand for. *)
Definition sampleProto : ProtoTypes := {|
  Timestamp := Time; timestamp_New t := t; AsTime t := t;
  Struct := anymap; AsMap m := m; NewStruct := Some;
|}.

Definition sampleLimiterEnv : LimiterEnv := {| limiterClock n := Z.of_nat n * 10 ^ 9; fused := false |}.

(** A runtime that understands writes: a body is the object id of one grant. *)
Definition sampleDecode `{JsonCodec} (p : procedure) (r : HttpRequest) : @rpc _ sampleProto + HttpResponse (@reply _ sampleProto) :=
  match p with
  | AuthzServiceWriteRelationTuples =>
      inl (Scoped "other" "t" (RpcWriteRelationTuples
        [(OP_INSERT, Some (mkRelationTuple "other" "t" "doc" (hr_Body r) "viewer"
           (Some (mkPSubject (Some (Subject_UserId "ann")))) None "" None))]))
  | AdminServiceCreateProject => inl (Admin (RpcCreateProject (hr_Body r) "Name" None "" 0))
  | _ => inr (httpError 415 "unsupported")
  end.

Lemma sampleDecode_typed `{JsonCodec} p req r : sampleDecode p req = inl r -> rpcProcedure r = p.
Proof. destruct p; simpl; try discriminate; by intros [= <-]. Qed.

Definition sampleRuntime `{JsonCodec} : @ConnectRuntime _ sampleProto := {|
  decode := sampleDecode;
  encode r res := match res with Ok rep => mkHttpResponse 200 [] (inl rep) | Err _ => httpError 400 "error" end;
  redirectTo r := httpError 301 "moved";
  decode_typed := sampleDecode_typed;
|}.
