(* ===== verification/WireTheorems.v ===== *)
(** * What the wire keeps

    Round trips between the service's values and the messages of the handlers,
    and the keys the rate limits are counted under. *)

From stdpp Require Import base gmap strings list.
From Stdlib Require Import ZArith Lia Ascii Sorted.
From S2P Require Import Prelude Conditions Model ModelJson Types Text Engine Granted Expand ExpandTheorems Memory MemoryKeys.
From S2P Require Import EngineTheorems ModelJsonTheorems RateLimit RateLimitTheorems Middleware Wire Token Service ServiceAuthz Handler HandlerRpc Serve App Samples.
#[local] Open Scope Z_scope.

(** ** Tuples *)

(** A condition without a name is no condition. *)
Definition normalizeTuple (x : Tuple) : Tuple :=
  let sub := t_Subject x in
  mkTuple (t_Namespace x) (t_ObjectID x) (t_Relation x)
    (mkSubject (UserID sub) (Set_ sub) (Wildcard sub)
       (match Cond sub with Some c => if String.eqb (c_Name c) "" then None else Some c | None => None end))
    (t_ExpiresAt x).

Lemma rguard_ok b e u : rguard b e = Ok u -> b = true.
Proof. by destruct b. Qed.

Lemma rbind_rguard b e (k : unit -> result unit) u : rbind (rguard b e) k = Ok u -> b = true /\ k tt = Ok u.
Proof. by destruct b. Qed.

(** A valid tuple names exactly one kind of subject. *)
Lemma validateTuple_kinds `{TextParsers} x : validateTuple x = Ok tt -> subjectKinds (t_Subject x) = 1.
Proof.
  unfold validateTuple.
  intros (_ & (_ & (_ & (_ & (Hk & _)%rbind_rguard)%rbind_rguard)%rbind_rguard)%rbind_rguard)%rbind_rguard.
  by apply Z.eqb_eq.
Qed.

Lemma subject_roundtrip s :
  subjectKinds s = 1 -> subjectFromProto (Some (subjectToProto s)) = Ok (mkSubject (UserID s) (Set_ s) (Wildcard s) None).
Proof.
  unfold subjectKinds, subjectToProto. destruct s as [u [[ns o r]|] w c]; simpl; destruct w; simpl;
    destruct (String.eqb_spec u "") as [->|]; simpl; try lia; done.
Qed.

(** What WriteRelationTuples accepts, ReadRelationTuples shows: a valid tuple
    that is sent and decoded again is the same tuple (a condition without a name
    counting as none), given that the protobuf runtime keeps timestamps and the
    parameter maps it can represent. *)
Theorem tuple_wire_roundtrip `{TextParsers} `{ProtoTypes} p t x :
  (forall u, AsTime (timestamp_New u) = u) -> (forall m st, NewStruct m = Some st -> AsMap st = m) ->
  validateTuple x = Ok tt ->
  (forall c, Cond (t_Subject x) = Some c -> is_Some (NewStruct (c_Params c))) ->
  tupleFromProto (Some (tupleToProto p t x)) = Ok (normalizeTuple x).
Proof.
  intros Htime Hstruct Hval%validateTuple_kinds%subject_roundtrip Hparams.
  unfold tupleFromProto, tupleToProto, normalizeTuple. destruct x as [ns o r sub ex]; simpl in *.
  assert (Hex : optTime (optTimestamp ex) = ex) by (destruct ex; simpl; by rewrite ?Htime).
  destruct (Cond sub) as [c|]; simpl; [destruct (String.eqb_spec (c_Name c) "") as [Hn|Hn]|]; simpl;
    rewrite Hval; simpl; rewrite ?Hex; try done.
  apply String.eqb_neq in Hn. rewrite Hn. simpl. do 3 f_equal. destruct (Hparams c eq_refl) as [st Hst].
  destruct c as [n ps]. simpl in *. case_decide as Hsz; simpl.
  - rewrite Hst. simpl. do 2 f_equal. by apply Hstruct.
  - do 2 f_equal. symmetry. apply map_size_empty_iff. lia.
Qed.

Definition conditionalTuple : Tuple :=
  mkTuple "doc" "d" "viewer" (mkSubject "ann" None false (Some (mkCondition "consent_granted" ∅))) (Some 5).

Lemma tuple_wire_roundtrip_witness :
  @tupleFromProto sampleProto (Some (@tupleToProto sampleProto "p" "t" conditionalTuple)) = Ok (normalizeTuple conditionalTuple).
Proof.
  apply (@tuple_wire_roundtrip sampleParsers sampleProto).
  - done.
  - by intros m st [= <-].
  - vm_compute. reflexivity.
  - intros c [= <-]. by eexists.
Defined.

(** ** Trees *)

(** The tree a response message spells. *)
Fixpoint treeFromProto (t : UsersetTree) : Tree :=
  let self := setFromProto (ut_Expanded t) in
  match ut_Type t, ut_Include t, ut_Exclude t with
  | NODE_TYPE_UNION, _, _ => unionTree self (map treeFromProto (ut_Children t))
  | NODE_TYPE_INTERSECTION, _, _ => intersectionTree self (map treeFromProto (ut_Children t))
  | NODE_TYPE_EXCLUSION, Some i, Some x => excludeTree self (treeFromProto i) (treeFromProto x)
  | _, _, _ => mkTree self [] [] None (ut_UserIds t) (setFromProto <$> ut_Sets t) (ut_Wildcard t)
  end.

Definition lossless (t : Tree) : Prop := treeFromProto (treeToProto t) = t.

Lemma setFromToProto s : setFromProto (setToProto s) = s. Proof. by destruct s. Qed.

Lemma map_lossless ts : Forall lossless ts -> map treeFromProto (map treeToProto ts) = ts.
Proof. induction 1 as [|t ts Ht _ IH]; simpl; [done|]. by rewrite Ht, IH. Qed.

Lemma lossless_leaf self users sets w : lossless (mkTree self [] [] None users sets w).
Proof.
  unfold lossless. simpl. rewrite setFromToProto. f_equal.
  induction sets as [|s sets IH]; [done|]. by rewrite !fmap_cons, setFromToProto, IH.
Qed.
Lemma lossless_union self ts : Forall lossless ts -> lossless (unionTree self ts).
Proof.
  intros Hts%map_lossless. destruct ts as [|t ts]; [apply lossless_leaf|]. unfold lossless.
  cbn [unionTree treeToProto tr_Union is_nil negb treeFromProto ut_Type ut_Children ut_Expanded tr_Expanded].
  by rewrite Hts, setFromToProto.
Qed.
Lemma lossless_intersection self ts : Forall lossless ts -> lossless (intersectionTree self ts).
Proof.
  intros Hts%map_lossless. destruct ts as [|t ts]; [apply lossless_leaf|]. unfold lossless.
  cbn [intersectionTree treeToProto tr_Union tr_Intersection is_nil negb treeFromProto ut_Type ut_Children ut_Expanded tr_Expanded].
  by rewrite Hts, setFromToProto.
Qed.
Lemma lossless_exclude self i x : lossless i -> lossless x -> lossless (excludeTree self i x).
Proof. intros Hi Hx. unfold lossless. simpl. by rewrite Hi, Hx, setFromToProto. Qed.

(** [expand] builds its trees with these constructors. *)
Section Expanded.
Context (rd : TupleReader) (m : Model) (projectID tenantID : string) (max : Z).

Section Rule.
Context (rec : string -> string -> string -> St expandState Tree).
Context (Hrec : forall ns obj rel s t s', rec ns obj rel s = (Ok t, s') -> lossless t).

Lemma pointers_lossless cr subs s ts s' : expandPointers rec cr subs s = (Ok ts, s') -> Forall lossless ts.
Proof.
  revert s ts. induction subs as [|x subs IH]; intros s ts; simpl; [intros [= <- _]; constructor|].
  destruct (Set_ x) as [ss|]; [|apply IH].
  intros (t & s1 & H1 & (ts' & s2 & H2 & [= <- <-])%bind_inv_ok)%bind_inv_ok. constructor; eauto.
Qed.

Lemma mapM_lossless (rws : list Rewrite) (f : Rewrite -> St expandState Tree) s ts s' :
  Forall (fun rw => forall s t s', f rw s = (Ok t, s') -> lossless t) rws -> mapM f rws s = (Ok ts, s') -> Forall lossless ts.
Proof.
  intros Hf Hm%mapM_inv. induction Hm as [|rw t rws ts (s1 & s2 & Hx) _ IH]; [constructor|].
  apply Forall_cons_1 in Hf as [Hrw Hf]. constructor; eauto.
Qed.

Lemma expandRewrite_lossless ns obj rel self rw s t s' :
  expandRewrite rd projectID tenantID max rec ns obj rel self rw s = (Ok t, s') -> lossless t.
Proof.
  revert s t s'. induction rw as [us ins ex c ts cr IHu IHi IHe] using Rewrite_ind'. intros s t s'. cbn [expandRewrite].
  intros (? & s1 & _ & H1)%bind_inv_ok. destruct (isThis _).
  { apply bind_inv_ok in H1 as (? & s2 & _ & (subs & s3 & _ & (? & s4 & _ & [= <- _])%bind_inv_ok)%bind_inv_ok).
    unfold bareTree. destruct (leaf_fields subs self [] [] None [] [] false) as (? & ? & -> & _). apply lossless_leaf. }
  cbn [Union Intersection Exclusion Computed TuplesetRelation] in H1.
  destruct (negb (is_nil us)).
  { apply bind_inv_ok in H1 as (l & s2 & H1 & [= <- _]). by apply lossless_union, (mapM_lossless us _ _ _ _ IHu H1). }
  destruct (negb (is_nil ins)).
  { apply bind_inv_ok in H1 as (l & s2 & H1 & [= <- _]). by apply lossless_intersection, (mapM_lossless ins _ _ _ _ IHi H1). }
  destruct ex as [ex|].
  { apply bind_inv_ok in H1 as (i & s2 & Hi & (y & s3 & Hy & [= <- _])%bind_inv_ok). destruct (IHe _ eq_refl) as [IHa IHb].
    apply lossless_exclude; eauto. }
  destruct (negb (String.eqb c "")); [by eapply Hrec|].
  destruct (negb (String.eqb ts "")); [|injection H1 as <- _; apply lossless_leaf].
  apply bind_inv_ok in H1 as (? & s2 & _ & (subs & s3 & _ & (l & s4 & Hl & [= <- _])%bind_inv_ok)%bind_inv_ok).
  eapply lossless_union, pointers_lossless, Hl.
Qed.
End Rule.

Lemma expand_lossless left ns obj rel s t s' :
  expand rd m projectID tenantID max left ns obj rel s = (Ok t, s') -> lossless t.
Proof.
  revert ns obj rel s t s'. induction left as [|left IH]; intros ns obj rel s t s'; cbn [expand].
  { intros [= <- _]. apply lossless_leaf. }
  case_decide; [intros [= <- _]; apply lossless_leaf|].
  destruct (expandRewrite _ _ _ _ _ _ _ _ _ _ _) as [r s2] eqn:He. intros [= -> <-].
  by eapply expandRewrite_lossless.
Qed.
End Expanded.

(** The Expand response loses nothing: the tree that the evaluation built can
    be read back from the message, whatever model and tuples it was built from. *)
Theorem expand_wire_lossless e m projectID tenantID ns obj rel maxNodes n bs t s :
  ExpandWithModel e m projectID tenantID ns obj rel maxNodes n bs = (Ok t, s) ->
  treeFromProto (treeToProto t) = t.
Proof. apply expand_lossless. Qed.

Lemma expand_wire_lossless_witness : treeFromProto (treeToProto (treeOf expandedSample.1)) = treeOf expandedSample.1.
Proof.
  apply (expand_wire_lossless (sampleEngine sampleTuples 100) DefaultModel "p" "t" "workspace" "acme" "guest"
           20 0 None (treeOf expandedSample.1) expandedSample.2).
  vm_compute. reflexivity.
Defined.

(** ** Rate budgets

    What a request is counted against: the tenant of its scope, or one RPC of its
    project. *)
Inductive rateCall :=
  | TenantCall (ctx : Ctx) (projectID tenantID : string)
  | RpcCall (ctx : Ctx) (projectID rpc : string).

Section Budgets.
Context (h : Handler).

Definition rateKey (c : rateCall) : string :=
  match c with
  | TenantCall ctx p t => tenantRateKey h ctx p t
  | RpcCall ctx p rpc => rpcRateKey h ctx p rpc
  end.

Definition budgetOf (c : rateCall) : string * (string + string) :=
  match c with
  | TenantCall ctx p t => (callerProject h ctx p, inl (tenantOr h t))
  | RpcCall ctx p rpc => (callerProject h ctx p, inr rpc)
  end.

(** The ids of the scope have no NUL, as [validateScopeIDs] and the operator's
    configuration see to. *)
Definition cleanCall (c : rateCall) : Prop :=
  match c with
  | TenantCall ctx p t => idOK (callerProject h ctx p) /\ idOK (tenantOr h t)
  | RpcCall ctx p rpc => idOK (callerProject h ctx p)
  end.

Lemma NUL_head t rest : idOK t -> t <> String.append NUL rest.
Proof. intros Ht ->. by unfold idOK in Ht. Qed.

Lemma rateKey_budget c c' : cleanCall c -> cleanCall c' -> rateKey c = rateKey c' <-> budgetOf c = budgetOf c'.
Proof.
  assert (Hinj : forall p t p' t', idOK p -> idOK p' ->
    String.append p (String.append NUL t) = String.append p' (String.append NUL t') -> p = p' /\ t = t').
  { intros p t p' t' Hp Hp' Heq. by apply scope_inj. }
  destruct c as [ctx p t|ctx p rpc], c' as [ctx' p' t'|ctx' p' rpc']; simpl; unfold tenantRateKey, rpcRateKey;
    repeat match goal with |- _ /\ _ -> _ => intros [] | |- idOK _ -> _ => intros ? end; split.
  all: try (intros [-> Heq]%Hinj; [|done..]).
  all: try (intros [= -> ->]; done).
  all: try done.
  - by rewrite Heq.
  - by apply NUL_head in Heq.
  - symmetry in Heq. by apply NUL_head in Heq.
  - unfold NUL in Heq. rewrite !string_app_cons, !string_app_nil_l in Heq. by injection Heq as ->.
Qed.
End Budgets.

(** Budgets do not leak: counting under the keys the handlers build, the
    decisions for one tenant of a project, or for one project-wide RPC, are those
    of a token bucket that sees only the requests of exactly that budget, whatever
    the other tenants, projects and RPCs do in between. *)
Theorem rate_budgets_independent h fused perMinute r calls c :
  0 < perMinute <= 2 ^ 53 -> newRateLimiter perMinute = Some r ->
  Sorted Z.le calls.*1 -> Forall (fun x => cleanCall h x.2) calls -> cleanCall h c ->
  let keyed := prod_map id (rateKey h) <$> calls in
  decisionsFor (rateKey h c) keyed (allows fused keyed r).1
  = bucketRun fused (capacity r) (refill r) ((filter (fun x => budgetOf h x.2 = budgetOf h c) calls).*1) None.
Proof.
  intros Hn Hr Hs Hclean Hc keyed.
  rewrite (decisions_refine fused perMinute) by (try done; unfold keyed; by rewrite <-list_fmap_compose).
  f_equal. unfold timesFor, keyed. clear Hs. induction Hclean as [|[t c'] calls Hc' _ IH]; [done|].
  rewrite fmap_cons, !filter_cons. simpl in *. pose proof (rateKey_budget h c' c Hc' Hc) as Hk.
  destruct (decide (rateKey h c' = rateKey h c)) as [E|E]; [rewrite decide_True by by apply Hk|rewrite decide_False by by rewrite <-Hk].
  - by rewrite !fmap_cons, IH.
  - exact IH.
Qed.

Definition budgetHandler : Handler := mkHandler defaultConfig "default" "main" "" 10.
Definition budgetCalls : list (Time * rateCall) :=
  [(0, TenantCall (mkCtx None) "p" "a"); (1, RpcCall (mkCtx None) "p" "export"); (2, TenantCall (mkCtx None) "p" "b");
   (second, TenantCall (mkCtx (Some (mkCaller "x" "p"))) "q" "a")].

Lemma rate_budgets_independent_witness :
  exists r, newRateLimiter 60 = Some r /\
  let keyed := prod_map id (rateKey budgetHandler) <$> budgetCalls in
  decisionsFor (rateKey budgetHandler (TenantCall (mkCtx None) "p" "a")) keyed (allows false keyed r).1
  = bucketRun false (capacity r) (refill r) [0; second] None.
Proof.
  eexists. split; [reflexivity|].
  apply (rate_budgets_independent budgetHandler false 60 _ budgetCalls (TenantCall (mkCtx None) "p" "a")).
  - lia.
  - reflexivity.
  - repeat constructor; vm_compute; discriminate.
  - repeat constructor.
  - by split.
Defined.
