(* ===== verification/AppTheorems.v ===== *)
(** * What holds of the server from the outside

    The composition of middleware, routing, RPC handlers, service and repository:
    who gets in, and what a request can change. *)

From stdpp Require Import base gmap strings list.
From Stdlib Require Import ZArith Lia Ascii.
From S2P Require Import Prelude Conditions Model ModelJson Types Text Engine Memory MemoryKeys RateLimit Middleware Config Wire Token.
From S2P Require Import EngineTheorems ModelJsonTheorems.
From S2P Require Import Service ServiceProjects ServiceFrame Requests Handler HandlerRpc Serve Isolation App Samples.
#[local] Open Scope Z_scope.

(** ** RPCs *)
Section Rpcs.
Context `{Sources} `{MapRange} `{JsonCodec} `{TextParsers} `{TokenJson} `{ProtoTypes} `{LimiterEnv}.
Context (h : Handler).

(** Every request of an RPC carries the principal of the RPC. *)
Lemma rpcScript_principal ctx r q :
  rpcPrincipal h ctx r = Some q ->
  Forall (fun req => requestPrincipal req = Some q /\
            forall u, req = ReqDeprovisionUser q u -> exists p t, r = Scoped p t (RpcDeprovisionUser u)) (rpcScript h ctx r).
Proof.
  destruct r as [u p t r|p t r|p u|r]; intros Hq; try discriminate Hq; injection Hq as <-;
    [destruct r|destruct r|]; simpl.
  all: try match goal with |- context [withOk ?r _] => destruct r as [?|?] end; simpl.
  all: try match goal with |- context [match ?set with Some _ => ReqCheckSet _ _ _ _ _ _ | None => _ end] => destruct set end.
  all: repeat constructor; simpl; try done; intros ? [=]; subst; by do 2 eexists.
Qed.

Lemma serve_isolated req ctx r s q own :
  rpcPrincipal h ctx r = Some q -> own (scope (pr_ProjectID q) (pr_TenantID q)) = true ->
  (forall p t u, r = Scoped p t (RpcDeprovisionUser u) -> forall sk, inProject (pr_ProjectID q) sk = true -> own sk = true) ->
  located (w_repo (h_world s)) ->
  sameOutside own (w_repo (h_world s)) (w_repo (h_world (serve h req ctx r s).2)).
Proof.
  intros Hq Hown Hdep Hl. destruct (serve_client h req ctx r s) as (k & -> & _).
  apply (execs_isolated _ own q); [done| |done]. apply Forall_take. eapply Forall_impl; [by apply rpcScript_principal|].
  simpl. intros req' [Hp Hd]. split; [done|]. intros u Hu. destruct (Hd u Hu) as (p & t & Hr). by eapply Hdep.
Qed.

(** ** The admin gate *)
Definition lacksSecret (req : HttpRequest) : Prop :=
  h_adminSecret h = "" \/ hr_Header req adminSecretHeader <> h_adminSecret h.

Lemma requireAdmin_refuses req s :
  lacksSecret req -> exists c cause, (requireAdmin h req s).1 = Err (ErrConnect c cause) /\
    c ∈ [CodeUnimplemented; CodeResourceExhausted; CodeUnauthenticated] /\
    h_world (requireAdmin h req s).2 = h_world s.
Proof.
  intros Hlack. unfold requireAdmin, bind, guard, limiterAllow.
  destruct (String.eqb_spec (h_adminSecret h) "") as [He|He]; simpl; [eexists _, _; split_and!; [done|set_solver|done]|].
  assert (Hne : String.eqb (hr_Header req adminSecretHeader) (h_adminSecret h) = false).
  { apply String.eqb_neq. by destruct Hlack. }
  destruct (h_adminLimiter s) as [l|]; simpl.
  - destruct (allowLocked _ _ _ _) as [[] l']; simpl; [rewrite Hne; simpl|]; eexists _, _; (split_and!; [done|set_solver|done]).
  - rewrite Hne. simpl. eexists _, _; (split_and!; [done|set_solver|done]).
Qed.

Lemma serveAdmin_gate req r s :
  lacksSecret req -> exists c cause, (serveAdmin h req r s).1 = Err (ErrConnect c cause) /\
    c ∈ [CodeUnimplemented; CodeResourceExhausted; CodeUnauthenticated] /\
    h_world (serveAdmin h req r s).2 = h_world s.
Proof.
  intros (c & cause & Herr & Hc & Hw)%(requireAdmin_refuses req s). exists c, cause.
  destruct r; simpl; unfold replyWith, CreateProject, GetProject, UpdateProject, ListProjects, bind;
    (destruct (requireAdmin h req s) as [res s']; simpl in *; subst res; done).
Qed.

(** ** Errors are Connect errors

    The sentinels of the service with their codes. *)
Definition wireCodes : list (error * Code) :=
  [(ErrNotFound, CodeNotFound); (ErrAlreadyExists, CodeAlreadyExists); (ErrInvalidArgument, CodeInvalidArgument);
   (ErrPermissionDenied, CodePermissionDenied); (ErrFailedPrecondition, CodeFailedPrecondition);
   (ErrResourceExhausted, CodeResourceExhausted)].

(** The code that fits a cause: that of its sentinel, or internal without one. *)
Definition fits (code : Code) (cause : error) : Prop :=
  (forall sentinel c, (sentinel, c) ∈ wireCodes -> errors_Is cause sentinel = true -> code = c) /\
  (code = CodeInternal \/ exists sentinel, (sentinel, code) ∈ wireCodes /\ errors_Is cause sentinel = true).

(** An error carries one sentinel at most. *)
Lemma errors_Is_one e s1 s2 c1 c2 :
  (s1, c1) ∈ wireCodes -> (s2, c2) ∈ wireCodes -> errors_Is e s1 = true -> errors_Is e s2 = true -> c1 = c2.
Proof.
  intros Hin1 Hin2. unfold wireCodes in *. rewrite !elem_of_cons, elem_of_nil in Hin1, Hin2.
  induction e; simpl; rewrite ?orb_false_r; try (by intros ?%bool_decide_eq_true ?%bool_decide_eq_true; naive_solver);
    rewrite !orb_true_iff, !bool_decide_eq_true; naive_solver.
Qed.

Lemma errToConnect_fits cause : exists code, errToConnect cause = ErrConnect code cause /\ fits code cause.
Proof.
  assert (Hone : forall s c, (s, c) ∈ wireCodes -> errors_Is cause s = true -> fits c cause).
  { intros s c Hin Hs. split; [|eauto]. intros s' c' Hin' Hs'. by eapply errors_Is_one. }
  unfold errToConnect. repeat (case_match; [eexists; split; [done|]; eapply Hone; [|eassumption]; unfold wireCodes; set_solver|]).
  exists CodeInternal. split; [done|]. split; [|by left]. intros s c Hin Hs. unfold wireCodes in Hin.
  rewrite !elem_of_cons, elem_of_nil in Hin. destruct_or! Hin; simplify_eq; congruence.
Qed.
End Rpcs.

(** C36.  Whatever goes wrong in an RPC, the error that leaves the handler is a
    Connect error that wraps its cause, whose text the caller gets.  Either the
    handler refuses the request itself, with the text of the refusal: an invalid
    argument or an exhausted rate, and for the admin RPCs alone also
    unimplemented and unauthenticated; or the cause is the error that the last
    service request of the RPC ended with, or the error of a project that does
    not convert, and the code is the one of the sentinel that [errors.Is] finds in
    it, internal when there is none. *)
Theorem rpc_errors_have_codes `{Sources} `{MapRange} `{JsonCodec} `{TextParsers} `{TokenJson} `{ProtoTypes} `{LimiterEnv}
    h req ctx r s e :
  (serve h req ctx r s).1 = Err e ->
  exists code cause, e = ErrConnect code cause /\
    ((code ∈ refusalCodes (isAdmin r) /\ exists text, cause = ErrPlain text) \/
     (fits code cause /\
      ((exists before last after, rpcScript h ctx r = before ++ last :: after /\
          failure (h_svc h) last (execs (h_svc h) before (h_world s)) = Some cause /\
          h_world (serve h req ctx r s).2 = execs (h_svc h) (before ++ [last]) (h_world s)) \/
       exists p, projectToProto p = Err cause))).
Proof.
  intros He. destruct (serve_client h req ctx r s) as (k & Hw & _ & Hend).
  destruct (Hend e He) as [[(code & text & Hc & ->)|(p & err & Hp & ->)]|(before & last & cause & Hran & Hf & ->)].
  - eauto 10.
  - destruct (errToConnect_fits err) as (code & -> & Hc). eauto 10.
  - destruct (errToConnect_fits cause) as (code & -> & Hc). exists code, cause. split; [done|right]. split; [done|left].
    exists before, last, (drop k (rpcScript h ctx r)). rewrite Hw, Hran. split_and!; [|done..].
    rewrite <-(take_drop k (rpcScript h ctx r)) at 1. by rewrite Hran, <-app_assoc.
Qed.

(** C18.  An RPC is its script: the world after it is the world after a prefix of
    the service requests [rpcScript] lists (the residency guard, the consistency
    guard and the RPC's own request, all with the principal of the call), and the
    whole list when the RPC succeeds. *)
Theorem rpc_runs_its_script `{Sources} `{MapRange} `{JsonCodec} `{TextParsers} `{TokenJson} `{ProtoTypes} `{LimiterEnv}
    h req ctx r s :
  exists k, h_world (serve h req ctx r s).2 = execs (h_svc h) (take k (rpcScript h ctx r)) (h_world s) /\
    match (serve h req ctx r s).1 with Ok _ => (length (rpcScript h ctx r) <= k)%nat | Err _ => True end.
Proof.
  destruct (serve_client h req ctx r s) as (k & Heq & Hk & _). exists k. split; [done|].
  destruct (serve h req ctx r s) as [[a|e] s']; [by eapply Hk|done].
Qed.

(** ** Routing *)
Lemma muxFind_service method path sh :
  muxFind method path = ToService sh -> sh ∈ muxServices /\ HasPrefix path (sh_Path sh) = true.
Proof.
  unfold muxFind. set (clean := if String.eqb method MethodConnect then path else cleanPath path).
  destruct (_ || _); [by destruct (String.eqb clean path)|].
  destruct (List.find _ _) as [sh'|] eqn:E; [|destruct (existsb _ _); [done|by destruct (String.eqb clean path)]].
  destruct (String.eqb_spec clean path) as [Hc|]; [|done]. intros [= ->]. apply List.find_some in E as [Hin Hp].
  rewrite Hc in Hp. split; [|done]. by apply list_elem_of_In.
Qed.

(** The paths that skip the credential check are not paths of a service. *)
Lemma infra_no_service method path sh : IsInfraPath path = true -> muxFind method path = ToService sh -> False.
Proof.
  intros Hi [Hin Hp]%muxFind_service.
  assert (Hw : exists rest, path = String.append "/w" rest).
  { unfold HasPrefix in Hp. apply prefix_spec in Hp as [rest ->].
    unfold muxServices in Hin. rewrite !elem_of_cons, elem_of_nil in Hin.
    destruct Hin as [->|[->|[->|[->|[->|[]]]]]]; eexists; reflexivity. }
  destruct Hw as [rest ->]. unfold IsInfraPath in Hi. rewrite !orb_true_iff in Hi.
  destruct Hi as [[Hi|Hi]|Hi]; [apply String.eqb_eq in Hi|apply String.eqb_eq in Hi|]; discriminate Hi.
Qed.

Lemma switch_in {A} (path : string) (l : list (string * A)) p :
  switch path (prod_map id Some <$> l) None = Some p -> (path, p) ∈ l.
Proof.
  induction l as [|[k q] l IH]; simpl; [done|]. destruct (String.eqb_spec path k) as [->|]; [|intros ?; right; auto].
  intros [= ->]. left.
Qed.

(** The context a request gets past [ServiceAuth] with, when it does. *)
Definition authContext (tokens : list string) (creds : list ServiceCredential) (r : HttpRequest) : option Ctx :=
  let presented := bearerToken (hr_Header r "Authorization") in
  if is_nil (nonEmpty tokens) && is_nil creds then Some (mkCtx None)
  else if (matchCredential presented creds).2 then Some (mkCtx (Some (matchCredential presented creds).1))
  else if tokenMatches presented (nonEmpty tokens) then Some (mkCtx (Some (mkCaller "" ""))) else None.

Section Server.
Context `{Sources} `{MapRange} `{JsonCodec} `{TextParsers} `{TokenJson} `{ProtoTypes} `{LimiterEnv} `{!ConnectRuntime}.

Definition chained (h : Handler) (cfg : Config) : HttpHandler HState reply :=
  Chain (mux h) [Recover; CORS (AllowedOrigins cfg); ServiceAuth (ServiceAuthTokens cfg) (ServiceCredentials cfg)].

(** A request runs at most one RPC, of the procedure its path names, in the
    context its credentials give. *)
Lemma mux_cases h r ctx s :
  (mux h r ctx s).2 = s \/
  exists sh p msg, muxFind (hr_Method r) (hr_Path r) = ToService sh /\ (hr_Path r, p) ∈ sh_Procedures sh /\
    decode p r = inl msg /\ (mux h r ctx s).2 = (serve h r ctx msg s).2.
Proof.
  unfold mux. destruct (muxFind _ _) as [|sh| |] eqn:Ef; [by left| |by left|by left].
  unfold serviceHTTP. destruct (procedureAt sh (hr_Path r)) as [p|] eqn:Ep; [|by left].
  unfold unaryHandler. destruct (decode p r) as [msg|resp] eqn:Ed; [|by left].
  right. exists sh, p, msg. split_and!; [done|by apply switch_in|done|]. by destruct (serve h r ctx msg s).
Qed.

Lemma chained_state h cfg r s :
  (chained h cfg r (mkCtx None) s).2 =
  if String.eqb (hr_Method r) MethodOptions then s
  else (ServiceAuth (ServiceAuthTokens cfg) (ServiceCredentials cfg) (mux h) r (mkCtx None) s).2.
Proof.
  unfold chained, Chain. simpl. unfold Recover, CORS. destruct (String.eqb (hr_Method r) MethodOptions); [done|].
  by destruct (ServiceAuth _ _ _ _ _ _).
Qed.

Lemma chained_cases h cfg r s :
  (chained h cfg r (mkCtx None) s).2 = s \/
  exists sh p msg ctx, muxFind (hr_Method r) (hr_Path r) = ToService sh /\ (hr_Path r, p) ∈ sh_Procedures sh /\
    decode p r = inl msg /\ authContext (ServiceAuthTokens cfg) (ServiceCredentials cfg) r = Some ctx /\
    (chained h cfg r (mkCtx None) s).2 = (serve h r ctx msg s).2.
Proof.
  rewrite chained_state. destruct (String.eqb (hr_Method r) MethodOptions) eqn:Eo; [by left|].
  unfold ServiceAuth. rewrite Eo, orb_false_r.
  assert (Hrun : forall ctx, authContext (ServiceAuthTokens cfg) (ServiceCredentials cfg) r = Some ctx ->
    (mux h r ctx s).2 = s \/
    exists sh p msg ctx', muxFind (hr_Method r) (hr_Path r) = ToService sh /\ (hr_Path r, p) ∈ sh_Procedures sh /\
      decode p r = inl msg /\ authContext (ServiceAuthTokens cfg) (ServiceCredentials cfg) r = Some ctx' /\
      (mux h r ctx s).2 = (serve h r ctx' msg s).2).
  { intros ctx Ha. destruct (mux_cases h r ctx s) as [?|(sh & p & msg & ? & ? & ? & ?)]; [by left|right].
    by exists sh, p, msg, ctx. }
  unfold authContext in *. destruct (is_nil _ && is_nil _) eqn:En; simpl; [by apply Hrun|].
  destruct (IsInfraPath (hr_Path r)) eqn:Ei.
  { left. destruct (mux_cases h r (mkCtx None) s) as [?|(sh & p & msg & Hm & _)]; [done|].
    by destruct (infra_no_service _ _ _ Ei Hm). }
  destruct (matchCredential _ _) as [c ok] eqn:Em. simpl in *. destruct ok; [by apply Hrun|].
  destruct (tokenMatches _ _); [by apply Hrun|by left].
Qed.

(** What [NewServer] builds. *)
Lemma NewServer_inv opts handler s :
  NewServer opts = Ok (handler, s) ->
  exists h cfg opts' reqs, handler = chained h cfg /\
    h_world s = execs (h_svc h) reqs (NewService opts' (default Memory.New (o_Repo opts))).2 /\
    ServiceAuthTokens cfg = ServiceAuthTokens (o_Config opts) /\ ServiceCredentials cfg = ServiceCredentials (o_Config opts) /\
    h_adminSecret h = AdminAPISecret (o_Config opts).
Proof.
  unfold NewServer. destruct (ValidateRegion _); simpl; [|done].
  set (cfg := if String.eqb _ _ then _ else _). unfold New. simpl.
  destruct (EnsureDefaultProject _ _ _) as [[[]|e] w'] eqn:E; [|done]. simpl. intros [= <- <-].
  eexists _, cfg, [], [ReqEnsureDefaultProject (DefaultProjectID cfg)]. split; [reflexivity|]. simpl.
  split; [by rewrite E|]. unfold cfg. by destruct (String.eqb (DefaultProjectID (o_Config opts)) "").
Qed.

(** The configuration and the handler that [NewServer] works with. *)
Definition serverConfig (opts : Options) : Config :=
  if String.eqb (DefaultProjectID (o_Config opts)) "" then with_project DefaultProjectIDFallback (o_Config opts) else o_Config opts.

Definition serverHandler (opts : Options) : Handler :=
  let cfg := serverConfig opts in
  let repo := default Memory.New (o_Repo opts) in
  let '(svc, w) := NewService (serviceOptions cfg (mkDeps (Some cfg) repo (DecisionLog cfg) (AuditLog cfg))) repo in
  (NewHandler svc w (DefaultProjectID cfg) (DefaultTenantID cfg) (AdminAPISecret cfg)
     (MaxBatchCheckItems cfg) (AdminRateLimitPerMinute cfg) (TenantRateLimitPerMinute cfg)).1.

Lemma NewServer_handler opts handler s :
  NewServer opts = Ok (handler, s) -> handler = chained (serverHandler opts) (serverConfig opts).
Proof.
  unfold NewServer. destruct (ValidateRegion _); simpl; [|done]. fold (serverConfig opts). unfold New. simpl.
  destruct (EnsureDefaultProject _ _ _) as [[[]|e] w']; [|done]. simpl. by intros [= <- <-].
Qed.

Lemma serverConfig_auth opts :
  ServiceAuthTokens (serverConfig opts) = ServiceAuthTokens (o_Config opts) /\
  ServiceCredentials (serverConfig opts) = ServiceCredentials (o_Config opts).
Proof. unfold serverConfig. by destruct (String.eqb _ _). Qed.

(** The store of a running server has its rows where they say. *)
Lemma handleAll_execs h cfg rs s :
  exists reqs, h_world (handleAll (chained h cfg) rs s) = execs (h_svc h) reqs (h_world s).
Proof.
  revert s. induction rs as [|r rs IH]; intros s; [by exists []|]. simpl.
  destruct (IH (chained h cfg r (mkCtx None) s).2) as [reqs ->].
  destruct (chained_cases h cfg r s) as [->|(sh & p & msg & ctx & _ & _ & _ & _ & ->)]; [by exists reqs|].
  destruct (serve_client h r ctx msg s) as (k & -> & _). exists (take k (rpcScript h ctx msg) ++ reqs).
  unfold execs. by rewrite foldl_app.
Qed.

Lemma running_located opts handler s0 rs :
  NewServer opts = Ok (handler, s0) -> located (default Memory.New (o_Repo opts)) ->
  located (w_repo (h_world (handleAll handler rs s0))).
Proof.
  intros (h & cfg & opts' & reqs & -> & Hs & _)%NewServer_inv Hl.
  destruct (handleAll_execs h cfg rs s0) as [reqs' ->]. apply execs_located. rewrite Hs. by apply execs_located.
Qed.

(** Without the admin secret a request changes at most the shards of the
    principal of its RPC, and no project row. *)
Lemma request_isolated h cfg r s own :
  lacksSecret h r -> located (w_repo (h_world s)) ->
  (forall ctx, authContext (ServiceAuthTokens cfg) (ServiceCredentials cfg) r = Some ctx -> forall msg q,
     rpcPrincipal h ctx msg = Some q ->
     own (scope (pr_ProjectID q) (pr_TenantID q)) = true /\ forall sk, inProject (pr_ProjectID q) sk = true -> own sk = true) ->
  sameOutside own (w_repo (h_world s)) (w_repo (h_world (chained h cfg r (mkCtx None) s).2)).
Proof.
  intros Hlack Hl Hown. destruct (chained_cases h cfg r s) as [->|(sh & p & msg & ctx & _ & _ & _ & Ha & ->)]; [by split|].
  destruct (rpcPrincipal h ctx msg) as [q|] eqn:Hq.
  - destruct (Hown ctx Ha msg q Hq) as [Ho Hp]. eapply serve_isolated; eauto.
  - destruct msg as [u p' t a|p' t a|p' u|a]; try discriminate Hq.
    destruct (serveAdmin_gate h r a s Hlack) as (_ & _ & _ & _ & Hw). simpl. rewrite Hw. by split.
Qed.
End Server.

(** ** A server of the examples: one pinned credential, an admin secret *)
Definition sampleConfig : Config :=
  mkConfig 8080 9090 "default" "t" "" "" false [] [mkCredential "s3cret" "billing" "acme"] "root-secret" []
    0 0 0 0 0 0 0 false false.

Definition sampleRequest (path token secret body : string) : HttpRequest :=
  mkHttpRequest "POST" path
    (fun k => if String.eqb k "Authorization" then String.append "Bearer " token
              else if String.eqb k adminSecretHeader then secret else "") "10.0.0.1:99" body.

Definition writePath : string := "/workspace.v1.AuthzService/WriteRelationTuples".

Definition sampleNewServer : result (HttpHandler HState (@reply sampleCodec sampleProto) * HState) :=
  @NewServer sampleSources map_range_default sampleCodec sampleParsers sampleTokenJson sampleProto sampleLimiterEnv
    sampleRuntime (mkOptions None sampleConfig).

Definition okServer {A} (r : result (HttpHandler HState A * HState)) : HttpHandler HState A * HState :=
  match r with Ok x => x | Err _ => (fun _ _ s => (None, s), mkHState (NewService [] Memory.New).2 None None newMetrics 0) end.

Lemma sampleNewServer_ok : sampleNewServer = Ok ((okServer sampleNewServer).1, (okServer sampleNewServer).2).
Proof.
  assert (Hok : match sampleNewServer with Ok _ => true | Err _ => false end = true) by (vm_compute; reflexivity).
  by destruct sampleNewServer as [[]|].
Qed.

(** C19.  Nobody gets in without a credential: when the server is configured with
    tokens or credentials, a request that presents none of them changes nothing at
    all (store, limiters, counters and logs), whatever its path and method, and
    outside the health paths and preflights it is answered with 401. *)
Theorem server_refuses_strangers `{Sources} `{MapRange} `{JsonCodec} `{TextParsers} `{TokenJson} `{ProtoTypes} `{LimiterEnv}
    `{!ConnectRuntime} opts handler s0 r s :
  NewServer opts = Ok (handler, s0) ->
  (nonEmpty (ServiceAuthTokens (o_Config opts)) <> [] \/ ServiceCredentials (o_Config opts) <> []) ->
  let presented := bearerToken (hr_Header r "Authorization") in
  presented ∉ nonEmpty (ServiceAuthTokens (o_Config opts)) -> presented ∉ cr_Token <$> ServiceCredentials (o_Config opts) ->
  (handler r (mkCtx None) s).2 = s /\
  (IsInfraPath (hr_Path r) = false -> hr_Method r <> MethodOptions ->
   exists hs, (handler r (mkCtx None) s).1 = Some (mkHttpResponse StatusUnauthorized hs (inr "invalid service credentials"))).
Proof.
  intros (h & cfg & opts' & reqs & -> & _ & Ht & Hc & _)%NewServer_inv Hconf presented Htok Hcred. rewrite <-Ht, <-Hc in *.
  assert (Hnil : is_nil (nonEmpty (ServiceAuthTokens cfg)) && is_nil (ServiceCredentials cfg) = false).
  { destruct (nonEmpty (ServiceAuthTokens cfg)), (ServiceCredentials cfg); naive_solver. }
  assert (Hm : (matchCredential presented (ServiceCredentials cfg)).2 = false).
  { destruct (matchCredential _ _) as [c []] eqn:E; [|done]. apply matchCredential_true in E as (_ & cr & Hl & _).
    destruct Hcred. apply last_Some_elem_of, list_elem_of_filter in Hl as [<- Hin]. by apply list_elem_of_fmap_2. }
  assert (Htm : tokenMatches presented (nonEmpty (ServiceAuthTokens cfg)) = false).
  { destruct (tokenMatches _ _) eqn:E; [|done]. by apply tokenMatches_true in E as [_ ?]. }
  split.
  - destruct (chained_cases h cfg r s) as [?|(sh & p & msg & ctx & _ & _ & _ & Ha & _)]; [done|].
    unfold authContext in Ha. fold presented in Ha. by rewrite Hnil, Hm, Htm in Ha.
  - intros Hi Ho%String.eqb_neq. exists (corsHeaders (AllowedOrigins cfg) (hr_Header r "Origin") ++ []).
    unfold chained, Chain. simpl. unfold Recover, CORS, ServiceAuth. rewrite Ho, Hnil, Hi. simpl. fold presented.
    destruct (matchCredential presented _) as [c ok]. simpl in Hm. by rewrite Hm, Htm.
Qed.

Lemma server_refuses_strangers_witness :
  let hs := okServer sampleNewServer in
  (hs.1 (sampleRequest writePath "guess" "" "d1") (mkCtx None) hs.2).2 = hs.2.
Proof.
  apply (@server_refuses_strangers sampleSources map_range_default sampleCodec sampleParsers sampleTokenJson sampleProto
    sampleLimiterEnv sampleRuntime (mkOptions None sampleConfig) _ (okServer sampleNewServer).2).
  - exact sampleNewServer_ok.
  - right. intros [=].
  - vm_compute. apply not_elem_of_nil.
  - change (bearerToken _) with "guess". intros Hin. cbn in Hin. by apply list_elem_of_singleton in Hin.
Defined.

(** A workspace that does not exist. *)
Definition sampleRpc : @rpc sampleCodec sampleProto := Acting "u" "p" "t" (RpcGetWorkspace "w").
Definition sampleHandler : Handler * HState :=
  let sw := NewService [] Memory.New in NewHandler sw.1 sw.2 "" "" "" 0 0 0.

Lemma rpc_errors_have_codes_witness :
  exists code cause, ErrConnect CodeNotFound ErrNotFound = ErrConnect code cause /\
    ((code ∈ refusalCodes false /\ exists text, cause = ErrPlain text) \/ fits code cause).
Proof.
  destruct (@rpc_errors_have_codes sampleSources map_range_default sampleCodec sampleParsers sampleTokenJson sampleProto
    sampleLimiterEnv sampleHandler.1 (sampleRequest "" "" "" "") (mkCtx None) sampleRpc sampleHandler.2
    (ErrConnect CodeNotFound ErrNotFound)) as (code & cause & He & [Hown|[Hfits _]]).
  - vm_compute. reflexivity.
  - exists code, cause. split; [exact He|left; exact Hown].
  - exists code, cause. split; [exact He|right; exact Hfits].
Defined.

(** C20.  Projects belong to the administrator: after any traffic, a request that
    does not carry the admin secret (or any request when no secret is set) leaves
    every project row as it was. *)
Theorem server_projects_need_secret `{Sources} `{MapRange} `{JsonCodec} `{TextParsers} `{TokenJson} `{ProtoTypes} `{LimiterEnv}
    `{!ConnectRuntime} opts handler s0 rs r :
  NewServer opts = Ok (handler, s0) -> located (default Memory.New (o_Repo opts)) ->
  (AdminAPISecret (o_Config opts) = "" \/ hr_Header r adminSecretHeader <> AdminAPISecret (o_Config opts)) ->
  let s := handleAll handler rs s0 in
  projects (w_repo (h_world (handler r (mkCtx None) s).2)) = projects (w_repo (h_world s)).
Proof.
  intros Hn Hl Hsec s. pose proof (running_located _ _ _ rs Hn Hl) as Hs.
  destruct (NewServer_inv _ _ _ Hn) as (h & cfg & opts' & reqs & -> & _ & _ & _ & Hadm). rewrite <-Hadm in Hsec.
  destruct (request_isolated h cfg r s (fun _ => true) Hsec Hs) as [Hp _]; [|done]. intros. by split.
Qed.

Lemma server_projects_need_secret_witness :
  let hs := okServer sampleNewServer in
  let s := handleAll hs.1 [sampleRequest writePath "s3cret" "" "d1"] hs.2 in
  projects (w_repo (h_world (hs.1 (sampleRequest "/workspace.v1.AdminService/CreateProject" "s3cret" "guess" "q") (mkCtx None) s).2))
  = projects (w_repo (h_world s)).
Proof.
  apply (@server_projects_need_secret sampleSources map_range_default sampleCodec sampleParsers sampleTokenJson sampleProto
    sampleLimiterEnv sampleRuntime (mkOptions None sampleConfig)).
  - exact sampleNewServer_ok.
  - apply located_New.
  - right. intros [=].
Defined.

(** The pin decides the project, whatever the message says. *)
Lemma pinned_project `{JsonCodec} `{ProtoTypes} h c P msg q :
  ci_ProjectID c = P -> P <> "" -> rpcPrincipal h (mkCtx (Some c)) msg = Some q -> pr_ProjectID q = P.
Proof.
  intros Hc HP%String.eqb_neq. destruct msg; simpl; intros [= <-]; simpl; unfold callerProject, CallerFrom; simpl; by rewrite Hc, HP.
Qed.

(** A token all of whose credentials are pinned to [P] gives a caller of [P]. *)
Lemma matchCredential_pinned presented creds P :
  presented <> "" -> presented ∈ cr_Token <$> creds -> Forall (fun c => cr_Token c = presented -> cr_ProjectID c = P) creds ->
  exists c, matchCredential presented creds = (c, true) /\ ci_ProjectID c = P.
Proof.
  intros Hne (cr & Hcr & Hin)%list_elem_of_fmap Hpin.
  assert (Hf : cr ∈ filter (fun c => cr_Token c = presented) creds) by by apply list_elem_of_filter.
  destruct (last (filter (fun c => cr_Token c = presented) creds)) as [cr'|] eqn:El.
  - exists (mkCaller (cr_Name cr') (cr_ProjectID cr')). split; [apply matchCredential_true; eauto|]. simpl.
    apply last_Some_elem_of, list_elem_of_filter in El as [Hcr' Hin']. rewrite Forall_forall in Hpin. by apply Hpin.
  - apply last_None in El. rewrite El in Hf. by apply not_elem_of_nil in Hf.
Qed.

(** C17.  A credential pinned to a project stays in it: after any traffic, a
    request with such a credential and without the admin secret leaves every shard
    of every other project, and all project rows, exactly as they were, whatever
    project its message names. *)
Theorem pinned_caller_confined `{Sources} `{MapRange} `{JsonCodec} `{TextParsers} `{TokenJson} `{ProtoTypes} `{LimiterEnv}
    `{!ConnectRuntime} opts handler s0 rs r P P' t' :
  NewServer opts = Ok (handler, s0) -> located (default Memory.New (o_Repo opts)) ->
  (AdminAPISecret (o_Config opts) = "" \/ hr_Header r adminSecretHeader <> AdminAPISecret (o_Config opts)) ->
  let presented := bearerToken (hr_Header r "Authorization") in
  presented <> "" -> presented ∈ cr_Token <$> ServiceCredentials (o_Config opts) ->
  Forall (fun c => cr_Token c = presented -> cr_ProjectID c = P) (ServiceCredentials (o_Config opts)) ->
  P <> "" -> P <> P' -> idOK P -> idOK P' ->
  let s := handleAll handler rs s0 in
  let s' := (handler r (mkCtx None) s).2 in
  projects (w_repo (h_world s')) = projects (w_repo (h_world s)) /\
  agreeAt (scope P' t') (w_repo (h_world s')) (w_repo (h_world s)).
Proof.
  intros Hn Hl Hsec presented Hne Hin Hpin HP HPP' Hok Hok' s s'. pose proof (running_located _ _ _ rs Hn Hl) as Hs.
  destruct (NewServer_inv _ _ _ Hn) as (h & cfg & opts' & reqs & -> & _ & Ht & Hc & Hadm). rewrite <-Hadm in Hsec. rewrite <-Hc in *.
  destruct (request_isolated h cfg r s (inProject P) Hsec Hs) as [Hp Hsh].
  - intros ctx Ha msg q Hq.
    destruct (matchCredential_pinned presented (ServiceCredentials cfg) P Hne Hin Hpin) as (c & Em & Hci).
    unfold authContext in Ha. fold presented in Ha. rewrite Em in Ha. simpl in Ha.
    assert (Hnil : is_nil (nonEmpty (ServiceAuthTokens cfg)) && is_nil (ServiceCredentials cfg) = false).
    { destruct (ServiceCredentials cfg); [by apply not_elem_of_nil in Hin|]. by rewrite andb_false_r. }
    rewrite Hnil in Ha. injection Ha as <-. rewrite (pinned_project h c P msg q Hci HP Hq). split; [|done].
    by apply inProject_scope.
  - split; [done|]. apply Hsh. destruct (inProject P (scope P' t')) eqn:E; [|done]. by apply inProject_scope in E.
Qed.

Lemma pinned_caller_confined_witness :
  let hs := okServer sampleNewServer in
  let s := handleAll hs.1 [sampleRequest writePath "s3cret" "" "d1"] hs.2 in
  let s' := (hs.1 (sampleRequest writePath "s3cret" "" "d2") (mkCtx None) s).2 in
  projects (w_repo (h_world s')) = projects (w_repo (h_world s)) /\
  agreeAt (scope "other" "t") (w_repo (h_world s')) (w_repo (h_world s)).
Proof.
  apply (@pinned_caller_confined sampleSources map_range_default sampleCodec sampleParsers sampleTokenJson sampleProto
    sampleLimiterEnv sampleRuntime (mkOptions None sampleConfig) _ _ _ _ "acme").
  - exact sampleNewServer_ok.
  - apply located_New.
  - right. intros [=].
  - intros [=].
  - cbn. by apply list_elem_of_singleton.
  - by repeat constructor.
  - intros [=].
  - intros [=].
  - reflexivity.
  - reflexivity.
Defined.

(** The example request is served: it writes to the pinned project, not to the
    one it names. *)
Example pinned_write_lands :
  let hs := okServer sampleNewServer in
  let st := w_repo (h_world (handleAll hs.1 [sampleRequest writePath "s3cret" "" "d1"] hs.2)) in
  (ConsistencyToken "acme" "t" st).1 = Ok 1 /\ (ConsistencyToken "other" "t" st).1 = Ok 0.
Proof. vm_compute. by split. Qed.
