(* ===== verification/SeatTheorems.v ===== *)
(** * Seats: the counted table and the entitlement tuples never drift apart *)

From stdpp Require Import base gmap strings list.
From Stdlib Require Import ZArith Lia.
From S2P Require Import Prelude Conditions Model ModelJson Types Text Engine Memory MemoryKeys MemoryTheorems Token.
From S2P Require Import Service ServiceGroups ServiceFrame Requests RequestFrame WorkspaceInv WorkspaceSteps.
#[local] Open Scope Z_scope.

Definition seatRow (s : Store) (sk sku u : string) : option SeatAssignment := inner (inner (seatAssigns s) sk) sku !! u.

Record seatInv (s : Store) : Prop := mkSeatInv {
  se_keyed : storeKeyed s;
  se_rows : forall sk sku u, is_Some (seatRow s sk sku u) <-> present s sk (seatTuple sku u);
  se_only : forall sk k x, inner (tuples s) sk !! k = Some x -> t_Namespace x = seatNamespace ->
            exists sku u, x = seatTuple sku u;
}.

Lemma tupleIdent_seat sku u sku' u' :
  tupleIdent (seatTuple sku u) = tupleIdent (seatTuple sku' u') <-> sku = sku' /\ u = u'.
Proof. unfold tupleIdent, seatTuple, userTuple. simpl. naive_solver. Qed.

(** A stored tuple carries the identity its key stands for. *)
Lemma stored_seat s sk sku u x :
  seatInv s -> inner (tuples s) sk !! tupleKey (seatTuple sku u) = Some x -> x = seatTuple sku u.
Proof.
  intros Hs Hx. pose proof (storeKeyed_shard s sk (se_keyed s Hs) _ _ Hx) as Hk. simpl in Hk.
  apply tupleKey_ident in Hk. destruct (se_only s Hs _ _ _ Hx) as (sku' & u' & ->); [by injection Hk|].
  apply tupleIdent_seat in Hk as [-> ->]. done.
Qed.

(** ** Writes *)
Lemma se_only_write p t ins del s :
  (forall sk k x, inner (tuples s) sk !! k = Some x -> t_Namespace x = seatNamespace -> exists sku u, x = seatTuple sku u) ->
  (forall x, x ∈ ins -> t_Namespace x = seatNamespace -> exists sku u, x = seatTuple sku u) ->
  forall sk k x, inner (tuples (writeTuplesLocked p t ins del s)) sk !! k = Some x ->
  t_Namespace x = seatNamespace -> exists sku u, x = seatTuple sku u.
Proof.
  intros Hs Hi sk k x. unfold writeTuplesLocked. simpl.
  destruct (decide (sk = scope p t)) as [->|Hne]; [|rewrite inner_insert_ne by done; apply Hs].
  rewrite inner_insert, foldl_insert_lookup, foldl_delete_lookup.
  destruct (last _) as [y|] eqn:Hl.
  - intros [= <-]. apply last_Some_elem_of, list_elem_of_filter in Hl as [_ Hy]. by apply Hi.
  - case_decide; [done|]. apply Hs.
Qed.

Lemma present_foreign p t ins del s sk sku u :
  foreign ins -> foreign del ->
  present (writeTuplesLocked p t ins del s) sk (seatTuple sku u) <-> present s sk (seatTuple sku u).
Proof.
  unfold foreign. rewrite !Forall_forall, present_write. intros Hi Hd. case_decide; [|done].
  assert (Hno : forall l : list Tuple, (forall x, x ∈ l -> t_Namespace x <> seatNamespace) ->
            forall y, y ∈ l -> tupleIdent y <> tupleIdent (seatTuple sku u)).
  { intros l Hl y Hy Hid. apply (Hl y Hy). by injection Hid. }
  split; [|intros ?; right; split; [by apply Hno|done]].
  intros [(y & Hy & Hid)|[_ ?]]; [|done]. by destruct (Hno ins Hi y Hy).
Qed.

(** The tuple of one seat added, or removed. *)
Lemma present_assign p t sku u s sk sku' u' :
  present (writeTuplesLocked p t [seatTuple sku u] [] s) sk (seatTuple sku' u')
  <-> (sk, sku', u') = (scope p t, sku, u) \/ present s sk (seatTuple sku' u').
Proof.
  rewrite present_write. case_decide as Hsk; [subst sk|naive_solver].
  setoid_rewrite list_elem_of_singleton. split.
  - intros [(y & -> & [-> ->]%tupleIdent_seat)|[_ ?]]; [by left|by right].
  - intros [[= -> ->]|?]; [left; eauto|]. right. split; [by intros y ?%not_elem_of_nil|done].
Qed.

Lemma present_revoke p t sku u s sk sku' u' :
  present (writeTuplesLocked p t [] [seatTuple sku u] s) sk (seatTuple sku' u')
  <-> (sk, sku', u') <> (scope p t, sku, u) /\ present s sk (seatTuple sku' u').
Proof.
  rewrite present_write. case_decide as Hsk; [subst sk|naive_solver].
  setoid_rewrite list_elem_of_singleton. split.
  - intros [(y & ?%not_elem_of_nil & _)|[Hn ?]]; [done|]. split; [|done]. intros [= -> ->]. by apply (Hn _ eq_refl).
  - intros [Hne ?]. right. split; [|done]. intros y -> [-> ->]%tupleIdent_seat. by apply Hne.
Qed.

(** ** The invariant is kept by every way of writing *)
Lemma lookup_ensure3 {B} (ms : gmap string (gmap string (gmap string B))) k j k' j' i' :
  inner (inner (<[k := ensureInner j (inner ms k)]> ms) k') j' !! i' = inner (inner ms k') j' !! i'.
Proof.
  destruct (decide (k = k')) as [<-|Hne]; [by rewrite inner_insert, inner_ensure|by rewrite inner_insert_ne].
Qed.

Lemma seatInv_assign p t sku u tm s :
  seatInv s -> seatInv (AssignSeatAndTuple (mkSeatAssignment p t sku u tm) (seatTuple sku u) s).2.
Proof.
  intros Hs. set (sk := scope p t).
  pose proof (lookup_ensure3 (seatAssigns s) sk sku) as Hens.
  assert (Honly : forall st, tuples st = tuples s -> forall sk k x,
            inner (tuples (writeTuplesLocked p t [seatTuple sku u] [] st)) sk !! k = Some x ->
            t_Namespace x = seatNamespace -> exists sku u, x = seatTuple sku u).
  { intros st Ht. apply se_only_write; [rewrite Ht; apply Hs|]. intros x ->%list_elem_of_singleton _. eauto. }
  assert (Hpres : forall st sk' sku' u', tuples st = tuples s ->
            present (writeTuplesLocked p t [seatTuple sku u] [] st) sk' (seatTuple sku' u')
            <-> (sk', sku', u') = (sk, sku, u) \/ is_Some (seatRow s sk' sku' u')).
  { intros st sk' sku' u' Ht. rewrite present_assign, (se_rows s Hs). unfold present. by rewrite Ht. }
  unfold AssignSeatAndTuple. simpl. fold sk. rewrite inner_insert, inner_ensure.
  destruct (inner (inner (seatAssigns s) sk) sku !! u) as [a|] eqn:Ha; simpl.
  - split; [by apply storeKeyed_write, Hs| |by apply Honly]. intros sk' sku' u'. rewrite Hpres by done.
    unfold seatRow at 1. simpl. rewrite Hens. fold (seatRow s sk' sku' u'). split; [by right|]. intros [[= -> -> ->]|?]; [|done]. unfold seatRow. by rewrite Ha.
  - case_match; simpl.
    { split; [apply Hs| |apply Hs]. intros sk' sku' u'. unfold seatRow. simpl. rewrite Hens. apply Hs. }
    split; [by apply storeKeyed_write, Hs| |by apply Honly]. intros sk' sku' u'.
    rewrite Hpres by done. unfold seatRow at 1. simpl.
    rewrite lookup_put3. case_decide as Hd; [destruct Hd as (-> & -> & ->); split; [by left|done]|].
    rewrite Hens. unfold seatRow. naive_solver.
Qed.

Lemma seatInv_revoke p t sku u s : seatInv s -> seatInv (RevokeSeatAndTuple p t sku u (seatTuple sku u) s).2.
Proof.
  intros Hs. simpl. split.
  - by apply storeKeyed_write, Hs.
  - intros sk sku' u'. rewrite present_revoke. unfold seatRow. simpl. rewrite lookup_del3.
    case_decide as Hd; [|rewrite (se_rows s Hs sk sku' u'); naive_solver].
    destruct Hd as (-> & -> & ->). split; [by intros [? ?]|naive_solver].
  - apply se_only_write; [apply Hs|]. by intros x ?%not_elem_of_nil.
Qed.

Lemma seatInv_deprovision p u s : seatInv s -> seatInv (DeleteAllSubjectTuplesInProject p u s).2.
Proof.
  intros Hs. split.
  - apply storeKeyed_deprovision, Hs.
  - intros sk sku v. unfold seatRow, present. simpl. rewrite inner_dropSubjectSeats, inner_dropSubjectTuples.
    destruct (inProject p sk); [|apply Hs]. destruct (decide (v = u)) as [->|Hne].
    + rewrite lookup_delete_eq. split; [by intros [? ?]|]. intros [x [Hx Hu]%map_lookup_filter_Some].
      apply (stored_seat s) in Hx as ->; [|done]. unfold isSubjectUser in Hu. simpl in Hu. by rewrite String.eqb_refl in Hu.
    + rewrite lookup_delete_ne by done. rewrite (se_rows s Hs sk sku v : is_Some (inner _ _ !! _) <-> _).
      split; intros [x Hx]; exists x.
      * apply map_lookup_filter_Some. split; [done|]. apply (stored_seat s) in Hx as ->; [|done].
        by apply String.eqb_neq.
      * by apply map_lookup_filter_Some in Hx as [? _].
  - intros sk k x. simpl. rewrite inner_dropSubjectTuples. destruct (inProject p sk); [|apply Hs].
    intros [Hx _]%map_lookup_filter_Some. by eapply (se_only s Hs).
Qed.

Lemma seatInv_filter ns id sk s :
  ns <> seatNamespace -> seatInv s ->
  seatInv (set_seqs (incr sk)
    (set_tuples (alter (filter (fun kv => ~ (t_Namespace kv.2 = ns /\ t_ObjectID kv.2 = id))) sk) s)).
Proof.
  intros Hns Hs.
  assert (Hlk : forall sk' k x, inner (alter (filter (fun kv => ~ (t_Namespace kv.2 = ns /\ t_ObjectID kv.2 = id))) sk (tuples s)) sk'
            !! k = Some x <-> inner (tuples s) sk' !! k = Some x /\ ~ (sk' = sk /\ t_Namespace x = ns /\ t_ObjectID x = id)).
  { intros sk' k x. destruct (decide (sk = sk')) as [<-|Hne].
    - rewrite inner_alter by apply map_filter_empty. rewrite map_lookup_filter_Some. simpl. naive_solver.
    - rewrite inner_alter_ne by done. naive_solver. }
  split; simpl.
  - intros sk' m. apply storeKeyed_filter; [|apply Hs]. by intros m' k x [? _]%map_lookup_filter_Some.
  - intros sk' sku u. etransitivity; [exact (se_rows s Hs sk' sku u)|].
    unfold present, is_Some. simpl. setoid_rewrite Hlk. split; intros [x Hx]; exists x; [|naive_solver].
    split; [done|]. apply (stored_seat s) in Hx as ->; [|done]. intros (_ & Hn & _). by apply Hns.
  - intros sk' k x [Hx _]%Hlk. by eapply (se_only s Hs).
Qed.

Lemma seatInv_shard : shardInvariant seatInv.
Proof.
  split.
  - intros s s' Ht Ha _ [Hk Hr Ho]. split; unfold storeKeyed, seatRow, present; rewrite ?Ht, ?Ha; done.
  - intros p t ins del s Hi Hd Hs. split.
    + by apply storeKeyed_write, Hs.
    + intros sk sku u. rewrite present_foreign by done. apply Hs.
    + apply se_only_write; [apply Hs|]. unfold foreign in Hi. rewrite Forall_forall in Hi.
      intros x Hx Hn. by destruct (Hi x Hx).
  - intros. by apply seatInv_filter.
  - intros. by apply seatInv_assign.
  - intros. by apply seatInv_revoke.
  - intros. by apply seatInv_deprovision.
Qed.

Lemma seatInv_New : seatInv New.
Proof.
  split.
  - apply map_Forall_empty.
  - intros sk sku u. split; intros [x Hx]; discriminate Hx.
  - intros sk k x Hx. discriminate Hx.
Qed.

(** C7.  Paid entitlements are never granted outside the counted flow: after
    any sequence of requests to a service that started on an empty store (raw
    tuple writes and deprovisioning included), a user holds the seat tuple of a
    product exactly when the seat table counts the user, and the reserved
    namespace contains nothing else. *)
Theorem seats_match_tuples `{Sources} `{MapRange} `{JsonCodec} `{TextParsers} `{TokenJson} svc opts reqs :
  let s := w_repo (execs svc reqs (NewService opts New).2) in
  (forall p t sku u,
     is_Some (inner (inner (seatAssigns s) (scope p t)) sku !! u) <-> holds s p t (seatTuple sku u)) /\
  (forall p t x, holds s p t x -> t_Namespace x = seatNamespace -> exists sku u, x = seatTuple sku u).
Proof.
  intros s. assert (Hs : seatInv s).
  { apply (execs_keeps_shard svc seatInv seatInv_shard). apply seatInv_New. }
  clearbody s. split.
  - intros p t sku u. etransitivity; [apply (se_rows s Hs)|].
    unfold present, holds, shard. split; [|by eexists]. intros [x Hx].
    by rewrite Hx, (stored_seat s _ _ _ _ Hs Hx).
  - intros p t x Hx. by eapply (se_only s Hs).
Qed.
