(* ===== verification/WorkspaceTheorems.v ===== *)
(** * What the product API guarantees about membership *)

From stdpp Require Import base gmap strings list.
From Stdlib Require Import ZArith Lia.
From S2P Require Import Prelude Conditions Model ModelJson Types Text Engine Memory MemoryKeys MemoryTheorems Token.
From S2P Require Import Service ServiceWorkspaces ServiceGroups ServiceProjects ServiceAuthz ServiceFrame Requests RequestFrame.
From S2P Require Import WorkspaceInv WorkspaceSteps WorkspaceOps.
#[local] Open Scope Z_scope.

(** ** The other components leave the membership side alone *)
Definition notRoles (ts : list Tuple) : Prop := Forall (fun x => t_Namespace x <> "workspace") ts.

Lemma notRoles_nil : notRoles []. Proof. constructor. Qed.
Lemma notRoles_seat sku u : notRoles [seatTuple sku u]. Proof. by repeat constructor. Qed.
Lemma notRoles_group g m tu : groupMemberTuple g m = Ok tu -> notRoles [tu].
Proof. unfold groupMemberTuple. intros Hg. repeat case_match; simplify_eq; by repeat constructor. Qed.
Lemma notRoles_if (b : bool) l l' : notRoles l -> notRoles l' -> notRoles (if b then l else l').
Proof. by destruct b. Qed.
#[export] Hint Resolve notRoles_nil notRoles_seat notRoles_if : go.

Lemma wsInv_write s s0 p t ins del :
  wsInv s -> workspaces s0 = workspaces s -> memberships s0 = memberships s -> invitations s0 = invitations s ->
  tuples s0 = tuples s -> notRoles ins -> notRoles del -> wsInv (writeTuplesLocked p t ins del s0).
Proof. intros Hs ? ? ? ? Hi Hd. apply wsInv_foreign; [by eapply wsInv_tuples_same|]. by apply Forall_app. Qed.

Section Others.
#[local] Ltac same := intros s Hs; repeat case_match; simpl; try done; eapply wsInv_tuples_same; [exact Hs|done..].

Lemma kw_CreateProject p : keepsStore wsInv (Memory.CreateProject p). Proof. unfold Memory.CreateProject. same. Qed.
Lemma kw_UpdateProject p : keepsStore wsInv (Memory.UpdateProject p). Proof. unfold Memory.UpdateProject. same. Qed.
Lemma kw_CreateGroup g : keepsStore wsInv (Memory.CreateGroup g). Proof. unfold Memory.CreateGroup. same. Qed.
Lemma kw_SetSeatLimit p t sku l : keepsStore wsInv (Memory.SetSeatLimit p t sku l).
Proof. unfold Memory.SetSeatLimit. same. Qed.
Lemma kw_DeleteGroup p t id : keepsStore wsInv (Memory.DeleteGroup p t id).
Proof.
  intros s Hs. unfold Memory.DeleteGroup. case_match; simpl; [|done].
  eapply (wsInv_filter s); [done|done|done|done|reflexivity|]. intros k x Hn [Hg _]. simpl in Hg. congruence.
Qed.
Lemma kw_WriteTuples p t ins del : notRoles ins -> notRoles del -> keepsStore wsInv (Memory.WriteTuples p t ins del).
Proof. intros Hi Hd s Hs. by eapply wsInv_write. Qed.
Lemma kw_SetEnrollmentAndTuples e ins del :
  notRoles ins -> notRoles del -> keepsStore wsInv (SetEnrollmentAndTuples e ins del).
Proof. intros Hi Hd s Hs. by eapply (wsInv_write s). Qed.
Lemma kw_AssignSeat a sku u : keepsStore wsInv (AssignSeatAndTuple a (seatTuple sku u)).
Proof.
  intros s Hs. unfold AssignSeatAndTuple. cbv zeta.
  destruct (_ !! sa_UserID a); [eapply (wsInv_write s); eauto with go|].
  destruct (seatUsageLocked _ _ _) as [used limit].
  destruct (match limit with Some n => n <=? used | None => false end); [by eapply wsInv_tuples_same|].
  eapply (wsInv_write s); eauto with go.
Qed.
Lemma kw_RevokeSeat p t sku u : keepsStore wsInv (RevokeSeatAndTuple p t sku u (seatTuple sku u)).
Proof. intros s Hs. eapply (wsInv_write s); eauto with go. Qed.
End Others.
#[export] Hint Resolve kw_CreateProject kw_UpdateProject kw_CreateGroup kw_SetSeatLimit kw_DeleteGroup
  kw_WriteTuples kw_SetEnrollmentAndTuples kw_AssignSeat kw_RevokeSeat : go.

(** ** Product requests: everything but raw writes of role tuples and the
    removal of all tuples of a user *)
Definition productRequest (req : request) : Prop :=
  match req with
  | ReqWriteTuples _ ops => Forall (fun op => t_Namespace (op_Tuple op) <> "workspace") ops
  | ReqDeprovisionUser _ _ => False
  | _ => True
  end.

Section Product.
Context `{Sources} `{MapRange} `{JsonCodec} `{TextParsers} `{TokenJson} (svc : ServiceConfig).

Lemma splitOps_notRoles ops ins del :
  splitOps ops = Ok (ins, del) -> Forall (fun op => t_Namespace (op_Tuple op) <> "workspace") ops ->
  notRoles ins /\ notRoles del.
Proof.
  intros Hs Hf. revert ins del Hs. induction Hf as [|op ops Hop _ IH]; intros ins del; simpl.
  { intros [= <- <-]. split; constructor. }
  intros (_ & _ & ([i d] & Hs & Heq)%rbind_inv_ok)%rbind_inv_ok. destruct (IH _ _ Hs) as [Hi Hd].
  destruct (op_Delete op); simplify_eq; split; by try constructor.
Qed.

Lemma kw_groupTuple {A} g m (k : Tuple -> St World A) :
  (forall tu, notRoles [tu] -> keeps wsInv (k tu)) -> keeps wsInv (bind (lift (groupMemberTuple g m)) k).
Proof.
  intros Hk. destruct (groupMemberTuple g m) as [tu|e] eqn:Hg; [|intros w Hw; done].
  intros w Hw. apply Hk; [|done]. by eapply notRoles_group.
Qed.

Lemma groupOps_keep p g m st :
  keeps wsInv (AddGroupMember svc p g m) /\ keeps wsInv (RemoveGroupMember svc p g m) /\
  keeps wsInv (SetEnrollmentState svc p g m st).
Proof.
  unfold AddGroupMember, RemoveGroupMember, SetEnrollmentState, requireGroupManager. split_and!.
  - do 3 (apply keeps_bind; [apply keeps_reads; apply _|intros ?]).
    apply kw_groupTuple. intros tu Htu. keeps; eauto with go.
  - do 2 (apply keeps_bind; [apply keeps_reads; apply _|intros ?]).
    apply kw_groupTuple. intros tu Htu. keeps; eauto with go.
  - do 2 (apply keeps_bind; [apply keeps_reads; apply _|intros ?]).
    apply kw_groupTuple. intros tu Htu. keeps; eauto with go.
Qed.

Lemma WriteTuples_keep p ops :
  Forall (fun op => t_Namespace (op_Tuple op) <> "workspace") ops -> keeps wsInv (WriteTuples svc p ops).
Proof.
  intros Hf. unfold WriteTuples. destruct (splitOps ops) as [[ins del]|e] eqn:Hs; [|by intros w Hw].
  destruct (splitOps_notRoles _ _ _ Hs Hf) as [Hi Hd]. apply keeps_lift_ok. keeps; eauto with go.
Qed.

Lemma exec_keeps_wsInv req w : productRequest req -> wsInv (w_repo w) -> wsInv (w_repo (exec svc req w)).
Proof.
  intros Hreq. assert (Hk : keeps wsInv (fun w => (Ok tt, exec svc req w))); [|exact (Hk w)].
  assert (Hk : forall {A} (c : St World A), keeps wsInv c -> keeps wsInv (fun w => (Ok tt, (c w).2))) by done.
  destruct req; try (by destruct Hreq); apply Hk; clear Hk;
    lazymatch goal with
    | |- keeps _ (EnsurePersonalWorkspace _) => apply EnsurePersonalWorkspace_keeps
    | |- keeps _ (CreateWorkspace _ _ _ _) => apply CreateWorkspace_keeps
    | |- keeps _ (ListWorkspaces _) => apply ListWorkspaces_keeps
    | |- keeps _ (UpdateWorkspace _ _ _ _) => apply UpdateWorkspace_keeps
    | |- keeps _ (DeleteWorkspace _ _ _) => apply DeleteWorkspace_keeps
    | |- keeps _ (AddMember _ _ _ _ _) => apply AddMember_keeps
    | |- keeps _ (UpdateMemberRole _ _ _ _ _) => apply UpdateMemberRole_keeps
    | |- keeps _ (RemoveMember _ _ _ _) => apply RemoveMember_keeps
    | |- keeps _ (SuspendMember _ _ _ _) => apply SuspendMember_keeps
    | |- keeps _ (ReinstateMember _ _ _ _) => apply ReinstateMember_keeps
    | |- keeps _ (TransferOwnership _ _ _ _) => apply TransferOwnership_keeps
    | |- keeps _ (CreateInvitation _ _ _ _ _) => apply CreateInvitation_keeps
    | |- keeps _ (AcceptInvitation _ _ _) => apply AcceptInvitation_keeps
    | |- keeps _ (RevokeInvitation _ _ _) => apply RevokeInvitation_keeps
    | |- keeps _ (BatchCheck _ _ _ _) => apply keeps_reads, Reads_BatchCheck
    | |- keeps _ (AddGroupMember _ _ _ _) => apply (groupOps_keep _ _ _ EnrollmentActive)
    | |- keeps _ (RemoveGroupMember _ _ _ _) => apply (groupOps_keep _ _ _ EnrollmentActive)
    | |- keeps _ (SetEnrollmentState _ _ _ _ _) => apply groupOps_keep
    | |- keeps _ (WriteTuples _ _ _) => by apply WriteTuples_keep
    | |- _ => try (apply keeps_reads; apply _)
    end.
  all: unfold CreateGroup, DeleteGroup, SetSeatLimit, AssignSeat, RevokeSeat, CreateProject, UpdateProject,
    EnsureDefaultProject, CreateProject, ExportSubjectGrants, requireGroupManager, audit; cbv zeta; keeps; eauto with go.
Qed.

Lemma wsInv_New : wsInv New.
Proof.
  split.
  - apply map_Forall_empty.
  - intros sk k x Hx. discriminate Hx.
  - intros sk ws. split; try discriminate. intros r u. split; [intros [x Hx]; discriminate Hx|].
    intros (m & Hm & _). discriminate Hm.
  - intros sk id i Hi. discriminate Hi.
Qed.

Lemma execs_keeps_wsInv reqs w :
  Forall productRequest reqs -> wsInv (w_repo w) -> wsInv (w_repo (execs svc reqs w)).
Proof.
  apply (execs_keeps svc (fun w => wsInv (w_repo w)) productRequest). apply exec_keeps_wsInv.
Qed.
End Product.
