(* ===== verification/RoleCheck.v ===== *)
(** * Permission checks on a workspace read the membership table

    With the built-in rules for workspaces, the check that guards the product
    operations walks the chain of roles from the wanted one up to the owner. *)

From stdpp Require Import base gmap strings list.
From Stdlib Require Import ZArith Lia.
From S2P Require Import Prelude Conditions Model ModelJson Types Text Engine Memory MemoryKeys MemoryTheorems EngineTheorems.
From S2P Require Import Service ServiceWorkspaces WorkspaceInv ServiceFrame.
#[local] Open Scope Z_scope.

Lemma visitKey_rel ns obj r r' : visitKey ns obj r = visitKey ns obj r' -> r = r'.
Proof. unfold visitKey. intros Hk. do 4 apply string_app_inj_l in Hk. done. Qed.

Section Chain.
Context `{TextParsers} (rd : TupleReader) (m : Model) (projectID tenantID ns obj u : string) (cc : anymap).

(** A subject that is just a user. *)
Definition plainSubject (s : Subject) : Prop := Set_ s = None /\ Wildcard s = false /\ Cond s = None.

Context (subs : string -> list Subject).
Context (Hsubs : forall r, ListSubjects rd projectID tenantID ns obj r = Ok (subs r) /\ Forall plainSubject (subs r)).

Definition listed (r : string) : bool := existsb (fun s => negb (String.eqb u "") && String.eqb (UserID s) u) (subs r).

Definition budgetFor (n : nat) (st : evalState) : Prop := maxReads st <= 0 \/ reads st + Z.of_nat n <= maxReads st.

Definition countRead (st : evalState) : evalState :=
  mkEvalState (visited st) (memo st) (cyclesSeen st) (reads st + 1) (calls st + 1) (maxReads st) (collector st).

Lemma chargeOrRecord_ok n st :
  budgetFor (S n) st -> exists st', chargeOrRecord st = (Ok tt, st') /\ countCall st' = countRead st /\ budgetFor n (countRead st).
Proof.
  unfold budgetFor, chargeOrRecord, charge. simpl. intros Hb.
  destruct (Z.ltb_spec 0 (maxReads st)), (Z.ltb_spec (maxReads st) (reads st + 1)); simpl; try (exfalso; lia); eexists; (split_and!; done || lia).
Qed.

Lemma evalThis_plain rec r n st :
  budgetFor (S n) st ->
  evalThis rd projectID tenantID (mkQuery u None) cc rec ns obj r false st = (Ok (listed r), countRead st) /\
  budgetFor n (countRead st).
Proof.
  intros Hb. destruct (chargeOrRecord_ok n st Hb) as (st1 & Hc & Hn & Hb'). split; [|done].
  unfold evalThis, bind at 1. rewrite Hc. destruct (Hsubs r) as [Hl Hp]. unfold bind, readSubjects. rewrite Hl, Hn.
  unfold listed. clear Hl. generalize (countRead st). intros st'.
  induction Hp as [|s l (Hset & Hw & Hcond) _ IH]; [done|]. cbn [orLoop]. unfold bind at 1.
  rewrite Hset, Hw, Hcond. simpl. destruct (negb (String.eqb u "") && String.eqb (UserID s) u); [done|].
  exact IH.
Qed.

#[local] Abbreviation EVAL := (evalRewrite rd projectID tenantID (mkQuery u None) cc).

Lemma evalRewrite_this rec r st :
  EVAL rec ns obj r RW.this false st = evalThis rd projectID tenantID (mkQuery u None) cc rec ns obj r false st.
Proof. done. Qed.

Lemma evalRewrite_or rec r r' st :
  r' <> "" ->
  EVAL rec ns obj r (RW.union [RW.this; RW.computed r']) false st
  = (let! ok := evalThis rd projectID tenantID (mkQuery u None) cc rec ns obj r false in
     if ok : bool then ret true
     else let! ok' := rec ns obj r' false in if ok' : bool then ret true else ret false) st.
Proof.
  intros Hne%String.eqb_neq. transitivity (orLoop (fun c => EVAL rec ns obj r c false) [RW.this; RW.computed r'] st); [done|].
  cbn [orLoop]. assert (Hc : EVAL rec ns obj r (RW.computed r') false = rec ns obj r' false); [|by rewrite Hc].
  simpl. unfold isThis. simpl. by rewrite Hne.
Qed.

(** Each role of the chain is granted directly or through the next one. *)
Fixpoint linked (l : list string) : Prop :=
  match l with
  | [] => False
  | r :: l' =>
      match l' with
      | [] => rewrite_of m ns r = RW.this
      | r' :: _ => rewrite_of m ns r = RW.union [RW.this; RW.computed r'] /\ r' <> "" /\ linked l'
      end
  end.

#[local] Abbreviation CHECK := (check rd m projectID tenantID (mkQuery u None) cc).
#[local] Abbreviation entered r st := (set_visited ({[visitKey ns obj r]} ∪ visited st) st).

(** The first visit of a node. *)
Lemma check_fresh left r st b st2 :
  memo st = ∅ -> visitKey ns obj r ∉ visited st ->
  EVAL (CHECK left) ns obj r (rewrite_of m ns r) false (entered r st) = (Ok b, st2) ->
  exists st', CHECK (S left) ns obj r false st = (Ok b, st').
Proof. intros Hm Hv He. cbn [check]. rewrite decide_False by done. rewrite Hm, lookup_empty, He. by eexists. Qed.

Lemma check_chain l r left st :
  linked (r :: l) -> NoDup (r :: l) -> memo st = ∅ ->
  (forall r', r' ∈ r :: l -> visitKey ns obj r' ∉ visited st) -> budgetFor (length (r :: l)) st ->
  exists st', CHECK (length (r :: l) + left) ns obj r false st = (Ok (existsb listed (r :: l)), st').
Proof.
  revert r st. induction l as [|r' l IH]; intros r st Hl Hnd Hm Hv Hb.
  - destruct (evalThis_plain (CHECK left) r 0 (entered r st) Hb) as [He _].
    eapply check_fresh; [done|apply Hv; left|]. cbn in Hl. rewrite Hl, evalRewrite_this, He.
    cbn [existsb]. by rewrite orb_false_r.
  - destruct Hl as (Hr & Hne & Hl).
    destruct (evalThis_plain (CHECK (length (r' :: l) + left)) r (length (r' :: l)) (entered r st) Hb) as [He Hb1].
    destruct (IH r' (countRead (entered r st))) as [st' Hst']; [done|by inversion Hnd|done| |done|].
    { intros r2 Hr2. simpl. rewrite elem_of_union, elem_of_singleton. intros [Heq%visitKey_rel|Hin].
      - subst r2. by inversion Hnd.
      - eapply Hv; [|exact Hin]. by right. }
    assert (Hev : exists st2, EVAL (CHECK (length (r' :: l) + left)) ns obj r (rewrite_of m ns r) false (entered r st)
              = (Ok (existsb listed (r :: r' :: l)), st2)).
    { rewrite Hr, evalRewrite_or by done. unfold bind at 1. rewrite He.
      change (existsb listed (r :: r' :: l)) with (listed r || existsb listed (r' :: l)).
      destruct (listed r); [by eexists|]. unfold bind. rewrite Hst'. cbn [orb].
      destruct (existsb listed (r' :: l)); by eexists. }
    destruct Hev as [st2 Hev]. exact (check_fresh _ _ _ _ _ Hm (Hv r ltac:(left)) Hev).
Qed.
End Chain.

(** ** The roles that grant a role, as the built-in rules have them *)
Definition grantingRoles (rel : Role) : list Role :=
  if String.eqb rel RoleOwner then [RoleOwner]
  else if String.eqb rel RoleAdmin then [RoleAdmin; RoleOwner]
  else if String.eqb rel RoleMember then [RoleMember; RoleAdmin; RoleOwner]
  else [RoleGuest; RoleMember; RoleAdmin; RoleOwner].

Definition builtinWorkspaceRules (m : Model) : Prop := m !! "workspace" = DefaultModel !! "workspace".

Lemma grantingRoles_chain m rel :
  builtinWorkspaceRules m -> Role_Valid rel = true ->
  exists l, grantingRoles rel = rel :: l /\ linked m "workspace" (rel :: l) /\ NoDup (rel :: l)
            /\ (length (rel :: l) <= 4)%nat.
Proof.
  intros Hm Hv.
  assert (Hrw : forall r, rewrite_of m "workspace" r = rewrite_of DefaultModel "workspace" r)
    by (intros r; unfold rewrite_of; by rewrite Hm).
  unfold Role_Valid in Hv. rewrite !orb_true_iff, !String.eqb_eq in Hv.
  destruct Hv as [[[->| ->]| ->]| ->]; eexists; (split; [reflexivity|]);
    (split; [cbn [linked]; rewrite !Hrw; repeat split; done|split; [|simpl; lia]]);
    apply (bool_decide_unpack _); vm_compute; exact I.
Qed.

Section Store.
Context `{TextParsers} `{MapRange} (s : Store) (p t ws u : string) (now : Time) (Hs : wsInv s).

Definition roleSubjects (r : string) : list Subject :=
  match ListSubjects_ now s p t "workspace" ws r with Ok l => l | Err _ => [] end.

Lemma roleSubjects_ok r :
  ListSubjects (storeReader now s) p t "workspace" ws r = Ok (roleSubjects r) /\ Forall plainSubject (roleSubjects r).
Proof.
  split; [done|]. apply Forall_forall. intros sub Hsub.
  apply (elem_of_ListSubjects now s p t "workspace" ws r _ _ (wi_keyed s Hs) eq_refl) in Hsub
    as (x & Hx & Hn & _ & _ & _ & <-).
  destruct (wi_only s Hs _ _ _ Hx Hn) as (ws' & r' & u' & ->). done.
Qed.

Lemma listed_role r : listed u roleSubjects r = true <-> u <> "" /\ hasRole s (scope p t) ws r u.
Proof.
  unfold listed. rewrite existsb_Exists, Exists_exists. split.
  - intros (sub & Hsub & [Hu%negb_true_iff%String.eqb_neq Heq%String.eqb_eq]%andb_prop). split; [done|].
    apply (elem_of_ListSubjects now s p t "workspace" ws r _ _ (wi_keyed s Hs) eq_refl) in Hsub
      as (x & Hx & Hn & Ho & Hr & _ & <-).
    destruct (wi_only s Hs _ _ _ Hx Hn) as (ws' & r' & u' & ->). simpl in *. subst. by eexists.
  - intros [Hu [x Hx]]. pose proof (storeKeyed_shard s (scope p t) (wi_keyed s Hs) _ _ Hx) as Hk. simpl in Hk.
    pose proof (proj1 (tupleKey_ident _ _) Hk) as Hid.
    destruct (wi_only s Hs _ _ _ Hx) as (ws' & r' & u' & ->); [by injection Hid|].
    apply tupleIdent_role in Hid as (-> & -> & ->). exists (mkSubject u None false None). split.
    + apply (elem_of_ListSubjects now s p t "workspace" ws r _ _ (wi_keyed s Hs) eq_refl).
      exists (roleTuple ws r u). done.
    + simpl. rewrite String.eqb_refl, andb_true_r. by apply negb_true_iff, String.eqb_neq.
Qed.

(** The check of the engine against the store. *)
Lemma check_role e m rel cc bs :
  reader e = storeReader now s -> maxDepth e = maxRecursionDepth ->
  builtinWorkspaceRules m -> Role_Valid rel = true -> u <> "" ->
  (effectiveMaxReads e 0 <= 0 \/ 4 <= effectiveMaxReads e 0) ->
  exists b, (CheckWithModel e m p t "workspace" ws rel u cc 0 bs).1 = Ok b /\
    (b = true <-> exists mb, rowAt s (scope p t) ws u = Some mb /\ mb_Status mb = StatusActive
                             /\ mb_Role mb ∈ grantingRoles rel).
Proof.
  intros Hrd Hd Hm Hv Hu Hb. destruct (grantingRoles_chain m rel Hm Hv) as (l & Hg & Hl & Hnd & Hlen).
  unfold CheckWithModel. rewrite Hrd, Hd.
  destruct (check_chain (storeReader now s) m p t "workspace" ws u cc roleSubjects roleSubjects_ok l rel
              (S maxRecursionDepth - length (rel :: l)) (newEvalState (effectiveMaxReads e 0) bs))
    as [st' Hst']; [done|done|done|intros r' _; apply not_elem_of_empty| |].
  { unfold budgetFor. simpl reads. simpl maxReads. destruct Hb; [by left|right]. lia. }
  replace (length (rel :: l) + (S maxRecursionDepth - length (rel :: l)))%nat with (S maxRecursionDepth) in Hst'
    by (unfold maxRecursionDepth; lia).
  exists (existsb (listed u roleSubjects) (rel :: l)). split; [by rewrite Hst'|]. rewrite Hg.
  rewrite existsb_Exists, Exists_exists. setoid_rewrite listed_role. setoid_rewrite (stored_role s Hs). naive_solver.
Qed.
End Store.

(** ** The guard of the product operations *)
Lemma allowed_member `{Sources} `{MapRange} `{TextParsers} svc p ws rel w m :
  wsInv (w_repo w) -> (resolverModelFor (pr_ProjectID p) w).1 = Ok m ->
  builtinWorkspaceRules m -> Role_Valid rel = true -> pr_UserID p <> "" ->
  (s_maxCheckReads svc <= 0 \/ 4 <= s_maxCheckReads svc) ->
  exists b, (allowed svc p ws rel w).1 = Ok b /\
    (b = true <-> exists mb, membershipRow (w_repo w) (pr_ProjectID p) (pr_TenantID p) ws (pr_UserID p) = Some mb
                             /\ mb_Status mb = StatusActive /\ mb_Role mb ∈ grantingRoles rel).
Proof.
  intros Hs Hres Hm Hv Hu Hb. unfold allowed, bind at 1.
  pose proof (reads_repo (c := resolverModelFor (pr_ProjectID p)) w) as Hw.
  destruct (resolverModelFor (pr_ProjectID p) w) as [r w1]. simpl in Hres, Hw. subst r.
  unfold evalWith, bind, now_, get, lift. simpl. rewrite Hw.
  set (e := engineWith svc m (clock (w_ticks w1)) (w_repo w)).
  assert (He : effectiveMaxReads e 0 <= 0 \/ 4 <= effectiveMaxReads e 0).
  { unfold effectiveMaxReads. simpl. destruct (Z.ltb_spec 0 (s_maxCheckReads svc)); lia. }
  destruct (check_role (w_repo w) (pr_ProjectID p) (pr_TenantID p) ws (pr_UserID p) (clock (w_ticks w1)) Hs e m rel
              ∅ None eq_refl eq_refl Hm Hv Hu He) as (b & Hb1 & Hb2).
  exists b. split; [|exact Hb2]. unfold Engine.Check. simpl ModelFor. fold e.
  cbv beta iota. destruct (CheckWithModel e m _ _ _ _ _ _ _ _ _) as [r st]. simpl in Hb1 |- *. by rewrite Hb1.
Qed.
