(* ===== verification/Resolver.v ===== *)
(** * The resolver's cache is bounded and never stale within a process *)

From stdpp Require Import base gmap strings list.
From Stdlib Require Import ZArith Lia.
From S2P Require Import Prelude Conditions Model ModelJson Types Text Engine Memory MemoryTheorems Token.
From S2P Require Import Service ServiceWorkspaces ServiceGroups ServiceProjects ServiceAuthz ServiceFrame Requests.
#[local] Open Scope Z_scope.

(** What the row of a project resolves to, the load time aside. *)
Record resolution := mkResolution { rn_model : option Model; rn_suspended : bool; rn_region : string; rn_maxReads : Z }.

Definition resolutionOf (ps : gmap string Project) (id : string) : resolution :=
  match ps !! id with
  | None => mkResolution None false "" 0
  | Some p => mkResolution (overlay (p_Model p)) (String.eqb (p_Status p) ProjectSuspended) (p_DataRegion p) (p_MaxCheckReads p)
  end.

Definition entryResolution (e : resolved) : resolution :=
  mkResolution (r_model e) (r_suspended e) (r_dataRegion e) (r_maxCheckReads e).

Record resolverOK (w : World) : Prop := mkResolverOK {
  ro_current : forall id e, w_cache w !! id = Some e -> entryResolution e = resolutionOf (projects (w_repo w)) id;
  ro_bound : (size (w_cache w) <= resolverMaxEntries)%nat;
  ro_keyed : map_Forall (fun id p => p_ID p = id) (projects (w_repo w));
}.

Lemma resolverOK_eq w w' :
  w_cache w' = w_cache w -> projects (w_repo w') = projects (w_repo w) -> resolverOK w -> resolverOK w'.
Proof. intros Hc Hp [H1 H2 H3]. split; by rewrite ?Hc, ?Hp. Qed.

Lemma resolverOK_sub w w' :
  w_cache w' ⊆ w_cache w -> projects (w_repo w') = projects (w_repo w) -> resolverOK w -> resolverOK w'.
Proof.
  intros Hc Hp [H1 H2 H3]. split.
  - intros id e He. rewrite Hp. apply H1. by eapply lookup_weaken.
  - etrans; [by apply map_subseteq_size|done].
  - by rewrite Hp.
Qed.

(** ** Eviction *)
Lemma evictSome_sub max keys c : evictSome max keys c ⊆ c.
Proof.
  revert c. induction keys as [|k keys IH]; intros c; simpl; [done|]. case_decide; [done|].
  etrans; [apply IH|apply delete_subseteq].
Qed.

Lemma evictSome_size max keys c :
  (0 < max)%nat -> (forall k, is_Some (c !! k) -> k ∈ keys) -> NoDup keys -> (size (evictSome max keys c) < max)%nat.
Proof.
  intros Hmax. revert c. induction keys as [|k keys IH]; intros c Hk Hnd; simpl.
  - assert (c = ∅) as ->; [|by rewrite map_size_empty]. apply map_empty. intros k.
    destruct (c !! k) eqn:E; [|done]. assert (k ∈ []) as ?%not_elem_of_nil by (apply Hk; by rewrite E). done.
  - case_decide; [done|]. inversion Hnd as [|? ? Hnk Hnd']; subst. apply IH; [|done]. intros k' [e He].
    apply lookup_delete_Some in He as [Hne He]. assert (k' ∈ k :: keys) as [?|?]%elem_of_cons by (apply Hk; eauto); done.
Qed.

(** ** Computations that keep it *)
Class KeepsResolver {A} (c : St World A) : Prop := keeps_resolver : forall w, resolverOK w -> resolverOK (c w).2.
(** Repository calls that do not touch the projects. *)
Class SameProjects {A} (c : St Store A) : Prop := same_projects : forall s, projects (c s).2 = projects s.

Section Instances.
#[export] Instance KR_ret {A} (a : A) : KeepsResolver (ret a). Proof. by intros w. Qed.
#[export] Instance KR_fail {A} e : KeepsResolver (fail (A := A) e). Proof. by intros w. Qed.
#[export] Instance KR_lift {A} (r : result A) : KeepsResolver (lift r). Proof. by intros w. Qed.
#[export] Instance KR_get : KeepsResolver get. Proof. by intros w. Qed.
#[export] Instance KR_guard b e : KeepsResolver (guard b e). Proof. intros w. by destruct b. Qed.
#[export] Instance KR_attempt {A} (c : St World A) : KeepsResolver c -> KeepsResolver (attempt c).
Proof. intros Hc w Hw. unfold attempt. specialize (Hc w Hw). by destruct (c w). Qed.
#[export] Instance KR_bind {A B} (c : St World A) (k : A -> St World B) :
  KeepsResolver c -> (forall a, KeepsResolver (k a)) -> KeepsResolver (bind c k).
Proof.
  intros Hc Hk w Hw. unfold bind. specialize (Hc w Hw). destruct (c w) as [[a|e] w1]; simpl in *; [|done]. by apply Hk.
Qed.
#[export] Instance KR_if {A} (b : bool) (c d : St World A) :
  KeepsResolver c -> KeepsResolver d -> KeepsResolver (if b then c else d).
Proof. by destruct b. Qed.
#[export] Instance KR_option {A B} (o : option B) (c : B -> St World A) (d : St World A) :
  (forall b, KeepsResolver (c b)) -> KeepsResolver d -> KeepsResolver (match o with Some b => c b | None => d end).
Proof. by destruct o. Qed.
#[export] Instance KR_result {A B} (o : result B) (c : B -> St World A) (d : error -> St World A) :
  (forall b, KeepsResolver (c b)) -> (forall e, KeepsResolver (d e)) ->
  KeepsResolver (match o with Ok b => c b | Err e => d e end).
Proof. by destruct o. Qed.
#[export] Instance KR_pair {A B C} (o : B * C) (c : B -> C -> St World A) :
  (forall b d, KeepsResolver (c b d)) -> KeepsResolver (let '(b, d) := o in c b d).
Proof. by destruct o. Qed.
#[export] Instance KR_repo {A} (c : St Store A) : SameProjects c -> KeepsResolver (repo c).
Proof.
  intros Hc w Hw. unfold repo. specialize (Hc (w_repo w)). destruct (c (w_repo w)) as [r s']. simpl in Hc.
  by apply (resolverOK_eq w).
Qed.
#[export] Instance KR_add_decision r : KeepsResolver (modify (add_decision r)).
Proof. intros w. by apply resolverOK_eq. Qed.
#[export] Instance KR_add_tupleAudit r : KeepsResolver (modify (add_tupleAudit r)).
Proof. intros w. by apply resolverOK_eq. Qed.
#[export] Instance KR_add_adminAudit r : KeepsResolver (modify (add_adminAudit r)).
Proof. intros w. by apply resolverOK_eq. Qed.
#[export] Instance SP_looks {A} (c : St Store A) : Looks c -> SameProjects c.
Proof. intros Hc s. by rewrite (Hc s). Qed.

#[local] Ltac sp := intros s; repeat case_match; done.
#[export] Instance SP_PutMembershipAndTuples m i d : SameProjects (PutMembershipAndTuples m i d). Proof. done. Qed.
#[export] Instance SP_WriteTuples p t i d : SameProjects (Memory.WriteTuples p t i d). Proof. done. Qed.
#[export] Instance SP_SetEnrollmentAndTuples e i d : SameProjects (SetEnrollmentAndTuples e i d). Proof. done. Qed.
#[export] Instance SP_RevokeSeatAndTuple p t sku u x : SameProjects (RevokeSeatAndTuple p t sku u x). Proof. done. Qed.
#[export] Instance SP_Deprovision p u : SameProjects (DeleteAllSubjectTuplesInProject p u). Proof. done. Qed.
#[export] Instance SP_UpdateWorkspace W : SameProjects (Memory.UpdateWorkspace W). Proof. unfold Memory.UpdateWorkspace. sp. Qed.
#[export] Instance SP_DeleteWorkspace p t id : SameProjects (Memory.DeleteWorkspace p t id). Proof. unfold Memory.DeleteWorkspace. sp. Qed.
#[export] Instance SP_CreateInvitation i : SameProjects (Memory.CreateInvitation i). Proof. unfold Memory.CreateInvitation. sp. Qed.
#[export] Instance SP_UpdateInvitation i : SameProjects (UpdateInvitation i). Proof. unfold UpdateInvitation. sp. Qed.
#[export] Instance SP_CreateGroup g : SameProjects (Memory.CreateGroup g). Proof. unfold Memory.CreateGroup. sp. Qed.
#[export] Instance SP_DeleteGroup p t id : SameProjects (Memory.DeleteGroup p t id). Proof. unfold Memory.DeleteGroup. sp. Qed.
#[export] Instance SP_SetSeatLimit p t sku l : SameProjects (Memory.SetSeatLimit p t sku l). Proof. unfold Memory.SetSeatLimit. sp. Qed.
#[export] Instance SP_CreateWorkspace `{MapRange} W : SameProjects (Memory.CreateWorkspace W).
Proof. unfold Memory.CreateWorkspace. sp. Qed.
#[export] Instance SP_DeleteMembershipAndTuples p t ws u d : SameProjects (DeleteMembershipAndTuples p t ws u d).
Proof.
  intros s. unfold DeleteMembershipAndTuples, bind, deleteMembershipLocked. by destruct (membershipRow _ _ _ _ _).
Qed.
#[export] Instance SP_AssignSeatAndTuple a x : SameProjects (AssignSeatAndTuple a x).
Proof.
  intros s. unfold AssignSeatAndTuple. cbv zeta. destruct (_ !! sa_UserID a); [done|].
  destruct (seatUsageLocked _ _ _) as [used limit]. by destruct (match limit with Some n => n <=? used | None => false end).
Qed.
End Instances.

Section Cache.
Context `{Sources} `{MapRange} `{JsonCodec} `{TextParsers} `{TokenJson} (svc : ServiceConfig).

#[export] Instance KR_now : KeepsResolver now_. Proof. intros w. by apply resolverOK_eq. Qed.
#[export] Instance KR_newID : KeepsResolver newID. Proof. intros w. by apply resolverOK_eq. Qed.
#[export] Instance KR_randHex : KeepsResolver randHex. Proof. intros w. by apply resolverOK_eq. Qed.
#[export] Instance KR_repoAt {A} (c : Time -> St Store A) : (forall t, SameProjects (c t)) -> KeepsResolver (repoAt c).
Proof. intros Hc. unfold repoAt. apply _. Qed.

#[export] Instance KR_delete id : KeepsResolver (modify (set_cache (delete id))).
Proof. intros w. apply resolverOK_sub; [|done]. apply delete_subseteq. Qed.
#[export] Instance KR_lookupCache id : KeepsResolver (lookupCache id).
Proof.
  intros w Hw. unfold lookupCache. destruct (w_cache w !! id) as [e|]; [|done].
  by apply (keeps_resolver (c := bind now_ _)).
Qed.

(** What a lookup that hits returns. *)
Lemma lookupCache_hit id w e w' :
  lookupCache id w = (Ok (Some e), w') -> w_cache w !! id = Some e.
Proof.
  unfold lookupCache. destruct (w_cache w !! id) as [e0|]; [|done]. unfold bind, now_. simpl.
  destruct (resolverTTL <? _); [done|]. by intros [= -> _].
Qed.

Lemma load_spec id w :
  exists e, (load id w).1 = Ok e /\ entryResolution e = resolutionOf (projects (w_repo w)) id.
Proof.
  unfold load, attempt, repo, bind, Memory.GetProject, resolutionOf.
  destruct (projects (w_repo w) !! id) as [p|]; eexists; (split; [reflexivity|reflexivity]).
Qed.

#[export] Instance KR_load id : KeepsResolver (load id). Proof. unfold load. apply _. Qed.

Lemma evictLocked_ok w :
  resolverOK w -> resolverOK (evictLocked w).2 /\ (size (w_cache (evictLocked w).2) < resolverMaxEntries)%nat.
Proof.
  intros Hw. unfold evictLocked, bind, now_, modify. simpl. set (live := filter _ (w_cache w)). split.
  - apply (resolverOK_sub w); [|done|done]. simpl. fold live. etrans; [apply evictSome_sub|apply map_filter_subseteq].
  - fold live. apply evictSome_size; [unfold resolverMaxEntries; lia| |apply range_map_fst_NoDup].
    intros k [e He]. apply list_elem_of_fmap. exists (k, e). split; [done|]. by apply elem_of_range_map.
Qed.

Lemma storeCache_ok id e w :
  resolverOK w -> entryResolution e = resolutionOf (projects (w_repo w)) id -> resolverOK (storeCache id e w).2.
Proof.
  intros Hw He. unfold storeCache.
  assert (Hins : forall w', resolverOK w' -> projects (w_repo w') = projects (w_repo w) ->
            (size (w_cache w') < resolverMaxEntries)%nat -> resolverOK (set_cache (<[id := e]>) w')).
  { intros w' [Hc _ Hk] Hp Hsz. split; simpl; [| |done].
    - intros id' e' [[<- <-]|[_ He']]%lookup_insert_Some; [by rewrite Hp|by apply Hc].
    - rewrite map_size_insert. destruct (w_cache w' !! id); simpl; lia. }
  unfold bind. case_decide as Hsz; simpl.
  - destruct (evictLocked_ok w Hw) as [Hok Hlt].
    pose proof (reads_repo (c := evictLocked) w) as Hrepo.
    exact (Hins (evictLocked w).2 Hok (f_equal projects Hrepo) Hlt).
  - apply Hins; [done|done|lia].
Qed.

(** A resolution always succeeds, is the current one, and keeps the cache. *)
Lemma resolve_spec id w :
  resolverOK w ->
  exists e w', resolve id w = (Ok e, w') /\ entryResolution e = resolutionOf (projects (w_repo w)) id
               /\ w_repo w' = w_repo w /\ resolverOK w'.
Proof.
  intros Hw. assert (Hlk : forall w, exists o w1, lookupCache id w = (Ok o, w1)).
  { intros w0. unfold lookupCache. destruct (w_cache w0 !! id); [|eauto]. unfold bind, now_. simpl.
    destruct (resolverTTL <? _); eauto. }
  assert (Hall : forall w0, resolverOK w0 -> exists o w1, lookupCache id w0 = (Ok o, w1) /\ resolverOK w1
            /\ w_repo w1 = w_repo w0 /\ forall e, o = Some e -> entryResolution e = resolutionOf (projects (w_repo w0)) id).
  { intros w0 Hw0. destruct (Hlk w0) as (o & w1 & Ho). exists o, w1. split_and!; [done| | |].
    - pose proof (keeps_resolver (c := lookupCache id) w0 Hw0) as Hk. by rewrite Ho in Hk.
    - by apply reads_inv in Ho; [|apply _].
    - intros e ->. apply (ro_current w0 Hw0). by eapply lookupCache_hit. }
  unfold resolve, bind.
  destruct (Hall w Hw) as (o & w1 & -> & Hw1 & Hr1 & Ho). destruct o as [e|]; [by exists e, w1; eauto|].
  destruct (Hall w1 Hw1) as (o2 & w2 & -> & Hw2 & Hr2 & Ho2). rewrite Hr1 in *.
  destruct o2 as [e|]; [exists e, w2; split_and!; eauto|].
  destruct (load_spec id w2) as (e & He & Hres). pose proof (keeps_resolver (c := load id) w2 Hw2) as Hw3.
  pose proof (reads_repo (c := load id) w2) as Hr3. rewrite Hr2 in *.
  destruct (load id w2) as [r w3]. simpl in He, Hw3, Hr3. subst r.
  assert (Hst : entryResolution e = resolutionOf (projects (w_repo w3)) id) by by rewrite Hr3.
  pose proof (storeCache_ok id e w3 Hw3 Hst) as Hw4. pose proof (reads_repo (c := storeCache id e) w3) as Hr4.
  assert (Hok : exists w4, storeCache id e w3 = (Ok tt, w4)).
  { unfold storeCache, bind. case_decide; simpl; eauto. }
  destruct Hok as [w4 Hst4]. rewrite Hst4 in *. exists e, w4. split_and!; [done|done|by rewrite <-Hr3|done].
Qed.

#[export] Instance KR_resolve id : KeepsResolver (resolve id).
Proof. intros w Hw. destruct (resolve_spec id w Hw) as (e & w' & -> & _ & _ & Hok). done. Qed.
End Cache.

(** ** Every request keeps it *)
Section Requests.
Context `{Sources} `{MapRange} `{JsonCodec} `{TextParsers} `{TokenJson} (svc : ServiceConfig).

(** A write of one project row followed by the invalidation of its entry. *)
Definition writesProject (id : string) (c : St Store unit) : Prop :=
  forall s, (exists e, c s = (Err e, s)) \/ (exists p, p_ID p = id /\ c s = (Ok tt, set_projects (<[id := p]>) s)).

Lemma KR_projectWrite {A} id c (k : St World A) :
  writesProject id c -> KeepsResolver k -> KeepsResolver (do! repo c in do! invalidate id in k).
Proof.
  intros Hc Hk w Hw. unfold bind at 1, repo. destruct (Hc (w_repo w)) as [[e ->]|(p & Hid & ->)].
  { by apply (resolverOK_eq w). }
  unfold bind, invalidate, modify. apply Hk. destruct Hw as [Hcur Hb Hkey]. split; simpl.
  - intros id' e [Hne He]%lookup_delete_Some. unfold resolutionOf. rewrite lookup_insert_ne by done. by apply Hcur.
  - etrans; [apply map_subseteq_size, delete_subseteq|done].
  - intros id' p' [[<- <-]|[_ Hp']]%lookup_insert_Some; [done|by apply Hkey].
Qed.

Lemma writesProject_create p : writesProject (p_ID p) (Memory.CreateProject p).
Proof. intros s. unfold Memory.CreateProject. destruct (_ !! p_ID p); eauto. Qed.
Lemma writesProject_update p : writesProject (p_ID p) (Memory.UpdateProject p).
Proof. intros s. unfold Memory.UpdateProject. destruct (_ !! p_ID p); eauto. Qed.

#[export] Instance KR_CreateProject id n m r b : KeepsResolver (CreateProject svc id n m r b).
Proof.
  unfold CreateProject, audit. do 6 (apply KR_bind; [apply _|intros ?]).
  apply (KR_projectWrite id (Memory.CreateProject (mkProject id _ _ _ _ _ _ _))); [|apply _].
  exact (writesProject_create (mkProject id _ _ _ _ _ _ _)).
Qed.

#[export] Instance KR_evalWith {A} m (f : Engine -> result A) : KeepsResolver (evalWith svc m f).
Proof. unfold evalWith. apply _. Qed.
#[export] Instance KR_regionServable e : KeepsResolver (regionServable svc e). Proof. unfold regionServable. apply _. Qed.
#[export] Instance KR_requireWorkspace p ws rel : KeepsResolver (requireWorkspace svc p ws rel).
Proof. unfold requireWorkspace, allowed, resolverModelFor. apply _. Qed.
#[export] Instance KR_ensureProjectActive p : KeepsResolver (ensureProjectActive svc p).
Proof. unfold ensureProjectActive. apply _. Qed.
#[export] Instance KR_ensureRegion p : KeepsResolver (ensureRegion svc p). Proof. unfold ensureRegion. apply _. Qed.
#[export] Instance KR_requireGroupManager p g : KeepsResolver (requireGroupManager svc p g).
Proof. unfold requireGroupManager, allowed, resolverModelFor. apply _. Qed.
#[export] Instance KR_putMember p ws u r : KeepsResolver (putMember svc p ws u r). Proof. unfold putMember. apply _. Qed.
#[export] Instance KR_EnsurePersonalWorkspace p : KeepsResolver (EnsurePersonalWorkspace p).
Proof. unfold EnsurePersonalWorkspace, createWorkspaceWithOwner. apply _. Qed.
#[export] Instance KR_Check p ns o r u cc : KeepsResolver (Check svc p ns o r u cc).
Proof. unfold Check, logged, decide_. apply _. Qed.

Lemma KR_BatchCheck ctxErr p items : KeepsResolver (BatchCheck svc ctxErr p items).
Proof.
  unfold BatchCheck. generalize 0%nat. induction items as [|it items IH]; intros i; simpl; [apply _|].
  destruct (ctxErr i); [apply _|]. unfold batchItem. specialize (IH (S i)). apply _.
Qed.

(** An update writes the row under the id it was read from. *)
#[export] Instance KR_UpdateProject id n st m r cr b cb : KeepsResolver (UpdateProject svc id n st m r cr b cb).
Proof.
  unfold UpdateProject. do 8 (apply KR_bind; [apply _|intros ?]). intros w Hw.
  unfold bind at 1, repo at 1, Memory.GetProject.
  destruct (projects (w_repo w) !! id) as [old|] eqn:Hold; [|by apply (resolverOK_eq w)].
  assert (Hid : p_ID old = id) by by apply (ro_keyed w Hw).
  match goal with |- resolverOK (?c ?w0).2 =>
    assert (Hk : KeepsResolver c); [|apply Hk; by apply (resolverOK_eq w)] end.
  apply KR_bind; [apply _|]. intros t. unfold audit.
  apply (KR_projectWrite id); [|apply _]. rewrite <-Hid. apply (writesProject_update (mkProject (p_ID old) _ _ _ _ _ _ _)).
Qed.

Lemma exec_keeps_resolver req w : resolverOK w -> resolverOK (exec svc req w).
Proof.
  assert (Hk : KeepsResolver (fun w => (Ok tt, exec svc req w))); [|exact (Hk w)].
  assert (Hk : forall {A} (c : St World A), KeepsResolver c -> KeepsResolver (fun w => (Ok tt, (c w).2))) by done.
  destruct req; apply Hk; clear Hk; try apply KR_BatchCheck.
  all: unfold CreateWorkspace, GetWorkspace, ListWorkspaces, UpdateWorkspace, DeleteWorkspace, AddMember,
    UpdateMemberRole, RemoveMember, ListMembers, SuspendMember, ReinstateMember, TransferOwnership, CreateInvitation,
    AcceptInvitation, ListInvitations, RevokeInvitation, CreateGroup, GetGroup, ListGroups, DeleteGroup, AddGroupMember,
    RemoveGroupMember, ListGroupMembers, SetEnrollmentState, ListEnrollments, SetSeatLimit, SeatUsage, AssignSeat,
    RevokeSeat, ListSeats, GetProject, ListProjects, EnsureDefaultProject, WriteTuples, EnsureConsistency, ReadTuples,
    CheckSet, Expand, ListObjects, DeprovisionUser, ExportSubjectGrants, createWorkspaceWithOwner, auditTupleChanges,
    logged, decide_, query; cbv zeta; apply _.
Qed.

Lemma execs_keep_resolver reqs w : resolverOK w -> resolverOK (execs svc reqs w).
Proof.
  apply (execs_keeps svc resolverOK (fun _ => True)); [|by apply Forall_true].
  intros req w0 _. apply exec_keeps_resolver.
Qed.

Lemma resolverOK_New opts : resolverOK (NewService opts New).2.
Proof. split; [done| |apply map_Forall_empty]. simpl. rewrite map_size_empty. lia. Qed.
End Requests.
