(* ===== verification/ServiceTheorems.v ===== *)
(** * What the service guarantees, request by request *)

From stdpp Require Import base gmap strings list pretty.
From Stdlib Require Import ZArith Lia Ascii.
From S2P Require Import Prelude Conditions Model ModelJson Types Text Engine EngineTheorems ModelJsonTheorems Memory MemoryKeys MemoryTheorems Token.
From S2P Require Import Service ServiceWorkspaces ServiceGroups ServiceProjects ServiceAuthz ServiceFrame Requests RequestFrame.
From S2P Require Import WorkspaceInv WorkspaceSteps WorkspaceOps WorkspaceTheorems RoleCheck Resolver Samples.
#[local] Open Scope Z_scope.

(** ** People and requests of the examples *)
Definition alice : Principal := mkPrincipal "alice" "p" "t" "console".
Definition bob : Principal := mkPrincipal "bob" "p" "t" "console".

#[local] Abbreviation sampleExecs :=
  (@execs sampleSources map_range_default sampleCodec sampleParsers sampleTokenJson defaultConfig).
#[local] Abbreviation freshWorld := (NewService [] New).2.

(** Alice creates a team and adds Bob. *)
Definition teamRequests : list request := [
  ReqCreateWorkspace alice "Team" "";
  ReqAddMember alice "id-0" "bob" RoleMember].

(** ** Membership *)
Section Membership.
Context `{Sources} `{MapRange} `{JsonCodec} `{TextParsers} `{TokenJson} (svc : ServiceConfig).

Lemma wsInv_mirror s :
  wsInv s ->
  (forall p t ws r u, holds s p t (roleTuple ws r u) <->
     exists m, membershipRow s p t ws u = Some m /\ mb_Role m = r /\ mb_Status m = StatusActive) /\
  (forall p t ws u m, membershipRow s p t ws u = Some m ->
     exists W, inner (workspaces s) (scope p t) !! ws = Some W /\ (mb_Role m = RoleOwner <-> u = w_OwnerUserID W)) /\
  (forall p t ws W, inner (workspaces s) (scope p t) !! ws = Some W ->
     exists m, membershipRow s p t ws (w_OwnerUserID W) = Some m /\ mb_Role m = RoleOwner /\ mb_Status m = StatusActive).
Proof.
  intros Hs. split_and!.
  - intros p t ws r u. etransitivity; [|apply (stored_role s Hs (scope p t) ws r u)].
    unfold holds, hasRole, present, shard. split; [by eexists|]. intros [x Hx].
    pose proof (storeKeyed_shard s (scope p t) (wi_keyed s Hs) _ _ Hx) as Hk. simpl in Hk.
    pose proof (proj1 (tupleKey_ident _ _) Hk) as Hid.
    destruct (wi_only s Hs _ _ _ Hx) as (ws' & r' & u' & ->); [by injection Hid|].
    by apply tupleIdent_role in Hid as (-> & -> & ->).
  - intros p t ws u m Hm. destruct (stored_row s Hs _ _ _ _ Hm) as (W & HW & Hok). exists W. split; [done|]. apply Hok.
  - intros p t ws W HW. by destruct (stored_ws s Hs _ _ _ HW) as (_ & _ & Hm).
Qed.
End Membership.

(** C3.  Membership and authorization never disagree: after any sequence of
    product requests to a service that started on an empty store, a user has the
    role tuple of a workspace exactly when an active membership row gives that
    role, every row belongs to an existing workspace, and each workspace has
    exactly one owner, who is active and is the owner the workspace names.
    Left out are raw writes to the workspace namespace and deprovisioning, which
    change tuples without rows. *)
Theorem membership_mirrors_roles `{Sources} `{MapRange} `{JsonCodec} `{TextParsers} `{TokenJson} svc opts reqs :
  Forall productRequest reqs ->
  let s := w_repo (execs svc reqs (NewService opts New).2) in
  (forall p t ws r u, holds s p t (roleTuple ws r u) <->
     exists m, membershipRow s p t ws u = Some m /\ mb_Role m = r /\ mb_Status m = StatusActive) /\
  (forall p t ws u m, membershipRow s p t ws u = Some m ->
     exists W, inner (workspaces s) (scope p t) !! ws = Some W /\ (mb_Role m = RoleOwner <-> u = w_OwnerUserID W)) /\
  (forall p t ws W, inner (workspaces s) (scope p t) !! ws = Some W ->
     exists m, membershipRow s p t ws (w_OwnerUserID W) = Some m /\ mb_Role m = RoleOwner /\ mb_Status m = StatusActive).
Proof. intros Hreqs s. apply wsInv_mirror. apply execs_keeps_wsInv; [done|]. apply wsInv_New. Qed.

Lemma membership_mirrors_roles_witness :
  let s := w_repo (sampleExecs teamRequests freshWorld) in
  is_Some (membershipRow s "p" "t" "id-0" "bob") /\
  (holds s "p" "t" (roleTuple "id-0" RoleMember "bob") <->
     exists m, membershipRow s "p" "t" "id-0" "bob" = Some m /\ mb_Role m = RoleMember /\ mb_Status m = StatusActive).
Proof.
  split; [vm_compute; by eexists|].
  apply (@membership_mirrors_roles sampleSources map_range_default sampleCodec sampleParsers sampleTokenJson
           defaultConfig [] teamRequests). repeat constructor.
Defined.

(** C5.  The guard of the product operations reads the membership table: in a
    state reached by product requests, with the built-in workspace rules and a
    read budget that is unset or at least four, the check always answers, and it
    allows a caller for a role exactly when the caller has an active membership
    row whose role is the wanted one or a stronger one. *)
Theorem product_check_is_membership `{Sources} `{MapRange} `{JsonCodec} `{TextParsers} `{TokenJson} svc opts reqs p ws rel m :
  Forall productRequest reqs ->
  let w := execs svc reqs (NewService opts New).2 in
  (resolverModelFor (pr_ProjectID p) w).1 = Ok m -> builtinWorkspaceRules m ->
  Role_Valid rel = true -> pr_UserID p <> "" -> (s_maxCheckReads svc <= 0 \/ 4 <= s_maxCheckReads svc) ->
  exists b, (allowed svc p ws rel w).1 = Ok b /\
    (b = true <-> exists mb, membershipRow (w_repo w) (pr_ProjectID p) (pr_TenantID p) ws (pr_UserID p) = Some mb
                             /\ mb_Status mb = StatusActive /\ mb_Role mb ∈ grantingRoles rel).
Proof.
  intros Hreqs w. apply allowed_member. apply execs_keeps_wsInv; [done|]. apply wsInv_New.
Qed.

Lemma product_check_is_membership_witness :
  let w := sampleExecs teamRequests freshWorld in
  exists b, (@allowed sampleSources map_range_default sampleParsers defaultConfig bob "id-0" RoleAdmin w).1 = Ok b /\
    (b = true <-> exists mb, membershipRow (w_repo w) "p" "t" "id-0" "bob" = Some mb
                             /\ mb_Status mb = StatusActive /\ mb_Role mb ∈ grantingRoles RoleAdmin).
Proof.
  apply (@product_check_is_membership sampleSources map_range_default sampleCodec sampleParsers sampleTokenJson
           defaultConfig [] teamRequests bob "id-0" RoleAdmin DefaultModel).
  - repeat constructor.
  - vm_compute. reflexivity.
  - reflexivity.
  - reflexivity.
  - intros [=].
  - right. vm_compute. intros [=].
Defined.

(** ** Permissions *)

(** The role a request needs on a workspace before it may change anything. *)
Definition requiredRole (req : request) : option (Principal * string * Role) :=
  match req with
  | ReqUpdateWorkspace p ws _ => Some (p, ws, RoleAdmin)
  | ReqDeleteWorkspace p ws => Some (p, ws, RoleOwner)
  | ReqAddMember p ws _ _ => Some (p, ws, RoleAdmin)
  | ReqUpdateMemberRole p ws _ _ => Some (p, ws, RoleAdmin)
  | ReqRemoveMember p ws _ => Some (p, ws, RoleAdmin)
  | ReqSuspendMember p ws _ => Some (p, ws, RoleAdmin)
  | ReqReinstateMember p ws _ => Some (p, ws, RoleAdmin)
  | ReqTransferOwnership p ws _ => Some (p, ws, RoleOwner)
  | ReqCreateInvitation p ws _ _ => Some (p, ws, RoleAdmin)
  | _ => None
  end.

Section Guarded.
Context `{Sources} `{MapRange} `{JsonCodec} `{TextParsers} `{TokenJson} (svc : ServiceConfig).
Context (p : Principal) (ws : string) (role : Role).

(** The repository changes only when the check for the role succeeds in the world
    [at_ w], where [w] is the world the request meets. *)
Definition guardedBy {A} (at_ : World -> World) (c : St World A) : Prop :=
  forall w, w_repo (c w).2 <> w_repo w -> (allowed svc p ws role (at_ w)).1 = Ok true.

Lemma guardedBy_guard {B} at_ b e (k : unit -> St World B) : guardedBy at_ (k tt) -> guardedBy at_ (bind (guard b e) k).
Proof. intros Hk w. destruct b; [apply Hk|done]. Qed.

Lemma guardedBy_require {B} (k : Workspace -> St World B) :
  guardedBy (fun w => w) (bind (requireWorkspace svc p ws role) k).
Proof.
  intros w. unfold bind. destruct (requireWorkspace svc p ws role w) as [[W|e] w1] eqn:Hr; simpl.
  - intros _. apply requireWorkspace_inv in Hr as [_ Ha]. by rewrite Ha.
  - intros Hne. destruct Hne. by apply (reads_inv _ _ _ _ Hr).
Qed.

Lemma guardedBy_after {A B} (c : St World A) (k : A -> St World B) :
  Reads c -> (forall a, guardedBy (fun w => w) (k a)) -> guardedBy (fun w => (c w).2) (bind c k).
Proof.
  intros Hc Hk w. unfold bind. specialize (Hc w). destruct (c w) as [[a|e] w1]; simpl in *; [|done].
  rewrite <-Hc. apply Hk.
Qed.
End Guarded.

(** The world in which a request is checked: the one it meets, after the lookup of
    the project that comes first in [CreateInvitation]. *)
Definition checkedIn `{Sources} `{MapRange} (svc : ServiceConfig) (req : request) (w : World) : World :=
  match req with ReqCreateInvitation p _ _ _ => (ensureProjectActive svc p w).2 | _ => w end.

(** C15.  No membership change without permission: a request that edits or
    deletes a workspace, changes its members, hands it over or invites to it
    leaves the repository untouched unless the check of the caller for the role
    the request needs (admin, or owner for deletion and transfer) succeeds in the
    very world the request meets, with its repository, cached models and clock;
    for an invitation that world is the one after the lookup of the project, which
    comes first and may cache the project's rules. *)
Theorem workspace_changes_need_role `{Sources} `{MapRange} `{JsonCodec} `{TextParsers} `{TokenJson} svc req p ws role w :
  requiredRole req = Some (p, ws, role) ->
  w_repo (exec svc req w) <> w_repo w ->
  (allowed svc p ws role (checkedIn svc req w)).1 = Ok true.
Proof.
  intros Hreq. revert w.
  assert (Hg : guardedBy svc p ws role (checkedIn svc req) (fun w => (Ok tt, exec svc req w))); [|exact Hg].
  assert (Hk : forall {A} at_ (c : St World A), guardedBy svc p ws role at_ c -> guardedBy svc p ws role at_ (fun w => (Ok tt, (c w).2)))
    by done.
  destruct req; try discriminate Hreq; injection Hreq as <- <- <-; apply Hk; clear Hk.
  all: unfold UpdateWorkspace, DeleteWorkspace, AddMember, UpdateMemberRole, RemoveMember, SuspendMember,
    ReinstateMember, TransferOwnership, CreateInvitation.
  all: repeat first [apply guardedBy_require | apply guardedBy_guard | apply guardedBy_after; [apply _|intros []]].
Qed.

Lemma workspace_changes_need_role_witness :
  let w := sampleExecs [ReqCreateWorkspace alice "Team" ""] freshWorld in
  (@allowed sampleSources map_range_default sampleParsers defaultConfig alice "id-0" RoleAdmin w).1 = Ok true.
Proof.
  apply (@workspace_changes_need_role sampleSources map_range_default sampleCodec sampleParsers sampleTokenJson
           defaultConfig (ReqAddMember alice "id-0" "bob" RoleMember)).
  - reflexivity.
  - intros Heq. apply (f_equal (fun s => membershipRow s "p" "t" "id-0" "bob")) in Heq. vm_compute in Heq. discriminate Heq.
Defined.

(** ** The resolver *)

(** C26.  The project resolver is bounded and current: after any sequence of
    requests the cache has at most [resolverMaxEntries] entries, and resolving a
    project always succeeds with what the stored row says now: the overlaid
    model, the suspension, the region and the read budget, with the built-in
    defaults for a project without a row.  Creating and updating a project
    invalidate its entry, so within one process no stale entry is served. *)
Theorem resolver_current_and_bounded `{Sources} `{MapRange} `{JsonCodec} `{TextParsers} `{TokenJson} svc opts reqs id :
  let w := execs svc reqs (NewService opts New).2 in
  (size (w_cache w) <= resolverMaxEntries)%nat /\
  exists e w', resolve id w = (Ok e, w') /\ w_repo w' = w_repo w /\
    entryResolution e = resolutionOf (projects (w_repo w)) id.
Proof.
  intros w. assert (Hw : resolverOK w) by apply execs_keep_resolver, resolverOK_New. split; [apply Hw|].
  destruct (resolve_spec id w Hw) as (e & w' & Hr & He & Hrepo & _). eauto.
Qed.

(** ** Suspension *)

(** The requests that pass [ensureProjectActive] before they write. *)
Definition gatedBy (req : request) : option Principal :=
  match req with
  | ReqCreateWorkspace p _ _ | ReqAddMember p _ _ _ | ReqTransferOwnership p _ _ | ReqCreateInvitation p _ _ _
  | ReqCreateGroup p _ _ _ | ReqAddGroupMember p _ _ | ReqSetEnrollmentState p _ _ _ | ReqSetSeatLimit p _ _
  | ReqAssignSeat p _ _ | ReqRevokeSeat p _ _ | ReqWriteTuples p _ => Some p
  | _ => None
  end.

Definition suspendedProject (s : Store) (id : string) : Prop :=
  exists p, projects s !! id = Some p /\ p_Status p = ProjectSuspended.

Section Suspended.
Context `{Sources} `{MapRange} `{JsonCodec} `{TextParsers} `{TokenJson} (svc : ServiceConfig) (p : Principal).

Definition inSuspended (w : World) : Prop := resolverOK w /\ suspendedProject (w_repo w) (pr_ProjectID p).

Definition inert {A} (c : St World A) : Prop := forall w, inSuspended w -> w_repo (c w).2 = w_repo w.

Lemma resolve_suspended w :
  inSuspended w -> exists e w', resolve (pr_ProjectID p) w = (Ok e, w') /\ r_suspended e = true /\ w_repo w' = w_repo w.
Proof.
  intros [Hw (P & HP & Hst)]. destruct (resolve_spec (pr_ProjectID p) w Hw) as (e & w' & Hr & He & Hrepo & _).
  exists e, w'. split_and!; [done| |done]. apply (f_equal rn_suspended) in He. simpl in He. rewrite He.
  unfold resolutionOf. rewrite HP. simpl. by apply String.eqb_eq.
Qed.

Lemma inert_active {A} (k : unit -> St World A) : inert (bind (ensureProjectActive svc p) k).
Proof.
  intros w Hw. destruct (resolve_suspended w Hw) as (e & w' & Hr & Hs & Hrepo).
  unfold ensureProjectActive, bind. rewrite Hr. unfold regionServable. destruct (guard _ _ w') as [[[]|er] w2] eqn:Hg.
  - apply guard_inv in Hg as (-> & _). rewrite Hs. done.
  - by apply guard_inv in Hg as (-> & _).
Qed.

Lemma inert_reads {A B} (c : St World A) (k : A -> St World B) :
  Reads c -> KeepsResolver c -> (forall a, inert (k a)) -> inert (bind c k).
Proof.
  intros Hc Hkr Hk w [Hw Hsp]. unfold bind. specialize (Hc w). specialize (Hkr w Hw).
  destruct (c w) as [[a|e] w1]; simpl in *; [|done]. rewrite <-Hc. apply Hk. split; [done|]. by rewrite Hc.
Qed.

Lemma inert_leaf {A} (c : St World A) : Reads c -> inert c.
Proof. intros Hc w _. apply Hc. Qed.
Lemma inert_if {A} (b : bool) (c d : St World A) : inert c -> inert d -> inert (if b then c else d).
Proof. by destruct b. Qed.
Lemma inert_result {A B} (o : result B) (c : B -> St World A) (d : error -> St World A) :
  (forall b, inert (c b)) -> (forall e, inert (d e)) -> inert (match o with Ok b => c b | Err e => d e end).
Proof. by destruct o. Qed.
Lemma inert_pair {A B C} (o : B * C) (c : B -> C -> St World A) :
  (forall b d, inert (c b d)) -> inert (let '(b, d) := o in c b d).
Proof. by destruct o. Qed.

Lemma decide_suspended f w : inSuspended w -> (decide_ svc p f w).1 <> Ok true.
Proof.
  intros Hw. destruct (resolve_suspended w Hw) as (e & w' & Hr & Hs & _). unfold decide_, bind. rewrite Hr.
  unfold regionServable. destruct (guard _ _ w') as [[[]|er] w2]; [|done]. by rewrite Hs.
Qed.

Lemma logged_result rec c w : (logged svc rec c w).1 = (c w).1.
Proof. unfold logged. destruct (negb _); [done|]. unfold bind, attempt. by destruct (c w). Qed.
End Suspended.

(** C16.  A suspended project stops authorizing and stops accepting writes: no
    check of a user or of a userset answers [true], and every request that goes
    through [ensureProjectActive] leaves the repository as it was. *)
Theorem suspended_project_inert `{Sources} `{MapRange} `{JsonCodec} `{TextParsers} `{TokenJson} svc opts reqs p :
  let w := execs svc reqs (NewService opts New).2 in
  suspendedProject (w_repo w) (pr_ProjectID p) ->
  (forall ns obj rel u cc, (Check svc p ns obj rel u cc w).1 <> Ok true) /\
  (forall ns obj rel set cc, (CheckSet svc p ns obj rel set cc w).1 <> Ok true) /\
  (forall req, gatedBy req = Some p -> w_repo (exec svc req w) = w_repo w).
Proof.
  intros w Hsp. assert (Hw : inSuspended p w) by (split; [apply execs_keep_resolver, resolverOK_New|done]).
  clearbody w. split_and!.
  - intros ns obj rel u cc. unfold Check, bind. destruct (guard _ _ w) as [[[]|e] w1] eqn:Hg; [|done].
    apply guard_inv in Hg as (-> & _). rewrite logged_result. by apply decide_suspended.
  - intros ns obj rel set cc. unfold CheckSet, bind at 1. destruct (guard _ _ w) as [[[]|e] w1] eqn:Hg; [|done].
    apply guard_inv in Hg as (-> & _). unfold bind. destruct (guard _ _ w) as [[[]|e] w1] eqn:Hg; [|done].
    apply guard_inv in Hg as (-> & _). rewrite logged_result. by apply decide_suspended.
  - intros req Hreq. revert w Hsp Hw.
    assert (Hi : inert p (fun w => (Ok tt, exec svc req w))); [|intros w _; exact (Hi w)].
    assert (Hk : forall {A} (c : St World A), inert p c -> inert p (fun w => (Ok tt, (c w).2))) by done.
    destruct req; try discriminate Hreq; injection Hreq as ->; apply Hk; clear Hk.
    all: unfold CreateWorkspace, AddMember, putMember, TransferOwnership, CreateInvitation, CreateGroup,
      AddGroupMember, SetEnrollmentState, SetSeatLimit, AssignSeat, RevokeSeat, WriteTuples.
    all: repeat first [ apply inert_active | apply inert_leaf; apply _ | apply inert_reads; [apply _|apply _|intros ?]
                      | apply inert_result; intros ? | apply inert_if | apply inert_pair; intros ? ? ].
Qed.

Definition suspendRequests : list request := [
  ReqCreateProject "p" "Project" None "" 0;
  ReqCreateWorkspace alice "Team" "";
  ReqAddMember alice "id-0" "bob" RoleMember;
  ReqUpdateProject "p" "" ProjectSuspended None "" false 0 false].

Lemma suspended_project_inert_witness :
  let w := sampleExecs suspendRequests freshWorld in
  suspendedProject (w_repo w) "p" /\
  w_repo (@exec sampleSources map_range_default sampleCodec sampleParsers sampleTokenJson defaultConfig
            (ReqAddMember alice "id-0" "carol" RoleMember) w) = w_repo w.
Proof.
  assert (Hsp : suspendedProject (w_repo (sampleExecs suspendRequests freshWorld)) "p")
    by (vm_compute; eexists; split; reflexivity).
  split; [exact Hsp|].
  apply (@suspended_project_inert sampleSources map_range_default sampleCodec sampleParsers sampleTokenJson
           defaultConfig [] suspendRequests alice); [exact Hsp|reflexivity].
Defined.

(** The gate is not on every write: in a suspended project an admin still
    changes a member's role, and the tuple that grants the new role is stored. *)
Theorem suspended_project_role_change :
  let w := sampleExecs suspendRequests freshWorld in
  let w' := (@UpdateMemberRole sampleSources map_range_default sampleParsers defaultConfig alice "id-0" "bob" RoleAdmin w).2 in
  suspendedProject (w_repo w) "p" /\
  ~ holds (w_repo w) "p" "t" (roleTuple "id-0" RoleAdmin "bob") /\
  holds (w_repo w') "p" "t" (roleTuple "id-0" RoleAdmin "bob").
Proof.
  split_and!; [vm_compute; eexists; split; reflexivity|vm_compute; discriminate|vm_compute; reflexivity].
Qed.

(** ** Raw tuple writes and consistency tokens *)
Section Write.
Context `{Sources} `{MapRange} `{TextParsers} `{TokenJson} (svc : ServiceConfig).

(** The outcome of [WriteTuples], branch by branch. *)
Lemma WriteTuples_outcome p ops w :
  match WriteTuples svc p ops w with
  | (Err _, w') => w_repo w' = w_repo w
  | (Ok tok, w') =>
      exists ins del, splitOps ops = Ok (ins, del) /\
        w_repo w' = writeTuplesLocked (pr_ProjectID p) (pr_TenantID p) ins del (w_repo w) /\
        tok = Encode (pr_ProjectID p) (pr_TenantID p)
                (default 0 (seqs (w_repo w) !! scope (pr_ProjectID p) (pr_TenantID p)) + 1)
  end.
Proof.
  destruct (WriteTuples svc p ops w) as [r w'] eqn:Hc. unfold WriteTuples in Hc.
  destruct (splitOps ops) as [[ins del]|e] eqn:Hs; [|by injection Hc as <- <-].
  unfold bind at 1 in Hc. unfold lift in Hc. cbv beta iota in Hc.
  apply bind_inv in Hc as [([] & w1 & Ha & Hc)|(e & Ha & ->)]; [|by apply reads_inv in Ha; [|apply _]].
  apply reads_inv in Ha; [|apply _].
  apply bind_inv in Hc as [([] & w2 & Hg & Hc)|(e & Hg & ->)]; apply reads_inv in Hg; try apply _; [|congruence].
  erewrite bind_repo_ok in Hc by reflexivity.
  apply bind_inv in Hc as [([] & w3 & Hau & Hc)|(e & Hau & ->)].
  - apply reads_inv in Hau; [|apply _]. erewrite bind_repo_ok in Hc by reflexivity.
    unfold ret in Hc. injection Hc as <- <-. exists ins, del. rewrite Hau. simpl. rewrite Hg, Ha.
    split_and!; [done|done|]. unfold incr. by rewrite lookup_insert_eq.
  - exfalso. unfold auditTupleChanges in Hau. by destruct (s_auditLog svc).
Qed.
End Write.

(** Raw writes are all or nothing: when [WriteTuples] reports an error the
    repository is unchanged; when it succeeds every tuple of the batch was valid,
    the batch was applied to the caller's shard only, as one write with the
    inserts after the deletes, and the token names the sequence it reached. *)
Theorem writeTuples_atomic `{Sources} `{MapRange} `{TextParsers} `{TokenJson} svc p ops w :
  match WriteTuples svc p ops w with
  | (Err _, w') => w_repo w' = w_repo w
  | (Ok tok, w') =>
      Forall (fun op => validateTuple (op_Tuple op) = Ok tt) ops /\
      let ins := op_Tuple <$> filter (fun op => op_Delete op = false) ops in
      let del := op_Tuple <$> filter (fun op => op_Delete op = true) ops in
      w_repo w' = (Memory.WriteTuples (pr_ProjectID p) (pr_TenantID p) ins del (w_repo w)).2 /\
      exists seq, (ConsistencyToken (pr_ProjectID p) (pr_TenantID p) (w_repo w')).1 = Ok seq /\
                  tok = Encode (pr_ProjectID p) (pr_TenantID p) seq
  end.
Proof.
  pose proof (WriteTuples_outcome svc p ops w) as Ho. destruct (WriteTuples svc p ops w) as [[tok|e] w']; [|done].
  destruct Ho as (ins & del & Hs & Hw & Ht).
  assert (Hsplit : Forall (fun op => validateTuple (op_Tuple op) = Ok tt) ops /\
            ins = op_Tuple <$> filter (fun op => op_Delete op = false) ops /\
            del = op_Tuple <$> filter (fun op => op_Delete op = true) ops).
  { clear -Hs. revert ins del Hs. induction ops as [|op ops IH]; intros ins del; simpl; [by intros [= <- <-]|].
    intros ([] & Hv & ([i d] & Hs & Heq)%rbind_inv_ok)%rbind_inv_ok. destruct (IH _ _ Hs) as (Hf & -> & ->).
    rewrite !filter_cons. split; [by constructor|].
    destruct (op_Delete op); injection Heq as <- <-; repeat case_decide; done. }
  destruct Hsplit as (Hf & -> & ->). split; [done|]. split; [done|].
  eexists. split; [reflexivity|]. rewrite Hw, Ht. simpl. unfold incr. by rewrite lookup_insert_eq.
Qed.

(** Write sequences never go down. *)
Definition seqsAtLeast (low : string -> Z) (s : Store) : Prop := forall sk, low sk <= default 0 (seqs s !! sk).

Lemma seqsAtLeast_incr low sk s s' : seqs s' = incr sk (seqs s) -> seqsAtLeast low s -> seqsAtLeast low s'.
Proof.
  intros Heq Hs sk'. rewrite Heq. unfold incr. specialize (Hs sk'). destruct (decide (sk = sk')) as [<-|Hne].
  - rewrite lookup_insert_eq. simpl. lia.
  - by rewrite lookup_insert_ne.
Qed.

Lemma seqsAtLeast_shard low : shardInvariant (seqsAtLeast low).
Proof.
  split.
  - intros s s' _ _ Hq Hs sk. rewrite Hq. apply Hs.
  - intros p t ins del s _ _. by eapply seqsAtLeast_incr.
  - intros ns id sk s _. by eapply seqsAtLeast_incr.
  - intros p t sku u tm s Hs. unfold AssignSeatAndTuple. cbv zeta. destruct (_ !! _); [by eapply seqsAtLeast_incr|].
    destruct (seatUsageLocked _ _ _) as [used limit].
    destruct (match limit with Some n => n <=? used | None => false end); [exact Hs|by eapply seqsAtLeast_incr].
  - intros p t sku u s. by eapply seqsAtLeast_incr.
  - intros p u s Hs. exact Hs.
Qed.

(** C31.  Read-after-write: the token of a successful [WriteTuples] is accepted
    by [EnsureConsistency] for the same caller, immediately and after any
    sequence of further requests, whatever they do, given that the JSON layer
    reads back the tokens of the caller's shard that it wrote.  The sequence of a
    shard is unbounded here; the code's [int64] holds 2^63 writes. *)
Theorem token_read_after_write `{Sources} `{MapRange} `{JsonCodec} `{TextParsers} `{TokenJson} svc opts before p ops tok w' after :
  (forall seq, 0 <= seq -> jsonRoundtrips (mkToken (pr_ProjectID p) (pr_TenantID p) seq)) ->
  WriteTuples svc p ops (execs svc before (NewService opts New).2) = (Ok tok, w') ->
  (EnsureConsistency p tok (execs svc after w')).1 = Ok tt.
Proof.
  intros Hj Hw. pose proof (WriteTuples_outcome svc p ops (execs svc before (NewService opts New).2)) as Ho.
  rewrite Hw in Ho. destruct Ho as (ins & del & _ & Hrepo & ->).
  set (w := execs svc before (NewService opts New).2) in *. set (sk := scope (pr_ProjectID p) (pr_TenantID p)) in *.
  assert (Hpos : 0 <= default 0 (seqs (w_repo w) !! sk)).
  { apply (execs_keeps_shard svc _ (seqsAtLeast_shard (fun _ => 0)) before). intros k. simpl. by rewrite lookup_empty. }
  set (n := default 0 (seqs (w_repo w) !! sk) + 1) in *.
  assert (Hlow : n <= default 0 (seqs (w_repo (execs svc after w')) !! sk)).
  { pose proof (execs_keeps_shard svc _ (seqsAtLeast_shard (fun k => default 0 (seqs (w_repo w') !! k))) after w'
                  (fun k => Z.le_refl _) sk) as Hl.
    simpl in Hl. rewrite Hrepo in Hl. simpl in Hl. unfold incr in Hl. by rewrite lookup_insert_eq in Hl. }
  generalize dependent (execs svc after w'). intros wa Hlow.
  unfold EnsureConsistency. rewrite Decode_Encode by (try apply Hj; lia). unfold Encode, tokenPrefix.
  rewrite string_app_cons. simpl tok_Project. simpl tok_Tenant. simpl tok_Seq. rewrite !String.eqb_refl. simpl.
  unfold bind, repo, ConsistencyToken, ret. fold sk. by rewrite (proj2 (Z.ltb_ge _ _) Hlow).
Qed.

Definition docTuple : Tuple := userTuple "resource" "doc" "viewer" "bob".

Lemma strokes_length n : String.length (strokes n) = n.
Proof. induction n as [|n IH]; simpl; [reflexivity|by rewrite IH]. Qed.

Lemma token_read_after_write_witness :
  exists tok w', @WriteTuples sampleSources map_range_default sampleParsers sampleTokenJson defaultConfig alice
                   [mkTupleOp false docTuple] freshWorld = (Ok tok, w') /\
    (@EnsureConsistency sampleTokenJson alice tok
       (sampleExecs [ReqWriteTuples alice [mkTupleOp true docTuple]] w')).1 = Ok tt.
Proof.
  assert (Hw : exists tok w', @WriteTuples sampleSources map_range_default sampleParsers sampleTokenJson defaultConfig
                 alice [mkTupleOp false docTuple] freshWorld = (Ok tok, w')) by (vm_compute; do 2 eexists; reflexivity).
  destruct Hw as (tok & w' & Hw). exists tok, w'. split; [exact Hw|].
  apply (@token_read_after_write sampleSources map_range_default sampleCodec sampleParsers sampleTokenJson
           defaultConfig [] [] alice [mkTupleOp false docTuple] tok w'); [|exact Hw].
  intros seq Hseq.
  change (Some (mkToken "p" "t" (Z.of_nat (String.length (strokes (Z.to_nat seq))))) = Some (mkToken "p" "t" seq)).
  rewrite strokes_length, Z2Nat.id by exact Hseq. reflexivity.
Defined.

(** ** Batches of checks *)
Section Batch.
Context `{Sources} `{MapRange} `{TextParsers} (svc : ServiceConfig) (ctxErr : nat -> option error) (p : Principal).

(** The answer of the single check for an item. *)
Definition itemOutcome (it : BatchCheckItem) (w : World) : result bool :=
  (Check svc p (bc_Namespace it) (bc_ObjectID it) (bc_Relation it) (bc_SubjectUserID it) ∅ w).1.

(** The errors that stay with their item. *)
Definition itemError (e : error) : bool := errors_Is e ErrInvalidArgument || errors_Is e ErrResourceExhausted.

Definition itemResult (r : result bool) (br : BatchCheckResult) : Prop :=
  match r with
  | Ok a => br = mkBatchCheckResult a None
  | Err e => itemError e = true /\ br = mkBatchCheckResult false (Some e)
  end.

(** What a run over [items], starting at index [i] on the repository [s], may return. *)
Definition batchPost (s : Store) (i : nat) (items : list BatchCheckItem) (out : result (list BatchCheckResult) * World) : Prop :=
  match out with
  | (Ok rs, w') =>
      w_repo w' = s /\
      Forall2 (fun it br => exists w1, w_repo w1 = s /\ itemResult (itemOutcome it w1) br) items rs
  | (Err e, _) =>
      (exists j, (i <= j < i + length items)%nat /\ ctxErr j = Some e) \/
      (exists it w1, it ∈ items /\ w_repo w1 = s /\ itemOutcome it w1 = Err e /\ itemError e = false)
  end.

Lemma batchItem_outcome it w :
  match batchItem svc p it w with
  | (Ok br, w') => w_repo w' = w_repo w /\ itemResult (itemOutcome it w) br
  | (Err e, _) => itemOutcome it w = Err e /\ itemError e = false
  end.
Proof.
  unfold batchItem, bind, attempt, itemOutcome.
  pose proof (reads_repo (c := Check svc p (bc_Namespace it) (bc_ObjectID it) (bc_Relation it) (bc_SubjectUserID it) ∅) w) as Hr.
  destruct (Check svc p _ _ _ _ _ w) as [[a|e] w1]; simpl in *; [done|]. fold (itemError e).
  by destruct (itemError e) eqn:He.
Qed.

Lemma batchPost_cons s i it items br w1 :
  w_repo w1 = s -> (exists w0, w_repo w0 = s /\ itemResult (itemOutcome it w0) br) ->
  batchPost s (S i) items (batchLoop svc ctxErr p (S i) items w1) ->
  batchPost s i (it :: items) ((let! rs := batchLoop svc ctxErr p (S i) items in ret (br :: rs)) w1).
Proof.
  intros Hw1 Hit Hrest. unfold bind. destruct (batchLoop svc ctxErr p (S i) items w1) as [[rs|e] w2]; simpl in *.
  - destruct Hrest as [Hw2 Hrs]. split; [done|]. by constructor.
  - destruct Hrest as [(j & Hj & Hc)|(it' & w3 & Hin & Hrest)].
    + left. exists j. split; [lia|done].
    + right. exists it', w3. split; [by right|done].
Qed.

Lemma batchLoop_post s items : forall i w, w_repo w = s -> batchPost s i items (batchLoop svc ctxErr p i items w).
Proof.
  induction items as [|it items IH]; intros i w Hw; cbn [batchLoop]; [split; [done|constructor]|].
  destruct (ctxErr i) as [e|] eqn:Hctx; [left; exists i; simpl; split; [lia|done]|].
  unfold bind at 1. pose proof (batchItem_outcome it w) as Hit.
  destruct (batchItem svc p it w) as [[br|e] w1]; destruct Hit as [Hit1 Hit2].
  - apply batchPost_cons; [congruence|eauto|]. apply IH. congruence.
  - right. exists it, w. split_and!; [left|done|done|done].
Qed.
End Batch.

(** The error policy of [BatchCheck]: on success there is one result per
    item, in order, each the answer of the single check on the same repository,
    with an invalid item or an exhausted budget reported in its own slot as a
    denial; the whole batch fails only with the error of a cancelled context or
    with another error of a single check. *)
Theorem batchCheck_policy `{Sources} `{MapRange} `{TextParsers} svc ctxErr p items w :
  match BatchCheck svc ctxErr p items w with
  | (Ok rs, w') =>
      w_repo w' = w_repo w /\
      Forall2 (fun it br => exists w1, w_repo w1 = w_repo w /\
        match itemOutcome svc p it w1 with
        | Ok a => br = mkBatchCheckResult a None
        | Err e => itemError e = true /\ br = mkBatchCheckResult false (Some e)
        end) items rs
  | (Err e, _) =>
      (exists i, (i < length items)%nat /\ ctxErr i = Some e) \/
      (exists it w1, it ∈ items /\ w_repo w1 = w_repo w /\ itemOutcome svc p it w1 = Err e /\ itemError e = false)
  end.
Proof.
  pose proof (batchLoop_post svc ctxErr p (w_repo w) items 0 w eq_refl) as Hp. unfold BatchCheck.
  destruct (batchLoop _ _ _ _ _ _) as [[rs|e] w']; [exact Hp|].
  destruct Hp as [(j & Hj & Hc)|?]; [left; exists j; split; [lia|done]|by right].
Qed.

(** ** The decision log *)
Lemma bind_guard {S B} b e (k : unit -> St S B) s : bind (guard b e) k s = if b then k tt s else (Err e, s).
Proof. by destruct b. Qed.

Class Silent {A} (c : St World A) : Prop := silent : forall w, w_decisions (c w).2 = w_decisions w.

Section Silent.
Context `{Sources} `{MapRange} `{TextParsers} (svc : ServiceConfig).
#[local] Instance Silent_ret {A} (a : A) : Silent (ret a). Proof. done. Qed.
#[local] Instance Silent_fail {A} e : Silent (fail (A := A) e). Proof. done. Qed.
#[local] Instance Silent_lift {A} (r : result A) : Silent (lift r). Proof. done. Qed.
#[local] Instance Silent_get : Silent get. Proof. done. Qed.
#[local] Instance Silent_now : Silent now_. Proof. done. Qed.
#[local] Instance Silent_guard b e : Silent (guard b e). Proof. by destruct b. Qed.
#[local] Instance Silent_cache f : Silent (modify (set_cache f)). Proof. done. Qed.
#[local] Instance Silent_attempt {A} (c : St World A) : Silent c -> Silent (attempt c).
Proof. intros Hc w. unfold attempt. specialize (Hc w). by destruct (c w). Qed.
#[local] Instance Silent_bind {A B} (c : St World A) (k : A -> St World B) :
  Silent c -> (forall a, Silent (k a)) -> Silent (bind c k).
Proof.
  intros Hc Hk w. unfold bind. specialize (Hc w). destruct (c w) as [[a|e] w1]; simpl in *; [|done]. by rewrite (Hk a w1).
Qed.
#[local] Instance Silent_if {A} (b : bool) (c d : St World A) : Silent c -> Silent d -> Silent (if b then c else d).
Proof. by destruct b. Qed.
#[local] Instance Silent_option {A B} (o : option B) (c : B -> St World A) (d : St World A) :
  (forall b, Silent (c b)) -> Silent d -> Silent (match o with Some b => c b | None => d end).
Proof. by destruct o. Qed.
#[local] Instance Silent_result {A B} (o : result B) (c : B -> St World A) (d : error -> St World A) :
  (forall b, Silent (c b)) -> (forall e, Silent (d e)) -> Silent (match o with Ok b => c b | Err e => d e end).
Proof. by destruct o. Qed.
#[local] Instance Silent_repo {A} (c : St Store A) : Silent (repo c).
Proof. intros w. unfold repo. by destruct (c (w_repo w)). Qed.
#[local] Instance Silent_lookupCache id : Silent (lookupCache id).
Proof. intros w. unfold lookupCache. destruct (w_cache w !! id); [|done]. by rewrite (silent (c := bind now_ _)). Qed.
#[local] Instance Silent_storeCache id e : Silent (storeCache id e).
Proof. intros w. unfold storeCache, evictLocked. case_decide; by rewrite (silent (c := bind _ _)). Qed.
#[local] Instance Silent_resolve id : Silent (resolve id). Proof. unfold resolve, load. apply _. Qed.

Lemma Silent_decide_ p f : Silent (decide_ svc p f). Proof. unfold decide_, regionServable, evalWith. apply _. Qed.
End Silent.

(** The decision log is exact and has no influence: a check answers the
    same with and without a logger; a well-formed check adds exactly one record
    when a logger is configured, carrying the question, the caller, the answer
    ([false] on an error) and the error; a malformed one adds none. *)
Theorem check_decision_log `{Sources} `{MapRange} `{TextParsers} svc p ns obj rel u cc w :
  let out := Check svc p ns obj rel u cc w in
  let wellFormed := negb (String.eqb ns "" || String.eqb obj "" || String.eqb rel "" || String.eqb u "") in
  out.1 = (Check (WithDecisionLogger false svc) p ns obj rel u cc w).1 /\
  exists t, w_decisions out.2 = w_decisions w ++
    if wellFormed && s_decisionLog svc
    then [mkDecision (pr_ProjectID p) (pr_TenantID p) ns obj rel u None
            (match out.1 with Ok a => a | Err _ => false end)
            (match out.1 with Ok _ => None | Err e => Some e end) (pr_Caller p) t]
    else [].
Proof.
  intros out wellFormed. unfold out, Check. rewrite !bind_guard. fold wellFormed.
  destruct wellFormed; [|split; [done|exists 0; by rewrite app_nil_r]]. rewrite !logged_result. split; [done|]. unfold logged.
  match goal with |- context [decide_ svc p ?f] =>
    pose proof (Silent_decide_ svc p f w) as Hs; set (c := decide_ svc p f) in * end.
  clearbody c.
  destruct (s_decisionLog svc); simpl negb; cbv iota.
  - exists (clock (w_ticks (c w).2)). destruct (c w) as [r w1] eqn:Hc. unfold bind, attempt. simpl in *.
    rewrite Hc. simpl. rewrite Hs. by destruct r.
  - exists 0. rewrite app_nil_r. exact Hs.
Qed.

(** ** Invitations *)
Lemma accept_update w inv sk id w1 r w2 :
  invOK (w_repo w) sk id inv -> invAt (w_repo w1) sk id = Some inv ->
  repo (UpdateInvitation (invitationWith inv InviteAccepted)) w1 = (r, w2) ->
  r = Ok tt /\ invAt (w_repo w2) sk id = Some (invitationWith inv InviteAccepted) /\
  memberships (w_repo w2) = memberships (w_repo w1).
Proof.
  intros (<- & <- & _) Hi. unfold repo, UpdateInvitation. simpl. unfold invAt in Hi. rewrite Hi.
  intros [= <- <-]. split_and!; [done| |done]. unfold invAt. simpl. by rewrite lookup_put2, decide_True.
Qed.

Section Accept.
Context `{Sources} `{MapRange} `{TextParsers} (svc : ServiceConfig).

Lemma putMember_row p ws u role w m w' :
  putMember svc p ws u role w = (Ok m, w') ->
  rowAt (w_repo w') (scope (pr_ProjectID p) (pr_TenantID p)) ws u = Some m /\ mb_Role m = role /\
  mb_Status m = StatusActive.
Proof.
  unfold putMember. intros Hc. run. split; [|done].
  match goal with |- rowAt (writeTuplesLocked _ _ _ _ (putMembershipLocked ?m0 ?s)) _ _ _ = _ =>
    pose proof (rowAt_put m0 s (scope (pr_ProjectID p) (pr_TenantID p)) ws u) as Hr end.
  simpl in Hr. by rewrite decide_True in Hr.
Qed.

Lemma AcceptInvitation_outcome p token w m w' :
  wsInv (w_repo w) -> AcceptInvitation svc p token w = (Ok m, w') ->
  let sk := scope (pr_ProjectID p) (pr_TenantID p) in
  exists id inv, invAt (w_repo w) sk id = Some inv /\ inv_TokenHash inv = hashToken token /\
    inv_Status inv = InvitePending /\ clock (w_ticks w) <= inv_ExpiresAt inv /\
    invAt (w_repo w') sk id = Some (invitationWith inv InviteAccepted) /\
    rowAt (w_repo w') sk (inv_WorkspaceID inv) (pr_UserID p) = Some m /\
    (rowAt (w_repo w) sk (inv_WorkspaceID inv) (pr_UserID p) = Some m \/
     mb_Role m = inv_Role inv /\ mb_Status m = StatusActive).
Proof.
  intros Hs Hc sk. unfold AcceptInvitation in Hc.
  apply bind_inv in Hc as [([] & w0 & Hg & Hc)|(e & _ & ?)]; [|done]. apply guard_inv in Hg as (-> & _).
  apply bind_inv in Hc as [(inv & w0 & Hg & Hc)|(e & _ & ?)]; [|done].
  apply repo_looks_inv in Hg as [-> Hi]; [|apply _]. apply GetInvitationByTokenHash_some in Hi as (id & Hi & Hh).
  apply bind_inv in Hc as [([] & w0 & Hg & Hc)|(e & _ & ?)]; [|done].
  apply guard_inv in Hg as (-> & [[Hp%String.eqb_eq _]|[_ ?]]); [|done].
  rewrite bind_now in Hc. exists id, inv.
  destruct (Z.ltb_spec (inv_ExpiresAt inv) (clock (w_ticks w))) as [Hexp|Hexp]; [by run|].
  pose proof (wi_inv _ Hs _ _ _ Hi) as Hok. set (w1 := (now_ w).2) in Hc.
  rewrite bind_look, GetMembership_row in Hc by apply _. fold sk in Hc.
  change (w_repo w1) with (w_repo w) in Hc. simpl in Hc.
  destruct (rowAt (w_repo w) sk (inv_WorkspaceID inv) (pr_UserID p)) as [m0|] eqn:Hrow.
  - apply bind_inv in Hc as [([] & w2 & Hu & Hc)|(e & _ & ?)]; [|done]. injection Hc as <- <-.
    destruct (accept_update w inv sk id w1 _ _ Hok Hi Hu) as (_ & Hi2 & Hm2).
    split_and!; try done; [|by left]. unfold rowAt. by rewrite Hm2.
  - simpl in Hc. apply bind_inv in Hc as [(m1 & w2 & Hput & Hc)|(e & _ & ?)]; [|done].
    destruct (putMember_row _ _ _ _ _ _ _ Hput) as (Hrow2 & Hro & Hst). apply putMember_invitations in Hput.
    apply bind_inv in Hc as [([] & w3 & Hu & Hc)|(e & _ & ?)]; [|done]. injection Hc as <- <-.
    assert (Hi1 : invAt (w_repo w2) sk id = Some inv) by (unfold invAt; by rewrite Hput).
    destruct (accept_update w inv sk id w2 _ _ Hok Hi1 Hu) as (_ & Hi2 & Hm2).
    split_and!; try done; [|by right]. unfold rowAt. by rewrite Hm2.
Qed.
End Accept.

(** C23.  An invitation admits once, in time and with its role: when
    [AcceptInvitation] succeeds in a state reached by product requests, a stored
    invitation had the hash of the token, was pending and had not expired at the
    reading of the clock that this very request makes; it is now accepted, so the
    token is spent, and the caller has the returned row, which either was there
    before, unchanged, or is new and active with the role of the invitation. *)
Theorem acceptInvitation_admits `{Sources} `{MapRange} `{JsonCodec} `{TextParsers} `{TokenJson} svc opts reqs p token m w' :
  Forall productRequest reqs ->
  let w := execs svc reqs (NewService opts New).2 in
  AcceptInvitation svc p token w = (Ok m, w') ->
  let sk := scope (pr_ProjectID p) (pr_TenantID p) in
  exists id inv, invAt (w_repo w) sk id = Some inv /\ inv_TokenHash inv = hashToken token /\
    inv_Status inv = InvitePending /\ clock (w_ticks w) <= inv_ExpiresAt inv /\
    invAt (w_repo w') sk id = Some (invitationWith inv InviteAccepted) /\
    rowAt (w_repo w') sk (inv_WorkspaceID inv) (pr_UserID p) = Some m /\
    (rowAt (w_repo w) sk (inv_WorkspaceID inv) (pr_UserID p) = Some m \/
     mb_Role m = inv_Role inv /\ mb_Status m = StatusActive).
Proof.
  intros Hreqs w. apply AcceptInvitation_outcome. apply execs_keeps_wsInv; [done|]. apply wsInv_New.
Qed.

Definition inviteRequests : list request := [
  ReqCreateWorkspace alice "Team" ""; ReqCreateInvitation alice "id-0" "bob@example.org" RoleGuest].

Lemma acceptInvitation_admits_witness :
  let w := sampleExecs inviteRequests freshWorld in
  let out := @AcceptInvitation sampleSources map_range_default defaultConfig bob "token-0" w in
  exists m, out.1 = Ok m /\
  exists id inv, invAt (w_repo w) (scope "p" "t") id = Some inv /\
    inv_TokenHash inv = @hashToken sampleSources "token-0" /\
    inv_Status inv = InvitePending /\ @clock sampleSources (w_ticks w) <= inv_ExpiresAt inv /\
    invAt (w_repo out.2) (scope "p" "t") id = Some (invitationWith inv InviteAccepted) /\
    rowAt (w_repo out.2) (scope "p" "t") (inv_WorkspaceID inv) "bob" = Some m /\
    (rowAt (w_repo w) (scope "p" "t") (inv_WorkspaceID inv) "bob" = Some m \/
     mb_Role m = inv_Role inv /\ mb_Status m = StatusActive).
Proof.
  intros w out.
  assert (Hm : exists m, out.1 = Ok m) by (vm_compute; eexists; reflexivity).
  destruct Hm as [m Hm]. exists m. split; [exact Hm|].
  apply (@acceptInvitation_admits sampleSources map_range_default sampleCodec sampleParsers sampleTokenJson
           defaultConfig [] inviteRequests bob "token-0" m out.2).
  - repeat constructor.
  - rewrite <-Hm. apply surjective_pairing.
Defined.
