(* ===== verification/Sql.v ===== *)
(** * The database under the postgres driver

    What internal/repo/postgres/store.go relies on in PostgreSQL and the pgx
    client, which are not part of the repository: the class [Database] collects
    the choices the server makes (the order of unordered scans, the collation,
    the resolution of timestamps, the text it accepts, its [jsonb] values) with
    the documented facts about them.  A table is the finite map from its primary
    key to its rows, so that two rows with one key cannot exist.

    A client talks to the server over a connection that may fail at any
    statement: [net] is what happens to the statements to come.  [run] is one
    statement ([Exec], [QueryRow] or [Query]) with its text parameters, [tx] a
    transaction around a function body. *)

From stdpp Require Import base gmap strings list sorting.
From Stdlib Require Import ZArith Lia Ascii SpecFloat.
From S2P Require Import Prelude Conditions Model Types ModelJson.
#[local] Open Scope Z_scope.

(** ** What the server chooses *)

(** [projectConfig], the envelope of the column [config_json]. *)
Record projectConfig `{JsonCodec} := mkProjectConfig {
  cfg_Model : option JsonText;
  cfg_DataRegion : string;
  cfg_MaxCheckReads : Z;
}.
Arguments mkProjectConfig {_} _ _ _.

Fixpoint plainText (s : string) : bool :=
  match s with
  | EmptyString => true
  | String c s' => N.ltb 0 (N_of_ascii c) && N.ltb (N_of_ascii c) 128 && plainText s'
  end.

Class Database `{JsonCodec} := {
  (** the order in which rows arrive that no ORDER BY sorts *)
  scan : forall {A : Type}, list A -> list A;
  scan_perm : forall {A} (l : list A), scan l ≡ₚ l;
  (** the collation of text columns: a total order, finer than equality *)
  collate : string -> string -> bool;
  collate_total : forall a b, collate a b = true \/ collate b a = true;
  collate_trans : forall a b c, collate a b = true -> collate b c = true -> collate a c = true;
  (** a timestamptz keeps an instant to its resolution *)
  timestamptz : Time -> Time;
  timestamptz_idem : forall t, timestamptz (timestamptz t) = timestamptz t;
  timestamptz_mono : forall t u, t <= u -> timestamptz t <= timestamptz u;
  (** the parameters a text column takes: never one with a zero byte, always one
      in ASCII without it *)
  validText : string -> bool;
  validText_NUL : forall s, validText s = true -> contains_char "000"%char s = false;
  validText_plain : forall s, plainText s = true -> validText s = true;
  (** jsonb columns: the text json.Marshal renders, whether the column takes it,
      and json.Unmarshal of what the column gives back for it *)
  Jsonb : Type;
  emptyObject : Jsonb;
  validJsonb : Jsonb -> bool;
  config_Marshal : projectConfig -> result Jsonb;
  config_Unmarshal : Jsonb -> result projectConfig;
  params_Marshal : anymap -> result Jsonb;
  params_Unmarshal : Jsonb -> result anymap;
}.

(** ** ORDER BY *)
Section OrderBy.
Context `{Database} {A : Type}.

Fixpoint textNotAfter (cols : list (A -> string)) (x y : A) : bool :=
  match cols with
  | [] => true
  | c :: cols' => if String.eqb (c x) (c y) then textNotAfter cols' x y else collate (c x) (c y)
  end.

Definition rowNotAfter (time : option (A -> Time)) (cols : list (A -> string)) (x y : A) : Prop :=
  match time with
  | None => textNotAfter cols x y = true
  | Some at_ => (if at_ x =? at_ y then textNotAfter cols x y else at_ x <? at_ y) = true
  end.
#[export] Instance rowNotAfter_dec time cols : RelDecision (rowNotAfter time cols).
Proof. intros x y. unfold rowNotAfter. destruct time; apply _. Defined.

Definition orderBy (time : option (A -> Time)) (cols : list (A -> string)) (rows : list A) : list A :=
  merge_sort (rowNotAfter time cols) rows.

Lemma orderBy_perm time cols rows : orderBy time cols rows ≡ₚ rows.
Proof. apply merge_sort_Permutation. Qed.
End OrderBy.

(** ** Tables *)
Section Table.
Context {K R : Type} `{Countable K}.

(** [SELECT ... WHERE where_] before any ordering; [count(where_)] rows. *)
Definition selectWhere `{Database} (where_ : R -> bool) (t : gmap K R) : list R :=
  filter (fun r => where_ r = true) (scan (snd <$> map_to_list t)).

(** [DELETE ... WHERE where_]: the rows affected and the table left. *)
Definition deleteWhere (where_ : R -> bool) (t : gmap K R) : Z * gmap K R :=
  (Z.of_nat (size (filter (fun kv => where_ kv.2 = true) t)), filter (fun kv => where_ kv.2 = false) t).
End Table.

(** ** The connection *)

(** What happens to one statement: it is executed and answered, it never reaches
    the server, or it is executed and the answer is lost. *)
Inductive outcome := Done | Refused | Lost.

Record Session (D : Type) := mkSession { db : D; net : list outcome }.
Arguments mkSession {D} _ _.
Arguments db {D} _.
Arguments net {D} _.

(** SQLSTATE codes stand for the errors of the server. *)
Definition unique_violation : error := ErrDriver "23505".
Definition untranslatable_character : error := ErrDriver "22021".
Definition numeric_value_out_of_range : error := ErrDriver "22003".
Definition untranslatable_json : error := ErrDriver "22P05".
Definition connection_failure : error := ErrDriver "08006".

Section Statements.
Context `{Database} {D : Type}.

Definition nextOutcome (s : Session D) : outcome := default Done (head (net s)).
Definition afterNext (d : D) (s : Session D) : Session D := mkSession d (tail (net s)).

(** A statement either fails, and changes nothing, or answers. *)
Definition sql (A : Type) : Type := D -> result (A * D).

(** A statement with a jsonb parameter. *)
Definition withJsonb {A} (b : Jsonb) (q : sql A) : sql A := fun d =>
  if validJsonb b then q d else Err untranslatable_json.

Definition query {A} (f : D -> A) : sql A := fun d => Ok (f d, d).

Definition run {A} (args : list string) (q : sql A) : St (Session D) A := fun s =>
  let executed := if forallb validText args then q (db s) else Err untranslatable_character in
  match nextOutcome s, executed with
  | Refused, _ => (Err connection_failure, afterNext (db s) s)
  | Done, Ok (a, d) => (Ok a, afterNext d s)
  | Done, Err e => (Err e, afterNext (db s) s)
  | Lost, Ok (_, d) => (Err connection_failure, afterNext d s)
  | Lost, Err _ => (Err connection_failure, afterNext (db s) s)
  end.

(** [pool.Begin], the body, and [tx.Commit] at its end; the deferred rollback
    undoes the body when it returns early. *)
Definition tx {A} (body : St (Session D) A) : St (Session D) A := fun s0 =>
  match run [] (query (fun _ => tt)) s0 with
  | (Err e, s) => (Err e, s)
  | (Ok _, s) =>
      match body s with
      | (Err e, s1) => (Err e, mkSession (db s0) (net s1))
      | (Ok a, s1) =>
          match nextOutcome s1 with
          | Done => (Ok a, afterNext (db s1) s1)
          | Refused => (Err connection_failure, afterNext (db s0) s1)
          | Lost => (Err connection_failure, afterNext (db s1) s1)
          end
      end
  end.
End Statements.
