(* ===== verification/Postgres.v ===== *)
(** * The postgres repository (internal/repo/postgres/store.go)

    The tables of [schemaSQL], the statements of the driver and its operations.
    A table whose columns are the fields of a domain record keeps that record,
    its instants at the resolution of the server; projects, enrollments and
    relation tuples have rows of their own.  The migration phases are modelled
    in Migration. *)

From stdpp Require Import base gmap strings list sorting.
From Stdlib Require Import ZArith Lia Ascii.
From S2P Require Import Prelude Conditions Model Types ModelJson Sql.
#[local] Open Scope Z_scope.

(** ** Rows *)
Abbreviation key3 := (string * string * string)%type.

Record projectRow `{Database} := mkProjectRow {
  pr_id : string;
  pr_name : string;
  pr_status : string;
  pr_config_json : Jsonb;
  pr_created_at : Time;
  pr_updated_at : Time;
}.

Record enrollmentRow := mkEnrollmentRow {
  er_project_id : string;
  er_tenant_id : string;
  er_group_id : string;
  er_member_kind : string;
  er_member_id : string;
  er_state : string;
  er_created_at : Time;
  er_updated_at : Time;
}.

(** The primary key of [relation_tuples], and its other columns. *)
Record tupleKeyCols := mkTupleKeyCols {
  tk_project_id : string;
  tk_tenant_id : string;
  tk_namespace : string;
  tk_object_id : string;
  tk_relation : string;
  tk_subject_kind : string;
  tk_subject_user_id : string;
  tk_subject_namespace : string;
  tk_subject_object_id : string;
  tk_subject_relation : string;
}.

#[export] Instance tupleKeyCols_eq_dec : EqDecision tupleKeyCols.
Proof. solve_decision. Defined.
#[export] Instance tupleKeyCols_countable : Countable tupleKeyCols.
Proof.
  refine (inj_countable'
    (fun k => (tk_project_id k, tk_tenant_id k, tk_namespace k, tk_object_id k, tk_relation k, tk_subject_kind k,
               tk_subject_user_id k, tk_subject_namespace k, tk_subject_object_id k, tk_subject_relation k))
    (fun '(p, t, n, o, r, k, u, sn, so, sr) => mkTupleKeyCols p t n o r k u sn so sr) _).
  by intros [].
Defined.

Record tupleRow `{Database} := mkTupleRow {
  tr_key : tupleKeyCols;
  tr_expires_at : option Time;
  tr_condition_name : string;
  tr_condition_params : Jsonb;
}.

Record DB `{Database} := mkDB {
  tbl_projects : gmap string projectRow;
  tbl_workspaces : gmap key3 Workspace;
  tbl_memberships : gmap (key3 * string) Membership;
  tbl_invitations : gmap key3 Invitation;
  tbl_groups : gmap key3 Group;
  tbl_enrollments : gmap (key3 * (string * string)) enrollmentRow;
  tbl_seat_limits : gmap key3 Z;
  tbl_seat_assignments : gmap (key3 * string) SeatAssignment;
  tbl_consistency_seq : gmap (string * string) Z;
  tbl_relation_tuples : gmap tupleKeyCols tupleRow;
}.

Arguments mkProjectRow {_ _} _ _ _ _ _ _.
Arguments mkTupleRow {_ _} _ _ _ _.
Arguments mkDB {_ _} _ _ _ _ _ _ _ _ _ _.

(** The empty schema. *)
Definition emptyDB `{Database} : DB := mkDB ∅ ∅ ∅ ∅ ∅ ∅ ∅ ∅ ∅ ∅.

Section Driver.
Context `{MapRange} `{Database}.

Definition on_projects (f : gmap string projectRow -> gmap string projectRow) (d : DB) : DB :=
  mkDB (f (tbl_projects d)) (tbl_workspaces d) (tbl_memberships d) (tbl_invitations d) (tbl_groups d)
       (tbl_enrollments d) (tbl_seat_limits d) (tbl_seat_assignments d) (tbl_consistency_seq d) (tbl_relation_tuples d).
Definition on_workspaces f (d : DB) : DB :=
  mkDB (tbl_projects d) (f (tbl_workspaces d)) (tbl_memberships d) (tbl_invitations d) (tbl_groups d)
       (tbl_enrollments d) (tbl_seat_limits d) (tbl_seat_assignments d) (tbl_consistency_seq d) (tbl_relation_tuples d).
Definition on_memberships f (d : DB) : DB :=
  mkDB (tbl_projects d) (tbl_workspaces d) (f (tbl_memberships d)) (tbl_invitations d) (tbl_groups d)
       (tbl_enrollments d) (tbl_seat_limits d) (tbl_seat_assignments d) (tbl_consistency_seq d) (tbl_relation_tuples d).
Definition on_invitations f (d : DB) : DB :=
  mkDB (tbl_projects d) (tbl_workspaces d) (tbl_memberships d) (f (tbl_invitations d)) (tbl_groups d)
       (tbl_enrollments d) (tbl_seat_limits d) (tbl_seat_assignments d) (tbl_consistency_seq d) (tbl_relation_tuples d).
Definition on_groups f (d : DB) : DB :=
  mkDB (tbl_projects d) (tbl_workspaces d) (tbl_memberships d) (tbl_invitations d) (f (tbl_groups d))
       (tbl_enrollments d) (tbl_seat_limits d) (tbl_seat_assignments d) (tbl_consistency_seq d) (tbl_relation_tuples d).
Definition on_enrollments f (d : DB) : DB :=
  mkDB (tbl_projects d) (tbl_workspaces d) (tbl_memberships d) (tbl_invitations d) (tbl_groups d)
       (f (tbl_enrollments d)) (tbl_seat_limits d) (tbl_seat_assignments d) (tbl_consistency_seq d) (tbl_relation_tuples d).
Definition on_seat_limits f (d : DB) : DB :=
  mkDB (tbl_projects d) (tbl_workspaces d) (tbl_memberships d) (tbl_invitations d) (tbl_groups d)
       (tbl_enrollments d) (f (tbl_seat_limits d)) (tbl_seat_assignments d) (tbl_consistency_seq d) (tbl_relation_tuples d).
Definition on_seat_assignments f (d : DB) : DB :=
  mkDB (tbl_projects d) (tbl_workspaces d) (tbl_memberships d) (tbl_invitations d) (tbl_groups d)
       (tbl_enrollments d) (tbl_seat_limits d) (f (tbl_seat_assignments d)) (tbl_consistency_seq d) (tbl_relation_tuples d).
Definition on_consistency_seq f (d : DB) : DB :=
  mkDB (tbl_projects d) (tbl_workspaces d) (tbl_memberships d) (tbl_invitations d) (tbl_groups d)
       (tbl_enrollments d) (tbl_seat_limits d) (tbl_seat_assignments d) (f (tbl_consistency_seq d)) (tbl_relation_tuples d).
Definition on_relation_tuples (f : gmap tupleKeyCols tupleRow -> gmap tupleKeyCols tupleRow) (d : DB) : DB :=
  mkDB (tbl_projects d) (tbl_workspaces d) (tbl_memberships d) (tbl_invitations d) (tbl_groups d)
       (tbl_enrollments d) (tbl_seat_limits d) (tbl_seat_assignments d) (tbl_consistency_seq d) (f (tbl_relation_tuples d)).

(** The operations: a state is a session with this schema. *)
Abbreviation PG := (St (Session DB)).

(** *** Statement shapes *)

(** [DELETE FROM table WHERE where_]: [tag.RowsAffected()]. *)
Definition deleteFrom {K R} `{Countable K} (table : DB -> gmap K R) (on : (gmap K R -> gmap K R) -> DB -> DB)
    (where_ : R -> bool) : sql Z := fun d =>
  Ok ((deleteWhere where_ (table d)).1, on (fun t => (deleteWhere where_ t).2) d).

(** [INSERT INTO table] of a row whose primary key is [k]; [conflicts] are the
    other unique indexes of the table. *)
Definition insertInto {K R} `{Countable K} (table : DB -> gmap K R) (on : (gmap K R -> gmap K R) -> DB -> DB)
    (k : K) (r : R) (conflicts : gmap K R -> bool) : sql unit := fun d =>
  match table d !! k with
  | Some _ => Err unique_violation
  | None => if conflicts (table d) then Err unique_violation else Ok (tt, on (<[k := r]>) d)
  end.

(** [INSERT ... ON CONFLICT (primary key) DO UPDATE] of every other column. *)
Definition upsert {K R} `{Countable K} (on : (gmap K R -> gmap K R) -> DB -> DB) (k : K) (r : R) : sql unit := fun d =>
  Ok (tt, on (<[k := r]>) d).

(** [UPDATE table SET ... WHERE primary key = k]: [tag.RowsAffected()]. *)
Definition updateRow {K R} `{Countable K} (table : DB -> gmap K R) (on : (gmap K R -> gmap K R) -> DB -> DB)
    (k : K) (set : R -> R) (conflicts : gmap K R -> bool) : sql Z := fun d =>
  match table d !! k with
  | None => Ok (0, d)
  | Some r => if conflicts (table d) then Err unique_violation else Ok (1, on (<[k := set r]>) d)
  end.

Definition noOtherIndex {T} (_ : T) : bool := false.

Definition isUniqueViolation (err : error) : bool := bool_decide (err = unique_violation).

(** [if isUniqueViolation(err) { return ErrAlreadyExists }; return err] *)
Definition alreadyExists (c : PG unit) : PG unit :=
  let! r := attempt c in
  match r with
  | Ok _ => ret tt
  | Err err => if isUniqueViolation err then fail ErrAlreadyExists else fail err
  end.

(** [if tag.RowsAffected() == 0 { return ErrNotFound }] *)
Definition affected (n : Z) : PG unit := if n =? 0 then fail ErrNotFound else ret tt.

(** [pgx.ErrNoRows] becomes [ErrNotFound]. *)
Definition scanRow {R A} (decode : R -> result A) (row : option R) : result A :=
  match row with None => Err ErrNotFound | Some r => decode r end.

(** [p = $1 AND t = $2] *)
Definition inShard (projectID tenantID p t : string) : bool := String.eqb p projectID && String.eqb t tenantID.

(** ** Projects *)
Definition encodeProjectConfig (p : Project) : result Jsonb :=
  match p_Model p with
  | Some m =>
      if bool_decide (m = ∅) then config_Marshal (mkProjectConfig None (p_DataRegion p) (p_MaxCheckReads p))
      else rbind (MarshalModel m) (fun raw =>
             config_Marshal (mkProjectConfig (Some raw) (p_DataRegion p) (p_MaxCheckReads p)))
  | None => config_Marshal (mkProjectConfig None (p_DataRegion p) (p_MaxCheckReads p))
  end.

Definition decodeProjectConfig (blob : Jsonb) (p : Project) : result Project :=
  rbind (config_Unmarshal blob) (fun cfg =>
    let p' := mkProject (p_ID p) (p_Name p) (p_Status p) (p_Model p) (cfg_DataRegion cfg) (cfg_MaxCheckReads cfg)
                        (p_CreatedAt p) (p_UpdatedAt p) in
    match cfg_Model cfg with
    | None => Ok p'
    | Some raw => rbind (ParseModel raw) (fun m =>
        Ok (mkProject (p_ID p') (p_Name p') (p_Status p') (Some m) (p_DataRegion p') (p_MaxCheckReads p')
                      (p_CreatedAt p') (p_UpdatedAt p')))
    end).

Definition decodeProject (r : projectRow) : result Project :=
  decodeProjectConfig (pr_config_json r)
    (mkProject (pr_id r) (pr_name r) (pr_status r) None "" 0 (pr_created_at r) (pr_updated_at r)).

Definition scanProject : option projectRow -> result Project := scanRow decodeProject.

Definition CreateProject (p : Project) : PG unit :=
  let! cfg := lift (encodeProjectConfig p) in
  alreadyExists (run [p_ID p; p_Name p; p_Status p]
    (withJsonb cfg (insertInto tbl_projects on_projects (p_ID p)
       (mkProjectRow (p_ID p) (p_Name p) (p_Status p) cfg (timestamptz (p_CreatedAt p)) (timestamptz (p_UpdatedAt p)))
       noOtherIndex))).

Definition GetProject (id : string) : PG Project :=
  let! row := run [id] (query (fun d => tbl_projects d !! id)) in
  lift (scanProject row).

Definition UpdateProject (p : Project) : PG unit :=
  let! cfg := lift (encodeProjectConfig p) in
  let! n := run [p_ID p; p_Name p; p_Status p]
    (withJsonb cfg (updateRow tbl_projects on_projects (p_ID p)
       (fun r => mkProjectRow (pr_id r) (p_Name p) (p_Status p) cfg (pr_created_at r) (timestamptz (p_UpdatedAt p)))
       noOtherIndex)) in
  affected n.

Definition ListProjects : PG (list Project) :=
  let! rows := run [] (query (fun d =>
    orderBy (Some pr_created_at) [pr_id] (selectWhere (fun _ => true) (tbl_projects d)))) in
  lift (rmap decodeProject rows).

(** ** Relation tuples *)

(** kind, user id, namespace, object id and relation of the subject *)
Definition tupleCols (t : Tuple) : string * string * string * string * string :=
  if Wildcard (t_Subject t) then ("wildcard", "", "", "", "")
  else match Set_ (t_Subject t) with
       | Some ss => ("set", "", ss_Namespace ss, ss_ObjectID ss, ss_Relation ss)
       | None => ("user", UserID (t_Subject t), "", "", "")
       end.

Definition tupleKeyOf (projectID tenantID : string) (t : Tuple) : tupleKeyCols :=
  let '(kind, uid, sns, soid, srel) := tupleCols t in
  mkTupleKeyCols projectID tenantID (t_Namespace t) (t_ObjectID t) (t_Relation t) kind uid sns soid srel.

(** The parameters [$1] to [$10] of both statements. *)
Definition keyArgs (k : tupleKeyCols) : list string :=
  [tk_project_id k; tk_tenant_id k; tk_namespace k; tk_object_id k; tk_relation k; tk_subject_kind k;
   tk_subject_user_id k; tk_subject_namespace k; tk_subject_object_id k; tk_subject_relation k].

Definition conditionCols (t : Tuple) : string * Jsonb :=
  match Cond (t_Subject t) with
  | None => ("", emptyObject)
  | Some c =>
      if String.eqb (c_Name c) "" then ("", emptyObject)
      else match params_Marshal (c_Params c) with
           | Err _ => (c_Name c, emptyObject)
           | Ok b => (c_Name c, b)
           end
  end.

(** A bigint column holds at most [2^63 - 1]. *)
Definition bumpSeqExec (projectID tenantID : string) : PG unit :=
  run [projectID; tenantID] (fun d =>
    let k := (projectID, tenantID) in
    match tbl_consistency_seq d !! k with
    | None => Ok (tt, on_consistency_seq (<[k := 1]>) d)
    | Some seq => if 2^63 <=? seq + 1 then Err numeric_value_out_of_range
                  else Ok (tt, on_consistency_seq (<[k := seq + 1]>) d)
    end).

Definition deleteTupleExec (projectID tenantID : string) (t : Tuple) : PG unit :=
  let k := tupleKeyOf projectID tenantID t in
  do! run (keyArgs k) (deleteFrom tbl_relation_tuples on_relation_tuples (fun r => bool_decide (tr_key r = k))) in
  ret tt.

Definition insertTupleExec (projectID tenantID : string) (t : Tuple) : PG unit :=
  let k := tupleKeyOf projectID tenantID t in
  let '(condName, condParams) := conditionCols t in
  run (keyArgs k ++ [condName])
    (withJsonb condParams
       (upsert on_relation_tuples k (mkTupleRow k (timestamptz <$> t_ExpiresAt t) condName condParams))).

Definition writeTuplesExec (projectID tenantID : string) (inserts deletes : list Tuple) : PG unit :=
  do! mapM (deleteTupleExec projectID tenantID) deletes in
  do! mapM (insertTupleExec projectID tenantID) inserts in
  bumpSeqExec projectID tenantID.

Definition WriteTuples (projectID tenantID : string) (inserts deletes : list Tuple) : PG unit :=
  tx (writeTuplesExec projectID tenantID inserts deletes).

Definition ConsistencyToken (projectID tenantID : string) : PG Z :=
  run [projectID; tenantID] (query (fun d => default 0 (tbl_consistency_seq d !! (projectID, tenantID)))).

Definition scanTuple (r : tupleRow) : result Tuple :=
  let k := tr_key r in
  let tuple user set wildcard cond :=
    mkTuple (tk_namespace k) (tk_object_id k) (tk_relation k) (mkSubject user set wildcard cond) (tr_expires_at r) in
  let build cond :=
    if String.eqb (tk_subject_kind k) "set" then
      tuple "" (Some (mkSubjectSet (tk_subject_namespace k) (tk_subject_object_id k) (tk_subject_relation k))) false cond
    else if String.eqb (tk_subject_kind k) "wildcard" then tuple "" None true cond
    else tuple (tk_subject_user_id k) None false cond in
  if String.eqb (tr_condition_name r) "" then Ok (build None)
  else rbind (params_Unmarshal (tr_condition_params r)) (fun params =>
         Ok (build (Some (mkCondition (tr_condition_name r) params)))).

(** [expires_at IS NULL OR expires_at > now()] *)
Definition unexpired (now : Time) (r : tupleRow) : bool :=
  match tr_expires_at r with None => true | Some e => now <? e end.

(** [project_id=$1 AND tenant_id=$2] *)
Definition tupleIn (projectID tenantID : string) (r : tupleRow) : bool :=
  inShard projectID tenantID (tk_project_id (tr_key r)) (tk_tenant_id (tr_key r)).

Definition ListSubjects (now : Time) (projectID tenantID namespace objectID relation : string) : PG (list Subject) :=
  let! rows := run [projectID; tenantID; namespace; objectID; relation] (query (fun d =>
    selectWhere (fun r => tupleIn projectID tenantID r && String.eqb (tk_namespace (tr_key r)) namespace
      && String.eqb (tk_object_id (tr_key r)) objectID && String.eqb (tk_relation (tr_key r)) relation
      && unexpired now r) (tbl_relation_tuples d))) in
  let! ts := lift (rmap scanTuple rows) in
  ret (t_Subject <$> ts).

(** [SELECT DISTINCT object_id ... ORDER BY object_id] *)
Definition ListObjectIDs (now : Time) (projectID tenantID namespace : string) : PG (list string) :=
  run [projectID; tenantID; namespace] (query (fun d =>
    orderBy None [(fun id => id)] (remove_dups ((fun r => tk_object_id (tr_key r)) <$>
      selectWhere (fun r => tupleIn projectID tenantID r && String.eqb (tk_namespace (tr_key r)) namespace
                            && unexpired now r) (tbl_relation_tuples d))))).

(** [$n='' OR column=$n] *)
Definition anyOr (want have : string) : bool := String.eqb want "" || String.eqb have want.

Definition ReadTuples (now : Time) (projectID tenantID : string) (f : TupleFilter) : PG (list Tuple) :=
  let! rows := run [projectID; tenantID; f_Namespace f; f_ObjectID f; f_Relation f; f_SubjectUserID f] (query (fun d =>
    orderBy None [(fun r => tk_namespace (tr_key r)); (fun r => tk_object_id (tr_key r)); (fun r => tk_relation (tr_key r));
                  (fun r => tk_subject_kind (tr_key r)); (fun r => tk_subject_user_id (tr_key r));
                  (fun r => tk_subject_namespace (tr_key r)); (fun r => tk_subject_object_id (tr_key r));
                  (fun r => tk_subject_relation (tr_key r))]
      (selectWhere (fun r => tupleIn projectID tenantID r && anyOr (f_Namespace f) (tk_namespace (tr_key r))
         && anyOr (f_ObjectID f) (tk_object_id (tr_key r)) && anyOr (f_Relation f) (tk_relation (tr_key r))
         && anyOr (f_SubjectUserID f) (tk_subject_user_id (tr_key r)) && unexpired now r) (tbl_relation_tuples d)))) in
  lift (rmap scanTuple rows).

(** [project_id=$1 AND subject_kind='user' AND subject_user_id=$2] *)
Definition subjectRow (projectID userID : string) (r : tupleRow) : bool :=
  String.eqb (tk_project_id (tr_key r)) projectID && String.eqb (tk_subject_kind (tr_key r)) "user"
  && String.eqb (tk_subject_user_id (tr_key r)) userID.

Definition DeleteAllSubjectTuplesInProject (projectID userID : string) : PG Z :=
  tx (let! n := run [projectID; userID]
        (deleteFrom tbl_relation_tuples on_relation_tuples (subjectRow projectID userID)) in
      do! run [projectID; userID]
        (deleteFrom tbl_seat_assignments on_seat_assignments (fun a =>
           String.eqb (sa_ProjectID a) projectID && String.eqb (sa_UserID a) userID)) in
      ret n).

Definition scanTupleAt (r : tupleRow) : result TupleAt :=
  rbind (scanTuple r) (fun t => Ok (mkTupleAt (tk_tenant_id (tr_key r)) t)).

Definition collectTupleAt (rows : list tupleRow) : result (list TupleAt) := rmap scanTupleAt rows.

(** [ORDER BY tenant_id, namespace, object_id, relation] *)
Definition tupleAtOrder (rows : list tupleRow) : list tupleRow :=
  orderBy None [(fun r => tk_tenant_id (tr_key r)); (fun r => tk_namespace (tr_key r));
                (fun r => tk_object_id (tr_key r)); (fun r => tk_relation (tr_key r))] rows.

Definition ListSubjectTuplesInProject (now : Time) (projectID userID : string) : PG (list TupleAt) :=
  let! rows := run [projectID; userID] (query (fun d =>
    tupleAtOrder (selectWhere (fun r => subjectRow projectID userID r && unexpired now r) (tbl_relation_tuples d)))) in
  lift (collectTupleAt rows).

Definition ListTuplesForSubjectSetsInProject (now : Time) (projectID : string) (sets : list SubjectSet) : PG (list TupleAt) :=
  if is_nil sets then ret [] else
  let! rows := run (projectID :: concat ((fun st => [ss_Namespace st; ss_ObjectID st; ss_Relation st]) <$> sets))
    (query (fun d => tupleAtOrder (selectWhere (fun r =>
       String.eqb (tk_project_id (tr_key r)) projectID && String.eqb (tk_subject_kind (tr_key r)) "set"
       && bool_decide (mkSubjectSet (tk_subject_namespace (tr_key r)) (tk_subject_object_id (tr_key r))
                         (tk_subject_relation (tr_key r)) ∈ sets)
       && unexpired now r) (tbl_relation_tuples d)))) in
  lift (collectTupleAt rows).

(** ** Workspaces *)
Definition storedWorkspace (w : Workspace) : Workspace :=
  mkWorkspace (w_ID w) (w_ProjectID w) (w_TenantID w) (w_Slug w) (w_DisplayName w) (w_Type w) (w_OwnerUserID w)
              (timestamptz (w_CreatedAt w)) (timestamptz (w_UpdatedAt w)).

Definition workspaceArgs (w : Workspace) : list string :=
  [w_ProjectID w; w_TenantID w; w_ID w; w_Slug w; w_DisplayName w; w_Type w; w_OwnerUserID w].

(** [owner_user_id=$3 AND type='personal'] in a shard *)
Definition personalRow (projectID tenantID userID : string) (w : Workspace) : bool :=
  inShard projectID tenantID (w_ProjectID w) (w_TenantID w) && String.eqb (w_OwnerUserID w) userID
  && String.eqb (w_Type w) "personal".

(** The partial unique index [workspaces_personal_uniq]: a personal row is in the
    way of another one of its owner. *)
Definition personalConflict (w : Workspace) (t : gmap key3 Workspace) : bool :=
  String.eqb (w_Type w) "personal"
  && existsb (fun kr => negb (bool_decide (kr.1 = (w_ProjectID w, w_TenantID w, w_ID w)))
                        && personalRow (w_ProjectID w) (w_TenantID w) (w_OwnerUserID w) kr.2) (map_to_list t).

Definition CreateWorkspace (w : Workspace) : PG unit :=
  alreadyExists (run (workspaceArgs w)
    (insertInto tbl_workspaces on_workspaces (w_ProjectID w, w_TenantID w, w_ID w) (storedWorkspace w)
       (personalConflict w))).

Definition scanWorkspace : option Workspace -> result Workspace := scanRow Ok.

Definition GetWorkspace (projectID tenantID id : string) : PG Workspace :=
  let! row := run [projectID; tenantID; id] (query (fun d => tbl_workspaces d !! (projectID, tenantID, id))) in
  lift (scanWorkspace row).

Definition UpdateWorkspace (w : Workspace) : PG unit :=
  let! n := run (workspaceArgs w)
    (updateRow tbl_workspaces on_workspaces (w_ProjectID w, w_TenantID w, w_ID w) (fun _ => storedWorkspace w)
       (personalConflict w)) in
  affected n.

Definition DeleteWorkspace (projectID tenantID id : string) : PG unit :=
  tx (let! n := run [projectID; tenantID; id] (deleteFrom tbl_workspaces on_workspaces (fun w =>
         inShard projectID tenantID (w_ProjectID w) (w_TenantID w) && String.eqb (w_ID w) id)) in
      do! affected n in
      do! run [projectID; tenantID; id] (deleteFrom tbl_memberships on_memberships (fun m =>
         inShard projectID tenantID (mb_ProjectID m) (mb_TenantID m) && String.eqb (mb_WorkspaceID m) id)) in
      do! run [projectID; tenantID; id] (deleteFrom tbl_invitations on_invitations (fun i =>
         inShard projectID tenantID (inv_ProjectID i) (inv_TenantID i) && String.eqb (inv_WorkspaceID i) id)) in
      do! run [projectID; tenantID; id] (deleteFrom tbl_relation_tuples on_relation_tuples (fun r =>
         tupleIn projectID tenantID r && String.eqb (tk_namespace (tr_key r)) "workspace"
         && String.eqb (tk_object_id (tr_key r)) id)) in
      bumpSeqExec projectID tenantID).

Definition PersonalWorkspace (projectID tenantID userID : string) : PG Workspace :=
  let! row := run [projectID; tenantID; userID] (query (fun d =>
    head (selectWhere (personalRow projectID tenantID userID) (tbl_workspaces d)))) in
  lift (scanWorkspace row).

(** The join of the workspaces of a shard with the active memberships of a user:
    a pair of rows appears when the condition of the join holds. *)
Definition WorkspacesForUser (projectID tenantID userID : string) : PG (list Workspace) :=
  run [projectID; tenantID; userID] (query (fun d =>
    orderBy (Some w_CreatedAt) [w_ID] (concat ((fun w => (fun _ => w) <$>
      selectWhere (fun m => inShard (w_ProjectID w) (w_TenantID w) (mb_ProjectID m) (mb_TenantID m)
        && String.eqb (mb_WorkspaceID m) (w_ID w) && String.eqb (mb_UserID m) userID
        && String.eqb (mb_Status m) "active") (tbl_memberships d)) <$>
      selectWhere (fun w => inShard projectID tenantID (w_ProjectID w) (w_TenantID w)) (tbl_workspaces d))))).

(** ** Memberships *)
Definition storedMembership (m : Membership) : Membership :=
  mkMembership (mb_ProjectID m) (mb_TenantID m) (mb_WorkspaceID m) (mb_UserID m) (mb_Role m) (mb_Status m)
               (timestamptz (mb_CreatedAt m)) (timestamptz (mb_UpdatedAt m)).

Definition putMembershipExec (m : Membership) : PG unit :=
  run [mb_ProjectID m; mb_TenantID m; mb_WorkspaceID m; mb_UserID m; mb_Role m; mb_Status m]
    (upsert on_memberships (mb_ProjectID m, mb_TenantID m, mb_WorkspaceID m, mb_UserID m) (storedMembership m)).

Definition PutMembership (m : Membership) : PG unit := putMembershipExec m.

Definition PutMembershipAndTuples (m : Membership) (inserts deletes : list Tuple) : PG unit :=
  tx (do! putMembershipExec m in
      writeTuplesExec (mb_ProjectID m) (mb_TenantID m) inserts deletes).

Definition deleteMembershipExec (projectID tenantID workspaceID userID : string) : PG unit :=
  let! n := run [projectID; tenantID; workspaceID; userID] (deleteFrom tbl_memberships on_memberships (fun m =>
    inShard projectID tenantID (mb_ProjectID m) (mb_TenantID m) && String.eqb (mb_WorkspaceID m) workspaceID
    && String.eqb (mb_UserID m) userID)) in
  affected n.

Definition DeleteMembershipAndTuples (projectID tenantID workspaceID userID : string) (deletes : list Tuple) : PG unit :=
  tx (do! deleteMembershipExec projectID tenantID workspaceID userID in
      writeTuplesExec projectID tenantID [] deletes).

Definition scanMembership : option Membership -> result Membership := scanRow Ok.

Definition GetMembership (projectID tenantID workspaceID userID : string) : PG Membership :=
  let! row := run [projectID; tenantID; workspaceID; userID] (query (fun d =>
    tbl_memberships d !! (projectID, tenantID, workspaceID, userID))) in
  lift (scanMembership row).

Definition ListMembers (projectID tenantID workspaceID : string) : PG (list Membership) :=
  run [projectID; tenantID; workspaceID] (query (fun d =>
    orderBy (Some mb_CreatedAt) [mb_UserID] (selectWhere (fun m =>
      inShard projectID tenantID (mb_ProjectID m) (mb_TenantID m) && String.eqb (mb_WorkspaceID m) workspaceID)
      (tbl_memberships d)))).

Definition DeleteMembership (projectID tenantID workspaceID userID : string) : PG unit :=
  deleteMembershipExec projectID tenantID workspaceID userID.

(** ** Invitations *)
Definition storedInvitation (i : Invitation) : Invitation :=
  mkInvitation (inv_ID i) (inv_ProjectID i) (inv_TenantID i) (inv_WorkspaceID i) (inv_Email i) (inv_Role i)
               (inv_Status i) (inv_InvitedBy i) (inv_TokenHash i)
               (timestamptz (inv_CreatedAt i)) (timestamptz (inv_ExpiresAt i)).

Definition invitationArgs (i : Invitation) : list string :=
  [inv_ProjectID i; inv_TenantID i; inv_ID i; inv_WorkspaceID i; inv_Email i; inv_Role i; inv_Status i;
   inv_InvitedBy i; inv_TokenHash i].

Definition CreateInvitation (i : Invitation) : PG unit :=
  alreadyExists (run (invitationArgs i)
    (insertInto tbl_invitations on_invitations (inv_ProjectID i, inv_TenantID i, inv_ID i) (storedInvitation i)
       noOtherIndex)).

Definition scanInvitation : option Invitation -> result Invitation := scanRow Ok.

Definition GetInvitation (projectID tenantID id : string) : PG Invitation :=
  let! row := run [projectID; tenantID; id] (query (fun d => tbl_invitations d !! (projectID, tenantID, id))) in
  lift (scanInvitation row).

Definition GetInvitationByTokenHash (projectID tenantID tokenHash : string) : PG Invitation :=
  let! row := run [projectID; tenantID; tokenHash] (query (fun d =>
    head (selectWhere (fun i => inShard projectID tenantID (inv_ProjectID i) (inv_TenantID i)
                                && String.eqb (inv_TokenHash i) tokenHash) (tbl_invitations d)))) in
  lift (scanInvitation row).

Definition UpdateInvitation (i : Invitation) : PG unit :=
  let! n := run (invitationArgs i)
    (updateRow tbl_invitations on_invitations (inv_ProjectID i, inv_TenantID i, inv_ID i)
       (fun _ => storedInvitation i) noOtherIndex) in
  affected n.

Definition ListInvitations (projectID tenantID workspaceID : string) : PG (list Invitation) :=
  run [projectID; tenantID; workspaceID] (query (fun d =>
    orderBy (Some inv_CreatedAt) [inv_ID] (selectWhere (fun i =>
      inShard projectID tenantID (inv_ProjectID i) (inv_TenantID i) && String.eqb (inv_WorkspaceID i) workspaceID)
      (tbl_invitations d)))).

(** ** Groups *)
Definition storedGroup (g : Group) : Group :=
  mkGroup (g_ID g) (g_ProjectID g) (g_TenantID g) (g_WorkspaceID g) (g_Slug g) (g_DisplayName g) (g_CreatedBy g)
          (timestamptz (g_CreatedAt g)) (timestamptz (g_UpdatedAt g)).

Definition CreateGroup (g : Group) : PG unit :=
  alreadyExists (run [g_ProjectID g; g_TenantID g; g_ID g; g_WorkspaceID g; g_Slug g; g_DisplayName g; g_CreatedBy g]
    (insertInto tbl_groups on_groups (g_ProjectID g, g_TenantID g, g_ID g) (storedGroup g) noOtherIndex)).

Definition scanGroup : option Group -> result Group := scanRow Ok.

Definition GetGroup (projectID tenantID id : string) : PG Group :=
  let! row := run [projectID; tenantID; id] (query (fun d => tbl_groups d !! (projectID, tenantID, id))) in
  lift (scanGroup row).

Definition ListGroups (projectID tenantID workspaceID : string) : PG (list Group) :=
  run [projectID; tenantID; workspaceID] (query (fun d =>
    orderBy (Some g_CreatedAt) [g_ID] (selectWhere (fun g =>
      inShard projectID tenantID (g_ProjectID g) (g_TenantID g) && anyOr workspaceID (g_WorkspaceID g))
      (tbl_groups d)))).

Definition DeleteGroup (projectID tenantID id : string) : PG unit :=
  tx (let! n := run [projectID; tenantID; id] (deleteFrom tbl_groups on_groups (fun g =>
         inShard projectID tenantID (g_ProjectID g) (g_TenantID g) && String.eqb (g_ID g) id)) in
      do! affected n in
      do! run [projectID; tenantID; id] (deleteFrom tbl_relation_tuples on_relation_tuples (fun r =>
         tupleIn projectID tenantID r && String.eqb (tk_namespace (tr_key r)) "group"
         && String.eqb (tk_object_id (tr_key r)) id)) in
      do! run [projectID; tenantID; id] (deleteFrom tbl_enrollments on_enrollments (fun e =>
         inShard projectID tenantID (er_project_id e) (er_tenant_id e) && String.eqb (er_group_id e) id)) in
      bumpSeqExec projectID tenantID).

(** ** Enrollments *)
Definition SetEnrollmentAndTuples (e : Enrollment) (inserts deletes : list Tuple) : PG unit :=
  let '(kind, id) := MemberKey (en_Member e) in
  tx (do! run [en_ProjectID e; en_TenantID e; en_GroupID e; kind; id; en_State e]
        (upsert on_enrollments (en_ProjectID e, en_TenantID e, en_GroupID e, (kind, id))
           (mkEnrollmentRow (en_ProjectID e) (en_TenantID e) (en_GroupID e) kind id (en_State e)
              (timestamptz (en_CreatedAt e)) (timestamptz (en_UpdatedAt e)))) in
      writeTuplesExec (en_ProjectID e) (en_TenantID e) inserts deletes).

Definition decodeEnrollment (r : enrollmentRow) : Enrollment :=
  mkEnrollment (er_project_id r) (er_tenant_id r) (er_group_id r) (MemberFromKey (er_member_kind r) (er_member_id r))
               (er_state r) (er_created_at r) (er_updated_at r).

Definition scanEnrollment : option enrollmentRow -> result Enrollment := scanRow (fun r => Ok (decodeEnrollment r)).

Definition GetEnrollment (projectID tenantID groupID : string) (member : GroupMember) : PG Enrollment :=
  let '(kind, id) := MemberKey member in
  let! row := run [projectID; tenantID; groupID; kind; id] (query (fun d =>
    tbl_enrollments d !! (projectID, tenantID, groupID, (kind, id)))) in
  lift (scanEnrollment row).

Definition ListEnrollments (projectID tenantID groupID : string) : PG (list Enrollment) :=
  let! rows := run [projectID; tenantID; groupID] (query (fun d =>
    orderBy (Some er_created_at) [er_member_kind; er_member_id] (selectWhere (fun e =>
      inShard projectID tenantID (er_project_id e) (er_tenant_id e) && String.eqb (er_group_id e) groupID)
      (tbl_enrollments d)))) in
  ret (decodeEnrollment <$> rows).

(** ** Seats *)

(** The column [seat_limit] is an [integer], 32 bits wide. *)
Definition int4 (n : Z) : bool := (- 2^31 <=? n) && (n <? 2^31).

Definition SetSeatLimit (projectID tenantID sku : string) (limit : option Z) : PG unit :=
  match limit with
  | None => run [projectID; tenantID; sku] (fun d => Ok (tt, on_seat_limits (delete (projectID, tenantID, sku)) d))
  | Some n => run [projectID; tenantID; sku] (fun d =>
      if int4 n then upsert on_seat_limits (projectID, tenantID, sku) n d else Err numeric_value_out_of_range)
  end.

Definition seatRow (projectID tenantID sku : string) (a : SeatAssignment) : bool :=
  inShard projectID tenantID (sa_ProjectID a) (sa_TenantID a) && String.eqb (sa_SKU a) sku.

(** [SELECT count( * ) FROM seat_assignments WHERE ...] *)
Definition countSeats (projectID tenantID sku : string) : PG Z :=
  run [projectID; tenantID; sku] (query (fun d =>
    Z.of_nat (length (selectWhere (seatRow projectID tenantID sku) (tbl_seat_assignments d))))).

(** [SELECT seat_limit FROM seat_limits WHERE ...] *)
Definition selectSeatLimit (projectID tenantID sku : string) : PG (option Z) :=
  run [projectID; tenantID; sku] (query (fun d => tbl_seat_limits d !! (projectID, tenantID, sku))).

Definition GetSeatUsage (projectID tenantID sku : string) : PG SeatUsage_ :=
  let! used := countSeats projectID tenantID sku in
  let! limit := selectSeatLimit projectID tenantID sku in
  match limit with
  | None => ret (mkSeatUsage sku used 0 false)
  | Some n => ret (mkSeatUsage sku used n true)
  end.

Definition unitSeparator : string := String "031"%char EmptyString.

Definition seatLockKey (projectID tenantID sku : string) : string :=
  String.append "seat" (String.append unitSeparator (String.append projectID (String.append unitSeparator
    (String.append tenantID (String.append unitSeparator sku))))).

Definition storedSeat (a : SeatAssignment) : SeatAssignment :=
  mkSeatAssignment (sa_ProjectID a) (sa_TenantID a) (sa_SKU a) (sa_UserID a) (timestamptz (sa_AssignedAt a)).

(** [pg_advisory_xact_lock] waits for its turn and changes no table. *)
Definition AssignSeatAndTuple (a : SeatAssignment) (tuple : Tuple) : PG bool :=
  let p := sa_ProjectID a in let t := sa_TenantID a in let sku := sa_SKU a in
  tx (do! run [seatLockKey p t sku] (query (fun _ => tt)) in
      let! exists_ := run [p; t; sku; sa_UserID a] (query (fun d =>
        isSome (tbl_seat_assignments d !! (p, t, sku, sa_UserID a)))) in
      if exists_ : bool then
        do! writeTuplesExec p t [tuple] [] in
        ret true
      else
        let! limit := selectSeatLimit p t sku in
        do! match limit with
            | None => ret tt
            | Some n =>
                let! used := countSeats p t sku in
                if n <=? used then fail ErrResourceExhausted else ret tt
            end in
        do! run [p; t; sku; sa_UserID a]
          (insertInto tbl_seat_assignments on_seat_assignments (p, t, sku, sa_UserID a) (storedSeat a) noOtherIndex) in
        do! writeTuplesExec p t [tuple] [] in
        ret false).

Definition RevokeSeatAndTuple (projectID tenantID sku userID : string) (tuple : Tuple) : PG unit :=
  tx (do! run [projectID; tenantID; sku; userID] (deleteFrom tbl_seat_assignments on_seat_assignments (fun a =>
         seatRow projectID tenantID sku a && String.eqb (sa_UserID a) userID)) in
      writeTuplesExec projectID tenantID [] [tuple]).

Definition ListSeats (projectID tenantID sku : string) : PG (list SeatAssignment) :=
  run [projectID; tenantID; sku] (query (fun d =>
    orderBy (Some sa_AssignedAt) [sa_UserID] (selectWhere (seatRow projectID tenantID sku) (tbl_seat_assignments d)))).
End Driver.
