(* ===== verification/PostgresConformance.v ===== *)
(** * The postgres driver behind the storage boundary

    The driver as an instance of [Repository], and the conformance suite run on
    it: over a server that keeps microseconds, compares text byte by byte and
    delivers unordered rows in one of two opposite orders. *)

From stdpp Require Import base gmap strings list sorting.
From Stdlib Require Import ZArith Lia Ascii.
From S2P Require Import Prelude Conditions Model Types ModelJson Memory Repository Conformance Sql.
From S2P Require Import Postgres.
#[local] Open Scope Z_scope.

#[export] Instance postgresRepository `{MapRange} `{Database} : Repository (Session DB) := {|
  rListSubjects := Postgres.ListSubjects;
  rListObjectIDs := Postgres.ListObjectIDs;
  rWriteTuples := Postgres.WriteTuples;
  rReadTuples := Postgres.ReadTuples;
  rConsistencyToken := Postgres.ConsistencyToken;
  rDeleteAllSubjectTuplesInProject := Postgres.DeleteAllSubjectTuplesInProject;
  rListSubjectTuplesInProject := Postgres.ListSubjectTuplesInProject;
  rListTuplesForSubjectSetsInProject := Postgres.ListTuplesForSubjectSetsInProject;
  rCreateProject := Postgres.CreateProject;
  rGetProject := Postgres.GetProject;
  rUpdateProject := Postgres.UpdateProject;
  rListProjects := Postgres.ListProjects;
  rCreateWorkspace := Postgres.CreateWorkspace;
  rGetWorkspace := Postgres.GetWorkspace;
  rUpdateWorkspace := Postgres.UpdateWorkspace;
  rDeleteWorkspace := Postgres.DeleteWorkspace;
  rPersonalWorkspace := Postgres.PersonalWorkspace;
  rWorkspacesForUser := Postgres.WorkspacesForUser;
  rPutMembership := Postgres.PutMembership;
  rGetMembership := Postgres.GetMembership;
  rListMembers := Postgres.ListMembers;
  rDeleteMembership := Postgres.DeleteMembership;
  rPutMembershipAndTuples := Postgres.PutMembershipAndTuples;
  rDeleteMembershipAndTuples := Postgres.DeleteMembershipAndTuples;
  rCreateInvitation := Postgres.CreateInvitation;
  rGetInvitation := Postgres.GetInvitation;
  rGetInvitationByTokenHash := Postgres.GetInvitationByTokenHash;
  rUpdateInvitation := Postgres.UpdateInvitation;
  rListInvitations := Postgres.ListInvitations;
  rCreateGroup := Postgres.CreateGroup;
  rGetGroup := Postgres.GetGroup;
  rListGroups := Postgres.ListGroups;
  rDeleteGroup := Postgres.DeleteGroup;
  rSetEnrollmentAndTuples := Postgres.SetEnrollmentAndTuples;
  rGetEnrollment := Postgres.GetEnrollment;
  rListEnrollments := Postgres.ListEnrollments;
  rSetSeatLimit := Postgres.SetSeatLimit;
  rGetSeatUsage := Postgres.GetSeatUsage;
  rAssignSeatAndTuple := Postgres.AssignSeatAndTuple;
  rRevokeSeatAndTuple := Postgres.RevokeSeatAndTuple;
  rListSeats := Postgres.ListSeats;
|}.

(** ** Two concrete servers *)
Inductive sampleJsonb := ConfigBlob (c : @projectConfig documentCodec) | ParamsBlob (m : anymap).

Lemma noNUL_plain s : plainText s = true -> negb (contains_char "000"%char s) = true.
Proof.
  induction s as [|c s IH]; simpl; [done|].
  rewrite !andb_true_iff. intros [[Hc _] Hs]. apply IH in Hs. apply negb_true_iff in Hs. rewrite Hs, orb_false_r.
  destruct (Ascii.eqb_spec c "000"%char) as [->|]; done.
Qed.

Definition byteOrder (a b : string) : bool := String.leb a b.

Lemma byteOrder_total a b : byteOrder a b = true \/ byteOrder b a = true.
Proof. destruct (total String.le a b) as [Hx|Hx]; [left|right]; by apply Is_true_true. Qed.

Lemma byteOrder_trans a b c : byteOrder a b = true -> byteOrder b c = true -> byteOrder a c = true.
Proof.
  unfold byteOrder. rewrite <-!Is_true_true. change (String.le a b -> String.le b c -> String.le a c).
  intros. by etrans.
Qed.

Definition microseconds (t : Time) : Time := (t / 1000) * 1000.

Definition sampleServer (order : forall A : Type, list A -> list A)
    (Horder : forall A (l : list A), order A l ≡ₚ l) : @Database documentCodec.
Proof.
  refine {| scan := order; scan_perm := Horder; collate := byteOrder; collate_total := byteOrder_total;
            collate_trans := byteOrder_trans; timestamptz := microseconds;
            validText := fun s => negb (contains_char "000"%char s);
            validText_plain := noNUL_plain; Jsonb := sampleJsonb; emptyObject := ParamsBlob ∅;
            validJsonb := fun _ => true;
            config_Marshal := fun c => Ok (ConfigBlob c);
            config_Unmarshal := fun b => match b with ConfigBlob c => Ok c | ParamsBlob _ => Err (ErrPlain "json") end;
            params_Marshal := fun m => Ok (ParamsBlob m);
            params_Unmarshal := fun b => match b with ParamsBlob m => Ok m | ConfigBlob _ => Err (ErrPlain "json") end |}.
  - intros t. unfold microseconds. by rewrite Z.div_mul.
  - intros t u Htu. unfold microseconds. pose proof (Z.div_le_mono t u 1000). lia.
  - intros s Hs. by apply negb_true_iff in Hs.
Defined.

Definition heapOrder : @Database documentCodec := sampleServer (fun A l => l) (fun A l => Permutation_refl l).
Definition reverseOrder : @Database documentCodec := sampleServer (fun A l => reverse l) (fun A l => reverse_Permutation l).

Definition passes (tests : list (string * bool)) : Prop := Forall (fun test => test.2 = true) tests.

(** Both drivers satisfy the conformance suite: each of its 24 scenarios
    (tuples, key collisions, consistency sequence, wildcard, expiry and conditional
    grants, workspaces, memberships, invitations, groups, enrollments, isolation of
    projects and tenants, projects, deprovisioning, export, atomicity and seats)
    succeeds on a fresh in-memory store for two opposite iteration orders of its
    maps, and on an empty postgres schema over a connection that does not fail for
    two opposite orders of unordered rows. *)
Theorem drivers_conform :
  passes (Run (R := Store) (H := @memoryRepository map_range_default) (H0 := map_range_default) (H1 := documentCodec)
            New (1700000000 * sec) courseDoc modelDocEqb racers) /\
  passes (Run (R := Store) (H := @memoryRepository map_range_reversed) (H0 := map_range_reversed) (H1 := documentCodec)
            New (1700000000 * sec) courseDoc modelDocEqb (reverse racers)) /\
  passes (Run (R := Session (@DB documentCodec heapOrder)) (H := postgresRepository) (H0 := map_range_default) (H1 := documentCodec)
            (mkSession emptyDB []) (1700000000 * sec) courseDoc modelDocEqb racers) /\
  passes (Run (R := Session (@DB documentCodec reverseOrder)) (H := postgresRepository) (H0 := map_range_reversed) (H1 := documentCodec)
            (mkSession emptyDB []) (1700000000 * sec) courseDoc modelDocEqb (reverse racers)).
Proof.
  destruct memory_conforms as [Hforward Hbackward]. split; [exact Hforward|]. split; [exact Hbackward|].
  split; vm_compute; by repeat constructor.
Qed.
