(* ===== verification/RepoCalls.v ===== *)
(** * Calls on the storage boundary

    The methods of the interface [Repository] as data, with their arguments, and
    their results: [invoke] hands a call to a driver.  What is proved of every
    call holds of every method of the interface. *)

From stdpp Require Import base gmap strings list.
From Stdlib Require Import ZArith Lia.
From S2P Require Import Prelude Conditions Model Types Memory Repository.
#[local] Open Scope Z_scope.

Inductive call :=
  | CListSubjects (now : Time) (p t ns obj rel : string)
  | CListObjectIDs (now : Time) (p t ns : string)
  | CWriteTuples (p t : string) (inserts deletes : list Tuple)
  | CReadTuples (now : Time) (p t : string) (f : TupleFilter)
  | CConsistencyToken (p t : string)
  | CDeleteAllSubjectTuplesInProject (p user : string)
  | CListSubjectTuplesInProject (now : Time) (p user : string)
  | CListTuplesForSubjectSetsInProject (now : Time) (p : string) (sets : list SubjectSet)
  | CCreateProject (pr : Project)
  | CGetProject (id : string)
  | CUpdateProject (pr : Project)
  | CListProjects
  | CCreateWorkspace (w : Workspace)
  | CGetWorkspace (p t id : string)
  | CUpdateWorkspace (w : Workspace)
  | CDeleteWorkspace (p t id : string)
  | CPersonalWorkspace (p t user : string)
  | CWorkspacesForUser (p t user : string)
  | CPutMembership (m : Membership)
  | CGetMembership (p t ws user : string)
  | CListMembers (p t ws : string)
  | CDeleteMembership (p t ws user : string)
  | CPutMembershipAndTuples (m : Membership) (inserts deletes : list Tuple)
  | CDeleteMembershipAndTuples (p t ws user : string) (deletes : list Tuple)
  | CCreateInvitation (i : Invitation)
  | CGetInvitation (p t id : string)
  | CGetInvitationByTokenHash (p t hash : string)
  | CUpdateInvitation (i : Invitation)
  | CListInvitations (p t ws : string)
  | CCreateGroup (g : Group)
  | CGetGroup (p t id : string)
  | CListGroups (p t ws : string)
  | CDeleteGroup (p t id : string)
  | CSetEnrollmentAndTuples (e : Enrollment) (inserts deletes : list Tuple)
  | CGetEnrollment (p t group : string) (member : GroupMember)
  | CListEnrollments (p t group : string)
  | CSetSeatLimit (p t sku : string) (limit : option Z)
  | CGetSeatUsage (p t sku : string)
  | CAssignSeatAndTuple (a : SeatAssignment) (tuple : Tuple)
  | CRevokeSeatAndTuple (p t sku user : string) (tuple : Tuple)
  | CListSeats (p t sku : string).

Inductive answer :=
  | AUnit
  | ABool (b : bool)
  | AInt (n : Z)
  | AUsage (u : SeatUsage_)
  | AProject (x : Project)
  | AWorkspace (x : Workspace)
  | AMembership (x : Membership)
  | AInvitation (x : Invitation)
  | AGroup (x : Group)
  | AEnrollment (x : Enrollment)
  | ASubjects (l : list Subject)
  | AStrings (l : list string)
  | ATuples (l : list Tuple)
  | ATupleAts (l : list TupleAt)
  | AProjects (l : list Project)
  | AWorkspaces (l : list Workspace)
  | AMemberships (l : list Membership)
  | AInvitations (l : list Invitation)
  | AGroups (l : list Group)
  | AEnrollments (l : list Enrollment)
  | ASeats (l : list SeatAssignment).

(** The answer of a method as an [answer]. *)
Definition as_ {S A} (c : St S A) (f : A -> answer) : St S answer := let! a := c in ret (f a).

Section Invoke.
Context {R : Type} `{Repository R}.

Definition unit_ (_ : unit) : answer := AUnit.

Definition invoke (c : call) : St R answer :=
  match c with
  | CListSubjects now p t ns obj rel => as_ (rListSubjects now p t ns obj rel) ASubjects
  | CListObjectIDs now p t ns => as_ (rListObjectIDs now p t ns) AStrings
  | CWriteTuples p t ins del => as_ (rWriteTuples p t ins del) unit_
  | CReadTuples now p t f => as_ (rReadTuples now p t f) ATuples
  | CConsistencyToken p t => as_ (rConsistencyToken p t) AInt
  | CDeleteAllSubjectTuplesInProject p u => as_ (rDeleteAllSubjectTuplesInProject p u) AInt
  | CListSubjectTuplesInProject now p u => as_ (rListSubjectTuplesInProject now p u) ATupleAts
  | CListTuplesForSubjectSetsInProject now p sets => as_ (rListTuplesForSubjectSetsInProject now p sets) ATupleAts
  | CCreateProject pr => as_ (rCreateProject pr) unit_
  | CGetProject id => as_ (rGetProject id) AProject
  | CUpdateProject pr => as_ (rUpdateProject pr) unit_
  | CListProjects => as_ rListProjects AProjects
  | CCreateWorkspace w => as_ (rCreateWorkspace w) unit_
  | CGetWorkspace p t id => as_ (rGetWorkspace p t id) AWorkspace
  | CUpdateWorkspace w => as_ (rUpdateWorkspace w) unit_
  | CDeleteWorkspace p t id => as_ (rDeleteWorkspace p t id) unit_
  | CPersonalWorkspace p t u => as_ (rPersonalWorkspace p t u) AWorkspace
  | CWorkspacesForUser p t u => as_ (rWorkspacesForUser p t u) AWorkspaces
  | CPutMembership m => as_ (rPutMembership m) unit_
  | CGetMembership p t ws u => as_ (rGetMembership p t ws u) AMembership
  | CListMembers p t ws => as_ (rListMembers p t ws) AMemberships
  | CDeleteMembership p t ws u => as_ (rDeleteMembership p t ws u) unit_
  | CPutMembershipAndTuples m ins del => as_ (rPutMembershipAndTuples m ins del) unit_
  | CDeleteMembershipAndTuples p t ws u del => as_ (rDeleteMembershipAndTuples p t ws u del) unit_
  | CCreateInvitation i => as_ (rCreateInvitation i) unit_
  | CGetInvitation p t id => as_ (rGetInvitation p t id) AInvitation
  | CGetInvitationByTokenHash p t h => as_ (rGetInvitationByTokenHash p t h) AInvitation
  | CUpdateInvitation i => as_ (rUpdateInvitation i) unit_
  | CListInvitations p t ws => as_ (rListInvitations p t ws) AInvitations
  | CCreateGroup g => as_ (rCreateGroup g) unit_
  | CGetGroup p t id => as_ (rGetGroup p t id) AGroup
  | CListGroups p t ws => as_ (rListGroups p t ws) AGroups
  | CDeleteGroup p t id => as_ (rDeleteGroup p t id) unit_
  | CSetEnrollmentAndTuples e ins del => as_ (rSetEnrollmentAndTuples e ins del) unit_
  | CGetEnrollment p t g m => as_ (rGetEnrollment p t g m) AEnrollment
  | CListEnrollments p t g => as_ (rListEnrollments p t g) AEnrollments
  | CSetSeatLimit p t sku l => as_ (rSetSeatLimit p t sku l) unit_
  | CGetSeatUsage p t sku => as_ (rGetSeatUsage p t sku) AUsage
  | CAssignSeatAndTuple a tu => as_ (rAssignSeatAndTuple a tu) ABool
  | CRevokeSeatAndTuple p t sku u tu => as_ (rRevokeSeatAndTuple p t sku u tu) unit_
  | CListSeats p t sku => as_ (rListSeats p t sku) ASeats
  end.
End Invoke.
