(* ===== verification/PostgresAtomic.v ===== *)
(** * Failures of the connection under the postgres driver

    Every method of the driver is all or nothing, whatever happens to each of
    its statements on the wire. *)

From stdpp Require Import base gmap strings list sorting.
From Stdlib Require Import ZArith Lia Ascii.
From S2P Require Import Prelude Conditions Model Types ModelJson Memory Repository RepoCalls Sql.
From S2P Require Import Postgres PostgresConformance.
#[local] Open Scope Z_scope.

Section Atomic.
Context `{Database} {D : Type}.

(** The session over a connection that does not fail. *)
Definition healthy (s : Session D) : Session D := mkSession (db s) [].

(** A failure of the connection aside, [c] does what it does without one. *)
Definition transparent {A} (c : St (Session D) A) : Prop := forall s,
  net (c (healthy s)).2 = [] /\
  ((c s).1 = Err connection_failure \/
   ((c s).1 = (c (healthy s)).1 /\ db (c s).2 = db (c (healthy s)).2)).

(** An error leaves the database as it was; only a failure of the connection may
    also come after the whole effect. *)
Definition allOrNothing {A} (c : St (Session D) A) : Prop := forall s,
  match (c s).1 with
  | Ok a => (c (healthy s)).1 = Ok a /\ db (c s).2 = db (c (healthy s)).2
  | Err e => db (c s).2 = db s \/ (e = connection_failure /\ db (c s).2 = db (c (healthy s)).2)
  end.

(** [c] only looks. *)
Definition looks {A} (c : St (Session D) A) : Prop := forall s, db (c s).2 = db s.

Lemma healthy_db s : db (healthy s) = db s. Proof. done. Qed.
Lemma healthy_id s : net s = [] -> healthy s = s.
Proof. destruct s. unfold healthy. simpl. by intros ->. Qed.

Lemma transparent_run {A} args (q : sql (D := D) A) : transparent (run args q).
Proof.
  intros s. unfold run, nextOutcome, healthy. simpl.
  destruct (if forallb validText args then q (db s) else _) as [[a d]|e]; simpl;
    (split; [done|]); destruct (default Done (head (net s))); auto.
Qed.

Lemma transparent_lift {A} (r : result A) : transparent (lift r).
Proof. intros s. split; [done|]. by right. Qed.
Lemma transparent_ret {A} (a : A) : transparent (ret a).
Proof. apply (transparent_lift (Ok a)). Qed.
Lemma transparent_fail {A} e : transparent (A := A) (fail e).
Proof. apply (transparent_lift (Err e)). Qed.

Lemma transparent_bind {A B} (c : St (Session D) A) (k : A -> St (Session D) B) :
  transparent c -> (forall a, transparent (k a)) -> transparent (bind c k).
Proof.
  intros Hc Hk s. specialize (Hc s) as [Hnet Hc]. unfold bind.
  destruct (c s) as [r s1], (c (healthy s)) as [rh sh]. simpl in *.
  destruct rh as [a|e].
  - pose proof (Hk a sh) as [Hn _]. rewrite (healthy_id sh) in Hn by done. split; [done|].
    destruct Hc as [->|[-> Hdb]]; [by left|].
    destruct (Hk a s1) as [_ Hs1]. unfold healthy in Hs1. rewrite Hdb in Hs1.
    replace (mkSession (db sh) []) with sh in Hs1 by (destruct sh; simpl in *; congruence). done.
  - split; [done|]. destruct Hc as [->|[-> Hdb]]; [by left|]. by right.
Qed.

Lemma transparent_mapM {A B} (f : A -> St (Session D) B) xs :
  (forall x, transparent (f x)) -> transparent (mapM f xs).
Proof.
  intros Hf. induction xs as [|x xs IH]; simpl; [apply transparent_ret|].
  apply transparent_bind; [done|]. intros y. apply transparent_bind; [done|]. intros ys. apply transparent_ret.
Qed.

(** A transaction around any transparent body. *)
Lemma allOrNothing_tx {A} (body : St (Session D) A) : transparent body -> allOrNothing (tx body).
Proof.
  intros Hb s. unfold tx, run, query, nextOutcome, afterNext. simpl.
  destruct (default Done (head (net s))); simpl; [|auto..].
  destruct (Hb (mkSession (db s) (tail (net s)))) as [Hn Hc]. unfold healthy in *. simpl in *.
  destruct (body (mkSession (db s) (tail (net s)))) as [[a|e] s1]; simpl; [|by left].
  destruct (body (mkSession (db s) [])) as [rh sh]. simpl in *.
  destruct Hc as [?|[<- Hdb]]; [done|]. rewrite Hn. simpl.
  destruct (default Done (head (net s1))); simpl; auto.
Qed.

Lemma allOrNothing_looks {A} (c : St (Session D) A) : transparent c -> looks c -> allOrNothing c.
Proof.
  intros Ht Hl s. specialize (Ht s) as [_ Ht]. pose proof (Hl s) as Hs.
  destruct (c s) as [[a|e] s1]; simpl in *; [|by left]. destruct Ht as [?|[-> Hdb]]; done.
Qed.

(** One statement on its own; what follows it changes nothing and fails only when
    the statement changed nothing. *)
Lemma allOrNothing_run {A B} args (q : sql (D := D) A) (k : A -> result B) :
  (forall d a d', q d = Ok (a, d') -> match k a with Ok _ => True | Err _ => d' = d end) ->
  allOrNothing (bind (run args q) (fun a => lift (k a))).
Proof.
  intros Hk s. unfold bind, run, nextOutcome, healthy, lift. simpl.
  destruct (forallb validText args) eqn:Hargs; [|destruct (default Done (head (net s))); simpl; auto].
  destruct (q (db s)) as [[a d]|e] eqn:Hq.
  - specialize (Hk _ _ _ Hq). destruct (default Done (head (net s))); simpl; [|auto|].
    + destruct (k a); simpl; auto.
    + destruct (k a); simpl; auto.
  - destruct (default Done (head (net s))); simpl; auto.
Qed.

Lemma allOrNothing_ext {A} (c c' : St (Session D) A) : (forall s, c s = c' s) -> allOrNothing c' -> allOrNothing c.
Proof. intros Hx Hc s. rewrite !Hx. apply Hc. Qed.

Lemma looks_run {A} args (f : D -> A) : looks (run args (query f)).
Proof.
  intros s. unfold run, query, nextOutcome. simpl.
  destruct (default Done (head (net s))), (forallb validText args); done.
Qed.
Lemma looks_lift {A} (r : result A) : looks (lift r). Proof. done. Qed.
Lemma looks_ret {A} (a : A) : looks (ret a). Proof. done. Qed.
Lemma looks_bind {A B} (c : St (Session D) A) (k : A -> St (Session D) B) :
  looks c -> (forall a, looks (k a)) -> looks (bind c k).
Proof.
  intros Hc Hk s. unfold bind. specialize (Hc s). destruct (c s) as [[a|e] s1]; simpl in *; [|done].
  by rewrite (Hk a s1).
Qed.

Lemma allOrNothing_as {A} (c : St (Session D) A) f : allOrNothing c -> allOrNothing (as_ c f).
Proof.
  intros Hc s. specialize (Hc s). unfold as_, bind, ret. destruct (c s) as [[a|e] s1]; simpl in *.
  - destruct Hc as [Hh Hdb]. destruct (c (healthy s)) as [rh sh]. simpl in *. by subst.
  - destruct Hc as [Hc|[? Hc]]; [by left|]. right. split; [done|]. destruct (c (healthy s)) as [[]]; done.
Qed.
End Atomic.

(** ** The statements of the driver *)
Section Driver.
Context `{MapRange} `{Database}.

Lemma transparent_affected n : transparent (affected n).
Proof. unfold affected. destruct (n =? 0); [apply transparent_fail|apply transparent_ret]. Qed.

Create HintDb wire.
#[local] Hint Resolve transparent_run transparent_lift transparent_ret transparent_fail transparent_affected
  looks_run looks_lift looks_ret : wire.

(** Walk through the binds of a body. *)
#[local] Ltac wire :=
  cbv zeta;
  repeat first
    [ progress intros
    | progress auto with wire
    | apply transparent_bind | apply looks_bind | apply transparent_mapM
    | case_match ].

Lemma transparent_bumpSeq p t : transparent (bumpSeqExec p t).
Proof. apply transparent_run. Qed.
Lemma transparent_deleteTuple p t tu : transparent (deleteTupleExec p t tu).
Proof. unfold deleteTupleExec. wire. Qed.
Lemma transparent_insertTuple p t tu : transparent (insertTupleExec p t tu).
Proof. unfold insertTupleExec. wire. Qed.
#[local] Hint Resolve transparent_bumpSeq transparent_deleteTuple transparent_insertTuple : wire.

Lemma transparent_writeTuples p t ins del : transparent (writeTuplesExec p t ins del).
Proof. unfold writeTuplesExec. wire. Qed.
Lemma transparent_deleteMembership p t ws u : transparent (deleteMembershipExec p t ws u).
Proof. unfold deleteMembershipExec. wire. Qed.
Lemma transparent_putMembership m : transparent (putMembershipExec m).
Proof. apply transparent_run. Qed.
Lemma transparent_countSeats p t sku : transparent (countSeats p t sku).
Proof. apply transparent_run. Qed.
Lemma transparent_seatLimit p t sku : transparent (selectSeatLimit p t sku).
Proof. apply transparent_run. Qed.
#[local] Hint Resolve transparent_writeTuples transparent_deleteMembership transparent_putMembership
  transparent_countSeats transparent_seatLimit : wire.

(** A body in one transaction; a method that only looks. *)
#[local] Ltac in_tx := apply allOrNothing_tx; wire.
#[local] Ltac only_looks := apply allOrNothing_looks; wire.

(** *** Statements on their own *)
Lemma allOrNothing_alreadyExists args (q : sql (D := DB) unit) : allOrNothing (alreadyExists (run args q)).
Proof.
  intros s. unfold alreadyExists, bind, attempt, run, nextOutcome, healthy, ret, fail. simpl.
  destruct (if forallb validText args then q (db s) else _) as [[[] d]|e];
    destruct (default Done (head (net s))); simpl; auto.
  destruct (isUniqueViolation e); by left.
Qed.

Lemma allOrNothing_statement {A} args (q : sql (D := DB) A) : allOrNothing (run args q).
Proof.
  apply (allOrNothing_ext _ (bind (run args q) (fun a => lift (Ok a)))).
  - intros s. unfold bind, lift. by destruct (run args q s) as [[]].
  - by apply allOrNothing_run.
Qed.

Lemma allOrNothing_lift {A B} (r : result A) (k : A -> St (Session DB) B) :
  (forall a, allOrNothing (k a)) -> allOrNothing (bind (lift r) k).
Proof. intros Hk s. unfold bind, lift. destruct r as [a|e]; simpl; [apply Hk|by left]. Qed.

(** A statement that reports no affected row changed nothing. *)
Lemma allOrNothing_affected args (q : sql (D := DB) Z) :
  (forall d n d', q d = Ok (n, d') -> n = 0 -> d' = d) ->
  allOrNothing (bind (run args q) affected).
Proof.
  intros Hq. apply (allOrNothing_ext _ (bind (run args q) (fun n => lift (if n =? 0 then Err ErrNotFound else Ok tt)))).
  - intros s. unfold bind, lift, affected. destruct (run args q s) as [[n|] s1]; [|done]. by destruct (n =? 0).
  - apply allOrNothing_run. intros d n d' Hd. destruct (Z.eqb_spec n 0); [by eapply Hq|done].
Qed.

Lemma deleteWhere_none {K R} `{Countable K} (where_ : R -> bool) (t : gmap K R) :
  (deleteWhere where_ t).1 = 0 -> (deleteWhere where_ t).2 = t.
Proof.
  unfold deleteWhere. simpl. intros Hn.
  assert (He : filter (fun kv : K * R => where_ kv.2 = true) t = ∅) by (apply map_size_empty_inv; lia).
  apply map_filter_id. intros k r Hr. destruct (where_ r) eqn:Hw; [|done].
  rewrite map_empty in He. specialize (He k). apply map_lookup_filter_None in He. naive_solver.
Qed.

Lemma deleteFrom_none {K R} `{Countable K} (table : DB -> gmap K R) on where_ d n d' :
  deleteFrom table on where_ d = Ok (n, d') -> n = 0 ->
  (forall f, f (table d) = table d -> on f d = d) -> d' = d.
Proof.
  intros Hd Hn Hon. unfold deleteFrom in Hd. inversion Hd as [[Hc Hd']]. apply Hon, deleteWhere_none. congruence.
Qed.

Lemma updateRow_none {K R} `{Countable K} (table : DB -> gmap K R) on k set conflicts d n d' :
  updateRow table on k set conflicts d = Ok (n, d') -> n = 0 -> d' = d.
Proof. unfold updateRow. repeat case_match; naive_solver. Qed.

Lemma withJsonb_none {A} b (q : sql (D := DB) A) d r : withJsonb b q d = Ok r -> q d = Ok r.
Proof. unfold withJsonb. by case_match. Qed.

(** *** The methods that are one statement *)
Lemma allOrNothing_CreateProject p : allOrNothing (Postgres.CreateProject p).
Proof. apply allOrNothing_lift. intros cfg. apply allOrNothing_alreadyExists. Qed.
Lemma allOrNothing_UpdateProject p : allOrNothing (Postgres.UpdateProject p).
Proof.
  apply allOrNothing_lift. intros cfg. apply allOrNothing_affected.
  intros d n d' Hq%withJsonb_none. by eapply updateRow_none.
Qed.
Lemma allOrNothing_deleteMembership p t ws u : allOrNothing (deleteMembershipExec p t ws u).
Proof.
  apply allOrNothing_affected. intros d n d' Hd Hn. apply deleteFrom_none in Hd; [done|done|].
  intros f Hf. destruct d. by unfold on_memberships; f_equal.
Qed.
Lemma allOrNothing_SetSeatLimit p t sku l : allOrNothing (Postgres.SetSeatLimit p t sku l).
Proof. destruct l; apply allOrNothing_statement. Qed.
#[local] Hint Resolve allOrNothing_CreateProject allOrNothing_UpdateProject allOrNothing_deleteMembership
  allOrNothing_SetSeatLimit allOrNothing_statement allOrNothing_alreadyExists : wire.

(** C12.  Every method of the postgres driver is all or nothing: whatever happens
    to each of its statements on the wire (answered, refused, or executed with the
    answer lost), a call that reports success has the answer and the effect of the
    call over a sound connection; a call that fails leaves every table as it was,
    except that a failure of the connection may also hide the complete effect. *)
Theorem postgres_all_or_nothing (c : call) (s : Session DB) :
  match (invoke c s).1 with
  | Ok a => (invoke c (healthy s)).1 = Ok a /\ db (invoke c s).2 = db (invoke c (healthy s)).2
  | Err e => db (invoke c s).2 = db s \/ (e = connection_failure /\ db (invoke c s).2 = db (invoke c (healthy s)).2)
  end.
Proof.
  revert s. change (allOrNothing (invoke c)).
  destruct c; apply allOrNothing_as; simpl; auto with wire.
  all: try apply allOrNothing_statement.
  all: try apply allOrNothing_alreadyExists.
  all: try (apply allOrNothing_affected; intros ???; apply updateRow_none).
  all: unfold Postgres.SetEnrollmentAndTuples, Postgres.GetEnrollment, Postgres.GetSeatUsage, countSeats,
         selectSeatLimit, Postgres.ListTuplesForSubjectSetsInProject; repeat case_match.
  all: try (in_tx; fail).
  all: only_looks.
Qed.
End Driver.
