(* ===== verification/PgTable.v ===== *)
(** * A table of the postgres schema against a map of the in-memory store

    [tableR look T]: the table [T] holds, under its primary key, the stored form
    of what the store looks up at the corresponding position.  The relation is
    kept by the write of a row and by a deletion, and gives the rows that a
    [WHERE] clause selects. *)

From stdpp Require Import base gmap strings list sorting.
From Stdlib Require Import ZArith Lia.
From S2P Require Import Prelude Model Types ModelJson Sql.
#[local] Open Scope Z_scope.

(** A sorted or scanned list of rows has the rows of the list. *)
Lemma selectWhere_perm `{Database} {K R} `{Countable K} where_ (t : gmap K R) :
  selectWhere where_ t ≡ₚ filter (fun r => where_ r = true) (snd <$> map_to_list t).
Proof. unfold selectWhere. by rewrite scan_perm. Qed.

Lemma values_filter {K R} `{Countable K} (P : R -> bool) (t : gmap K R) :
  snd <$> map_to_list (filter (fun kr => P kr.2 = true) t) ≡ₚ filter (fun r => P r = true) (snd <$> map_to_list t).
Proof.
  transitivity (snd <$> filter (fun kr : K * R => P kr.2 = true) (map_to_list t)).
  - apply fmap_Permutation, NoDup_Permutation.
    + apply NoDup_map_to_list.
    + apply NoDup_filter, NoDup_map_to_list.
    + intros [k r]. rewrite elem_of_map_to_list, map_lookup_filter_Some, list_elem_of_filter, elem_of_map_to_list. naive_solver.
  - induction (map_to_list t) as [|[k r] l IH]; [done|]. rewrite fmap_cons, !filter_cons. simpl.
    destruct (decide (P r = true)); [|done]. by rewrite fmap_cons, IH.
Qed.

Lemma lookup_filter_bool {K R} `{Countable K} (P : R -> bool) b (t : gmap K R) k :
  filter (fun kr => P kr.2 = b) t !! k = match t !! k with Some r => if Bool.eqb (P r) b then Some r else None | None => None end.
Proof.
  rewrite map_lookup_filter. destruct (t !! k) as [r|]; simpl; [|done].
  case_guard as Hb; destruct (P r), b; simpl in *; congruence.
Qed.

Section TableR.
Context {K V W Pos : Type} `{Countable K} `{EqDecision Pos}.
Context (posK : K -> Pos) (okK : K -> Prop) (okV : K -> V -> Prop) (stored : K -> V -> W).

Record tableR (look : Pos -> option V) (T : gmap K W) : Prop := mkTableR {
  R_pos : forall pos v, look pos = Some v -> exists k, okK k /\ pos = posK k /\ okV k v;
  R_get : forall k, okK k -> T !! k = stored k <$> look (posK k);
  R_key : forall k w, T !! k = Some w -> okK k;
}.

Context (posK_inj : forall k k', okK k -> okK k' -> posK k = posK k' -> k = k').

Lemma R_val look T k v : tableR look T -> okK k -> look (posK k) = Some v -> okV k v.
Proof.
  intros HR Hk Hv. destruct (R_pos _ _ HR _ _ Hv) as (k' & Hk' & Heq & Hok). by rewrite (posK_inj k k' Hk Hk' Heq).
Qed.

Lemma tableR_ext look look' T : (forall pos, look' pos = look pos) -> tableR look T -> tableR look' T.
Proof. intros Hx [H1 H2 H3]. split; [|intros; rewrite Hx; by apply H2|done]. intros pos v. rewrite Hx. apply H1. Qed.

Lemma tableR_empty : tableR (fun _ => None) ∅.
Proof. split; [done|intros; by rewrite lookup_empty|intros k w; by rewrite lookup_empty]. Qed.

Lemma tableR_insert look look' T k v :
  okK k -> okV k v -> (forall pos, look' pos = if decide (pos = posK k) then Some v else look pos) ->
  tableR look T -> tableR look' (<[k := stored k v]> T).
Proof.
  intros Hk Hv Hlook [H1 H2 H3]. split.
  - intros pos v'. rewrite Hlook. destruct (decide (pos = posK k)) as [->|]; [|apply H1]. intros [= <-]. eauto.
  - intros k' Hk'. rewrite Hlook. destruct (decide (k = k')) as [<-|Hne].
    + by rewrite lookup_insert_eq, decide_True.
    + rewrite lookup_insert_ne, decide_False by (done || naive_solver). by apply H2.
  - intros k' w. destruct (decide (k = k')) as [<-|Hne]; [done|]. rewrite lookup_insert_ne by done. apply H3.
Qed.

(** The rows that [where_] selects are deleted. *)
Lemma tableR_delete look look' T (where_ : W -> bool) :
  (forall k v, okK k -> okV k v -> look (posK k) = Some v ->
     look' (posK k) = if where_ (stored k v) then None else Some v) ->
  (forall pos, look pos = None -> look' pos = None) ->
  tableR look T -> tableR look' (deleteWhere where_ T).2.
Proof.
  intros Hsome Hnone HR. pose proof HR as [H1 H2 H3]. unfold deleteWhere. simpl. split.
  - intros pos v Hv. destruct (look pos) as [v0|] eqn:Hv0; [|by rewrite Hnone in Hv].
    destruct (H1 _ _ Hv0) as (k & Hk & -> & Hok). exists k. rewrite (Hsome k v0) in Hv by done.
    case_match; naive_solver.
  - intros k Hk. rewrite lookup_filter_bool, H2 by done. destruct (look (posK k)) as [v|] eqn:Hv; simpl.
    + rewrite (Hsome k v) by eauto using R_val. by destruct (where_ (stored k v)).
    + by rewrite Hnone.
  - intros k w [Hw _]%map_lookup_filter_Some. by eapply H3.
Qed.

(** A deletion that selects the row under one key. *)
Lemma tableR_delete_key look T k (where_ : W -> bool) :
  okK k -> tableR look T ->
  (forall k' v, okK k' -> okV k' v -> where_ (stored k' v) = bool_decide (k' = k)) ->
  (deleteWhere where_ T).2 = delete k T /\
  (deleteWhere where_ T).1 = match look (posK k) with Some _ => 1 | None => 0 end.
Proof.
  intros Hk HR Hw. pose proof HR as [_ H2 H3].
  assert (Hrow : forall k' w, T !! k' = Some w -> where_ w = bool_decide (k' = k)).
  { intros k' w Hl. pose proof (H3 _ _ Hl) as Hk'. rewrite H2 in Hl by done.
    apply fmap_Some in Hl as (v & Hv & ->). apply Hw; eauto using R_val. }
  unfold deleteWhere. simpl. split.
  - apply map_eq. intros k'. rewrite lookup_filter_bool. destruct (decide (k' = k)) as [->|Hne].
    + rewrite lookup_delete_eq. destruct (T !! k) as [w|] eqn:Hl; [|done].
      by rewrite (Hrow _ _ Hl), bool_decide_true.
    + rewrite lookup_delete_ne by done. destruct (T !! k') as [w|] eqn:Hl; [|done].
      by rewrite (Hrow _ _ Hl), bool_decide_false.
  - replace (filter (fun kv : K * W => where_ kv.2 = true) T)
      with (match T !! k with Some w => {[k := w]} | None => ∅ end : gmap K W).
    + rewrite (H2 k Hk). destruct (look (posK k)); simpl; by rewrite ?map_size_singleton, ?map_size_empty.
    + apply map_eq. intros k'. rewrite lookup_filter_bool. destruct (decide (k' = k)) as [->|Hne].
      * destruct (T !! k) as [w|] eqn:Hl; [|done]. by rewrite (Hrow _ _ Hl), bool_decide_true, lookup_singleton_eq.
      * transitivity (@None W); [by destruct (T !! k); rewrite ?lookup_singleton_ne|].
        destruct (T !! k') as [w|] eqn:Hl; [|done]. by rewrite (Hrow _ _ Hl), bool_decide_false.
Qed.

(** The rows of a [WHERE] clause, from the entries of the store. *)
Lemma tableR_rows look T (where_ : W -> bool) (l : list (K * V)) :
  tableR look T -> NoDup l.*1 ->
  (forall k v, (k, v) ∈ l <-> okK k /\ look (posK k) = Some v /\ where_ (stored k v) = true) ->
  filter (fun r => where_ r = true) (snd <$> map_to_list T) ≡ₚ (fun kv => stored kv.1 kv.2) <$> l.
Proof.
  intros HR Hnd Hl. rewrite <-values_filter. pose proof HR as [_ H2 H3].
  transitivity (snd <$> ((fun kv : K * V => (kv.1, stored kv.1 kv.2)) <$> l)); [|by rewrite <-list_fmap_compose].
  apply fmap_Permutation, NoDup_Permutation.
  - apply NoDup_map_to_list.
  - apply (NoDup_fmap_1 fst). by rewrite <-list_fmap_compose.
  - intros [k w]. rewrite elem_of_map_to_list, map_lookup_filter_Some, list_elem_of_fmap. simpl. split.
    + intros [Hw Hq]. pose proof (H3 _ _ Hw) as Hk. rewrite H2 in Hw by done.
      apply fmap_Some in Hw as (v & Hv & ->). exists (k, v). split; [done|]. by apply Hl.
    + intros ([k' v] & [= -> ->] & (Hk & Hv & Hq)%Hl). rewrite H2 by done. simpl in *. by rewrite Hv.
Qed.

(** The rows of the entries [(pos, v)] of a list without repetition. *)
Lemma tableR_entries look T (where_ : W -> bool) (l : list (Pos * V)) :
  tableR look T -> NoDup l.*1 -> (forall pos v, (pos, v) ∈ l -> look pos = Some v) ->
  (forall k v, okK k -> okV k v -> look (posK k) = Some v -> where_ (stored k v) = true <-> (posK k, v) ∈ l) ->
  exists ks, Forall2 (fun k e => okK k /\ posK k = e.1 /\ okV k e.2) ks l /\
    filter (fun r => where_ r = true) (snd <$> map_to_list T) ≡ₚ zip_with (fun k e => stored k e.2) ks l.
Proof.
  intros HR Hnd Hlook Hw.
  assert (Hks : exists ks, Forall2 (fun k e => okK k /\ posK k = e.1 /\ okV k e.2) ks l).
  { clear Hnd Hw. induction l as [|[pos v] l IH]; [by exists []|].
    destruct IH as [ks Hks]; [intros; apply Hlook; by right|].
    destruct (R_pos _ _ HR pos v) as (k & ? & -> & ?); [apply Hlook; left|]. exists (k :: ks). by constructor. }
  destruct Hks as [ks Hks]. exists ks. split; [done|].
  assert (Hpos : posK <$> ks = l.*1).
  { clear -Hks. induction Hks as [|k e ks l (_ & He & _) _ IH]; [done|]. by rewrite !fmap_cons, IH, He. }
  rewrite (tableR_rows look T where_ (zip ks l.*2) HR).
  - clear -Hks. induction Hks as [|k e ks l _ _ IH]; [done|]. simpl. by rewrite IH.
  - rewrite fst_zip by (rewrite length_fmap, (Forall2_length _ _ _ Hks); lia).
    apply (NoDup_fmap_1 posK). by rewrite Hpos.
  - assert (Hin : forall k v, (k, v) ∈ zip ks l.*2 <-> okK k /\ (posK k, v) ∈ l).
    { intros k v. clear -Hks Hnd posK_inj Hpos. split.
      - clear Hpos Hnd. induction Hks as [|k0 [pos0 v0] ks l (Hk & He & _) Hks IH]; simpl; [by intros ?%not_elem_of_nil|].
        intros [[= -> ->]|Hin]%elem_of_cons; simpl in *; [subst; split; [done|left]|].
        destruct (IH Hin). split; [done|by right].
      - intros [Hk Hin]. clear Hpos Hnd. induction Hks as [|k0 [pos0 v0] ks l (Hk0 & He & _) Hks IH]; [by apply not_elem_of_nil in Hin|].
        simpl in *. apply elem_of_cons in Hin as [[= Hp ->]|Hin]; [|right; by apply IH].
        rewrite <-He in Hp. rewrite (posK_inj _ _ Hk Hk0 Hp). left. }
    intros k v. rewrite Hin. split.
    + intros [Hk Hel]. pose proof (Hlook _ _ Hel) as Hl. split_and!; [done..|].
      apply Hw; eauto using R_val.
    + intros (Hk & Hl & Hq). split; [done|]. apply Hw; eauto using R_val.
Qed.
End TableR.

(** An inner map of the store, its entries at the positions [emb j], under a
    [WHERE] clause that selects it and [keep]s some of its values. *)
Lemma tableR_inner {K V W Pos} `{Countable K} `{EqDecision Pos} (posK : K -> Pos) okK okV (stored : V -> W)
    (posK_inj : forall k k', okK k -> okK k' -> posK k = posK k' -> k = k')
    look (T : gmap K W) (mm : gmap string V) (emb : string -> Pos) (where_ : W -> bool) (keep : V -> bool) :
  tableR posK okK okV (fun _ => stored) look T -> Inj (=) (=) emb -> (forall j, look (emb j) = mm !! j) ->
  (forall k v, okK k -> okV k v -> look (posK k) = Some v ->
     where_ (stored v) = true <-> (exists j, posK k = emb j) /\ keep v = true) ->
  filter (fun r => where_ r = true) (snd <$> map_to_list T)
  ≡ₚ stored <$> filter (fun v => keep v = true) (snd <$> map_to_list mm).
Proof.
  intros HR Hemb Hlook Hw.
  set (l := (fun jv : string * V => (emb jv.1, jv.2)) <$> map_to_list (filter (fun jv => keep jv.2 = true) mm)).
  assert (Hl : forall pos v, (pos, v) ∈ l <-> exists j, pos = emb j /\ mm !! j = Some v /\ keep v = true).
  { intros pos v. unfold l. rewrite list_elem_of_fmap. split.
    - intros ([j v'] & [= -> ->] & Hin). rewrite elem_of_map_to_list, map_lookup_filter_Some in Hin. naive_solver.
    - intros (j & -> & Hj & Hk). exists (j, v). split; [done|]. by rewrite elem_of_map_to_list, map_lookup_filter_Some. }
  destruct (tableR_entries _ _ _ _ posK_inj look T where_ l HR) as (ks & Hks & Hperm).
  - replace l.*1 with (emb <$> (map_to_list (filter (fun jv => keep jv.2 = true) mm)).*1)
      by (unfold l; by rewrite <-!list_fmap_compose).
    apply NoDup_fmap_2; [done|]. apply NoDup_fst_map_to_list.
  - intros pos v (j & -> & Hj & _)%Hl. by rewrite Hlook.
  - intros k v Hk Hv Hlk. rewrite (Hw k v Hk Hv Hlk), Hl. split.
    + intros [[j Hj] Hkeep]. exists j. split_and!; [done| |done]. by rewrite <-Hlook, <-Hj.
    + intros (j & Hj & _ & Hkeep). eauto.
  - rewrite Hperm, <-values_filter.
    transitivity (stored <$> l.*2); [|unfold l; by rewrite <-!list_fmap_compose].
    clear -Hks. induction Hks as [|k e ks l _ _ IH]; [done|]. simpl. by rewrite IH.
Qed.
