(* ===== verification/PgRel.v ===== *)
(** * The postgres driver against the in-memory store: the simulation relation

    [simR n s d] relates a store [s] of the in-memory driver to a database [d]:
    each of the ten tables holds the stored form of the corresponding entries.
    [storable s c] says which calls the two drivers are compared on. *)

From stdpp Require Import base gmap strings list sorting.
From Stdlib Require Import ZArith Lia Ascii SpecFloat.
From S2P Require Import Prelude Conditions Model Types ModelJson ModelJsonTheorems Memory MemoryKeys MemoryTheorems.
From S2P Require Import Repository RepoCalls Sql PgTable.
From S2P Require Import Postgres.
#[local] Open Scope Z_scope.

(** ** JSON values that survive the trip through a jsonb column *)
Fixpoint flatAny `{Database} (v : any) : bool :=
  match v with
  | AnyNil | AnyBool _ => true
  | AnyFloat64 f =>
      match f with
      | S754_zero sign => negb sign
      | S754_finite _ _ _ => valid_binary 53 1024 f
      | _ => false
      end
  | AnyString s => validText s
  | AnySlice vs => forallb flatAny vs
  | _ => false
  end.

Definition flatParams `{Database} (m : anymap) : Prop :=
  map_Forall (fun k v => validText k = true /\ flatAny v = true) m.

(** What encoding/json and the column do to documents: a model document comes
    back as the same document, the envelope with the same members, parameters
    with the same values. *)
Class JsonbLaws `{Database} : Prop := {
  model_roundtrip : forall d text, json_Marshal d = Ok text -> json_Decode text = Ok d;
  config_stored : forall c, validText (cfg_DataRegion c) = true ->
    exists b c', config_Marshal c = Ok b /\ validJsonb b = true /\ config_Unmarshal b = Ok c' /\
      cfg_DataRegion c' = cfg_DataRegion c /\ cfg_MaxCheckReads c' = cfg_MaxCheckReads c /\
      match cfg_Model c, cfg_Model c' with
      | None, None => True
      | Some a, Some a' => json_Decode a' = json_Decode a
      | _, _ => False
      end;
  params_stored : forall m, flatParams m ->
    exists b, params_Marshal m = Ok b /\ validJsonb b = true /\ params_Unmarshal b = Ok m;
  empty_stored : validJsonb emptyObject = true;
}.

Section Rel.
Context `{MapRange} `{Database}.

Lemma validText_idOK s : validText s = true -> idOK s.
Proof. apply validText_NUL. Qed.

(** ** Storable values *)
Definition storableProject (p : Project) : Prop :=
  forallb validText [p_ID p; p_Name p; p_Status p; p_DataRegion p] = true /\
  match p_Model p with
  | None => True
  | Some m => canonicalModel m /\ is_ok (MarshalModel m) = true
  end.

(** What a project reads back as. *)
Definition readProject (p : Project) : Project :=
  mkProject (p_ID p) (p_Name p) (p_Status p)
    (match p_Model p with Some m => if bool_decide (m = ∅) then None else Some m | None => None end)
    (p_DataRegion p) (p_MaxCheckReads p) (timestamptz (p_CreatedAt p)) (timestamptz (p_UpdatedAt p)).

Definition storedProject (p : Project) : projectRow :=
  mkProjectRow (p_ID p) (p_Name p) (p_Status p)
    (match encodeProjectConfig p with Ok b => b | Err _ => emptyObject end)
    (timestamptz (p_CreatedAt p)) (timestamptz (p_UpdatedAt p)).

(** A subject of one kind, with a named condition or none, and an expiry at the
    resolution of the server. *)
Definition storableTuple (t : Tuple) : Prop :=
  (Wildcard (t_Subject t) = true -> Set_ (t_Subject t) = None) /\
  (Wildcard (t_Subject t) = true \/ Set_ (t_Subject t) <> None -> UserID (t_Subject t) = "") /\
  match Cond (t_Subject t) with
  | None => True
  | Some c => c_Name c <> "" /\ validText (c_Name c) = true /\ flatParams (c_Params c)
  end /\
  match t_ExpiresAt t with None => True | Some e => timestamptz e = e end.

Definition storedTuple (k : tupleKeyCols) (t : Tuple) : tupleRow :=
  mkTupleRow k (timestamptz <$> t_ExpiresAt t) (conditionCols t).1 (conditionCols t).2.

Definition storableMember (m : GroupMember) : Prop := gm_UserID m = "" \/ gm_GroupID m = "".

Definition storedEnrollment (e : Enrollment) : enrollmentRow :=
  mkEnrollmentRow (en_ProjectID e) (en_TenantID e) (en_GroupID e) (MemberKey (en_Member e)).1 (MemberKey (en_Member e)).2
    (en_State e) (timestamptz (en_CreatedAt e)) (timestamptz (en_UpdatedAt e)).

Definition readEnrollment (e : Enrollment) : Enrollment :=
  mkEnrollment (en_ProjectID e) (en_TenantID e) (en_GroupID e) (en_Member e) (en_State e)
    (timestamptz (en_CreatedAt e)) (timestamptz (en_UpdatedAt e)).

(** ** Keys and positions *)
Definition pos2 (k : key3) : string * string := let '(p, t, a) := k in (scope p t, a).
Definition pos3 (k : key3 * string) : string * string * string := (pos2 k.1, k.2).
Definition posSeq (k : string * string) : string := scope k.1 k.2.
Definition posEnrollment (k : key3 * (string * string)) : string * string * string :=
  (pos2 k.1, String.append k.2.1 (String.append ":" k.2.2)).

(** The tuple a key stands for, without what the other columns hold. *)
Definition bareTuple (k : tupleKeyCols) : Tuple :=
  mkTuple (tk_namespace k) (tk_object_id k) (tk_relation k)
    (if String.eqb (tk_subject_kind k) "set" then
       mkSubject "" (Some (mkSubjectSet (tk_subject_namespace k) (tk_subject_object_id k) (tk_subject_relation k))) false None
     else if String.eqb (tk_subject_kind k) "wildcard" then mkSubject "" None true None
     else mkSubject (tk_subject_user_id k) None false None) None.
Definition posTuple (k : tupleKeyCols) : string * string :=
  (scope (tk_project_id k) (tk_tenant_id k), tupleKey (bareTuple k)).

Definition okShard (k : key3) : Prop := idOK k.1.1.
Definition okTupleKey (k : tupleKeyCols) : Prop :=
  idOK (tk_project_id k) /\ exists t, k = tupleKeyOf (tk_project_id k) (tk_tenant_id k) t.
Definition okEnrollmentKey (k : key3 * (string * string)) : Prop :=
  okShard k.1 /\ (k.2.1 = "user" \/ k.2.1 = "group").

Lemma pos2_inj k k' : okShard k -> okShard k' -> pos2 k = pos2 k' -> k = k'.
Proof.
  destruct k as [[p t] a], k' as [[p' t'] a']. unfold okShard. simpl. intros Hp Hp' [= Hs ->].
  by destruct (scope_inj _ _ _ _ Hp Hp' Hs) as [-> ->].
Qed.
Lemma pos3_inj k k' : okShard k.1 -> okShard k'.1 -> pos3 k = pos3 k' -> k = k'.
Proof. destruct k, k'. unfold pos3. simpl. intros Hk Hk' [= Hp ->]. by rewrite (pos2_inj _ _ Hk Hk' Hp). Qed.
Lemma posSeq_inj k k' : idOK k.1 -> idOK k'.1 -> posSeq k = posSeq k' -> k = k'.
Proof.
  destruct k as [p t], k' as [p' t']. unfold posSeq. simpl. intros Hk Hk' Hp.
  by destruct (scope_inj _ _ _ _ Hk Hk' Hp) as [-> ->].
Qed.
Lemma posEnrollment_inj k k' : okEnrollmentKey k -> okEnrollmentKey k' -> posEnrollment k = posEnrollment k' -> k = k'.
Proof.
  destruct k as [k [kind id]], k' as [k' [kind' id']]. unfold okEnrollmentKey, posEnrollment. simpl.
  intros [Hk Hkind] [Hk' Hkind'] [= Hp Hm]. rewrite (pos2_inj _ _ Hk Hk' Hp).
  destruct Hkind as [-> | ->], Hkind' as [-> | ->]; try discriminate Hm; by do 2 apply string_app_inj_l in Hm; subst.
Qed.

Lemma bareTuple_ident p t tu : tupleIdent (bareTuple (tupleKeyOf p t tu)) = tupleIdent tu.
Proof.
  destruct tu as [ns o r [u [[]|] [] c] e]; unfold tupleKeyOf, tupleCols, bareTuple, tupleIdent, identOfSubject; done.
Qed.

Lemma posTuple_key p t tu : posTuple (tupleKeyOf p t tu) = (scope p t, tupleKey tu).
Proof.
  unfold posTuple. replace (tupleKey (bareTuple (tupleKeyOf p t tu))) with (tupleKey tu)
    by (apply tupleKey_ident; symmetry; apply bareTuple_ident).
  unfold tupleKeyOf. by destruct (tupleCols tu) as [[[[]]]].
Qed.

(** The key columns of a tuple say what identifies it. *)
Lemma tupleKeyOf_ident p t tu tu' : tupleKeyOf p t tu = tupleKeyOf p t tu' <-> tupleIdent tu = tupleIdent tu'.
Proof.
  split; [intros Heq; by rewrite <-(bareTuple_ident p t tu), Heq, bareTuple_ident|].
  destruct tu as [ns o r [u [[]|] [] c] e], tu' as [ns' o' r' [u' [[]|] [] c'] e'];
    unfold tupleKeyOf, tupleCols, tupleIdent, identOfSubject; simpl; by intros [=]; subst.
Qed.

Lemma posTuple_inj k k' : okTupleKey k -> okTupleKey k' -> posTuple k = posTuple k' -> k = k'.
Proof.
  intros [Hp [tu Hk]] [Hp' [tu' Hk']]. rewrite Hk, Hk', !posTuple_key. intros [= Hs Hkey].
  destruct (scope_inj _ _ _ _ Hp Hp' Hs) as [-> ->]. by apply tupleKeyOf_ident, tupleKey_ident.
Qed.

(** ** The relation *)
Definition look2 {B} (m : gmap string (gmap string B)) (pos : string * string) : option B := inner m pos.1 !! pos.2.
Definition look3 {B} (m : gmap string (gmap string (gmap string B))) (pos : string * string * string) : option B :=
  inner (inner m pos.1.1) pos.1.2 !! pos.2.

Definition workspaceKey (w : Workspace) : key3 := (w_ProjectID w, w_TenantID w, w_ID w).
Definition membershipKey (m : Membership) : key3 * string := (mb_ProjectID m, mb_TenantID m, mb_WorkspaceID m, mb_UserID m).
Definition invitationKey (i : Invitation) : key3 := (inv_ProjectID i, inv_TenantID i, inv_ID i).
Definition groupKey (g : Group) : key3 := (g_ProjectID g, g_TenantID g, g_ID g).
Definition enrollmentKey (e : Enrollment) : key3 * (string * string) :=
  (en_ProjectID e, en_TenantID e, en_GroupID e, MemberKey (en_Member e)).
Definition seatKey (a : SeatAssignment) : key3 * string := (sa_ProjectID a, sa_TenantID a, sa_SKU a, sa_UserID a).

(** The row type of a table, with the rows that are known to be under each key. *)
Definition projectsR : (string -> option Project) -> gmap string projectRow -> Prop :=
  tableR (fun k => k) (fun _ => True) (fun k p => k = p_ID p /\ storableProject p) (fun _ => storedProject).
Definition workspacesR : (string * string -> option Workspace) -> gmap key3 Workspace -> Prop :=
  tableR pos2 okShard (fun k w => k = workspaceKey w) (fun _ => storedWorkspace).
Definition membershipsR : (string * string * string -> option Membership) -> gmap (key3 * string) Membership -> Prop :=
  tableR pos3 (fun k => okShard k.1) (fun k m => k = membershipKey m) (fun _ => storedMembership).
Definition invitationsR : (string * string -> option Invitation) -> gmap key3 Invitation -> Prop :=
  tableR pos2 okShard (fun k i => k = invitationKey i) (fun _ => storedInvitation).
Definition groupsR : (string * string -> option Group) -> gmap key3 Group -> Prop :=
  tableR pos2 okShard (fun k g => k = groupKey g) (fun _ => storedGroup).
Definition enrollmentsR
    : (string * string * string -> option Enrollment) -> gmap (key3 * (string * string)) enrollmentRow -> Prop :=
  tableR posEnrollment okEnrollmentKey (fun k e => k = enrollmentKey e /\ storableMember (en_Member e))
    (fun _ => storedEnrollment).
Definition seatLimitsR : (string * string -> option Z) -> gmap key3 Z -> Prop :=
  tableR pos2 okShard (fun _ _ => True) (fun _ n => n).
Definition seatsR : (string * string * string -> option SeatAssignment) -> gmap (key3 * string) SeatAssignment -> Prop :=
  tableR pos3 (fun k => okShard k.1) (fun k a => k = seatKey a) (fun _ => storedSeat).
Definition seqsR (n : Z) : (string -> option Z) -> gmap (string * string) Z -> Prop :=
  tableR posSeq (fun k => idOK k.1) (fun _ v => 0 <= v <= n) (fun _ v => v).
Definition tuplesR : (string * string -> option Tuple) -> gmap tupleKeyCols tupleRow -> Prop :=
  tableR posTuple okTupleKey
    (fun k t => k = tupleKeyOf (tk_project_id k) (tk_tenant_id k) t /\ storableTuple t) storedTuple.

(** What [workspaces_personal_uniq] enforces. *)
Definition personalUnique (t : gmap key3 Workspace) : Prop := forall k k' w w',
  t !! k = Some w -> t !! k' = Some w' -> w_Type w = "personal" -> w_Type w' = "personal" ->
  w_ProjectID w = w_ProjectID w' -> w_TenantID w = w_TenantID w' -> w_OwnerUserID w = w_OwnerUserID w' -> k = k'.

(** [n] bounds the consistency sequences of the shards. *)
Record simR (n : Z) (s : Store) (d : DB) : Prop := mkSimR {
  sim_projects : projectsR (fun id => projects s !! id) (tbl_projects d);
  sim_workspaces : workspacesR (look2 (workspaces s)) (tbl_workspaces d);
  sim_memberships : membershipsR (look3 (memberships s)) (tbl_memberships d);
  sim_invitations : invitationsR (look2 (invitations s)) (tbl_invitations d);
  sim_groups : groupsR (look2 (groups s)) (tbl_groups d);
  sim_enrollments : enrollmentsR (look3 (enrollments s)) (tbl_enrollments d);
  sim_seatLimits : seatLimitsR (look2 (seatLimits s)) (tbl_seat_limits d);
  sim_seats : seatsR (look3 (seatAssigns s)) (tbl_seat_assignments d);
  sim_seqs : seqsR n (fun sk => seqs s !! sk) (tbl_consistency_seq d);
  sim_tuples : tuplesR (look2 (tuples s)) (tbl_relation_tuples d);
  sim_personal : personalUnique (tbl_workspaces d);
  sim_bound : 0 <= n;
}.

(** ** Answers: what comes back has the resolution of the server; the order of a
    list is the driver's own *)
Definition sameAnswer (a b : answer) : Prop :=
  match a, b with
  | AUnit, AUnit => True
  | ABool x, ABool y => y = x
  | AInt x, AInt y => y = x
  | AUsage x, AUsage y => y = x
  | AProject x, AProject y => y = readProject x
  | AWorkspace x, AWorkspace y => y = storedWorkspace x
  | AMembership x, AMembership y => y = storedMembership x
  | AInvitation x, AInvitation y => y = storedInvitation x
  | AGroup x, AGroup y => y = storedGroup x
  | AEnrollment x, AEnrollment y => y = readEnrollment x
  | ASubjects x, ASubjects y => y ≡ₚ x
  | AStrings x, AStrings y => y ≡ₚ x
  | ATuples x, ATuples y => y ≡ₚ x
  | ATupleAts x, ATupleAts y => y ≡ₚ x
  | AProjects x, AProjects y => y ≡ₚ readProject <$> x
  | AWorkspaces x, AWorkspaces y => y ≡ₚ storedWorkspace <$> x
  | AMemberships x, AMemberships y => y ≡ₚ storedMembership <$> x
  | AInvitations x, AInvitations y => y ≡ₚ storedInvitation <$> x
  | AGroups x, AGroups y => y ≡ₚ storedGroup <$> x
  | AEnrollments x, AEnrollments y => y ≡ₚ readEnrollment <$> x
  | ASeats x, ASeats y => y ≡ₚ storedSeat <$> x
  | _, _ => False
  end.

Definition sameResult (r r' : result answer) : Prop :=
  match r, r' with
  | Ok a, Ok b => sameAnswer a b
  | Err e, Err e' => e' = e
  | _, _ => False
  end.

(** ** The calls compared: text the server takes, values it can keep, and for the
    two updates and the look-up by token, the facts their callers rely on *)
Definition okTexts (l : list string) : Prop := forallb validText l = true.
Definition okWrite (p t : string) (ins del : list Tuple) : Prop :=
  okTexts [p; t] /\ Forall (fun x => okTexts (keyArgs (tupleKeyOf p t x)) /\ storableTuple x) ins /\
  Forall (fun x => okTexts (keyArgs (tupleKeyOf p t x))) del.
Definition okMembership (m : Membership) : Prop :=
  okTexts [mb_ProjectID m; mb_TenantID m; mb_WorkspaceID m; mb_UserID m; mb_Role m; mb_Status m].
Definition okMember (m : GroupMember) : Prop :=
  okTexts [(MemberKey m).1; (MemberKey m).2] /\ storableMember m.

(** No other personal workspace of the owner is in the shard. *)
Definition noOtherPersonal (s : Store) (w : Workspace) : Prop := forall id w',
  look2 (workspaces s) (scope (w_ProjectID w) (w_TenantID w), id) = Some w' ->
  w_Type w = "personal" -> w_Type w' = "personal" -> w_OwnerUserID w' = w_OwnerUserID w -> id = w_ID w.

Definition storable (s : Store) (c : call) : Prop :=
  match c with
  | CListSubjects _ p t ns obj rel => okTexts [p; t; ns; obj; rel]
  | CListObjectIDs _ p t ns => okTexts [p; t; ns]
  | CWriteTuples p t ins del => okWrite p t ins del
  | CReadTuples _ p t f => okTexts [p; t; f_Namespace f; f_ObjectID f; f_Relation f; f_SubjectUserID f]
  | CConsistencyToken p t => okTexts [p; t]
  | CDeleteAllSubjectTuplesInProject p u => okTexts [p; u]
  | CListSubjectTuplesInProject _ p u => okTexts [p; u]
  | CListTuplesForSubjectSetsInProject _ p sets =>
      okTexts (p :: concat ((fun st => [ss_Namespace st; ss_ObjectID st; ss_Relation st]) <$> sets))
  | CCreateProject pr => storableProject pr
  | CGetProject id => okTexts [id]
  | CUpdateProject pr => storableProject pr /\
      forall old, projects s !! p_ID pr = Some old -> timestamptz (p_CreatedAt old) = timestamptz (p_CreatedAt pr)
  | CListProjects => True
  | CCreateWorkspace w => okTexts (workspaceArgs w)
  | CGetWorkspace p t id => okTexts [p; t; id]
  | CUpdateWorkspace w => okTexts (workspaceArgs w) /\ noOtherPersonal s w
  | CDeleteWorkspace p t id => okTexts [p; t; id]
  | CPersonalWorkspace p t u => okTexts [p; t; u]
  | CWorkspacesForUser p t u => okTexts [p; t; u]
  | CPutMembership m => okMembership m
  | CGetMembership p t ws u => okTexts [p; t; ws; u]
  | CListMembers p t ws => okTexts [p; t; ws]
  | CDeleteMembership p t ws u => okTexts [p; t; ws; u]
  | CPutMembershipAndTuples m ins del => okMembership m /\ okWrite (mb_ProjectID m) (mb_TenantID m) ins del
  | CDeleteMembershipAndTuples p t ws u del => okTexts [p; t; ws; u] /\ okWrite p t [] del
  | CCreateInvitation i => okTexts (invitationArgs i)
  | CGetInvitation p t id => okTexts [p; t; id]
  | CGetInvitationByTokenHash p t h => okTexts [p; t; h] /\
      forall id id' i i', look2 (invitations s) (scope p t, id) = Some i -> look2 (invitations s) (scope p t, id') = Some i' ->
        inv_TokenHash i = h -> inv_TokenHash i' = h -> id = id'
  | CUpdateInvitation i => okTexts (invitationArgs i)
  | CListInvitations p t ws => okTexts [p; t; ws]
  | CCreateGroup g =>
      okTexts [g_ProjectID g; g_TenantID g; g_ID g; g_WorkspaceID g; g_Slug g; g_DisplayName g; g_CreatedBy g]
  | CGetGroup p t id => okTexts [p; t; id]
  | CListGroups p t ws => okTexts [p; t; ws]
  | CDeleteGroup p t id => okTexts [p; t; id]
  | CSetEnrollmentAndTuples e ins del =>
      okTexts [en_ProjectID e; en_TenantID e; en_GroupID e; en_State e] /\ okMember (en_Member e) /\
      okWrite (en_ProjectID e) (en_TenantID e) ins del
  | CGetEnrollment p t g m => okTexts [p; t; g] /\ okMember m
  | CListEnrollments p t g => okTexts [p; t; g]
  | CSetSeatLimit p t sku l => okTexts [p; t; sku] /\ match l with Some n => int4 n = true | None => True end
  | CGetSeatUsage p t sku => okTexts [p; t; sku]
  | CAssignSeatAndTuple a tu =>
      okTexts [sa_ProjectID a; sa_TenantID a; sa_SKU a; sa_UserID a; seatLockKey (sa_ProjectID a) (sa_TenantID a) (sa_SKU a)] /\
      okWrite (sa_ProjectID a) (sa_TenantID a) [tu] []
  | CRevokeSeatAndTuple p t sku u tu => okTexts [p; t; sku; u] /\ okWrite p t [] [tu]
  | CListSeats p t sku => okTexts [p; t; sku]
  end.
End Rel.
