(* ===== verification/PgSim.v ===== *)
(** * The postgres driver against the in-memory store: the methods

    For each method, the driver over a sound connection answers what the
    in-memory store answers, and the two stay related. *)

From stdpp Require Import base gmap strings list sorting.
From Stdlib Require Import ZArith Lia Ascii SpecFloat.
From S2P Require Import Prelude Conditions Model Types ModelJson ModelJsonTheorems Memory MemoryKeys MemoryTheorems.
From S2P Require Import WorkspaceInv WorkspaceSteps SeatTheorems.
From S2P Require Import Repository RepoCalls Sql PgTable PgRel.
From S2P Require Import Postgres PostgresConformance.
#[local] Open Scope Z_scope.

(** ** Statements over a sound connection *)
Section Sound.
Context `{Database} {D : Type}.
#[local] Abbreviation at_ d := (mkSession (D := D) d []).

Lemma run_sound {A} args (q : sql (D := D) A) d :
  forallb validText args = true ->
  run args q (at_ d) = match q d with Ok (a, d') => (Ok a, at_ d') | Err e => (Err e, at_ d) end.
Proof. intros Ha. unfold run, nextOutcome, afterNext. simpl. rewrite Ha. by destruct (q d) as [[]|]. Qed.

Lemma query_sound {A} args (f : D -> A) d :
  forallb validText args = true -> run args (query f) (at_ d) = (Ok (f d), at_ d).
Proof. intros Ha. by rewrite run_sound. Qed.

Lemma bind_sound {A B} (c : St (Session D) A) (k : A -> St (Session D) B) d a d' :
  c (at_ d) = (Ok a, at_ d') -> bind c k (at_ d) = k a (at_ d').
Proof. unfold bind. by intros ->. Qed.

Lemma tx_sound {A} (body : St (Session D) A) d a d' :
  body (at_ d) = (Ok a, at_ d') -> tx body (at_ d) = (Ok a, at_ d').
Proof. intros Hb. unfold tx, run, query, nextOutcome, afterNext. simpl. rewrite Hb. done. Qed.

Lemma tx_rollback {A} (body : St (Session D) A) d e d' :
  body (at_ d) = (Err e, at_ d') -> tx body (at_ d) = (Err e, at_ d).
Proof. intros Hb. unfold tx, run, query, nextOutcome, afterNext. simpl. by rewrite Hb. Qed.
End Sound.

(** ** Rows back to values *)
Section Values.
Context `{MapRange} `{Database} `{!JsonbLaws}.

Lemma encodeProjectConfig_ok p : storableProject p ->
  exists b, encodeProjectConfig p = Ok b /\ validJsonb b = true /\ decodeProject (storedProject p) = Ok (readProject p).
Proof.
  intros [Ht Hm]. simpl in Ht. rewrite !andb_true_iff in Ht. destruct Ht as (_ & _ & _ & Hreg & _).
  unfold storedProject, readProject, encodeProjectConfig, decodeProject, decodeProjectConfig.
  assert (Hnone : exists b, config_Marshal (mkProjectConfig None (p_DataRegion p) (p_MaxCheckReads p)) = Ok b /\
    validJsonb b = true /\ exists c', config_Unmarshal b = Ok c' /\ cfg_DataRegion c' = p_DataRegion p /\
    cfg_MaxCheckReads c' = p_MaxCheckReads p /\ cfg_Model c' = None).
  { destruct (config_stored (mkProjectConfig None (p_DataRegion p) (p_MaxCheckReads p)) Hreg)
      as (b & c' & Hb & Hv & Hu & Hr & Hn & Hc). simpl in *. exists b. split_and!; [done..|].
    exists c'. destruct (cfg_Model c'); naive_solver. }
  destruct (p_Model p) as [m|]; [case_bool_decide as He|].
  - destruct Hnone as (b & Hb & Hv & c' & Hu & Hr & Hn & Hc). exists b. rewrite Hb. simpl. by rewrite Hu; simpl; rewrite Hc, Hr, Hn.
  - destruct Hm as [Hcan Hok]. destruct (MarshalModel m) as [raw|] eqn:Hraw; [|done]. simpl.
    destruct (config_stored (mkProjectConfig (Some raw) (p_DataRegion p) (p_MaxCheckReads p)) Hreg)
      as (b & c' & Hb & Hv & Hu & Hr & Hn & Hc). simpl in *. exists b. rewrite Hb. split_and!; [done..|].
    simpl. rewrite Hu. simpl. destruct (cfg_Model c') as [raw'|]; [|done].
    assert (Hparse : ParseModel raw' = Ok m).
    { unfold ParseModel. rewrite Hc, (model_roundtrip _ _ Hraw). by apply ToModel_iff. }
    rewrite Hparse. simpl. by rewrite Hr, Hn.
  - destruct Hnone as (b & Hb & Hv & c' & Hu & Hr & Hn & Hc). exists b. rewrite Hb. simpl. by rewrite Hu; simpl; rewrite Hc, Hr, Hn.
Qed.

Lemma conditionCols_ok t : storableTuple t ->
  validJsonb (conditionCols t).2 = true /\ validText (conditionCols t).1 = true /\
  match Cond (t_Subject t) with
  | None => (conditionCols t).1 = ""
  | Some c => (conditionCols t).1 = c_Name c /\ c_Name c <> "" /\ params_Unmarshal (conditionCols t).2 = Ok (c_Params c)
  end.
Proof.
  intros (_ & _ & Hc & _). unfold conditionCols. destruct (Cond (t_Subject t)) as [c|].
  - destruct Hc as (Hne & Hv & Hp). rewrite (proj2 (String.eqb_neq _ _) Hne).
    destruct (params_stored _ Hp) as (b & -> & ? & ?). done.
  - simpl. split_and!; [apply empty_stored|by apply validText_plain|done].
Qed.

Lemma scanTuple_stored p tn t : storableTuple t -> scanTuple (storedTuple (tupleKeyOf p tn t) t) = Ok t.
Proof.
  intros Ht. destruct (conditionCols_ok t Ht) as (_ & _ & Hc). destruct Ht as (Hw & Hu & _ & He).
  unfold scanTuple, storedTuple. simpl.
  assert (Hexp : timestamptz <$> t_ExpiresAt t = t_ExpiresAt t) by (destruct (t_ExpiresAt t); simpl; congruence).
  rewrite Hexp. destruct t as [ns o r [u set wc cond] e]. simpl in *.
  unfold tupleKeyOf, tupleCols. simpl.
  destruct cond as [c|].
  - destruct Hc as (-> & Hne & ->). rewrite (proj2 (String.eqb_neq _ _) Hne). simpl. destruct c as [cn cp]. simpl.
    destruct wc; [rewrite Hw, Hu by auto; done|]. destruct set as [[]|]; [rewrite Hu by auto; done|done].
  - rewrite Hc. simpl. destruct wc; [rewrite Hw, Hu by auto; done|]. destruct set as [[]|]; [rewrite Hu by auto; done|done].
Qed.

Lemma unexpired_stored now k t : storableTuple t -> unexpired now (storedTuple k t) = ActiveAt t now.
Proof.
  intros (_ & _ & _ & He). unfold unexpired, ActiveAt, storedTuple. simpl.
  destruct (t_ExpiresAt t); simpl; [by rewrite He|done].
Qed.

Lemma decodeEnrollment_stored e : storableMember (en_Member e) -> decodeEnrollment (storedEnrollment e) = readEnrollment e.
Proof.
  intros Hm. unfold decodeEnrollment, readEnrollment, storedEnrollment. simpl. by rewrite MemberKey_roundtrip.
Qed.

(** A list of rows that each decode. *)
Lemma rmap_fmap {A B C} (f : B -> result C) (g : A -> B) (h : A -> C) l :
  (forall x, x ∈ l -> f (g x) = Ok (h x)) -> rmap f (g <$> l) = Ok (h <$> l).
Proof.
  intros Hf. apply rmap_ok. induction l as [|x l IH]; [constructor|]. rewrite !fmap_cons. constructor; [apply Hf; by left|].
  apply IH. intros y Hy. apply Hf. by right.
Qed.

Lemma rmap_perm {B C} (f : B -> result C) l l' ys :
  l ≡ₚ l' -> rmap f l' = Ok ys -> exists ys', rmap f l = Ok ys' /\ ys' ≡ₚ ys.
Proof.
  intros Hp Hok. apply rmap_ok in Hok. symmetry in Hp.
  destruct (Permutation_Forall2 Hp Hok) as (ys' & Hy & Hl). exists ys'. split; [by apply rmap_ok|done].
Qed.
End Values.

Lemma concat_fmap_perm {A B} (f : A -> list B) l l' : l ≡ₚ l' -> concat (f <$> l) ≡ₚ concat (f <$> l').
Proof.
  induction 1 as [|x l l' _ IH|x y l|l1 l2 l3 _ IH1 _ IH2]; simpl; [done|by rewrite IH| |by etrans].
  rewrite !app_assoc. by rewrite (Permutation_app_comm (f y)).
Qed.

(** ** The simulation *)
Section Simulation.
Context `{MapRange} `{Database} `{!JsonbLaws}.
#[local] Abbreviation at_ d := (mkSession (D := DB) d []).

(** One call on both drivers. *)
Definition simulates (n : Z) (s : Store) (d : DB) (c : call) : Prop :=
  exists d', (invoke c (at_ d)).2 = at_ d' /\ sameResult (invoke c s).1 (invoke c (at_ d)).1 /\
             simR (n + 1) (invoke c s).2 d'.

Lemma sim_mono n n' s d : n <= n' -> simR n s d -> simR n' s d.
Proof.
  intros Hn [? ? ? ? ? ? ? ? [Hpos Hget Hkey] ? ? Hb]. split; try done; [|lia]. split; [|done..].
  intros pos v Hv. destruct (Hpos _ _ Hv) as (k & ? & ? & ?). exists k. split_and!; [done..|lia|lia].
Qed.

Lemma simulates_as {A B} n s d c (cm : St Store A) (cp : St (Session DB) B) f g rm s' rp d' :
  invoke c s = as_ cm f s -> invoke c (at_ d) = as_ cp g (at_ d) ->
  cm s = (rm, s') -> cp (at_ d) = (rp, at_ d') ->
  match rm, rp with
  | Ok a, Ok b => sameAnswer (f a) (g b)
  | Err e, Err e' => e' = e
  | _, _ => False
  end -> simR (n + 1) s' d' -> simulates n s d c.
Proof.
  intros Hm Hp Hcm Hcp Hr HR. exists d'. rewrite Hm, Hp. unfold as_, bind, ret. rewrite Hcm, Hcp.
  destruct rm, rp; done.
Qed.

(** A method that reads on both sides. *)
Lemma simulates_read {A B} n s d c (cm : St Store A) (cp : St (Session DB) B) f g rm rp :
  invoke c s = as_ cm f s -> invoke c (at_ d) = as_ cp g (at_ d) -> simR n s d ->
  cm s = (rm, s) -> cp (at_ d) = (rp, at_ d) ->
  match rm, rp with
  | Ok a, Ok b => sameAnswer (f a) (g b)
  | Err e, Err e' => e' = e
  | _, _ => False
  end -> simulates n s d c.
Proof. intros Hm Hp HR Hcm Hcp Hr. eapply simulates_as; eauto. eapply sim_mono, HR. lia. Qed.

Lemma okTexts_idOK p l : okTexts (p :: l) -> idOK p.
Proof. unfold okTexts. simpl. intros [Hp _]%andb_true_iff. by apply validText_idOK. Qed.

Lemma okTexts_cons x l : okTexts (x :: l) <-> validText x = true /\ okTexts l.
Proof. unfold okTexts. simpl. apply andb_true_iff. Qed.

(** *** Getting one row *)
Lemma simulates_get {V W X} n s d c args (row : option V) (look : DB -> option W) (decode : W -> result X)
    (stored : V -> W) (f : V -> answer) (g : X -> answer) (read : V -> X) :
  simR n s d -> okTexts args -> look d = stored <$> row ->
  invoke c s = (match row with Some v => Ok (f v) | None => Err ErrNotFound end, s) ->
  invoke c (at_ d) = as_ (let! r := run args (query look) in lift (scanRow decode r)) g (at_ d) ->
  (forall v, row = Some v -> decode (stored v) = Ok (read v)) -> (forall v, sameAnswer (f v) (g (read v))) ->
  simulates n s d c.
Proof.
  intros HR Ht Hrow Hm Hp Hdec Hsame.
  eapply (simulates_read _ _ _ _ (fun s => (match row with Some v => Ok v | None => Err ErrNotFound end, s)) _ f g _
            (scanRow decode (stored <$> row))); [|done..| |].
  - rewrite Hm. unfold as_, bind. by destruct row.
  - unfold bind. rewrite query_sound by done. by rewrite Hrow.
  - destruct row as [v|]; simpl; [|done]. by rewrite Hdec.
Qed.

#[local] Ltac get_in table row Ht :=
  eapply (simulates_get _ _ _ _ _ row);
    [eassumption|exact Ht| |simpl; unfold as_, bind, Memory.GetProject, Memory.GetWorkspace, Memory.GetMembership,
       membershipRow, Memory.GetInvitation, Memory.GetGroup, look2, look3; simpl;
       let r := eval cbv beta delta [look2 look3 fst snd] iota in row in destruct r; reflexivity|reflexivity| |done];
  [eapply (R_get _ _ _ _ _ _ table); first [exact (okTexts_idOK _ _ Ht)|exact I] |].

Section Read.
Context (n : Z) (s : Store) (d : DB) (HR : simR n s d).

Lemma sim_GetProject id : okTexts [id] -> simulates n s d (CGetProject id).
Proof.
  intros Ht. get_in (sim_projects _ _ _ HR) (projects s !! id) Ht. intros p Hp.
  destruct (R_pos _ _ _ _ _ _ (sim_projects _ _ _ HR) _ _ Hp) as (k & _ & _ & _ & Hok).
  by destruct (encodeProjectConfig_ok p Hok) as (b & _ & _ & ?).
Qed.
Lemma sim_GetWorkspace p t id : okTexts [p; t; id] -> simulates n s d (CGetWorkspace p t id).
Proof. intros Ht. get_in (sim_workspaces _ _ _ HR) (look2 (workspaces s) (scope p t, id)) Ht. done. Qed.
Lemma sim_GetMembership p t ws u : okTexts [p; t; ws; u] -> simulates n s d (CGetMembership p t ws u).
Proof. intros Ht. get_in (sim_memberships _ _ _ HR) (look3 (memberships s) (scope p t, ws, u)) Ht. done. Qed.
Lemma sim_GetInvitation p t id : okTexts [p; t; id] -> simulates n s d (CGetInvitation p t id).
Proof. intros Ht. get_in (sim_invitations _ _ _ HR) (look2 (invitations s) (scope p t, id)) Ht. done. Qed.
Lemma sim_GetGroup p t id : okTexts [p; t; id] -> simulates n s d (CGetGroup p t id).
Proof. intros Ht. get_in (sim_groups _ _ _ HR) (look2 (groups s) (scope p t, id)) Ht. done. Qed.

(** *** Lists of rows *)
Lemma simulates_rows {V W} c args (f : DB -> list W) (vals : list V) (F : list V -> answer) (G : list W -> answer) :
  okTexts args -> invoke c s = (Ok (F vals), s) -> invoke c (at_ d) = as_ (run args (query f)) G (at_ d) ->
  sameAnswer (F vals) (G (f d)) -> simulates n s d c.
Proof.
  intros Ht Hm Hp Hsame. exists d. rewrite Hm, Hp. unfold as_, bind. rewrite query_sound by done.
  split_and!; [done..|]. simpl. eapply sim_mono, HR. lia.
Qed.

(** The same with rows that are decoded one by one. *)
Lemma simulates_decoded {V W X} c args (f : DB -> list W) (decode : W -> result X) (vals : list V) (xs ys : list X)
    (F : list V -> answer) (G : list X -> answer) :
  okTexts args -> invoke c s = (Ok (F vals), s) ->
  invoke c (at_ d) = as_ (let! rows := run args (query f) in lift (rmap decode rows)) G (at_ d) ->
  rmap decode (f d) = Ok xs -> xs ≡ₚ ys -> (forall xs, xs ≡ₚ ys -> sameAnswer (F vals) (G xs)) -> simulates n s d c.
Proof.
  intros Ht Hm Hp Hx Hxy Hsame. exists d. rewrite Hm, Hp. unfold as_, bind. rewrite query_sound by done.
  unfold lift. rewrite Hx. split_and!; [done|by apply Hsame|]. simpl. eapply sim_mono, HR. lia.
Qed.

Lemma rangeValues_perm {V} (mm : gmap string V) : rangeValues mm ≡ₚ snd <$> map_to_list mm.
Proof. unfold rangeValues. apply fmap_Permutation, range_map_perm. Qed.

Lemma inShard_spec p t p' t' : inShard p t p' t' = true <-> p' = p /\ t' = t.
Proof. unfold inShard. by rewrite andb_true_iff, !String.eqb_eq. Qed.

Lemma filter_all {A} (l : list A) : filter (fun _ => true = true) l = l.
Proof. induction l as [|x l IH]; [done|]. rewrite filter_cons, decide_True by done. by rewrite IH. Qed.

(** The rows of an inner map, kept by [keep]. *)
#[local] Ltac rows_of table inj mm emb keep :=
  rewrite orderBy_perm, selectWhere_perm, (tableR_inner _ _ _ _ inj _ _ mm emb _ keep table);
  [rewrite ?filter_all, <-rangeValues_perm, ?sortBy_perm; try reflexivity|try (intros ? ? [=]; done)|done|].

Lemma sim_ListMembers p t ws : okTexts [p; t; ws] -> simulates n s d (CListMembers p t ws).
Proof.
  intros Ht. eapply simulates_rows; [exact Ht|reflexivity|reflexivity|]. simpl.
  rows_of (sim_memberships _ _ _ HR) pos3_inj (inner (inner (memberships s) (scope p t)) ws)
    (fun u : string => (scope p t, ws, u)) (fun _ : Membership => true).
  intros k m Hk -> _. unfold membershipKey, pos3, okShard in *. simpl in *.
  rewrite andb_true_iff, inShard_spec, String.eqb_eq. simpl. split.
  - intros [[-> ->] ->]. split; [by eexists|done].
  - intros [[u [= Hs -> _]] _]. by destruct (scope_inj _ _ _ _ Hk (okTexts_idOK _ _ Ht) Hs) as [-> ->].
Qed.

Lemma sim_ListInvitations p t ws : okTexts [p; t; ws] -> simulates n s d (CListInvitations p t ws).
Proof.
  intros Ht. eapply simulates_rows; [exact Ht|reflexivity|reflexivity|]. simpl.
  rows_of (sim_invitations _ _ _ HR) pos2_inj (inner (invitations s) (scope p t))
    (fun id : string => (scope p t, id)) (fun i => String.eqb (inv_WorkspaceID i) ws).
  - apply fmap_Permutation. erewrite list_filter_iff; [reflexivity|]. intros i. apply String.eqb_eq.
  - intros k i Hk -> _. unfold okShard in *. simpl in *. rewrite andb_true_iff, inShard_spec. simpl. split.
    + intros [[-> ->] ?]. split; [by eexists|done].
    + intros [[u [= Hs _]] ?]. by destruct (scope_inj _ _ _ _ Hk (okTexts_idOK _ _ Ht) Hs) as [-> ->].
Qed.

Lemma anyOr_spec want have : anyOr want have = true <-> want = "" \/ have = want.
Proof. unfold anyOr. by rewrite orb_true_iff, !String.eqb_eq. Qed.

Lemma sim_ListGroups p t ws : okTexts [p; t; ws] -> simulates n s d (CListGroups p t ws).
Proof.
  intros Ht. eapply simulates_rows; [exact Ht|reflexivity|reflexivity|]. simpl.
  rows_of (sim_groups _ _ _ HR) pos2_inj (inner (groups s) (scope p t))
    (fun id : string => (scope p t, id)) (fun g => anyOr ws (g_WorkspaceID g)).
  - apply fmap_Permutation. erewrite list_filter_iff; [reflexivity|]. intros g. apply anyOr_spec.
  - intros k g Hk -> _. unfold okShard in *. simpl in *. rewrite andb_true_iff, inShard_spec. simpl. split.
    + intros [[-> ->] ?]. split; [by eexists|done].
    + intros [[u [= Hs _]] ?]. by destruct (scope_inj _ _ _ _ Hk (okTexts_idOK _ _ Ht) Hs) as [-> ->].
Qed.

(** Which assignments a clause on the sku selects. *)
Lemma seatRow_spec p t sku k a :
  idOK p -> okShard k.1 -> k = seatKey a ->
  seatRow p t sku (storedSeat a) = true <-> exists u, pos3 k = (scope p t, sku, u).
Proof.
  intros Hp Hk ->. unfold seatRow, seatKey, pos3, okShard in *. simpl in *.
  rewrite andb_true_iff, inShard_spec, String.eqb_eq. split.
  - intros [[-> ->] ->]. by eexists.
  - intros [u [= Hs -> _]]. by destruct (scope_inj _ _ _ _ Hk Hp Hs) as [-> ->].
Qed.

Lemma seatRows p t sku : idOK p ->
  filter (fun a => seatRow p t sku a = true) (snd <$> map_to_list (tbl_seat_assignments d))
  ≡ₚ storedSeat <$> rangeValues (inner (inner (seatAssigns s) (scope p t)) sku).
Proof.
  intros Hp. rewrite (tableR_inner _ _ _ _ pos3_inj _ _ (inner (inner (seatAssigns s) (scope p t)) sku)
    (fun u : string => (scope p t, sku, u)) _ (fun _ : SeatAssignment => true) (sim_seats _ _ _ HR)).
  - by rewrite filter_all, <-rangeValues_perm.
  - by intros ? ? [=].
  - done.
  - intros k a Hk Ha _. rewrite (seatRow_spec p t sku k a Hp Hk Ha). naive_solver.
Qed.

Lemma sim_ListSeats p t sku : okTexts [p; t; sku] -> simulates n s d (CListSeats p t sku).
Proof.
  intros Ht. eapply simulates_rows; [exact Ht|reflexivity|reflexivity|]. simpl.
  by rewrite orderBy_perm, selectWhere_perm, (seatRows p t sku (okTexts_idOK _ _ Ht)), sortBy_perm.
Qed.

Lemma countSeats_sound p t sku : okTexts [p; t; sku] ->
  countSeats p t sku (at_ d) = (Ok (Z.of_nat (size (inner (inner (seatAssigns s) (scope p t)) sku))), at_ d).
Proof.
  intros Ht. unfold countSeats. rewrite query_sound by done.
  rewrite (Permutation_length (selectWhere_perm _ _)), (Permutation_length (seatRows p t sku (okTexts_idOK _ _ Ht))).
  by rewrite length_fmap, (Permutation_length (rangeValues_perm _)), length_fmap, length_map_to_list.
Qed.

Lemma selectSeatLimit_sound p t sku : okTexts [p; t; sku] ->
  selectSeatLimit p t sku (at_ d) = (Ok (inner (seatLimits s) (scope p t) !! sku), at_ d).
Proof.
  intros Ht. unfold selectSeatLimit. rewrite query_sound by done.
  rewrite (R_get _ _ _ _ _ _ (sim_seatLimits _ _ _ HR) (p, t, sku) (okTexts_idOK _ _ Ht)).
  unfold look2. simpl. by destruct (inner (seatLimits s) (scope p t) !! sku).
Qed.

Lemma sim_GetSeatUsage p t sku : okTexts [p; t; sku] -> simulates n s d (CGetSeatUsage p t sku).
Proof.
  intros Ht. eapply simulates_read; [reflexivity|reflexivity|exact HR|reflexivity| |].
  - simpl. unfold Postgres.GetSeatUsage. rewrite (bind_sound _ _ _ _ _ (countSeats_sound p t sku Ht)).
    rewrite (bind_sound _ _ _ _ _ (selectSeatLimit_sound p t sku Ht)).
    instantiate (1 := Ok (mkSeatUsage sku (Z.of_nat (size (inner (inner (seatAssigns s) (scope p t)) sku)))
      (default 0 (inner (seatLimits s) (scope p t) !! sku)) (isSome (inner (seatLimits s) (scope p t) !! sku)))).
    by destruct (inner (seatLimits s) (scope p t) !! sku).
  - done.
Qed.

Lemma sim_ConsistencyToken p t : okTexts [p; t] -> simulates n s d (CConsistencyToken p t).
Proof.
  intros Ht. eapply simulates_read; [reflexivity|reflexivity|exact HR|reflexivity| |].
  - simpl. unfold Postgres.ConsistencyToken. rewrite query_sound by done. reflexivity.
  - simpl. rewrite (R_get _ _ _ _ _ _ (sim_seqs _ _ _ HR) (p, t) (okTexts_idOK _ _ Ht)). unfold posSeq. simpl.
    by destruct (seqs s !! scope p t).
Qed.

Lemma sim_ListProjects : simulates n s d CListProjects.
Proof.
  set (vals := sortBy p_CreatedAt p_ID (rangeValues (projects s))).
  assert (Hrows : orderBy (Some pr_created_at) [pr_id] (selectWhere (fun _ => true) (tbl_projects d))
                  ≡ₚ storedProject <$> vals).
  { unfold vals. rows_of (sim_projects _ _ _ HR) (fun (k k' : string) (_ _ : True) (Hk : k = k') => Hk) (projects s)
      (fun id : string => id) (fun _ : Project => true). naive_solver. }
  destruct (rmap_perm decodeProject _ _ (readProject <$> vals) Hrows) as (xs & Hxs & Hperm).
  { apply rmap_fmap. intros p Hp. unfold vals in Hp. rewrite sortBy_perm, rangeValues_perm, list_elem_of_fmap in Hp.
    destruct Hp as ([k p'] & -> & Hp%elem_of_map_to_list).
    destruct (R_pos _ _ _ _ _ _ (sim_projects _ _ _ HR) _ _ Hp) as (k' & _ & _ & _ & Hok).
    by destruct (encodeProjectConfig_ok _ Hok) as (b & _ & _ & ?). }
  eapply (simulates_decoded CListProjects [] _ _ vals xs); [done|reflexivity|reflexivity|exact Hxs|exact Hperm|done].
Qed.

Lemma sim_ListEnrollments p t g : okTexts [p; t; g] -> simulates n s d (CListEnrollments p t g).
Proof.
  intros Ht. set (vals := rangeValues (inner (inner (enrollments s) (scope p t)) g)).
  eapply simulates_read; [reflexivity|reflexivity|exact HR|reflexivity| |].
  { simpl. unfold Postgres.ListEnrollments, bind. rewrite query_sound by done. reflexivity. }
  simpl. rewrite sortBy_perm. fold vals. transitivity (decodeEnrollment <$> (storedEnrollment <$> vals)).
  - apply fmap_Permutation. unfold vals.
    rows_of (sim_enrollments _ _ _ HR) posEnrollment_inj (inner (inner (enrollments s) (scope p t)) g)
      (fun j : string => (scope p t, g, j)) (fun _ : Enrollment => true).
    intros k e [Hk _] [-> _] _. unfold posEnrollment, okShard in *. simpl in *.
    rewrite andb_true_iff, inShard_spec, String.eqb_eq. split.
    + intros [[-> ->] ->]. split; [by eexists|done].
    + intros [[u [= Hs -> _]] _]. by destruct (scope_inj _ _ _ _ Hk (okTexts_idOK _ _ Ht) Hs) as [-> ->].
  - rewrite <-list_fmap_compose. erewrite list_fmap_ext; [reflexivity|]. intros i e He. simpl.
    apply decodeEnrollment_stored. apply list_elem_of_lookup_2 in He. unfold vals in He.
    rewrite rangeValues_perm, list_elem_of_fmap in He. destruct He as ([j e'] & -> & He%elem_of_map_to_list).
    by destruct (R_pos _ _ _ _ _ _ (sim_enrollments _ _ _ HR) (scope p t, g, j) _ He) as (k & _ & _ & _ & ?).
Qed.

Lemma MemberKey_kind m : (MemberKey m).1 = "user" \/ (MemberKey m).1 = "group".
Proof. unfold MemberKey. case_match; auto. Qed.

Lemma sim_GetEnrollment p t g m : okTexts [p; t; g] -> okMember m -> simulates n s d (CGetEnrollment p t g m).
Proof.
  intros Ht [Hm _]. destruct (MemberKey m) as [kind id] eqn:Hkey. simpl in Hm.
  pose proof (MemberKey_kind m) as Hkind. rewrite Hkey in Hkind. simpl in Hkind.
  assert (Ht' : okTexts [p; t; g; kind; id]) by (rewrite !okTexts_cons in *; naive_solver).
  eapply (simulates_get _ _ _ _ _ (look3 (enrollments s) (posEnrollment (p, t, g, (kind, id))))
            (fun d => tbl_enrollments d !! (p, t, g, (kind, id))) (fun r => Ok (decodeEnrollment r)) _ _ _ readEnrollment); [exact HR|exact Ht'|..].
  - apply (R_get _ _ _ _ _ _ (sim_enrollments _ _ _ HR)). split; [exact (okTexts_idOK _ _ Ht)|exact Hkind].
  - simpl. unfold as_, bind, Memory.GetEnrollment, Memory.enrollmentRow, memberKeyString, look3, posEnrollment. rewrite Hkey. simpl.
    destruct (_ !! _); reflexivity.
  - simpl. unfold Postgres.GetEnrollment. rewrite Hkey. reflexivity.
  - intros e He. destruct (R_pos _ _ _ _ _ _ (sim_enrollments _ _ _ HR) _ _ He) as (k & _ & _ & _ & Hok).
    f_equal. by apply decodeEnrollment_stored.
  - done.
Qed.

(** *** The one row that a clause can select *)
Lemma find_head {A} (P : A -> bool) l : List.find P l = head (filter (fun x => P x = true) l).
Proof.
  induction l as [|x l IH]; simpl; [done|]. rewrite filter_cons. destruct (P x); simpl; [done|]. by rewrite IH.
Qed.

Lemma unique_row {V W} (mm : gmap string V) (stored : V -> W) (keep : V -> bool) (rows : list W) :
  (forall j j' v v', mm !! j = Some v -> mm !! j' = Some v' -> keep v = true -> keep v' = true -> j = j') ->
  rows ≡ₚ stored <$> filter (fun v => keep v = true) (rangeValues mm) ->
  head rows = stored <$> List.find keep (rangeValues mm).
Proof.
  intros Huniq Hrows. rewrite find_head.
  assert (Hlen : (length (filter (fun v => keep v = true) (rangeValues mm)) <= 1)%nat).
  { rewrite (Permutation_length (filter_Permutation _ _ _ (rangeValues_perm mm))), <-(Permutation_length (values_filter keep mm)).
    rewrite length_fmap. pose proof (NoDup_fst_map_to_list (filter (fun kv : string * V => keep kv.2 = true) mm)) as Hnd.
    assert (Hin : forall j v, (j, v) ∈ map_to_list (filter (fun kv : string * V => keep kv.2 = true) mm) ->
      mm !! j = Some v /\ keep v = true) by (intros j v; rewrite elem_of_map_to_list, map_lookup_filter_Some; done).
    destruct (map_to_list _) as [|[j v] [|[j' v'] l]]; simpl; [lia..|exfalso].
    destruct (Hin j v) as [? ?]; [left|]. destruct (Hin j' v') as [? ?]; [right; left|].
    rewrite !fmap_cons, NoDup_cons in Hnd. destruct Hnd as [Hj _]. apply Hj. rewrite (Huniq j j' v v') by done. left. }
  destruct (filter _ (rangeValues mm)) as [|v [|v' l]]; simpl in *; [|..|lia].
  - by apply Permutation_nil_r in Hrows as ->.
  - by apply Permutation_singleton_r in Hrows as ->.
Qed.

Lemma personalRows p t u : idOK p ->
  selectWhere (personalRow p t u) (tbl_workspaces d)
  ≡ₚ storedWorkspace <$> filter (fun w => isPersonalOf u w = true) (rangeValues (inner (workspaces s) (scope p t))).
Proof.
  intros Hp. rewrite selectWhere_perm, (tableR_inner _ _ _ _ pos2_inj _ _ (inner (workspaces s) (scope p t))
    (fun id : string => (scope p t, id)) _ (isPersonalOf u) (sim_workspaces _ _ _ HR)).
  - by rewrite <-rangeValues_perm.
  - by intros ? ? [=].
  - done.
  - intros k w Hk -> _. unfold personalRow, isPersonalOf, okShard in *. simpl in *.
    rewrite !andb_true_iff, inShard_spec. split.
    + intros [[[-> ->] ?] ?]. split; [by eexists|done].
    + intros [[id [= Hs _]] [? ?]]. by destruct (scope_inj _ _ _ _ Hk Hp Hs) as [-> ->].
Qed.

(** Rows of the table are entries of the store. *)
Lemma workspace_row p t id w : idOK p -> inner (workspaces s) (scope p t) !! id = Some w ->
  tbl_workspaces d !! (p, t, id) = Some (storedWorkspace w) /\ (p, t, id) = workspaceKey w.
Proof.
  intros Hp Hw. rewrite (R_get _ _ _ _ _ _ (sim_workspaces _ _ _ HR) (p, t, id) Hp). unfold look2. simpl.
  rewrite Hw. split; [done|]. by eapply (R_val _ _ _ _ pos2_inj _ _ _ _ (sim_workspaces _ _ _ HR)).
Qed.

Lemma personal_one p t u : idOK p ->
  forall j j' w w', inner (workspaces s) (scope p t) !! j = Some w -> inner (workspaces s) (scope p t) !! j' = Some w' ->
    isPersonalOf u w = true -> isPersonalOf u w' = true -> j = j'.
Proof.
  intros Hp j j' w w' Hw Hw'. unfold isPersonalOf, TypePersonal. rewrite !andb_true_iff, !String.eqb_eq. intros [Hty Ho] [Hty' Ho'].
  destruct (workspace_row p t j w Hp Hw) as [Hr [= ? ? ?]]. destruct (workspace_row p t j' w' Hp Hw') as [Hr' [= ? ? ?]].
  assert ((p, t, j) = (p, t, j')) as [= ->]; [|done].
  eapply (sim_personal _ _ _ HR); [exact Hr|exact Hr'|simpl; congruence..].
Qed.

Lemma sim_PersonalWorkspace p t u : okTexts [p; t; u] -> simulates n s d (CPersonalWorkspace p t u).
Proof.
  intros Ht. pose proof (okTexts_idOK _ _ Ht) as Hp.
  eapply (simulates_get _ _ _ _ _ (List.find (isPersonalOf u) (rangeValues (inner (workspaces s) (scope p t))))
            (fun d => head (selectWhere (personalRow p t u) (tbl_workspaces d))) Ok storedWorkspace); [exact HR|exact Ht|..].
  - apply unique_row; [by apply personal_one|by apply personalRows].
  - simpl. unfold as_, bind, Memory.PersonalWorkspace. destruct (List.find _ _); reflexivity.
  - reflexivity.
  - reflexivity.
  - done.
Qed.

Lemma sim_GetInvitationByTokenHash p t h : storable s (CGetInvitationByTokenHash p t h) ->
  simulates n s d (CGetInvitationByTokenHash p t h).
Proof.
  intros [Ht Huniq]. pose proof (okTexts_idOK _ _ Ht) as Hp.
  eapply (simulates_get _ _ _ _ _
            (List.find (fun i => String.eqb (inv_TokenHash i) h) (rangeValues (inner (invitations s) (scope p t))))
            (fun d => head (selectWhere (fun i => inShard p t (inv_ProjectID i) (inv_TenantID i)
               && String.eqb (inv_TokenHash i) h) (tbl_invitations d))) Ok storedInvitation AInvitation AInvitation storedInvitation);
    [exact HR|exact Ht| | |reflexivity|reflexivity|done].
  - apply unique_row; [intros j j' i i' ? ? ?%String.eqb_eq ?%String.eqb_eq; by eapply Huniq|].
    rewrite selectWhere_perm, (tableR_inner _ _ _ _ pos2_inj _ _ (inner (invitations s) (scope p t))
      (fun id : string => (scope p t, id)) _ (fun i => String.eqb (inv_TokenHash i) h) (sim_invitations _ _ _ HR)).
    + by rewrite <-rangeValues_perm.
    + by intros ? ? [=].
    + done.
    + intros k i Hk -> _. unfold okShard in *. simpl in *. rewrite andb_true_iff, inShard_spec. split.
      * intros [[-> ->] ?]. split; [by eexists|done].
      * intros [[id [= Hs _]] ?]. by destruct (scope_inj _ _ _ _ Hk Hp Hs) as [-> ->].
  - simpl. unfold as_, bind, Memory.GetInvitationByTokenHash. destruct (List.find _ _); reflexivity.
Qed.

(** *** The join of workspaces with memberships *)
Definition activeIn (p t u id : string) : bool :=
  match look3 (memberships s) (scope p t, id, u) with Some m => String.eqb (mb_Status m) StatusActive | None => false end.

(** The memberships that join a workspace: one or none. *)
Lemma joined_memberships p t u id w : idOK p -> (p, t, id) = workspaceKey w ->
  (fun _ => w) <$> selectWhere (fun m => inShard (w_ProjectID w) (w_TenantID w) (mb_ProjectID m) (mb_TenantID m)
    && String.eqb (mb_WorkspaceID m) (w_ID w) && String.eqb (mb_UserID m) u && String.eqb (mb_Status m) "active")
    (tbl_memberships d)
  = if activeIn p t u id then [w] else [].
Proof.
  intros Hp [= <- <- <-]. set (pos := (scope p t, id, u)).
  set (l := match look3 (memberships s) pos with
            | Some m => if String.eqb (mb_Status m) StatusActive then [(pos, m)] else [] | None => [] end).
  assert (Hl : forall pos' m, (pos', m) ∈ l <->
    pos' = pos /\ look3 (memberships s) pos = Some m /\ mb_Status m = StatusActive).
  { intros pos' m. unfold l. destruct (look3 (memberships s) pos) as [m0|]; [|rewrite elem_of_nil; naive_solver].
    destruct (String.eqb_spec (mb_Status m0) StatusActive); [rewrite list_elem_of_singleton|rewrite elem_of_nil]; naive_solver. }
  destruct (tableR_entries _ _ _ _ pos3_inj _ _
    (fun m => inShard p t (mb_ProjectID m) (mb_TenantID m) && String.eqb (mb_WorkspaceID m) id
              && String.eqb (mb_UserID m) u && String.eqb (mb_Status m) "active") l (sim_memberships _ _ _ HR))
    as (ks & Hks & Hperm).
  - unfold l. repeat case_match; first [apply NoDup_nil_2|apply NoDup_singleton].
  - intros pos' m (-> & Hm & _)%Hl. done.
  - intros k m Hk -> Hlk. rewrite Hl. unfold okShard, pos3, membershipKey, pos in *. simpl in *.
    rewrite !andb_true_iff, inShard_spec, !String.eqb_eq. split.
    + intros [[[[HP HT] HW] HU] HS]. by rewrite HP, HT, HW, HU in Hlk |- *.
    + intros ([= Hs -> ->] & _ & ->). by destruct (scope_inj _ _ _ _ Hk Hp Hs) as [-> ->].
  - rewrite <-selectWhere_perm in Hperm. apply Permutation_length in Hperm.
    rewrite length_zip_with, (Forall2_length _ _ _ Hks), Nat.min_id in Hperm.
    rewrite (const_fmap _ _ w), Hperm by done. unfold l, activeIn. fold pos. repeat case_match; done.
Qed.

Lemma joinLoop p t u (vals : list Workspace) : idOK p -> Forall (fun w => (p, t, w_ID w) = workspaceKey w) vals ->
  concat ((fun w => (fun _ => w) <$>
      selectWhere (fun m => inShard (w_ProjectID w) (w_TenantID w) (mb_ProjectID m) (mb_TenantID m)
        && String.eqb (mb_WorkspaceID m) (w_ID w) && String.eqb (mb_UserID m) u
        && String.eqb (mb_Status m) "active") (tbl_memberships d)) <$> (storedWorkspace <$> vals))
  = storedWorkspace <$> filter (fun w => activeIn p t u (w_ID w) = true) vals.
Proof.
  intros Hp. induction 1 as [|w vals Hw _ IH]; [done|]. rewrite !fmap_cons, filter_cons. simpl concat.
  rewrite (joined_memberships p t u (w_ID w) (storedWorkspace w) Hp Hw), IH.
  by destruct (activeIn p t u (w_ID w)).
Qed.

(** The loop of the in-memory store over the memberships of the shard. *)
Lemma memoryJoin p t u : idOK p ->
  omap (fun wsu : string * gmap string Membership =>
    match wsu.2 !! u with
    | Some m => if String.eqb (mb_Status m) StatusActive then inner (workspaces s) (scope p t) !! wsu.1 else None
    | None => None
    end) (range_map (inner (memberships s) (scope p t)))
  ≡ₚ filter (fun w => activeIn p t u (w_ID w) = true) (rangeValues (inner (workspaces s) (scope p t))).
Proof.
  intros Hp.
  assert (Hid : forall id w, inner (workspaces s) (scope p t) !! id = Some w -> w_ID w = id).
  { intros id w Hw. destruct (workspace_row p t id w Hp Hw) as [_ [= _ _ ->]]. done. }
  apply NoDup_Permutation.
  - pose proof (range_map_fst_NoDup (inner (memberships s) (scope p t))) as Hnd.
    induction (range_map _) as [|[ws mm] l IH]; [constructor|]. rewrite fmap_cons, NoDup_cons in Hnd. destruct Hnd as [Hws Hnd].
    simpl. specialize (IH Hnd). case_match eqn:Hm; [|done]. constructor; [|done].
    rewrite list_elem_of_omap. intros ([ws' mm'] & Hin & Hm'). apply Hws, list_elem_of_fmap. exists (ws', mm').
    split; [|done]. simpl in *. repeat case_match; try done. apply Hid in Hm, Hm'. congruence.
  - apply NoDup_filter. rewrite rangeValues_perm. apply (NoDup_fmap_1 w_ID).
    rewrite <-list_fmap_compose. rewrite (list_fmap_ext _ fst); [apply NoDup_fst_map_to_list|].
    intros i [id w] Hw%list_elem_of_lookup_2%elem_of_map_to_list. simpl. by apply Hid.
  - intros w. rewrite list_elem_of_omap, list_elem_of_filter, rangeValues_perm, list_elem_of_fmap. unfold activeIn, look3. simpl. split.
    + intros ([ws mm] & Hin%elem_of_range_map & Hm). simpl in *.
      destruct (mm !! u) as [m|] eqn:Hu; [|done]. destruct (String.eqb (mb_Status m) StatusActive) eqn:Hst; [|done].
      rewrite (Hid _ _ Hm). split; [|exists (ws, w); split; [done|by apply elem_of_map_to_list]].
      unfold inner at 1. rewrite Hin. simpl. by rewrite Hu.
    + intros [Hact ([id w'] & -> & Hw%elem_of_map_to_list)]. simpl in *. rewrite (Hid _ _ Hw) in Hact.
      unfold inner at 1 in Hact. destruct (inner (memberships s) (scope p t) !! id) as [mm|] eqn:Hmm; simpl in Hact.
      * exists (id, mm). split; [by apply elem_of_range_map|]. simpl. destruct (mm !! u) as [m|]; [|done]. by rewrite Hact.
      * by rewrite lookup_empty in Hact.
Qed.

Lemma sim_WorkspacesForUser p t u : okTexts [p; t; u] -> simulates n s d (CWorkspacesForUser p t u).
Proof.
  intros Ht. pose proof (okTexts_idOK _ _ Ht) as Hp.
  eapply simulates_rows; [exact Ht|reflexivity|reflexivity|]. simpl. rewrite orderBy_perm, sortBy_perm, (memoryJoin p t u Hp).
  rewrite <-(joinLoop p t u _ Hp).
  - apply concat_fmap_perm. rewrite selectWhere_perm,
      (tableR_inner _ _ _ _ pos2_inj _ _ (inner (workspaces s) (scope p t)) (fun id : string => (scope p t, id)) _
         (fun _ : Workspace => true) (sim_workspaces _ _ _ HR)).
    + by rewrite filter_all, <-rangeValues_perm.
    + by intros ? ? [=].
    + done.
    + intros k w Hk -> _. unfold okShard in *. simpl in *. rewrite inShard_spec. split.
      * intros [-> ->]. split; [by eexists|done].
      * intros [[id [= Hs _]] _]. by destruct (scope_inj _ _ _ _ Hk Hp Hs) as [-> ->].
  - rewrite Forall_forall. intros w. rewrite rangeValues_perm, list_elem_of_fmap.
    intros ([id w'] & -> & Hw%elem_of_map_to_list). simpl.
    destruct (workspace_row p t id w' Hp Hw) as [_ Heq]. by inversion Heq.
Qed.
End Read.
End Simulation.
