(* ===== verification/PgSimTuples.v ===== *)
(** * The postgres driver against the in-memory store: relation tuples *)

From stdpp Require Import base gmap strings list sorting.
From Stdlib Require Import ZArith Lia Ascii SpecFloat.
From S2P Require Import Prelude Conditions Model Types ModelJson ModelJsonTheorems Memory MemoryKeys MemoryTheorems.
From S2P Require Import Repository RepoCalls Sql PgTable PgRel PgSim.
From S2P Require Import Postgres PostgresConformance.
#[local] Open Scope Z_scope.

Section Tuples.
Context `{MapRange} `{Database} `{!JsonbLaws}.
Context (n : Z) (s : Store) (d : DB) (HR : simR n s d).
#[local] Abbreviation at_ d := (mkSession (D := DB) d []).
#[local] Abbreviation rowOf p tn := (fun t => storedTuple (tupleKeyOf p tn t) t).

Lemma tupleKeyOf_shard p tn t : tk_project_id (tupleKeyOf p tn t) = p /\ tk_tenant_id (tupleKeyOf p tn t) = tn.
Proof. unfold tupleKeyOf. by destruct (tupleCols t) as [[[[]]]]. Qed.
Lemma tk_namespace_of p tn t : tk_namespace (tupleKeyOf p tn t) = t_Namespace t.
Proof. unfold tupleKeyOf. by destruct (tupleCols t) as [[[[]]]]. Qed.
Lemma tk_object_of p tn t : tk_object_id (tupleKeyOf p tn t) = t_ObjectID t.
Proof. unfold tupleKeyOf. by destruct (tupleCols t) as [[[[]]]]. Qed.
Lemma tk_relation_of p tn t : tk_relation (tupleKeyOf p tn t) = t_Relation t.
Proof. unfold tupleKeyOf. by destruct (tupleCols t) as [[[[]]]]. Qed.

Lemma okTupleKey_of p tn t : idOK p -> okTupleKey (tupleKeyOf p tn t).
Proof. intros Hp. destruct (tupleKeyOf_shard p tn t) as [H3 H4]. split; [by rewrite H3|]. exists t. by rewrite H3, H4. Qed.

(** An entry of the store is at the position its tuple says. *)
Lemma tuple_entry sk j t : inner (tuples s) sk !! j = Some t ->
  exists p tn, idOK p /\ sk = scope p tn /\ j = tupleKey t /\ storableTuple t.
Proof.
  intros Ht. destruct (R_pos _ _ _ _ _ _ (sim_tuples _ _ _ HR) (sk, j) t Ht) as (k & [Hp _] & Hpos & Hk & Hok).
  rewrite Hk, posTuple_key in Hpos. injection Hpos as -> ->. eauto 10.
Qed.

Lemma elem_shard p tn t : t ∈ (snd <$> map_to_list (shard s p tn)) <-> shard s p tn !! tupleKey t = Some t.
Proof.
  rewrite list_elem_of_fmap. split.
  - intros ([j t'] & -> & Ht%elem_of_map_to_list). simpl. by destruct (tuple_entry _ _ _ Ht) as (? & ? & _ & _ & -> & _).
  - intros Ht. exists (tupleKey t, t). split; [done|]. by apply elem_of_map_to_list.
Qed.

Lemma look_shard p tn t : idOK p -> shard s p tn !! tupleKey t = Some t <->
  look2 (tuples s) (posTuple (tupleKeyOf p tn t)) = Some t.
Proof. intros _. by rewrite posTuple_key. Qed.

Lemma NoDup_shard_keys p tn : NoDup (tupleKey <$> (snd <$> map_to_list (shard s p tn))).
Proof.
  rewrite <-list_fmap_compose. rewrite (list_fmap_ext _ fst); [apply NoDup_fst_map_to_list|].
  intros i [j t] Ht%list_elem_of_lookup_2%elem_of_map_to_list. simpl.
  by destruct (tuple_entry _ _ _ Ht) as (? & ? & _ & _ & -> & _).
Qed.

(** The rows of a shard under a clause that agrees with [keep] on its tuples. *)
Lemma shardRows p tn (where_ : tupleRow -> bool) (keep : Tuple -> bool) : idOK p ->
  (forall k t, where_ (storedTuple k t) = true -> tk_project_id k = p /\ tk_tenant_id k = tn) ->
  (forall t, storableTuple t -> where_ (rowOf p tn t) = keep t) ->
  selectWhere where_ (tbl_relation_tuples d) ≡ₚ rowOf p tn <$> filter (fun t => keep t = true) (rangeValues (shard s p tn)).
Proof.
  intros Hp Hin Hkeep. rewrite selectWhere_perm, rangeValues_perm.
  rewrite (tableR_rows _ _ _ _ _ _ _ ((fun t => (tupleKeyOf p tn t, t)) <$>
    filter (fun t => keep t = true) (snd <$> map_to_list (shard s p tn))) (sim_tuples _ _ _ HR)).
  - by rewrite <-list_fmap_compose.
  - rewrite <-list_fmap_compose. apply (NoDup_fmap_1 posTuple). rewrite <-list_fmap_compose.
    rewrite (list_fmap_ext _ (pair (scope p tn) ∘ tupleKey)) by (intros; apply posTuple_key).
    rewrite list_fmap_compose. apply (NoDup_fmap_2 _).
    apply (sublist_NoDup _ (tupleKey <$> (snd <$> map_to_list (shard s p tn)))); [apply NoDup_shard_keys|].
    apply fmap_sublist, sublist_filter.
  - intros k t. rewrite list_elem_of_fmap. split.
    + intros (t' & [= -> <-] & Ht). rewrite list_elem_of_filter, elem_shard in Ht. destruct Ht as [Hk Ht].
      split_and!; [by apply okTupleKey_of|by apply look_shard|]. rewrite Hkeep; [done|].
      by destruct (tuple_entry _ _ _ Ht) as (? & ? & _ & _ & _ & ?).
    + intros (Hk & Ht & Hw). destruct (Hin _ _ Hw) as [Hpk Htk].
      destruct (R_val _ _ _ _ posTuple_inj _ _ _ _ (sim_tuples _ _ _ HR) Hk Ht) as [Heq Hok].
      rewrite Hpk, Htk in Heq. exists t. split; [congruence|]. rewrite list_elem_of_filter, elem_shard.
      rewrite Heq in Ht. split; [rewrite <-Hkeep by done; by rewrite Heq in Hw|by apply look_shard].
Qed.

Lemma storable_shard p tn t : t ∈ rangeValues (shard s p tn) -> storableTuple t.
Proof. rewrite rangeValues_perm, elem_shard. intros Ht. by destruct (tuple_entry _ _ _ Ht) as (? & ? & _ & _ & _ & ?). Qed.

(** The tuples read from rows that are those of a list of the store. *)
Lemma scanRows p tn rows (vals : list Tuple) : Forall storableTuple vals -> rows ≡ₚ rowOf p tn <$> vals ->
  exists ts, rmap scanTuple rows = Ok ts /\ ts ≡ₚ vals.
Proof.
  intros Hok Hrows. eapply rmap_perm; [exact Hrows|].
  rewrite (rmap_fmap scanTuple _ (fun t => t)); [by rewrite list_fmap_id|]. intros t Ht.
  apply scanTuple_stored. by eapply Forall_forall in Hok.
Qed.

Lemma Forall_storable p tn (keep : Tuple -> bool) :
  Forall storableTuple (filter (fun t => keep t = true) (rangeValues (shard s p tn))).
Proof. apply Forall_forall. intros t [_ Ht]%list_elem_of_filter. by eapply storable_shard. Qed.

Lemma tupleIn_row p tn k t : tupleIn p tn (storedTuple k t) = true -> tk_project_id k = p /\ tk_tenant_id k = tn.
Proof. unfold tupleIn. by rewrite inShard_spec. Qed.

Lemma tupleIn_own p tn t : tupleIn p tn (rowOf p tn t) = true.
Proof. unfold tupleIn. rewrite inShard_spec. apply tupleKeyOf_shard. Qed.

(** A clause [where_] on a shard, for a filter [keep] of the store. *)
#[local] Ltac shard_clause keep Hp :=
  apply (shardRows _ _ _ keep Hp);
  [ intros k t Hw; apply (tupleIn_row _ _ k t); rewrite !andb_true_iff in Hw; tauto
  | intros t Hst; rewrite ?tupleIn_own, ?unexpired_stored by done; simpl;
    rewrite ?tk_namespace_of, ?tk_object_of, ?tk_relation_of ].

Lemma sim_ListSubjects now p tn ns obj rel : okTexts [p; tn; ns; obj; rel] ->
  simulates n s d (CListSubjects now p tn ns obj rel).
Proof.
  intros Ht. pose proof (okTexts_idOK _ _ Ht) as Hp.
  set (keep := fun t => String.eqb (t_Namespace t) ns && String.eqb (t_ObjectID t) obj
                        && String.eqb (t_Relation t) rel && ActiveAt t now).
  set (rows := selectWhere (fun r => tupleIn p tn r && String.eqb (tk_namespace (tr_key r)) ns
      && String.eqb (tk_object_id (tr_key r)) obj && String.eqb (tk_relation (tr_key r)) rel
      && unexpired now r) (tbl_relation_tuples d)).
  destruct (scanRows p tn rows _ (Forall_storable p tn keep)) as (ts & Hts & Hperm).
  { unfold rows. shard_clause keep Hp. done. }
  eapply simulates_read; [reflexivity|reflexivity|exact HR|reflexivity| |].
  { simpl. unfold Postgres.ListSubjects, bind, lift. rewrite query_sound by done. fold rows. rewrite Hts. reflexivity. }
  simpl. rewrite Hperm. apply fmap_Permutation. erewrite list_filter_iff; [reflexivity|].
  intros t. unfold keep. rewrite !andb_true_iff, !String.eqb_eq. tauto.
Qed.


Lemma subject_user_id p tn t : storableTuple t -> tk_subject_user_id (tupleKeyOf p tn t) = UserID (t_Subject t).
Proof.
  intros (Hw & Hu & _). unfold tupleKeyOf, tupleCols. destruct t as [ns o r [u set wc c] e]. simpl in *.
  destruct wc; [by rewrite Hu by auto|]. destruct set; [by rewrite Hu by auto|done].
Qed.

Lemma sim_ReadTuples now p tn f : storable s (CReadTuples now p tn f) -> simulates n s d (CReadTuples now p tn f).
Proof.
  intros Ht. pose proof (okTexts_idOK _ _ Ht) as Hp. set (keep := matchesFilter f now).
  assert (Hrows : selectWhere (fun r => tupleIn p tn r && anyOr (f_Namespace f) (tk_namespace (tr_key r))
         && anyOr (f_ObjectID f) (tk_object_id (tr_key r)) && anyOr (f_Relation f) (tk_relation (tr_key r))
         && anyOr (f_SubjectUserID f) (tk_subject_user_id (tr_key r)) && unexpired now r) (tbl_relation_tuples d)
       ≡ₚ rowOf p tn <$> filter (fun t => keep t = true) (rangeValues (shard s p tn))).
  { shard_clause keep Hp. rewrite subject_user_id by done. unfold keep, matchesFilter, anyOr.
    destruct (ActiveAt t now); [by rewrite andb_true_r|by rewrite andb_false_r]. }
  rewrite <-(orderBy_perm None [(fun r => tk_namespace (tr_key r)); (fun r => tk_object_id (tr_key r));
    (fun r => tk_relation (tr_key r)); (fun r => tk_subject_kind (tr_key r)); (fun r => tk_subject_user_id (tr_key r));
    (fun r => tk_subject_namespace (tr_key r)); (fun r => tk_subject_object_id (tr_key r));
    (fun r => tk_subject_relation (tr_key r))]) in Hrows.
  destruct (scanRows p tn _ _ (Forall_storable p tn keep) Hrows) as (ts & Hts & Hperm).
  eapply (simulates_decoded _ _ _ HR _ _ _ _ _ ts); [exact Ht|reflexivity|reflexivity|exact Hts|exact Hperm|].
  intros xs Hxs. simpl. by rewrite Hxs, merge_sort_Permutation.
Qed.

(** [SELECT DISTINCT] against the loop of the store. *)
Lemma sim_ListObjectIDs now p tn ns : okTexts [p; tn; ns] -> simulates n s d (CListObjectIDs now p tn ns).
Proof.
  intros Ht. pose proof (okTexts_idOK _ _ Ht) as Hp.
  set (keep := fun t => String.eqb (t_Namespace t) ns && ActiveAt t now).
  assert (Hrows : selectWhere (fun r => tupleIn p tn r && String.eqb (tk_namespace (tr_key r)) ns
                            && unexpired now r) (tbl_relation_tuples d)
       ≡ₚ rowOf p tn <$> filter (fun t => keep t = true) (rangeValues (shard s p tn))).
  { shard_clause keep Hp. done. }
  eapply simulates_rows; [exact HR|exact Ht|reflexivity|reflexivity|]. simpl. rewrite orderBy_perm, merge_sort_Permutation.
  apply NoDup_Permutation; [apply NoDup_remove_dups|apply objectIDsLoop_NoDup|]. intros id.
  rewrite elem_of_remove_dups, objectIDsLoop_spec, list_elem_of_fmap. setoid_rewrite Hrows.
  setoid_rewrite list_elem_of_fmap. setoid_rewrite list_elem_of_filter. unfold keep. split.
  - intros (r & -> & t & -> & [Hn%String.eqb_eq Ha]%andb_true_iff & Hin). simpl. rewrite tk_object_of. split; [set_solver|].
    exists t. split; [by apply list_elem_of_fmap in Hin|done].
  - intros [_ (t & Hin & Hn & Ha & <-)]. eexists. split; [|exists t; split; [reflexivity|]].
    + simpl. by rewrite tk_object_of.
    + rewrite Hn, String.eqb_refl. split; [done|by apply list_elem_of_fmap].
Qed.

(** ** Across the tenants of a project *)
Lemma NoDup_mjoin_fmap {A B} (f : A -> list B) (l : list A) :
  (forall x y z, x ∈ l -> y ∈ l -> z ∈ f x -> z ∈ f y -> x = y) -> (forall x, x ∈ l -> NoDup (f x)) -> NoDup l ->
  NoDup (mjoin (f <$> l)).
Proof.
  intros Hdisj Hf Hl. induction Hl as [|x l Hx Hl IH]; [constructor|]. rewrite fmap_cons. simpl.
  apply NoDup_app. split_and!; [apply Hf; left| |apply IH; [|intros y Hy; apply Hf; by right]].
  - intros z Hz (ys & Hzy & (y & -> & Hy)%list_elem_of_fmap)%list_elem_of_join.
    apply Hx. rewrite (Hdisj x y z); [done|left|by right|done|done].
  - intros y y' z Hy Hy'. apply Hdisj; by right.
Qed.

#[local] Abbreviation collect := (Memory.collectTupleAt).

Lemma elem_rangeValues sk m t : tuples s !! sk = Some m -> t ∈ rangeValues m ->
  m !! tupleKey t = Some t /\ exists p tn, idOK p /\ sk = scope p tn /\ storableTuple t.
Proof.
  intros Hm. rewrite rangeValues_perm, list_elem_of_fmap. intros ([j t'] & -> & Ht%elem_of_map_to_list). simpl.
  destruct (tuple_entry sk j t') as (p & tn & ? & ? & -> & ?); [unfold inner; by rewrite Hm|]. eauto 10.
Qed.

Lemma elem_collect p keep ta : idOK p ->
  ta ∈ collect p keep s <->
  shard s p (ta_TenantID ta) !! tupleKey (ta_Tuple ta) = Some (ta_Tuple ta) /\ keep (ta_Tuple ta) = true.
Proof.
  intros Hp. unfold collect. rewrite list_elem_of_join. split.
  - intros (l & Hta & ([sk m] & -> & Hm%elem_of_range_map)%list_elem_of_fmap). simpl in Hta.
    destruct (inProject p sk) eqn:Hin; [|by apply elem_of_nil in Hta].
    apply list_elem_of_fmap in Hta as (t & -> & [Hk Ht]%list_elem_of_filter). simpl. split; [|done].
    destruct (elem_rangeValues sk m t Hm Ht) as (Hl & p' & tn & Hp' & -> & _).
    apply inProject_scope in Hin as <-; [|done..]. rewrite tenantOfScope_scope by done. unfold shard, inner. by rewrite Hm.
  - destruct ta as [tn t]. simpl. intros [Ht Hk]. unfold shard, inner in Ht.
    destruct (tuples s !! scope p tn) as [m|] eqn:Hm; simpl in Ht; [|by rewrite lookup_empty in Ht].
    eexists. split; [|apply list_elem_of_fmap; exists (scope p tn, m); split; [reflexivity|by apply elem_of_range_map]].
    simpl. rewrite (proj2 (inProject_scope p p tn Hp Hp) eq_refl), tenantOfScope_scope by done.
    apply list_elem_of_fmap. exists t. split; [done|]. apply list_elem_of_filter. split; [done|].
    rewrite rangeValues_perm, list_elem_of_fmap. exists (tupleKey t, t). split; [done|]. by apply elem_of_map_to_list.
Qed.

Lemma NoDup_rangeValues sk m : tuples s !! sk = Some m -> NoDup (rangeValues m).
Proof.
  intros Hm. rewrite rangeValues_perm. apply (NoDup_fmap_1 tupleKey). rewrite <-list_fmap_compose.
  rewrite (list_fmap_ext _ fst); [apply NoDup_fst_map_to_list|].
  intros i [j t] Ht%list_elem_of_lookup_2%elem_of_map_to_list. simpl.
  destruct (tuple_entry sk j t) as (? & ? & _ & _ & -> & _); [unfold inner; by rewrite Hm|done].
Qed.

Lemma NoDup_collect p keep : idOK p -> NoDup (collect p keep s).
Proof.
  intros Hp. unfold collect. apply NoDup_mjoin_fmap.
  - intros [sk m] [sk' m'] ta Hm%elem_of_range_map Hm'%elem_of_range_map. simpl.
    destruct (inProject p sk) eqn:Hin; [|by intros ?%elem_of_nil]. destruct (inProject p sk') eqn:Hin'; [|by intros _ ?%elem_of_nil].
    intros (t & -> & [_ Ht]%list_elem_of_filter)%list_elem_of_fmap (t' & [= Hte <-] & [_ Ht']%list_elem_of_filter)%list_elem_of_fmap.
    destruct (elem_rangeValues sk m t Hm Ht) as (_ & p1 & t1 & Hp1 & -> & _).
    destruct (elem_rangeValues sk' m' t Hm' Ht') as (_ & p2 & t2 & Hp2 & -> & _).
    apply inProject_scope in Hin as <-; [|done..]. apply inProject_scope in Hin' as <-; [|done..].
    rewrite !tenantOfScope_scope in Hte by done. subst. congruence.
  - intros [sk m] Hm%elem_of_range_map. simpl. destruct (inProject p sk); [|constructor].
    apply NoDup_fmap_2; [by intros ? ? [=]|]. apply NoDup_filter. by eapply NoDup_rangeValues.
  - apply (NoDup_fmap_1 fst), range_map_fst_NoDup.
Qed.

Lemma projectRows p (where_ : tupleRow -> bool) (keep : Tuple -> bool) : idOK p ->
  (forall k t, where_ (storedTuple k t) = true -> tk_project_id k = p) ->
  (forall tn t, storableTuple t -> where_ (rowOf p tn t) = keep t) ->
  filter (fun r => where_ r = true) (snd <$> map_to_list (tbl_relation_tuples d))
  ≡ₚ (fun ta => rowOf p (ta_TenantID ta) (ta_Tuple ta)) <$> collect p keep s.
Proof.
  intros Hp Hin Hkeep.
  rewrite (tableR_rows _ _ _ _ _ _ _ ((fun ta => (tupleKeyOf p (ta_TenantID ta) (ta_Tuple ta), ta_Tuple ta)) <$>
    collect p keep s) (sim_tuples _ _ _ HR)).
  - by rewrite <-list_fmap_compose.
  - rewrite <-list_fmap_compose. apply NoDup_fmap_2_strong; [|by apply NoDup_collect].
    intros [tn t] [tn' t'] [Ht _]%elem_collect [Ht' _]%elem_collect Heq; [|done..]. simpl in *.
    assert (tn = tn') as <- by (apply (f_equal tk_tenant_id) in Heq; by rewrite !(proj2 (tupleKeyOf_shard _ _ _)) in Heq).
    apply tupleKeyOf_ident, tupleKey_ident in Heq. congruence.
  - intros k t. rewrite list_elem_of_fmap. split.
    + intros ([tn t'] & [= -> ->] & [Ht Hk]%elem_collect); [|done]. simpl in *.
      split_and!; [by apply okTupleKey_of|by apply look_shard|]. rewrite Hkeep; [done|].
      by destruct (tuple_entry _ _ _ Ht) as (? & ? & _ & _ & _ & ?).
    + intros (Hk & Ht & Hw). pose proof (Hin _ _ Hw) as Hpk.
      destruct (R_val _ _ _ _ posTuple_inj _ _ _ _ (sim_tuples _ _ _ HR) Hk Ht) as [Heq Hok]. rewrite Hpk in Heq.
      exists (mkTupleAt (tk_tenant_id k) t). simpl. split; [congruence|]. apply elem_collect; [done|]. simpl.
      split; [apply look_shard; [done|by rewrite <-Heq]|rewrite <-(Hkeep (tk_tenant_id k)) by done; by rewrite <-Heq].
Qed.

Lemma collect_storable p keep ta : idOK p -> ta ∈ collect p keep s -> storableTuple (ta_Tuple ta).
Proof.
  intros Hp [Ht _]%elem_collect; [|done]. by destruct (tuple_entry _ _ _ Ht) as (? & ? & _ & _ & _ & ?).
Qed.

(** The tuples read across a project, sorted in any way. *)
Lemma scanRowsAt p keep rows : idOK p ->
  rows ≡ₚ (fun ta => rowOf p (ta_TenantID ta) (ta_Tuple ta)) <$> collect p keep s ->
  exists ts, collectTupleAt rows = Ok ts /\ ts ≡ₚ collect p keep s.
Proof.
  intros Hp Hrows. eapply rmap_perm; [exact Hrows|].
  rewrite (rmap_fmap scanTupleAt _ (fun ta => ta)); [by rewrite list_fmap_id|]. intros [tn t] Hta. unfold scanTupleAt. simpl.
  rewrite scanTuple_stored by exact (collect_storable _ _ _ Hp Hta). simpl. by rewrite (proj2 (tupleKeyOf_shard _ _ _)).
Qed.

Lemma subjectRow_of p tn u t : storableTuple t -> subjectRow p u (rowOf p tn t) = isSubjectUser u t.
Proof.
  intros (Hw & _). unfold subjectRow, isSubjectUser. simpl. rewrite (proj1 (tupleKeyOf_shard p tn t)), String.eqb_refl.
  unfold tupleKeyOf, tupleCols. destruct t as [ns o r [us set wc c] e]. simpl in *.
  destruct wc; [by rewrite Hw|]. by destruct set.
Qed.

Lemma subjectRow_in p u k t : subjectRow p u (storedTuple k t) = true -> tk_project_id k = p.
Proof. unfold subjectRow. simpl. rewrite !andb_true_iff, !String.eqb_eq. tauto. Qed.

Lemma sim_ListSubjectTuples now p u : okTexts [p; u] -> simulates n s d (CListSubjectTuplesInProject now p u).
Proof.
  intros Ht. pose proof (okTexts_idOK _ _ Ht) as Hp. set (keep := fun t => isSubjectUser u t && ActiveAt t now).
  destruct (scanRowsAt p keep (tupleAtOrder (selectWhere (fun r => subjectRow p u r && unexpired now r) (tbl_relation_tuples d))) Hp)
    as (ts & Hts & Hperm).
  { unfold tupleAtOrder. rewrite orderBy_perm, selectWhere_perm. apply projectRows; [done|..].
    - intros k t [Hw _]%andb_true_iff. by eapply subjectRow_in.
    - intros tn t Hst. by rewrite subjectRow_of, unexpired_stored by done. }
  eapply (simulates_decoded _ _ _ HR _ _ _ _ _ ts); [exact Ht|reflexivity|reflexivity|exact Hts|exact Hperm|].
  intros xs Hxs. simpl. unfold sortTupleAt. by rewrite Hxs, merge_sort_Permutation.
Qed.

Lemma sim_ListTuplesForSubjectSets now p sets : storable s (CListTuplesForSubjectSetsInProject now p sets) ->
  simulates n s d (CListTuplesForSubjectSetsInProject now p sets).
Proof.
  intros Ht. pose proof (okTexts_idOK _ _ Ht) as Hp. destruct sets as [|set0 sets0].
  { exists d. split_and!; [done|simpl; done|]. eapply sim_mono; [|exact HR]. lia. }
  set (sets := set0 :: sets0) in *.
  set (keep := fun t => match Set_ (t_Subject t) with Some ss => bool_decide (ss ∈ sets) && ActiveAt t now | None => false end).
  set (where_ := fun r => String.eqb (tk_project_id (tr_key r)) p && String.eqb (tk_subject_kind (tr_key r)) "set"
       && bool_decide (mkSubjectSet (tk_subject_namespace (tr_key r)) (tk_subject_object_id (tr_key r))
                         (tk_subject_relation (tr_key r)) ∈ sets) && unexpired now r).
  destruct (scanRowsAt p keep (tupleAtOrder (selectWhere where_ (tbl_relation_tuples d))) Hp) as (ts & Hts & Hperm).
  { unfold tupleAtOrder. rewrite orderBy_perm, selectWhere_perm. apply projectRows; [done|..].
    - intros k t. unfold where_. simpl. rewrite !andb_true_iff, !String.eqb_eq. tauto.
    - intros tn t Hst. unfold where_, keep. rewrite unexpired_stored by done. simpl.
      rewrite (proj1 (tupleKeyOf_shard p tn t)), String.eqb_refl. destruct Hst as (Hw & _).
      unfold tupleKeyOf, tupleCols. destruct t as [ns o r [us set wc c] e]. simpl in *.
      destruct wc; [by rewrite Hw|]. by destruct set as [[]|]. }
  eapply (simulates_decoded _ _ _ HR _ _ _ _ _ ts); [exact Ht|reflexivity|reflexivity|exact Hts|exact Hperm|].
  intros xs Hxs. simpl. unfold sortTupleAt. by rewrite Hxs, merge_sort_Permutation.
Qed.
End Tuples.
