(* ===== verification/PgSimWrites.v ===== *)
(** * The postgres driver against the in-memory store: writes *)

From stdpp Require Import base gmap strings list sorting.
From Stdlib Require Import ZArith Lia Ascii SpecFloat.
From S2P Require Import Prelude Conditions Model Types ModelJson ModelJsonTheorems Memory MemoryKeys MemoryTheorems.
From S2P Require Import WorkspaceInv WorkspaceSteps SeatTheorems.
From S2P Require Import Repository RepoCalls Sql PgTable PgRel PgSim PgSimTuples.
From S2P Require Import Postgres PostgresConformance.
#[local] Open Scope Z_scope.

(** ** What a write does to the views of the store *)
Section Views.
Context {B : Type}.

Lemma look2_put (m : gmap string (gmap string B)) k j x pos :
  look2 (put2 k j x m) pos = if decide (pos = (k, j)) then Some x else look2 m pos.
Proof. destruct pos as [k' j']. unfold look2. simpl. rewrite lookup_put2. repeat case_decide; naive_solver. Qed.

Lemma look2_ensure (m : gmap string (gmap string B)) k pos : look2 (ensureInner k m) pos = look2 m pos.
Proof. unfold look2. by rewrite inner_ensure. Qed.

Lemma look2_alter (m : gmap string (gmap string B)) k f pos :
  f ∅ = ∅ -> look2 (alter f k m) pos = if decide (pos.1 = k) then f (inner m k) !! pos.2 else look2 m pos.
Proof.
  intros Hf. unfold look2. case_decide as Hk; [by rewrite Hk, inner_alter|by rewrite inner_alter_ne].
Qed.

Lemma look3_put (m : gmap string (gmap string (gmap string B))) k j i x pos :
  look3 (<[k := put2 j i x (inner m k)]> m) pos = if decide (pos = (k, j, i)) then Some x else look3 m pos.
Proof. destruct pos as [[k' j'] i']. unfold look3. simpl. rewrite lookup_put3. repeat case_decide; naive_solver. Qed.

Lemma look3_delete (m : gmap string (gmap string (gmap string B))) k j i pos :
  look3 (alter (alter (delete i) j) k m) pos = if decide (pos = (k, j, i)) then None else look3 m pos.
Proof. destruct pos as [[k' j'] i']. unfold look3. simpl. rewrite lookup_del3. repeat case_decide; naive_solver. Qed.

Lemma look3_delete_inner (m : gmap string (gmap string (gmap string B))) k j pos :
  look3 (alter (delete j) k m) pos = if decide (pos.1 = (k, j)) then None else look3 m pos.
Proof.
  destruct pos as [[k' j'] i']. unfold look3. simpl. destruct (decide (k' = k)) as [->|Hk].
  - rewrite inner_alter by apply delete_empty. destruct (decide (j' = j)) as [->|Hj].
    + rewrite decide_True by done. unfold inner at 1. by rewrite lookup_delete_eq.
    + rewrite decide_False by naive_solver. unfold inner at 1 3. by rewrite lookup_delete_ne.
  - rewrite inner_alter_ne, decide_False by naive_solver. done.
Qed.
End Views.

Section Writes.
Context `{MapRange} `{Database} `{!JsonbLaws}.
#[local] Abbreviation at_ d := (mkSession (D := DB) d []).

(** *** One table of each side changes *)
Lemma sim_set_projects n s d f g : simR n s d ->
  projectsR (fun id => f (projects s) !! id) (g (tbl_projects d)) -> simR n (set_projects f s) (on_projects g d).
Proof. intros [] HT. by split. Qed.
Lemma sim_set_workspaces n s d f g : simR n s d ->
  workspacesR (look2 (f (workspaces s))) (g (tbl_workspaces d)) -> personalUnique (g (tbl_workspaces d)) ->
  simR n (set_workspaces f s) (on_workspaces g d).
Proof. intros [] HT HP. by split. Qed.
Lemma sim_set_memberships n s d f g : simR n s d ->
  membershipsR (look3 (f (memberships s))) (g (tbl_memberships d)) -> simR n (set_memberships f s) (on_memberships g d).
Proof. intros [] HT. by split. Qed.
Lemma sim_set_invitations n s d f g : simR n s d ->
  invitationsR (look2 (f (invitations s))) (g (tbl_invitations d)) -> simR n (set_invitations f s) (on_invitations g d).
Proof. intros [] HT. by split. Qed.
Lemma sim_set_groups n s d f g : simR n s d ->
  groupsR (look2 (f (groups s))) (g (tbl_groups d)) -> simR n (set_groups f s) (on_groups g d).
Proof. intros [] HT. by split. Qed.
Lemma sim_set_enrollments n s d f g : simR n s d ->
  enrollmentsR (look3 (f (enrollments s))) (g (tbl_enrollments d)) -> simR n (set_enrollments f s) (on_enrollments g d).
Proof. intros [] HT. by split. Qed.
Lemma sim_set_seatLimits n s d f g : simR n s d ->
  seatLimitsR (look2 (f (seatLimits s))) (g (tbl_seat_limits d)) -> simR n (set_seatLimits f s) (on_seat_limits g d).
Proof. intros [] HT. by split. Qed.
Lemma sim_set_seats n s d f g : simR n s d ->
  seatsR (look3 (f (seatAssigns s))) (g (tbl_seat_assignments d)) ->
  simR n (set_seatAssigns f s) (on_seat_assignments g d).
Proof. intros [] HT. by split. Qed.
Lemma sim_set_seqs n n' s d f g : simR n s d -> 0 <= n' ->
  seqsR n' (fun sk => f (seqs s) !! sk) (g (tbl_consistency_seq d)) -> simR n' (set_seqs f s) (on_consistency_seq g d).
Proof. intros [] Hn HT. by split. Qed.
Lemma sim_set_tuples n s d f g : simR n s d ->
  tuplesR (look2 (f (tuples s))) (g (tbl_relation_tuples d)) -> simR n (set_tuples f s) (on_relation_tuples g d).
Proof. intros [] HT. by split. Qed.

(** *** The consistency sequence *)
Lemma bump_sound n s d p t : simR n s d -> okTexts [p; t] -> n + 1 < 2 ^ 63 ->
  exists d', bumpSeqExec p t (at_ d) = (Ok tt, at_ d') /\ simR (n + 1) (set_seqs (incr (scope p t)) s) d'.
Proof.
  intros HR Ht Hn. pose proof (okTexts_idOK _ _ Ht) as Hp. unfold bumpSeqExec. rewrite run_sound by done.
  pose proof (sim_seqs _ _ _ (sim_mono n (n + 1) s d ltac:(lia) HR)) as Hseq.
  pose proof (R_get _ _ _ _ _ _ Hseq (p, t) Hp) as Hget. unfold posSeq in Hget. simpl in Hget.
  assert (Hins : forall v, 0 <= v <= n + 1 -> v = default 0 (seqs s !! scope p t) + 1 ->
    simR (n + 1) (set_seqs (incr (scope p t)) s) (on_consistency_seq (<[(p, t) := v]>) d)).
  { intros v Hv ->. pose proof (sim_bound _ _ _ HR). eapply sim_set_seqs; [exact HR|lia|].
    eapply (tableR_insert posSeq _ _ (fun _ v => v) posSeq_inj _ _ _ (p, t) (default 0 (seqs s !! scope p t) + 1));
      [exact Hp|exact Hv| |exact Hseq].
    intros sk. unfold incr, posSeq. simpl. case_decide as Hsk; [by rewrite Hsk, lookup_insert_eq|by rewrite lookup_insert_ne]. }
  pose proof (sim_bound _ _ _ HR) as Hn0.
  rewrite Hget. destruct (seqs s !! scope p t) as [v|] eqn:Hv; simpl.
  - destruct (R_pos _ _ _ _ _ _ (sim_seqs _ _ _ HR) _ _ Hv) as (k & _ & _ & Hb).
    rewrite (proj2 (Z.leb_gt _ _)) by lia. eexists. split; [reflexivity|]. apply Hins; simpl; lia.
  - eexists. split; [reflexivity|]. apply Hins; simpl; lia.
Qed.

(** *** Writing tuples *)
Section Shard.
Context (ts : gmap string (gmap string Tuple)) (p t : string) (Hp : idOK p).

(** The store with [mm] as the shard of (p, t). *)
Definition shardLook (mm : gmap string Tuple) (pos : string * string) : option Tuple :=
  if decide (pos.1 = scope p t) then mm !! pos.2 else look2 ts pos.

Lemma deleteTuple_sound d mm x :
  okTexts (keyArgs (tupleKeyOf p t x)) -> tuplesR (shardLook mm) (tbl_relation_tuples d) ->
  exists T, deleteTupleExec p t x (at_ d) = (Ok tt, at_ (on_relation_tuples (fun _ => T) d)) /\
            tuplesR (shardLook (delete (tupleKey x) mm)) T.
Proof.
  intros Hx HT. unfold deleteTupleExec, bind. rewrite run_sound by done. eexists. split; [reflexivity|].
  eapply tableR_delete; [exact posTuple_inj| | |exact HT].
  - intros k x' [Hpk Hk] [Hkx _]. rewrite Hkx, posTuple_key. unfold shardLook. simpl.
    case_decide as Hs; intros Hl.
    + destruct (scope_inj _ _ _ _ Hpk Hp Hs) as [Hpe Hte]. case_bool_decide as Heq.
      * apply lookup_delete_None. left. rewrite Hpe, Hte in Heq. by apply tupleKeyOf_ident, tupleKey_ident in Heq.
      * rewrite lookup_delete_ne; [done|]. intros Hkk. apply Heq. rewrite Hpe, Hte.
        apply tupleKeyOf_ident. symmetry. by apply tupleKey_ident.
    + rewrite bool_decide_false; [done|]. intros Heq. apply Hs.
      pose proof (f_equal tk_project_id Heq) as H3. pose proof (f_equal tk_tenant_id Heq) as H4.
      rewrite !(proj1 (tupleKeyOf_shard _ _ _)) in H3. rewrite !(proj2 (tupleKeyOf_shard _ _ _)) in H4. by rewrite H3, H4.
  - intros pos. unfold shardLook. case_decide; [|done]. intros Hl. rewrite lookup_delete_None. by right.
Qed.

Lemma insertTuple_sound d mm x :
  okTexts (keyArgs (tupleKeyOf p t x)) -> storableTuple x -> tuplesR (shardLook mm) (tbl_relation_tuples d) ->
  exists T, insertTupleExec p t x (at_ d) = (Ok tt, at_ (on_relation_tuples (fun _ => T) d)) /\
            tuplesR (shardLook (<[tupleKey x := x]> mm)) T.
Proof.
  intros Hx Hok HT. destruct (conditionCols_ok x Hok) as (Hj & Hn & _). unfold insertTupleExec.
  destruct (conditionCols x) as [cn cp] eqn:Hc. simpl in Hj, Hn.
  rewrite run_sound by (rewrite forallb_app, andb_true_iff; simpl; rewrite Hn; done).
  unfold withJsonb. rewrite Hj. unfold upsert. eexists. split; [reflexivity|].
  replace (mkTupleRow (tupleKeyOf p t x) (timestamptz <$> t_ExpiresAt x) cn cp) with (storedTuple (tupleKeyOf p t x) x)
    by (unfold storedTuple; by rewrite Hc).
  eapply (tableR_insert _ _ _ _ posTuple_inj); [by apply okTupleKey_of| | |exact HT].
  - destruct (tupleKeyOf_shard p t x) as [-> ->]. done.
  - intros [sk j]. rewrite posTuple_key. unfold shardLook. simpl. destruct (decide (sk = scope p t)) as [->|Hne].
    + case_decide as Hj'; [injection Hj' as ->; by rewrite lookup_insert_eq|rewrite lookup_insert_ne; naive_solver].
    + rewrite decide_False by naive_solver. done.
Qed.

(** Both loops. *)
Lemma mapM_sound (f : Tuple -> St (Session DB) unit) (step : gmap string Tuple -> Tuple -> gmap string Tuple) (ok : Tuple -> Prop) xs :
  (forall d mm x, ok x -> tuplesR (shardLook mm) (tbl_relation_tuples d) ->
     exists T, f x (at_ d) = (Ok tt, at_ (on_relation_tuples (fun _ => T) d)) /\ tuplesR (shardLook (step mm x)) T) ->
  forall d mm, Forall ok xs -> tuplesR (shardLook mm) (tbl_relation_tuples d) ->
  exists T us, mapM f xs (at_ d) = (Ok us, at_ (on_relation_tuples (fun _ => T) d)) /\ tuplesR (shardLook (foldl step mm xs)) T.
Proof.
  intros Hf. induction xs as [|x xs IH]; intros d mm Hok HT; simpl.
  - exists (tbl_relation_tuples d), []. split; [by destruct d|done].
  - apply Forall_cons in Hok as [Hx Hxs]. destruct (Hf d mm x Hx HT) as (T1 & Hr1 & HT1).
    rewrite (bind_sound _ _ _ _ _ Hr1).
    destruct (IH (on_relation_tuples (fun _ => T1) d) _ Hxs HT1) as (T2 & us & Hr2 & HT2).
    rewrite (bind_sound _ _ _ _ _ Hr2). exists T2, (tt :: us). split; [reflexivity|done].
Qed.
End Shard.

Lemma write_sound n s d p t ins del : simR n s d -> okWrite p t ins del -> n + 1 < 2 ^ 63 ->
  exists d', writeTuplesExec p t ins del (at_ d) = (Ok tt, at_ d') /\ simR (n + 1) (writeTuplesLocked p t ins del s) d'.
Proof.
  intros HR (Ht & Hins & Hdel) Hn. pose proof (okTexts_idOK _ _ Ht) as Hp.
  assert (Hstart : tuplesR (shardLook (tuples s) p t (inner (tuples s) (scope p t))) (tbl_relation_tuples d)).
  { eapply tableR_ext; [|exact (sim_tuples _ _ _ HR)]. intros pos. unfold shardLook, look2. case_decide as Hs; by rewrite ?Hs. }
  unfold writeTuplesExec.
  destruct (mapM_sound (tuples s) p t _ (fun m x => delete (tupleKey x) m) _ del (fun d mm x Hx => deleteTuple_sound _ p t Hp d mm x Hx)
    d _ Hdel Hstart) as (T1 & us1 & Hr1 & HT1).
  rewrite (bind_sound _ _ _ _ _ Hr1).
  destruct (mapM_sound (tuples s) p t _ (fun m x => <[tupleKey x := x]> m) _ ins
    (fun d mm x Hx => insertTuple_sound _ p t Hp d mm x (proj1 Hx) (proj2 Hx)) (on_relation_tuples (fun _ => T1) d) _ Hins HT1)
    as (T2 & us2 & Hr2 & HT2).
  rewrite (bind_sound _ _ _ _ _ Hr2). apply bump_sound; [|done|done].
  apply (sim_set_tuples n s d (<[scope p t := _]>) (fun _ => T2)); [done|].
  eapply tableR_ext; [|exact HT2]. intros pos. unfold shardLook, look2.
  case_decide as Hs; [by rewrite Hs, inner_insert|by rewrite inner_insert_ne].
Qed.

(** *** The methods *)
Section Methods.
Context (n : Z) (s : Store) (d : DB) (HR : simR n s d) (Hn : n + 1 < 2 ^ 63).

Lemma later s' d' : simR n s' d' -> simR (n + 1) s' d'.
Proof. apply sim_mono. lia. Qed.

(** A body in a transaction that commits, and one that is rolled back. *)
Lemma simulates_commit {A B} c (cm : St Store A) (body : St (Session DB) B) f g a b s' d' :
  invoke c s = as_ cm f s -> invoke c (at_ d) = as_ (tx body) g (at_ d) ->
  cm s = (Ok a, s') -> body (at_ d) = (Ok b, at_ d') -> sameAnswer (f a) (g b) -> simR (n + 1) s' d' ->
  simulates n s d c.
Proof. intros Hm Hp Hcm Hb Hsame HR'. eapply simulates_as; [exact Hm|exact Hp|exact Hcm|by apply tx_sound|done|done]. Qed.

Lemma simulates_rollback {A B} c (cm : St Store A) (body : St (Session DB) B) f g e s' d' :
  invoke c s = as_ cm f s -> invoke c (at_ d) = as_ (tx body) g (at_ d) ->
  cm s = (Err e, s') -> body (at_ d) = (Err e, at_ d') -> simR n s' d -> simulates n s d c.
Proof.
  intros Hm Hp Hcm Hb HR'. eapply simulates_as; [exact Hm|exact Hp|exact Hcm|eapply tx_rollback, Hb|done|by apply later].
Qed.

Lemma sim_WriteTuples p t ins del : okWrite p t ins del -> simulates n s d (CWriteTuples p t ins del).
Proof.
  intros Hok. destruct (write_sound n s d p t ins del HR Hok Hn) as (d' & Hw & HR').
  eapply simulates_commit; [reflexivity|reflexivity|reflexivity|exact Hw|done|exact HR'].
Qed.

(** A table with one index, its primary key. *)
Lemma insert_sound {K R} `{Countable K} args (table : DB -> gmap K R) on k (r : R) :
  forallb validText args = true ->
  alreadyExists (run args (insertInto table on k r noOtherIndex)) (at_ d)
  = match table d !! k with Some _ => (Err ErrAlreadyExists, at_ d) | None => (Ok tt, at_ (on (<[k := r]>) d)) end.
Proof.
  intros Ha. unfold alreadyExists, bind, attempt. rewrite run_sound by done. unfold insertInto. by destruct (table d !! k).
Qed.

Lemma update_sound {K R} `{Countable K} args (table : DB -> gmap K R) on k (set : R -> R) conflicts :
  forallb validText args = true -> conflicts (table d) = false ->
  (let! m := run args (updateRow table on k set conflicts) in affected m) (at_ d)
  = match table d !! k with Some r => (Ok tt, at_ (on (<[k := set r]>) d)) | None => (Err ErrNotFound, at_ d) end.
Proof.
  intros Ha Hc. unfold bind. rewrite run_sound by done. unfold updateRow. destruct (table d !! k); [|done]. by rewrite Hc.
Qed.

(** A row is created when its key is free. *)
Lemma simulates_create {K V W} `{Countable K} c (row : option V) (created missed : Store) args (table : DB -> gmap K W) on k
    (stored : V -> W) (new : W) :
  okTexts args -> table d !! k = stored <$> row ->
  invoke c s = (match row with Some _ => (Err ErrAlreadyExists, missed) | None => (Ok AUnit, created) end) ->
  invoke c (at_ d) = as_ (alreadyExists (run args (insertInto table on k new noOtherIndex))) unit_ (at_ d) ->
  simR n missed d -> (row = None -> simR n created (on (<[k := new]>) d)) -> simulates n s d c.
Proof.
  intros Ht Hget Hm Hp Hmiss Hnew. unfold simulates. rewrite Hm, Hp. unfold as_, bind. rewrite insert_sound by done.
  rewrite Hget. destruct row; simpl; eexists; (split; [reflexivity|]); split; [done| |done|]; apply later; auto.
Qed.

(** A row is updated when its key is there. *)
Lemma simulates_update {K V W} `{Countable K} c (row : option V) (updated : Store) args (table : DB -> gmap K W) on k
    (stored : V -> W) (set : W -> W) conflicts :
  okTexts args -> table d !! k = stored <$> row -> conflicts (table d) = false ->
  invoke c s = (match row with Some _ => (Ok AUnit, updated) | None => (Err ErrNotFound, s) end) ->
  invoke c (at_ d) = as_ (let! m := run args (updateRow table on k set conflicts) in affected m) unit_ (at_ d) ->
  (forall v, row = Some v -> simR n updated (on (<[k := set (stored v)]>) d)) -> simulates n s d c.
Proof.
  intros Ht Hget Hc Hm Hp Hupd. unfold simulates. rewrite Hm, Hp. unfold as_ at 1 2. unfold bind at 1 3.
  rewrite update_sound by done. rewrite Hget.
  destruct row; simpl; eexists; (split; [reflexivity|]); split; [done| |done|]; apply later; auto.
Qed.

(** The memory side of a creation or an update, by the row it finds. *)
#[local] Ltac by_row row :=
  simpl; unfold as_, bind, look2; unfold Memory.CreateInvitation, Memory.CreateGroup, Memory.CreateProject, Memory.CreateWorkspace,
    Memory.UpdateInvitation, Memory.UpdateProject, Memory.UpdateWorkspace; simpl; rewrite ?inner_ensure;
  let r := eval cbv beta delta [look2 fst snd] iota in row in destruct r; reflexivity.

Section Rows2.
Context (p t : string) (Hp : idOK p).
#[local] Abbreviation sk := (scope p t).

Lemma ensure_invitations : simR n (set_invitations (ensureInner sk) s) d.
Proof.
  destruct HR. split; try done. eapply tableR_ext; [|exact sim_invitations]. intros pos. apply look2_ensure.
Qed.
Lemma ensure_groups : simR n (set_groups (ensureInner sk) s) d.
Proof. destruct HR. split; try done. eapply tableR_ext; [|exact sim_groups]. intros pos. apply look2_ensure. Qed.
Lemma ensure_workspaces : simR n (set_workspaces (ensureInner sk) s) d.
Proof. destruct HR. split; try done. eapply tableR_ext; [|exact sim_workspaces]. intros pos. apply look2_ensure. Qed.
End Rows2.

Lemma put_invitation s1 i : simR n s1 d -> idOK (inv_ProjectID i) ->
  simR n (set_invitations (put2 (scope (inv_ProjectID i) (inv_TenantID i)) (inv_ID i) i) s1)
         (on_invitations (<[invitationKey i := storedInvitation i]>) d).
Proof.
  intros HR1 Hp. apply sim_set_invitations; [done|].
  eapply (tableR_insert _ _ _ (fun _ => storedInvitation) pos2_inj); [exact Hp|done| |exact (sim_invitations _ _ _ HR1)].
  intros pos. apply look2_put.
Qed.
Lemma put_group s1 g : simR n s1 d -> idOK (g_ProjectID g) ->
  simR n (set_groups (put2 (scope (g_ProjectID g) (g_TenantID g)) (g_ID g) g) s1)
         (on_groups (<[groupKey g := storedGroup g]>) d).
Proof.
  intros HR1 Hp. apply sim_set_groups; [done|].
  eapply (tableR_insert _ _ _ (fun _ => storedGroup) pos2_inj); [exact Hp|done| |exact (sim_groups _ _ _ HR1)].
  intros pos. apply look2_put.
Qed.

Lemma sim_CreateInvitation i : okTexts (invitationArgs i) -> simulates n s d (CCreateInvitation i).
Proof.
  intros Ht. pose proof (okTexts_idOK _ _ Ht) as Hp.
  eapply (simulates_create _ (look2 (invitations s) (scope (inv_ProjectID i) (inv_TenantID i), inv_ID i)));
    [exact Ht| |by_row (look2 (invitations s) (scope (inv_ProjectID i) (inv_TenantID i), inv_ID i))|reflexivity| |].
  - exact (R_get _ _ _ _ _ _ (sim_invitations _ _ _ HR) (invitationKey i) Hp).
  - apply ensure_invitations.
  - intros _. apply put_invitation; [apply ensure_invitations|done].
Qed.

Lemma sim_UpdateInvitation i : okTexts (invitationArgs i) -> simulates n s d (CUpdateInvitation i).
Proof.
  intros Ht. pose proof (okTexts_idOK _ _ Ht) as Hp.
  eapply (simulates_update _ (look2 (invitations s) (scope (inv_ProjectID i) (inv_TenantID i), inv_ID i)));
    [exact Ht| | |by_row (look2 (invitations s) (scope (inv_ProjectID i) (inv_TenantID i), inv_ID i))|reflexivity|].
  - exact (R_get _ _ _ _ _ _ (sim_invitations _ _ _ HR) (invitationKey i) Hp).
  - done.
  - intros v _. by apply put_invitation.
Qed.

Lemma sim_CreateGroup g : storable s (CCreateGroup g) -> simulates n s d (CCreateGroup g).
Proof.
  intros Ht. pose proof (okTexts_idOK _ _ Ht) as Hp.
  eapply (simulates_create _ (look2 (groups s) (scope (g_ProjectID g) (g_TenantID g), g_ID g)));
    [exact Ht| |by_row (look2 (groups s) (scope (g_ProjectID g) (g_TenantID g), g_ID g))|reflexivity| |].
  - exact (R_get _ _ _ _ _ _ (sim_groups _ _ _ HR) (groupKey g) Hp).
  - apply ensure_groups.
  - intros _. apply put_group; [apply ensure_groups|done].
Qed.

(** **** Projects *)
Lemma withJsonb_sound {A} args b (q : sql A) : validJsonb b = true -> run args (withJsonb b q) (at_ d) = run args q (at_ d).
Proof. intros Hb. unfold run, withJsonb. simpl. by rewrite Hb. Qed.

Lemma put_project p : storableProject p ->
  simR n (set_projects (<[p_ID p := p]>) s) (on_projects (<[p_ID p := storedProject p]>) d).
Proof.
  intros Hok. apply sim_set_projects; [done|].
  eapply (tableR_insert (fun k : string => k) _ _ (fun _ => storedProject) (fun _ _ _ _ Hk => Hk));
    [done|done| |exact (sim_projects _ _ _ HR)].
  intros pos. case_decide as Hk; [by rewrite Hk, lookup_insert_eq|by rewrite lookup_insert_ne].
Qed.

Lemma sim_CreateProject p : storableProject p -> simulates n s d (CCreateProject p).
Proof.
  intros Hok. destruct (encodeProjectConfig_ok p Hok) as (b & Hb & Hv & _).
  eapply (simulates_create _ (projects s !! p_ID p) _ _ [p_ID p; p_Name p; p_Status p] tbl_projects on_projects (p_ID p)
            storedProject (storedProject p)).
  - destruct Hok as [Ht _]. unfold okTexts in *. simpl in *. rewrite !andb_true_iff in *. tauto.
  - exact (R_get _ _ _ _ _ _ (sim_projects _ _ _ HR) (p_ID p) I).
  - by_row (projects s !! p_ID p).
  - simpl. unfold as_, bind at 1 2, Postgres.CreateProject, bind at 1, lift, alreadyExists, bind at 1 2, attempt. rewrite Hb.
    rewrite withJsonb_sound by done. unfold storedProject. by rewrite Hb.
  - done.
  - intros _. by apply put_project.
Qed.

Lemma sim_UpdateProject p : storable s (CUpdateProject p) -> simulates n s d (CUpdateProject p).
Proof.
  intros [Hok Hcreated]. destruct (encodeProjectConfig_ok p Hok) as (b & Hb & Hv & _).
  eapply (simulates_update _ (projects s !! p_ID p) _ [p_ID p; p_Name p; p_Status p] tbl_projects on_projects (p_ID p)
            storedProject (fun r => mkProjectRow (pr_id r) (p_Name p) (p_Status p) b (pr_created_at r) (timestamptz (p_UpdatedAt p)))
            noOtherIndex).
  - destruct Hok as [Ht _]. unfold okTexts in *. simpl in *. rewrite !andb_true_iff in *. tauto.
  - exact (R_get _ _ _ _ _ _ (sim_projects _ _ _ HR) (p_ID p) I).
  - done.
  - by_row (projects s !! p_ID p).
  - simpl. unfold as_, bind at 1 3, Postgres.UpdateProject, bind at 1, lift. rewrite Hb. unfold bind at 1 2.
    by rewrite withJsonb_sound.
  - intros old Hold. replace (mkProjectRow _ _ _ _ _ _) with (storedProject p); [by apply put_project|].
    destruct (R_pos _ _ _ _ _ _ (sim_projects _ _ _ HR) _ _ Hold) as (k & _ & Hk & -> & _).
    unfold storedProject. simpl. by rewrite Hb, Hk, (Hcreated old Hold).
Qed.

(** **** Workspaces *)
Lemma personalConflict_spec w T : personalConflict w T = true <->
  w_Type w = "personal" /\ exists k w', T !! k = Some w' /\ k <> workspaceKey w /\ w_ProjectID w' = w_ProjectID w /\
    w_TenantID w' = w_TenantID w /\ w_OwnerUserID w' = w_OwnerUserID w /\ w_Type w' = "personal".
Proof.
  unfold personalConflict, personalRow. rewrite andb_true_iff, String.eqb_eq, existsb_Exists, Exists_exists. split.
  - intros [Hty ([k w'] & Hin%elem_of_map_to_list & Hb)]. simpl in Hb.
    rewrite !andb_true_iff, inShard_spec, !String.eqb_eq, negb_true_iff, bool_decide_eq_false in Hb. naive_solver.
  - intros [Hty (k & w' & Hk & Hne & ? & ? & ? & ?)]. split; [done|]. exists (k, w').
    split; [by apply elem_of_map_to_list|]. simpl.
    rewrite !andb_true_iff, inShard_spec, !String.eqb_eq, negb_true_iff, bool_decide_eq_false. naive_solver.
Qed.

(** The rows of a shard with a given owner, in both stores. *)
Lemma personal_rows w : idOK (w_ProjectID w) ->
  (exists k w', tbl_workspaces d !! k = Some w' /\ k <> workspaceKey w /\ w_ProjectID w' = w_ProjectID w /\
     w_TenantID w' = w_TenantID w /\ w_OwnerUserID w' = w_OwnerUserID w /\ w_Type w' = "personal") <->
  exists id w', look2 (workspaces s) (scope (w_ProjectID w) (w_TenantID w), id) = Some w' /\ id <> w_ID w /\
     w_OwnerUserID w' = w_OwnerUserID w /\ w_Type w' = "personal".
Proof.
  intros Hp. pose proof (sim_workspaces _ _ _ HR) as HT. split.
  - intros (k & w' & Hk & Hne & HP & HTn & Ho & Hty). pose proof (R_key _ _ _ _ _ _ HT _ _ Hk) as Hok.
    rewrite (R_get _ _ _ _ _ _ HT) in Hk by done. apply fmap_Some in Hk as (w0 & Hw0 & ->).
    pose proof (R_val _ _ _ _ pos2_inj _ _ _ _ HT Hok Hw0) as ->. simpl in *. unfold workspaceKey in *. simpl in *.
    rewrite HP, HTn in Hw0. exists (w_ID w0), w0. split_and!; [done| |done..]. intros Hid. apply Hne. congruence.
  - intros (id & w' & Hw & Hne & Ho & Hty).
    pose proof (R_get _ _ _ _ _ _ HT (w_ProjectID w, w_TenantID w, id) Hp) as Hk. unfold pos2 in Hk. rewrite Hw in Hk.
    pose proof (R_val _ _ _ _ pos2_inj _ _ (w_ProjectID w, w_TenantID w, id) _ HT Hp Hw) as Heq. injection Heq as HP HTn HID.
    eexists _, _. split; [exact Hk|]. simpl. unfold workspaceKey. naive_solver.
Qed.

Lemma put_workspace s1 w : simR n s1 d -> idOK (w_ProjectID w) -> personalConflict w (tbl_workspaces d) = false ->
  simR n (set_workspaces (put2 (scope (w_ProjectID w) (w_TenantID w)) (w_ID w) w) s1)
         (on_workspaces (<[workspaceKey w := storedWorkspace w]>) d).
Proof.
  intros HR1 Hp Hc. apply sim_set_workspaces; [done|..].
  - eapply (tableR_insert _ _ _ (fun _ => storedWorkspace) pos2_inj); [exact Hp|done| |exact (sim_workspaces _ _ _ HR1)].
    intros pos. apply look2_put.
  - assert (Hno : forall k w', tbl_workspaces d !! k = Some w' -> k <> workspaceKey w -> w_Type w = "personal" ->
      w_Type w' = "personal" -> w_ProjectID w' = w_ProjectID w -> w_TenantID w' = w_TenantID w ->
      w_OwnerUserID w' = w_OwnerUserID w -> False).
    { intros k w' Hk Hne Hty Hty' HP HT Ho. apply not_true_iff_false in Hc. apply Hc, personalConflict_spec. eauto 10. }
    intros k k' w1 w2. rewrite !lookup_insert. repeat case_decide; intros; simplify_eq; [done|exfalso|exfalso|].
    + eapply (Hno k'); eauto; simpl in *; congruence.
    + eapply (Hno k); eauto; simpl in *; congruence.
    + eapply (sim_personal _ _ _ HR1); eauto.
Qed.

(** The two ways of looking for a personal workspace in the way agree. *)
Lemma personal_agree w : idOK (w_ProjectID w) ->
  look2 (workspaces s) (scope (w_ProjectID w) (w_TenantID w), w_ID w) = None ->
  (String.eqb (w_Type w) TypePersonal && existsb (isPersonalOf (w_OwnerUserID w))
     (rangeValues (inner (workspaces s) (scope (w_ProjectID w) (w_TenantID w)))))
  = personalConflict w (tbl_workspaces d).
Proof.
  intros Hp Hnone. apply Bool.eq_iff_eq_true. rewrite personalConflict_spec, (personal_rows w Hp).
  rewrite andb_true_iff, String.eqb_eq, existsb_Exists, Exists_exists. apply and_iff_compat_l. split.
  - intros (w' & Hin & Hw'). rewrite rangeValues_perm, list_elem_of_fmap in Hin.
    destruct Hin as ([id w0] & -> & Hw0%elem_of_map_to_list). unfold isPersonalOf in Hw'.
    rewrite andb_true_iff, !String.eqb_eq in Hw'. destruct Hw' as [Hty Ho]. exists id, w0. unfold look2 in *. simpl in *.
    split_and!; [done|congruence|done|done].
  - intros (id & w' & Hw' & _ & Ho & Hty). exists w'. split.
    + rewrite rangeValues_perm, list_elem_of_fmap. exists (id, w'). split; [done|]. by apply elem_of_map_to_list.
    + unfold isPersonalOf. by rewrite andb_true_iff, !String.eqb_eq.
Qed.

Lemma sim_CreateWorkspace w : okTexts (workspaceArgs w) -> simulates n s d (CCreateWorkspace w).
Proof.
  intros Ht. pose proof (okTexts_idOK _ _ Ht) as Hp.
  pose proof (R_get _ _ _ _ _ _ (sim_workspaces _ _ _ HR) (workspaceKey w) Hp) as Hget. simpl in Hget.
  pose proof (ensure_workspaces (w_ProjectID w) (w_TenantID w)) as HR1. pose proof (personal_agree w Hp) as Hagree.
  unfold simulates, invoke. simpl. unfold as_, bind, Memory.CreateWorkspace, Postgres.CreateWorkspace, alreadyExists, bind, attempt.
  simpl. rewrite inner_ensure, run_sound by exact Ht. unfold insertInto. fold (workspaceKey w). rewrite Hget.
  unfold look2 in *. simpl in *.
  destruct (inner (workspaces s) (scope (w_ProjectID w) (w_TenantID w)) !! w_ID w) as [w0|]; simpl.
  { exists d. split_and!; [done..|]. by apply later. }
  rewrite (Hagree eq_refl). destruct (personalConflict w (tbl_workspaces d)) eqn:Hc; simpl.
  - exists d. split_and!; [done..|]. by apply later.
  - eexists. split_and!; [reflexivity|done|]. apply later. by apply put_workspace.
Qed.

Lemma sim_UpdateWorkspace w : storable s (CUpdateWorkspace w) -> simulates n s d (CUpdateWorkspace w).
Proof.
  intros [Ht Hother]. pose proof (okTexts_idOK _ _ Ht) as Hp.
  assert (Hc : personalConflict w (tbl_workspaces d) = false).
  { apply not_true_iff_false. rewrite personalConflict_spec, (personal_rows w Hp).
    intros [Hty (id & w' & Hw' & Hne & Ho & Hty')]. apply Hne. by eapply Hother. }
  eapply (simulates_update _ (look2 (workspaces s) (scope (w_ProjectID w) (w_TenantID w), w_ID w)));
    [exact Ht| |exact Hc|by_row (look2 (workspaces s) (scope (w_ProjectID w) (w_TenantID w), w_ID w))|reflexivity|].
  - exact (R_get _ _ _ _ _ _ (sim_workspaces _ _ _ HR) (workspaceKey w) Hp).
  - intros v _. by apply put_workspace.
Qed.

(** **** Memberships *)
Lemma put_membership m : okMembership m ->
  exists d', putMembershipExec m (at_ d) = (Ok tt, at_ d') /\ simR n (putMembershipLocked m s) d'.
Proof.
  intros Ht. pose proof (okTexts_idOK _ _ Ht) as Hp. unfold putMembershipExec. rewrite run_sound by exact Ht.
  eexists. split; [reflexivity|]. apply (sim_set_memberships n s d); [done|].
  eapply (tableR_insert _ _ _ (fun _ => storedMembership) pos3_inj _ _ _ (membershipKey m));
    [exact Hp|done| |exact (sim_memberships _ _ _ HR)].
  intros pos. apply look3_put.
Qed.

Lemma sim_PutMembership m : okMembership m -> simulates n s d (CPutMembership m).
Proof.
  intros Ht. destruct (put_membership m Ht) as (d' & Hr & HR').
  eapply simulates_as; [reflexivity|reflexivity|reflexivity|exact Hr|done|by apply later].
Qed.

Lemma sim_PutMembershipAndTuples m ins del : storable s (CPutMembershipAndTuples m ins del) ->
  simulates n s d (CPutMembershipAndTuples m ins del).
Proof.
  intros [Ht Hw]. destruct (put_membership m Ht) as (d1 & Hr1 & HR1).
  destruct (write_sound _ _ _ _ _ _ _ HR1 Hw Hn) as (d2 & Hr2 & HR2).
  eapply simulates_commit; [reflexivity|reflexivity|reflexivity| |done|exact HR2].
  rewrite (bind_sound _ _ _ _ _ Hr1). exact Hr2.
Qed.

Lemma membership_clause p t ws u k m : idOK p -> okShard k.1 -> k = membershipKey m ->
  (inShard p t (mb_ProjectID m) (mb_TenantID m) && String.eqb (mb_WorkspaceID m) ws && String.eqb (mb_UserID m) u)
  = bool_decide (k = (p, t, ws, u)).
Proof.
  intros _ _ ->. apply Bool.eq_iff_eq_true. rewrite bool_decide_eq_true, !andb_true_iff, inShard_spec, !String.eqb_eq.
  unfold membershipKey. naive_solver.
Qed.

(** The statement that deletes one membership. *)
Lemma delete_membership p t ws u : okTexts [p; t; ws; u] ->
  match membershipRow s p t ws u with
  | None => deleteMembershipExec p t ws u (at_ d) = (Err ErrNotFound, at_ d)
  | Some _ => exists d', deleteMembershipExec p t ws u (at_ d) = (Ok tt, at_ d') /\
      simR n (set_memberships (alter (alter (delete u) ws) (scope p t)) s) d'
  end.
Proof.
  intros Ht. pose proof (okTexts_idOK _ _ Ht) as Hp. unfold deleteMembershipExec, bind. rewrite run_sound by exact Ht.
  unfold deleteFrom. set (where_ := fun m : Membership => _).
  destruct (tableR_delete_key _ _ _ _ pos3_inj _ _ (p, t, ws, u) where_ Hp (sim_memberships _ _ _ HR)) as [Hdel Hcount].
  { intros k m Hk Hm. by apply membership_clause. }
  change (look3 (memberships s) (pos3 (p, t, ws, u))) with (membershipRow s p t ws u) in Hcount.
  rewrite Hcount. destruct (membershipRow s p t ws u) as [m|] eqn:Hrow.
  - eexists. split; [reflexivity|]. apply sim_set_memberships; [done|].
    eapply tableR_delete; [exact pos3_inj| | |exact (sim_memberships _ _ _ HR)].
    + intros k m' Hk Hm' Hl. rewrite look3_delete.
      rewrite (membership_clause p t ws u k m' Hp Hk Hm' : where_ (storedMembership m') = _).
      case_decide as Hd; case_bool_decide as Hb; [done| | |done].
      * exfalso. apply Hb. by apply pos3_inj.
      * exfalso. apply Hd. by rewrite Hb.
    + intros pos Hl. rewrite look3_delete. by case_decide.
  - pose proof (R_get _ _ _ _ _ _ (sim_memberships _ _ _ HR) (p, t, ws, u) Hp) as Hnone.
    change (look3 (memberships s) (pos3 (p, t, ws, u))) with (membershipRow s p t ws u) in Hnone. rewrite Hrow in Hnone.
    rewrite delete_id in Hdel by exact Hnone. unfold affected, fail. simpl. f_equal. f_equal.
    destruct d. unfold on_memberships. by f_equal.
Qed.
End Methods.
End Writes.
