(* ===== verification/PgSimMore.v ===== *)
(** * The postgres driver against the in-memory store: deletions, enrollments and
      seats, and the simulation of every call *)

From stdpp Require Import base gmap strings list sorting.
From Stdlib Require Import ZArith Lia Ascii SpecFloat.
From S2P Require Import Prelude Conditions Model Types ModelJson ModelJsonTheorems Memory MemoryKeys MemoryTheorems.
From S2P Require Import WorkspaceInv WorkspaceSteps SeatTheorems.
From S2P Require Import Repository RepoCalls Sql PgTable PgRel PgSim PgSimTuples PgSimWrites.
From S2P Require Import Postgres PostgresConformance.
#[local] Open Scope Z_scope.

Section More.
Context `{MapRange} `{Database} `{!JsonbLaws}.
#[local] Abbreviation at_ d := (mkSession (D := DB) d []).

Lemma deleteFrom_sound {K R} `{Countable K} args (table : DB -> gmap K R) on where_ d : okTexts args ->
  run args (deleteFrom table on where_) (at_ d)
  = (Ok (deleteWhere where_ (table d)).1, at_ (on (fun t => (deleteWhere where_ t).2) d)).
Proof. intros Ha. by rewrite run_sound. Qed.

(** ** Deletions that the tables share *)
Section Delete.
Context (n : Z) (s : Store) (d : DB) (HR : simR n s d) (p t : string) (Hp : idOK p).
#[local] Abbreviation sk := (scope p t).

(** The tuples of an object. *)
Lemma delete_object ns id :
  simR n (set_tuples (alter (filter (fun kv => ~ (t_Namespace kv.2 = ns /\ t_ObjectID kv.2 = id))) sk) s)
    (on_relation_tuples (fun T => (deleteWhere (fun r => tupleIn p t r && String.eqb (tk_namespace (tr_key r)) ns
       && String.eqb (tk_object_id (tr_key r)) id) T).2) d).
Proof.
  apply sim_set_tuples; [done|]. eapply tableR_delete; [exact posTuple_inj| | |exact (sim_tuples _ _ _ HR)].
  - intros k x [Hpk _] [Hkx _] Hl. rewrite Hkx, posTuple_key in Hl |- *. unfold look2 in Hl. simpl in Hl.
    rewrite look2_alter by apply map_filter_empty. unfold tupleIn. simpl.
    rewrite !(proj1 (tupleKeyOf_shard _ _ _)), !(proj2 (tupleKeyOf_shard _ _ _)), tk_namespace_of, tk_object_of.
    destruct (inShard p t _ _ && _ && _) eqn:Hw.
    + rewrite !andb_true_iff, inShard_spec, !String.eqb_eq in Hw. destruct Hw as [[[HP HT] Hns] Hid].
      rewrite HP, HT in Hl |- *. rewrite decide_True by done. apply map_lookup_filter_None. right. intros x' Hx'. rewrite Hl in Hx'. naive_solver.
    + case_decide as Hs; [|unfold look2; done]. rewrite <-Hs. apply map_lookup_filter_Some. split; [done|]. simpl.
      intros [Hns Hid]. apply not_true_iff_false in Hw. apply Hw.
      destruct (scope_inj _ _ _ _ Hpk Hp Hs) as [-> ->]. by rewrite !andb_true_iff, inShard_spec, !String.eqb_eq.
  - intros [sk' j] Hl. rewrite look2_alter by apply map_filter_empty. case_decide as Hs; [|done]. simpl in *.
    apply map_lookup_filter_None. left. by rewrite <-Hs.
Qed.

Lemma delete_members id :
  simR n (set_memberships (alter (delete id) sk) s)
    (on_memberships (fun T => (deleteWhere (fun m => inShard p t (mb_ProjectID m) (mb_TenantID m)
       && String.eqb (mb_WorkspaceID m) id) T).2) d).
Proof.
  apply sim_set_memberships; [done|]. eapply tableR_delete; [exact pos3_inj| | |exact (sim_memberships _ _ _ HR)].
  - intros k m Hk -> Hl. rewrite look3_delete_inner. unfold okShard, membershipKey in *. simpl in *.
    destruct (inShard p t _ _ && _) eqn:Hw.
    + rewrite andb_true_iff, inShard_spec, String.eqb_eq in Hw. destruct Hw as [[HP HT] HW].
      by rewrite HP, HT, HW, decide_True.
    + rewrite decide_False; [done|]. intros [= Hs Hid]. destruct (scope_inj _ _ _ _ Hk Hp Hs) as [HP HT].
      apply not_true_iff_false in Hw. apply Hw. by rewrite andb_true_iff, inShard_spec, String.eqb_eq.
  - intros pos Hl. rewrite look3_delete_inner. by case_decide.
Qed.

Lemma delete_enrollments id :
  simR n (set_enrollments (alter (delete id) sk) s)
    (on_enrollments (fun T => (deleteWhere (fun e => inShard p t (er_project_id e) (er_tenant_id e)
       && String.eqb (er_group_id e) id) T).2) d).
Proof.
  apply sim_set_enrollments; [done|]. eapply tableR_delete; [exact posEnrollment_inj| | |exact (sim_enrollments _ _ _ HR)].
  - intros k e [Hk _] [-> _] Hl. rewrite look3_delete_inner. unfold okShard, enrollmentKey in *. simpl in *.
    destruct (inShard p t _ _ && _) eqn:Hw.
    + rewrite andb_true_iff, inShard_spec, String.eqb_eq in Hw. destruct Hw as [[HP HT] HW].
      by rewrite HP, HT, HW, decide_True.
    + rewrite decide_False; [done|]. intros [= Hs Hid]. destruct (scope_inj _ _ _ _ Hk Hp Hs) as [HP HT].
      apply not_true_iff_false in Hw. apply Hw. by rewrite andb_true_iff, inShard_spec, String.eqb_eq.
  - intros pos Hl. rewrite look3_delete_inner. by case_decide.
Qed.

Lemma delete_invitations id :
  simR n (set_invitations (alter (filter (fun kv => inv_WorkspaceID kv.2 <> id)) sk) s)
    (on_invitations (fun T => (deleteWhere (fun i => inShard p t (inv_ProjectID i) (inv_TenantID i)
       && String.eqb (inv_WorkspaceID i) id) T).2) d).
Proof.
  apply sim_set_invitations; [done|]. eapply tableR_delete; [exact pos2_inj| | |exact (sim_invitations _ _ _ HR)].
  - intros k i Hk -> Hl. rewrite look2_alter by apply map_filter_empty. unfold okShard, look2, invitationKey in *. simpl in *.
    destruct (inShard p t _ _ && _) eqn:Hw.
    + rewrite andb_true_iff, inShard_spec, String.eqb_eq in Hw. destruct Hw as [[HP HT] Hid]. rewrite HP, HT in Hl |- *.
      rewrite decide_True by done. apply map_lookup_filter_None. right. naive_solver.
    + case_decide as Hs; [|done]. rewrite <-Hs. apply map_lookup_filter_Some. split; [done|]. simpl. intros Hid.
      destruct (scope_inj _ _ _ _ Hk Hp Hs) as [HP HT].
      apply not_true_iff_false in Hw. apply Hw. by rewrite andb_true_iff, inShard_spec, String.eqb_eq.
  - intros [sk' j] Hl. rewrite look2_alter by apply map_filter_empty. case_decide as Hs; [|done]. unfold look2 in *. simpl in *.
    apply map_lookup_filter_None. left. by rewrite <-Hs.
Qed.
End Delete.

Lemma personalUnique_delete (where_ : Workspace -> bool) T : personalUnique T -> personalUnique (deleteWhere where_ T).2.
Proof.
  intros HP k k' w w' [Hk _]%map_lookup_filter_Some [Hk' _]%map_lookup_filter_Some. by apply HP.
Qed.

(** Dropping the entry at one position, on either side. *)
Lemma look2_drop {B} (m : gmap string (gmap string B)) k j pos :
  look2 (alter (delete j) k m) pos = if decide (pos = (k, j)) then None else look2 m pos.
Proof.
  destruct pos as [k' j']. rewrite look2_alter by apply delete_empty. simpl. destruct (decide (k' = k)) as [->|Hk].
  - destruct (decide (j' = j)) as [->|Hj].
    + rewrite decide_True by done. apply lookup_delete_eq.
    + rewrite decide_False by naive_solver. by rewrite lookup_delete_ne.
  - rewrite decide_False by naive_solver. done.
Qed.

Section Methods.
Context (n : Z) (s : Store) (d : DB) (HR : simR n s d) (Hn : n + 1 < 2 ^ 63).

(** The row of one key, deleted from a table with two-part positions. *)
Lemma delete_row2 {V W} (okV : key3 -> V -> Prop) (stored : V -> W) (m : gmap string (gmap string V)) (T : gmap key3 W) (p t id : string) (where_ : W -> bool) :
  tableR pos2 okShard okV (fun _ => stored) (look2 m) T -> idOK p ->
  (forall k v, okShard k -> okV k v -> where_ (stored v) = bool_decide (k = (p, t, id))) ->
  (deleteWhere where_ T).1 = (match inner m (scope p t) !! id with Some _ => 1 | None => 0 end) /\
  tableR pos2 okShard okV (fun _ => stored) (look2 (alter (delete id) (scope p t) m)) (deleteWhere where_ T).2.
Proof.
  intros HT Hp Hw. destruct (tableR_delete_key _ _ _ _ pos2_inj _ _ (p, t, id) where_ Hp HT Hw) as [_ Hcount].
  split; [exact Hcount|]. eapply tableR_delete; [exact pos2_inj| | |exact HT].
  - intros k v Hk Hv Hl. rewrite look2_drop, (Hw k v Hk Hv). case_decide as Hd; case_bool_decide as Hb; [done| | |done].
    + exfalso. apply Hb. by apply pos2_inj.
    + exfalso. apply Hd. by rewrite Hb.
  - intros pos Hl. rewrite look2_drop. by case_decide.
Qed.

Lemma sim_DeleteWorkspace p t id : okTexts [p; t; id] -> simulates n s d (CDeleteWorkspace p t id).
Proof.
  intros Ht. pose proof (okTexts_idOK _ _ Ht) as Hp.
  assert (Ht2 : okTexts [p; t]) by (rewrite !okTexts_cons in *; naive_solver).
  set (where_ := fun w => inShard p t (w_ProjectID w) (w_TenantID w) && String.eqb (w_ID w) id).
  destruct (delete_row2 _ storedWorkspace (workspaces s) (tbl_workspaces d) p t id where_ (sim_workspaces _ _ _ HR) Hp) as [Hcount HT].
  { intros k w Hk ->. apply Bool.eq_iff_eq_true. unfold where_, workspaceKey. simpl.
    rewrite bool_decide_eq_true, andb_true_iff, inShard_spec, String.eqb_eq. naive_solver. }
  destruct (inner (workspaces s) (scope p t) !! id) as [w|] eqn:Hw.
  - pose proof (sim_set_workspaces n s d _ (fun T => (deleteWhere where_ T).2) HR HT
      (personalUnique_delete _ _ (sim_personal _ _ _ HR))) as HR1.
    pose proof (delete_members _ _ _ HR1 p t Hp id) as HR2. pose proof (delete_invitations _ _ _ HR2 p t Hp id) as HR3.
    pose proof (delete_object _ _ _ HR3 p t Hp "workspace" id) as HR4.
    destruct (bump_sound _ _ _ p t HR4 Ht2 Hn) as (d' & Hb & HR5).
    eapply simulates_commit; [reflexivity|reflexivity| | |done|exact HR5].
    + simpl. unfold Memory.DeleteWorkspace. rewrite Hw. reflexivity.
    + rewrite (bind_sound _ _ _ _ _ (deleteFrom_sound _ _ _ _ _ Ht)). fold where_. rewrite Hcount. simpl affected.
      rewrite (bind_sound (affected 1) _ _ tt _ eq_refl).
      rewrite (bind_sound _ _ _ _ _ (deleteFrom_sound _ _ _ _ _ Ht)), (bind_sound _ _ _ _ _ (deleteFrom_sound _ _ _ _ _ Ht)),
        (bind_sound _ _ _ _ _ (deleteFrom_sound _ _ _ _ _ Ht)). exact Hb.
  - eapply simulates_rollback; [reflexivity|reflexivity| | |exact HR].
    + simpl. unfold Memory.DeleteWorkspace. rewrite Hw. reflexivity.
    + rewrite (bind_sound _ _ _ _ _ (deleteFrom_sound _ _ _ _ _ Ht)). fold where_. rewrite Hcount. reflexivity.
Qed.

Lemma sim_DeleteGroup p t id : okTexts [p; t; id] -> simulates n s d (CDeleteGroup p t id).
Proof.
  intros Ht. pose proof (okTexts_idOK _ _ Ht) as Hp.
  assert (Ht2 : okTexts [p; t]) by (rewrite !okTexts_cons in *; naive_solver).
  set (where_ := fun g => inShard p t (g_ProjectID g) (g_TenantID g) && String.eqb (g_ID g) id).
  destruct (delete_row2 _ storedGroup (groups s) (tbl_groups d) p t id where_ (sim_groups _ _ _ HR) Hp) as [Hcount HT].
  { intros k g Hk ->. apply Bool.eq_iff_eq_true. unfold where_, groupKey. simpl.
    rewrite bool_decide_eq_true, andb_true_iff, inShard_spec, String.eqb_eq. naive_solver. }
  destruct (inner (groups s) (scope p t) !! id) as [g|] eqn:Hg.
  - pose proof (sim_set_groups n s d _ (fun T => (deleteWhere where_ T).2) HR HT) as HR1.
    pose proof (delete_object _ _ _ HR1 p t Hp "group" id) as HR2. pose proof (delete_enrollments _ _ _ HR2 p t Hp id) as HR3.
    destruct (bump_sound _ _ _ p t HR3 Ht2 Hn) as (d' & Hb & HR4).
    eapply simulates_commit; [reflexivity|reflexivity| | |done|exact HR4].
    + simpl. unfold Memory.DeleteGroup. rewrite Hg. reflexivity.
    + rewrite (bind_sound _ _ _ _ _ (deleteFrom_sound _ _ _ _ _ Ht)). fold where_. rewrite Hcount.
      rewrite (bind_sound (affected 1) _ _ tt _ eq_refl).
      rewrite (bind_sound _ _ _ _ _ (deleteFrom_sound _ _ _ _ _ Ht)), (bind_sound _ _ _ _ _ (deleteFrom_sound _ _ _ _ _ Ht)).
      exact Hb.
  - eapply simulates_rollback; [reflexivity|reflexivity| | |exact HR].
    + simpl. unfold Memory.DeleteGroup. rewrite Hg. reflexivity.
    + rewrite (bind_sound _ _ _ _ _ (deleteFrom_sound _ _ _ _ _ Ht)). fold where_. rewrite Hcount. reflexivity.
Qed.

Lemma sim_DeleteMembership p t ws u : okTexts [p; t; ws; u] -> simulates n s d (CDeleteMembership p t ws u).
Proof.
  intros Ht. pose proof (delete_membership n s d HR p t ws u Ht) as Hdel.
  destruct (membershipRow s p t ws u) as [m|] eqn:Hrow.
  - destruct Hdel as (d' & Hr & HR').
    eapply simulates_as; [reflexivity|reflexivity| |exact Hr| |apply later; exact HR'].
    + simpl. unfold Memory.DeleteMembership, deleteMembershipLocked. rewrite Hrow. reflexivity.
    + done.
  - eapply simulates_as; [reflexivity|reflexivity| |exact Hdel| |apply later; exact HR].
    + simpl. unfold Memory.DeleteMembership, deleteMembershipLocked. rewrite Hrow. reflexivity.
    + done.
Qed.

Lemma sim_DeleteMembershipAndTuples p t ws u del : storable s (CDeleteMembershipAndTuples p t ws u del) ->
  simulates n s d (CDeleteMembershipAndTuples p t ws u del).
Proof.
  intros [Ht Hw]. pose proof (delete_membership n s d HR p t ws u Ht) as Hdel.
  destruct (membershipRow s p t ws u) as [m|] eqn:Hrow.
  - destruct Hdel as (d1 & Hr1 & HR1). destruct (write_sound _ _ _ _ _ _ _ HR1 Hw Hn) as (d2 & Hr2 & HR2).
    eapply simulates_commit; [reflexivity|reflexivity| | |done|exact HR2].
    + simpl. unfold Memory.DeleteMembershipAndTuples, bind, deleteMembershipLocked. rewrite Hrow. reflexivity.
    + rewrite (bind_sound _ _ _ _ _ Hr1). exact Hr2.
  - eapply simulates_rollback; [reflexivity|reflexivity| | |exact HR].
    + simpl. unfold Memory.DeleteMembershipAndTuples, bind, deleteMembershipLocked. rewrite Hrow. reflexivity.
    + unfold bind. rewrite Hdel. reflexivity.
Qed.

(** ** Enrollments *)
Lemma sim_SetEnrollment e ins del : storable s (CSetEnrollmentAndTuples e ins del) ->
  simulates n s d (CSetEnrollmentAndTuples e ins del).
Proof.
  intros (Ht & [Hm Hmem] & Hw). pose proof (okTexts_idOK _ _ Ht) as Hp. pose proof (MemberKey_kind (en_Member e)) as Hkind.
  assert (HR1 : simR n (set_enrollments (fun es => <[scope (en_ProjectID e) (en_TenantID e) :=
      put2 (en_GroupID e) (memberKeyString (en_Member e)) e (inner es (scope (en_ProjectID e) (en_TenantID e)))]> es) s)
    (on_enrollments (<[enrollmentKey e := storedEnrollment e]>) d)).
  { apply sim_set_enrollments; [done|].
    eapply (tableR_insert _ _ _ (fun _ => storedEnrollment) posEnrollment_inj);
      [split; [exact Hp|exact Hkind]|done| |exact (sim_enrollments _ _ _ HR)].
    intros pos. rewrite look3_put. unfold posEnrollment, enrollmentKey, memberKeyString. simpl.
    by destruct (MemberKey (en_Member e)). }
  destruct (write_sound _ _ _ _ _ _ _ HR1 Hw Hn) as (d2 & Hr2 & HR2).
  unfold enrollmentKey, storedEnrollment in *. destruct (MemberKey (en_Member e)) as [kind id] eqn:Hkey. simpl in *.
  eapply simulates_commit; [reflexivity| |reflexivity| | |exact HR2].
  - simpl. unfold Postgres.SetEnrollmentAndTuples. rewrite Hkey. reflexivity.
  - unfold bind. rewrite run_sound.
    + unfold upsert. exact Hr2.
    + unfold okTexts in *. simpl in *. rewrite !andb_true_iff in *. tauto.
  - done.
Qed.

(** ** Seats *)
Lemma sim_SetSeatLimit p t sku l : storable s (CSetSeatLimit p t sku l) -> simulates n s d (CSetSeatLimit p t sku l).
Proof.
  intros [Ht Hl]. pose proof (okTexts_idOK _ _ Ht) as Hp. destruct l as [z|].
  - eapply simulates_as; [reflexivity|reflexivity|reflexivity| | |].
    + simpl. rewrite run_sound by exact Ht. rewrite Hl. reflexivity.
    + done.
    + apply later. apply sim_set_seatLimits; [done|].
      eapply (tableR_insert _ _ _ (fun _ n => n) pos2_inj _ _ _ (p, t, sku) z); [exact Hp|done| |exact (sim_seatLimits _ _ _ HR)].
      intros pos. apply look2_put.
  - eapply simulates_as; [reflexivity|reflexivity|reflexivity| | |].
    + simpl. rewrite run_sound by exact Ht. reflexivity.
    + done.
    + apply later. apply sim_set_seatLimits; [done|]. pose proof (sim_seatLimits _ _ _ HR) as [H1' H2' H3']. split.
      * intros pos v. rewrite look2_drop. case_decide; [done|]. apply H1'.
      * intros k Hk. rewrite look2_drop. case_decide as Hd.
        -- rewrite (pos2_inj k (p, t, sku) Hk Hp Hd). apply lookup_delete_eq.
        -- rewrite lookup_delete_ne; [by apply H2'|]. intros <-. by apply Hd.
      * intros k w [_ Hk]%lookup_delete_Some. by eapply H3'.
Qed.

Lemma ensure_seats sk sku : simR n (set_seatAssigns (fun m => <[sk := ensureInner sku (inner m sk)]> m) s) d.
Proof.
  destruct HR. split; try done. eapply tableR_ext; [|exact sim_seats]. intros [[sk' sku'] u]. unfold look3. simpl.
  apply lookup_ensure3.
Qed.

Lemma put_seat s1 a : simR n s1 d -> idOK (sa_ProjectID a) ->
  simR n (set_seatAssigns (fun m => <[scope (sa_ProjectID a) (sa_TenantID a) :=
            put2 (sa_SKU a) (sa_UserID a) a (inner m (scope (sa_ProjectID a) (sa_TenantID a)))]> m) s1)
         (on_seat_assignments (<[seatKey a := storedSeat a]>) d).
Proof.
  intros HR1 Hp. apply sim_set_seats; [done|].
  eapply (tableR_insert _ _ _ (fun _ => storedSeat) pos3_inj); [exact Hp|done| |exact (sim_seats _ _ _ HR1)].
  intros pos. apply look3_put.
Qed.

(** The cap, read in two statements. *)
Definition seatsFull (s1 : Store) (sk sku : string) : bool :=
  match inner (seatLimits s1) sk !! sku with
  | Some z => z <=? Z.of_nat (size (inner (inner (seatAssigns s1) sk) sku))
  | None => false
  end.

Lemma seatCheck_sound s1 p t sku (k : St (Session DB) bool) : simR n s1 d -> okTexts [p; t; sku] ->
  (let! limit := selectSeatLimit p t sku in
   do! match limit with
       | None => ret tt
       | Some z => let! used := countSeats p t sku in if z <=? used then fail ErrResourceExhausted else ret tt
       end in k) (at_ d) = if seatsFull s1 (scope p t) sku then (Err ErrResourceExhausted, at_ d) else k (at_ d).
Proof.
  intros HR1 Ht. rewrite (bind_sound _ _ _ _ _ (selectSeatLimit_sound n s1 d HR1 p t sku Ht)). unfold seatsFull.
  destruct (inner (seatLimits s1) (scope p t) !! sku) as [z|]; [|done]. unfold bind at 1 2.
  rewrite (countSeats_sound n s1 d HR1 p t sku Ht). by destruct (z <=? _).
Qed.

Lemma sim_AssignSeat a tu : storable s (CAssignSeatAndTuple a tu) -> simulates n s d (CAssignSeatAndTuple a tu).
Proof.
  intros [Ht Hw]. set (p := sa_ProjectID a) in *. set (t := sa_TenantID a) in *. set (sku := sa_SKU a) in *. set (u := sa_UserID a) in *.
  pose proof (okTexts_idOK _ _ Ht) as Hp. set (sk := scope p t).
  assert (Ht4 : okTexts [p; t; sku; u]) by (rewrite !okTexts_cons in *; naive_solver).
  assert (Ht3 : okTexts [p; t; sku]) by (rewrite !okTexts_cons in *; naive_solver).
  assert (Htl : okTexts [seatLockKey p t sku]) by (rewrite !okTexts_cons in *; naive_solver).
  set (s1 := set_seatAssigns (fun m => <[sk := ensureInner sku (inner m sk)]> m) s).
  pose proof (ensure_seats sk sku) as HR1. fold s1 in HR1.
  assert (Hget : tbl_seat_assignments d !! (p, t, sku, u) = storedSeat <$> inner (inner (seatAssigns s1) sk) sku !! u)
    by exact (R_get _ _ _ _ _ _ (sim_seats _ _ _ HR1) (seatKey a) Hp).
  unfold simulates, invoke. simpl.
  assert (Hstart : forall k : bool -> St (Session DB) bool,
    (do! run [seatLockKey p t sku] (query (fun _ => tt)) in
     let! exists_ := run [p; t; sku; u] (query (fun d => isSome (tbl_seat_assignments d !! (p, t, sku, u)))) in k exists_) (at_ d)
    = k (isSome (inner (inner (seatAssigns s1) sk) sku !! u)) (at_ d)).
  { intros k. unfold bind at 1. rewrite query_sound by exact Htl. unfold bind. rewrite query_sound by exact Ht4. rewrite Hget.
    by destruct (inner (inner (seatAssigns s1) sk) sku !! u). }
  destruct (inner (inner (seatAssigns s1) sk) sku !! u) as [a0|] eqn:Hheld.
  - destruct (write_sound _ _ _ _ _ _ _ HR1 Hw Hn) as (d2 & Hr2 & HR2).
    eapply (simulates_commit n s d (CAssignSeatAndTuple a tu)); [reflexivity|reflexivity| | | |exact HR2].
    + simpl. unfold Memory.AssignSeatAndTuple. fold p t sku u sk s1. rewrite Hheld. reflexivity.
    + fold p t sku u. rewrite Hstart. simpl. rewrite (bind_sound _ _ _ _ _ Hr2). reflexivity.
    + done.
  - pose proof (fun k => seatCheck_sound s1 p t sku k HR1 Ht3) as Hcheck. fold sk in Hcheck. set (full := seatsFull s1 sk sku) in *.
    assert (Hmem : Memory.AssignSeatAndTuple a tu s = if full then (Err ErrResourceExhausted, s1) else
      (Ok false, writeTuplesLocked p t [tu] [] (set_seatAssigns (fun m => <[sk := put2 sku u a (inner m sk)]> m) s1)))
      by (unfold Memory.AssignSeatAndTuple; fold p t sku u sk s1; rewrite Hheld; reflexivity).
    clearbody full. destruct full.
    + eapply (simulates_rollback n s d (CAssignSeatAndTuple a tu)); [reflexivity|reflexivity| | |exact HR1].
      * exact Hmem.
      * fold p t sku u. rewrite Hstart. simpl. rewrite Hcheck. reflexivity.
    + pose proof (put_seat s1 a HR1 Hp) as HR2. fold p t sku u sk in HR2.
      destruct (write_sound _ _ _ _ _ _ _ HR2 Hw Hn) as (d3 & Hr3 & HR3).
      eapply (simulates_commit n s d (CAssignSeatAndTuple a tu)); [reflexivity|reflexivity| | | |exact HR3].
      * exact Hmem.
      * fold p t sku u. rewrite Hstart. simpl. rewrite Hcheck. unfold bind at 1. rewrite run_sound by exact Ht4.
        unfold insertInto. rewrite Hget. simpl. rewrite (bind_sound _ _ _ _ _ Hr3). reflexivity.
      * done.
Qed.

Lemma sim_RevokeSeat p t sku u tu : storable s (CRevokeSeatAndTuple p t sku u tu) ->
  simulates n s d (CRevokeSeatAndTuple p t sku u tu).
Proof.
  intros [Ht Hw]. pose proof (okTexts_idOK _ _ Ht) as Hp.
  assert (HR1 : simR n (set_seatAssigns (alter (alter (delete u) sku) (scope p t)) s)
    (on_seat_assignments (fun T => (deleteWhere (fun a => seatRow p t sku a && String.eqb (sa_UserID a) u) T).2) d)).
  { apply sim_set_seats; [done|]. eapply tableR_delete; [exact pos3_inj| | |exact (sim_seats _ _ _ HR)].
    - intros k a Hk Ha Hl. rewrite look3_delete. destruct (seatRow p t sku (storedSeat a) && _) eqn:Hc.
      + apply andb_true_iff in Hc as [Hs Hu%String.eqb_eq]. apply (seatRow_spec p t sku k a Hp Hk Ha) in Hs as [u' Hpos].
        rewrite Hpos. rewrite Ha in Hpos. injection Hpos as _ _ <-. simpl in Hu. by rewrite Hu, decide_True.
      + rewrite decide_False; [done|]. intros Hpos. apply not_true_iff_false in Hc. apply Hc, andb_true_iff.
        split; [apply (seatRow_spec p t sku k a Hp Hk Ha); eauto|]. rewrite Ha in Hpos. injection Hpos as _ _ Hu.
        simpl. by apply String.eqb_eq.
    - intros pos Hl. rewrite look3_delete. by case_decide. }
  destruct (write_sound _ _ _ _ _ _ _ HR1 Hw Hn) as (d2 & Hr2 & HR2).
  eapply simulates_commit; [reflexivity|reflexivity|reflexivity| | |exact HR2].
  - rewrite (bind_sound _ _ _ _ _ (deleteFrom_sound _ _ _ _ _ Ht)). exact Hr2.
  - done.
Qed.

(** ** Deprovisioning *)
Lemma delete_subject p u : idOK p ->
  simR n (set_tuples (dropSubjectTuples p u) s) (on_relation_tuples (fun T => (deleteWhere (subjectRow p u) T).2) d).
Proof.
  intros Hp. apply sim_set_tuples; [done|]. eapply tableR_delete; [exact posTuple_inj| | |exact (sim_tuples _ _ _ HR)].
  - intros k x [Hpk _] [Hkx Hok] Hl. rewrite Hkx, posTuple_key in Hl |- *. unfold look2 in *. simpl in *.
    rewrite inner_dropSubjectTuples. destruct (subjectRow p u _) eqn:Hw.
    + pose proof (subjectRow_in _ _ _ _ Hw) as HP. rewrite (proj1 (tupleKeyOf_shard _ _ _)) in HP. rewrite HP in Hl, Hw |- *.
      rewrite (proj2 (inProject_scope p p (tk_tenant_id k) Hp Hp) eq_refl). apply map_lookup_filter_None. right.
      intros x' Hx'. rewrite Hl in Hx'. injection Hx' as <-. simpl. rewrite subjectRow_of in Hw by done. congruence.
    + destruct (inProject p (scope (tk_project_id k) (tk_tenant_id k))) eqn:Hin; [|done].
      apply inProject_scope in Hin as HP; [|done..]. apply map_lookup_filter_Some. split; [done|]. simpl.
      rewrite <-HP, subjectRow_of in Hw by done. done.
  - intros [sk j] Hl. unfold look2 in *. simpl in *. rewrite inner_dropSubjectTuples. destruct (inProject p sk); [|done].
    apply map_lookup_filter_None. by left.
Qed.

Lemma delete_subject_seats s1 d1 p u : simR n s1 d1 -> idOK p ->
  simR n (set_seatAssigns (dropSubjectSeats p u) s1) (on_seat_assignments (fun T => (deleteWhere (fun a =>
    String.eqb (sa_ProjectID a) p && String.eqb (sa_UserID a) u) T).2) d1).
Proof.
  intros HR1 Hp. apply sim_set_seats; [done|]. eapply tableR_delete; [exact pos3_inj| | |exact (sim_seats _ _ _ HR1)].
  - intros k a Hk -> Hl. unfold look3, seatKey, okShard in *. simpl in *. rewrite inner_dropSubjectSeats.
    destruct (inProject p (scope (sa_ProjectID a) (sa_TenantID a))) eqn:Hin.
    + apply inProject_scope in Hin as HP; [|done..]. rewrite <-HP, String.eqb_refl. simpl.
      destruct (String.eqb_spec (sa_UserID a) u) as [<-|Hne]; [apply lookup_delete_eq|].
      rewrite lookup_delete_ne by done. by rewrite HP.
    + destruct (String.eqb_spec (sa_ProjectID a) p) as [HP|Hne]; [|done]. exfalso.
      apply not_true_iff_false in Hin. apply Hin. by apply inProject_scope.
  - intros [[sk sku] u'] Hl. unfold look3 in *. simpl in *. rewrite inner_dropSubjectSeats.
    destruct (inProject p sk); [|done]. apply lookup_delete_None. by right.
Qed.

Lemma count_subject p u : idOK p ->
  (deleteWhere (subjectRow p u) (tbl_relation_tuples d)).1 = countSubjectTuples p u (tuples s).
Proof.
  intros Hp. unfold deleteWhere. simpl. rewrite <-length_map_to_list, <-(length_fmap snd).
  rewrite (Permutation_length (values_filter (subjectRow p u) (tbl_relation_tuples d))).
  rewrite (Permutation_length (projectRows n s d HR p (subjectRow p u) (isSubjectUser u) Hp
    ltac:(intros; by eapply subjectRow_in) ltac:(intros; by apply subjectRow_of))).
  rewrite length_fmap. unfold countSubjectTuples, Memory.collectTupleAt. rewrite map_fold_foldr.
  set (f := fun skm : string * gmap string Tuple => if inProject p skm.1 then _ else _).
  assert (Hlen : length (mjoin (f <$> range_map (tuples s))) = length (mjoin (f <$> map_to_list (tuples s)))).
  { apply Permutation_length. rewrite (range_map_perm (tuples s)). done. }
  rewrite Hlen. clear Hlen. induction (map_to_list (tuples s)) as [|[sk m] l IH]; [done|]. rewrite fmap_cons. simpl.
  rewrite length_app, Nat2Z.inj_add, IH. unfold f at 1. simpl. destruct (inProject p sk); [|done].
  rewrite length_fmap, (Permutation_length (filter_Permutation _ _ _ (rangeValues_perm m))).
  rewrite <-(Permutation_length (values_filter (isSubjectUser u) m)), length_fmap, length_map_to_list. lia.
Qed.

Lemma sim_DeleteAllSubject p u : okTexts [p; u] -> simulates n s d (CDeleteAllSubjectTuplesInProject p u).
Proof.
  intros Ht. pose proof (okTexts_idOK _ _ Ht) as Hp. pose proof (delete_subject p u Hp) as HR1.
  pose proof (delete_subject_seats _ _ p u HR1 Hp) as HR2.
  eapply simulates_commit; [reflexivity|reflexivity|reflexivity| | |exact (later _ _ _ HR2)].
  - rewrite (bind_sound _ _ _ _ _ (deleteFrom_sound _ _ _ _ _ Ht)), (bind_sound _ _ _ _ _ (deleteFrom_sound _ _ _ _ _ Ht)).
    reflexivity.
  - simpl. apply count_subject, Hp.
Qed.

(** ** Every call *)
Lemma simulate_call c : storable s c -> simulates n s d c.
Proof.
  destruct c; intros Hc.
  - by apply sim_ListSubjects.
  - by apply sim_ListObjectIDs.
  - by apply sim_WriteTuples.
  - by apply sim_ReadTuples.
  - by apply sim_ConsistencyToken.
  - by apply sim_DeleteAllSubject.
  - by apply sim_ListSubjectTuples.
  - by apply sim_ListTuplesForSubjectSets.
  - by apply sim_CreateProject.
  - by apply sim_GetProject.
  - by apply sim_UpdateProject.
  - by apply sim_ListProjects.
  - by apply sim_CreateWorkspace.
  - by apply sim_GetWorkspace.
  - by apply sim_UpdateWorkspace.
  - by apply sim_DeleteWorkspace.
  - by apply sim_PersonalWorkspace.
  - by apply sim_WorkspacesForUser.
  - by apply sim_PutMembership.
  - by apply sim_GetMembership.
  - by apply sim_ListMembers.
  - by apply sim_DeleteMembership.
  - by apply sim_PutMembershipAndTuples.
  - by apply sim_DeleteMembershipAndTuples.
  - by apply sim_CreateInvitation.
  - by apply sim_GetInvitation.
  - by apply sim_GetInvitationByTokenHash.
  - by apply sim_UpdateInvitation.
  - by apply sim_ListInvitations.
  - by apply sim_CreateGroup.
  - by apply sim_GetGroup.
  - by apply sim_ListGroups.
  - by apply sim_DeleteGroup.
  - by apply sim_SetEnrollment.
  - destruct Hc. by apply sim_GetEnrollment.
  - by apply sim_ListEnrollments.
  - by apply sim_SetSeatLimit.
  - by apply sim_GetSeatUsage.
  - by apply sim_AssignSeat.
  - by apply sim_RevokeSeat.
  - by apply sim_ListSeats.
Qed.
End Methods.
End More.
