(* ===== verification/PostgresTheorems.v ===== *)
(** * What the postgres driver promises

    The refinement of the in-memory driver by the postgres driver over any
    sequence of calls, and the calls on which the two differ. *)

From stdpp Require Import base gmap strings list sorting.
From Stdlib Require Import ZArith Lia Ascii SpecFloat.
From S2P Require Import Prelude Conditions Model Types ModelJson ModelJsonTheorems Memory MemoryKeys MemoryTheorems.
From S2P Require Import Repository Conformance RepoCalls Sql PgTable PgRel PgSim PgSimMore.
From S2P Require Import Postgres PostgresConformance.
#[local] Open Scope Z_scope.

(** A client: one call after the other, with the answers it gets. *)
Fixpoint session {R} `{Repository R} (cs : list call) (st : R) : list (result answer) :=
  match cs with
  | [] => []
  | c :: cs' => (invoke c st).1 :: session cs' (invoke c st).2
  end.

(** Every call is storable in the state it meets. *)
Fixpoint storableSession `{MapRange} `{Database} (cs : list call) (s : Store) : Prop :=
  match cs with
  | [] => True
  | c :: cs' => storable s c /\ storableSession cs' (invoke c s).2
  end.

Section Refinement.
Context `{MapRange} `{Database} `{!JsonbLaws}.

Lemma simR_empty : simR 0 New emptyDB.
Proof.
  split; try (eapply tableR_ext; [|apply tableR_empty]; intros; unfold look2, look3, inner; simpl; by rewrite ?lookup_empty); [|lia].
  intros k k' w w'. simpl. by rewrite lookup_empty.
Qed.

Lemma session_sim cs n s d : simR n s d -> storableSession cs s -> n + Z.of_nat (length cs) < 2 ^ 63 ->
  Forall2 sameResult (session cs s) (session cs (mkSession d [])).
Proof.
  revert n s d. induction cs as [|c cs IH]; intros n s d HR Hok Hlen; simpl in *; [constructor|].
  destruct Hok as [Hc Hcs]. destruct (simulate_call n s d HR ltac:(lia) c Hc) as (d' & Hd & Hsame & HR').
  constructor; [done|]. rewrite Hd. apply (IH (n + 1)); [done|done|lia].
Qed.

(** C11.  The postgres driver refines the in-memory one: over a sound connection,
    a client that makes any sequence of calls of the repository interface, from
    empty stores, gets the same answer to every call from both drivers: the same
    errors, the same values with instants at the resolution of the server, and
    lists with the same elements.  Compared are calls whose text the server takes
    and whose tuples, projects and enrollments it can keep; an update of a project
    keeps its creation time, an update of a workspace makes no second personal
    workspace, and token hashes are not shared. *)
Theorem postgres_refines_memory (cs : list call) :
  storableSession cs New -> Z.of_nat (length cs) < 2 ^ 63 ->
  Forall2 sameResult (session cs New) (session cs (mkSession emptyDB [])).
Proof. intros Hok Hlen. by apply (session_sim cs 0); [apply simR_empty|..]. Qed.
End Refinement.

(** ** A concrete server and a concrete client *)
Lemma heapOrder_laws : @JsonbLaws documentCodec heapOrder.
Proof.
  split.
  - by intros d text [= ->].
  - intros c _. exists (ConfigBlob c), c. split_and!; try done. by destruct (cfg_Model c).
  - intros m _. by exists (ParamsBlob m).
  - done.
Qed.

(** A grant to the members of a group, on a condition, for a while. *)
Definition staffTuple : Tuple :=
  mkTuple "doc" "d1" "viewer" (mkSubject "" (Some (mkSubjectSet "group" "g1" "member")) false
    (Some (mkCondition "age_at_least" {["min_age" := AnyFloat64 (float64_of_int 18)]}))) (Some 9000).

Lemma storable_user `{Database} ns obj rel u : storableTuple (userTuple ns obj rel u).
Proof. split_and!; simpl; [done|by intros [|]|done|done]. Qed.

Lemma storable_staff : @storableTuple documentCodec heapOrder staffTuple.
Proof.
  split_and!; simpl; [done|done| |by vm_compute]. split_and!; [done|by vm_compute|].
  apply map_Forall_singleton. by vm_compute.
Qed.

Definition sampleClient : list call :=
  let w := mkWorkspace "w1" "p" "t" "w1" "Home" TypePersonal "ann" 1500 1500 in
  let m := mkMembership "p" "t" "w1" "ann" RoleOwner StatusActive 1500 1500 in
  let owner := userTuple "workspace" "w1" "owner" "ann" in
  [CCreateProject (mkProject "p" "P" ProjectActive (Some DefaultModel) "eu" 10 1500 1500);
   CCreateWorkspace w; CCreateWorkspace w;
   CPutMembershipAndTuples m [owner; staffTuple] []; CWorkspacesForUser "p" "t" "ann";
   CSetSeatLimit "p" "t" "pro" (Some 1);
   CAssignSeatAndTuple (mkSeatAssignment "p" "t" "pro" "ann" 1600) (userTuple "seat" "pro" "holder" "ann");
   CAssignSeatAndTuple (mkSeatAssignment "p" "t" "pro" "bob" 1600) (userTuple "seat" "pro" "holder" "bob");
   CReadTuples 2000 "p" "t" (mkTupleFilter "" "" "" ""); CGetProject "p";
   CDeleteAllSubjectTuplesInProject "p" "ann"; CDeleteWorkspace "p" "t" "w1"; CGetMembership "p" "t" "w1" "ann"].

Lemma postgres_refines_memory_witness :
  Forall2 (@sameResult documentCodec heapOrder) (session (H := @memoryRepository map_range_default) sampleClient New)
    (session (H := @postgresRepository map_range_default documentCodec heapOrder) sampleClient (mkSession emptyDB [])).
Proof.
  apply (@postgres_refines_memory map_range_default documentCodec heapOrder heapOrder_laws sampleClient).
  - cbn [storableSession sampleClient storable]. split_and!.
    all: try reflexivity.
    + split; [reflexivity|]. split; [exact DefaultModel_canonical|reflexivity].
    + split_and!; [reflexivity| |constructor].
      constructor; [split; [reflexivity|apply storable_user]|]. constructor; [split; [reflexivity|apply storable_staff]|constructor].
    + split_and!; [reflexivity| |constructor]. constructor; [split; [reflexivity|apply storable_user]|constructor].
    + split_and!; [reflexivity| |constructor]. constructor; [split; [reflexivity|apply storable_user]|constructor].
  - vm_compute. reflexivity.
Defined.

(** ** Where the two drivers differ

    The sessions that [storableSession] and the comparison of lists as multisets
    leave out. *)
Definition bothAnswers (cs : list call) : list (result answer) * list (result answer) :=
  (session (H := @memoryRepository map_range_default) cs New,
   session (H := @postgresRepository map_range_default documentCodec heapOrder) cs (mkSession emptyDB [])).

(** The in-memory driver sorts tuples by their length-prefixed key, postgres by
    their columns: a short object id comes before a longer, smaller one in the
    first only. *)
Example tuple_order_differs :
  let a := userTuple "doc" "b" "viewer" "ann" in
  let b := userTuple "doc" "aa" "viewer" "ann" in
  let cs := [CWriteTuples "p" "t" [a; b] []; CReadTuples 5 "p" "t" (mkTupleFilter "" "" "" "")] in
  bothAnswers cs = ([Ok AUnit; Ok (ATuples [a; b])], [Ok AUnit; Ok (ATuples [b; a])]).
Proof. vm_compute. reflexivity. Qed.

(** An update that makes a workspace the second personal one of its owner is
    stored by the in-memory driver and meets the unique index of postgres, whose
    error is passed on as it is. *)
Example second_personal_differs :
  let w1 := mkWorkspace "w1" "p" "t" "w1" "Home" TypePersonal "ann" 1000 1000 in
  let w2 := mkWorkspace "w2" "p" "t" "w2" "Team" TypeTeam "ann" 1000 1000 in
  let w2' := mkWorkspace "w2" "p" "t" "w2" "Team" TypePersonal "ann" 1000 1000 in
  let cs := [CCreateWorkspace w1; CCreateWorkspace w2; CUpdateWorkspace w2'] in
  bothAnswers cs = ([Ok AUnit; Ok AUnit; Ok AUnit], [Ok AUnit; Ok AUnit; Err unique_violation]).
Proof. vm_compute. reflexivity. Qed.

(** An update of a project replaces its creation time in the in-memory driver
    only. *)
Example project_created_at_differs :
  let p t := mkProject "p" "P" ProjectActive None "" 0 t t in
  let cs := [CCreateProject (p 1000); CUpdateProject (p 2000); CGetProject "p"] in
  (p_CreatedAt <$> match (bothAnswers cs).1 !! 2%nat with Some (Ok (AProject q)) => Some q | _ => None end,
   p_CreatedAt <$> match (bothAnswers cs).2 !! 2%nat with Some (Ok (AProject q)) => Some q | _ => None end) = (Some 2000, Some 1000).
Proof. vm_compute. reflexivity. Qed.
