(* ===== verification/Migration.v ===== *)
(** * The schema migration (internal/repo/postgres/store.go: Migrate, Contract)

    The catalog of the server as the migration sees it: which tables exist, what
    their primary key is, which indexes exist and whether they are valid.  Every
    statement of the two phases runs over a connection that may fail ([Sql]), and
    a concurrent build may leave an invalid index behind ([cat_builds]).  The
    rows of the tables are left out. *)

From stdpp Require Import base gmap strings list.
From Stdlib Require Import ZArith Lia.
From S2P Require Import Prelude Model Types ModelJson Sql.
#[local] Open Scope Z_scope.

(** ** The catalog *)
Inductive pkShape := NoPK | NarrowPK | CompositePK.

#[global] Instance pkShape_eq_dec : EqDecision pkShape.
Proof. solve_decision. Defined.

Record index := mkIndex {
  ix_table : string;
  ix_tenant : bool;  (* whether tenant_id is one of its columns *)
  ix_valid : bool;
}.

#[global] Instance index_eq_dec : EqDecision index.
Proof. solve_decision. Defined.

(** [cat_builds] are the outcomes of the concurrent builds to come: a build
    succeeds, or fails and leaves an invalid index.  An empty list: all succeed. *)
Record Catalog := mkCatalog {
  cat_pk : gmap string pkShape;
  cat_idx : gmap string index;
  cat_builds : list bool;
}.

Definition on_pk f (c : Catalog) : Catalog := mkCatalog (f (cat_pk c)) (cat_idx c) (cat_builds c).
Definition on_idx f (c : Catalog) : Catalog := mkCatalog (cat_pk c) (f (cat_idx c)) (cat_builds c).

(** The tables of [schemaSQL]. *)
Definition schemaTables : list string :=
  ["projects"; "workspaces"; "memberships"; "invitations"; "groups"; "enrollments"; "seat_limits";
   "seat_assignments"; "consistency_seq"; "relation_tuples"].

(** The key a table is created with: projects have no tenant. *)
Definition schemaPK (table : string) : pkShape := if String.eqb table "projects" then NarrowPK else CompositePK.

Record secondaryIndex := mkSecondaryIndex {
  si_name : string;
  si_tempName : string;
  si_table : string;
  si_dropStale : bool;
}.

Definition secondaryIndexes : list secondaryIndex :=
  [mkSecondaryIndex "workspaces_personal_uniq" "workspaces_personal_uniq_new" "workspaces" true;
   mkSecondaryIndex "relation_tuples_subject_user_idx" "" "relation_tuples" false].

Record pkWidening := mkPkWidening { pw_table : string; pw_idxName : string }.

Definition pkWidenings : list pkWidening :=
  [mkPkWidening "workspaces" "workspaces_pk_tenant";
   mkPkWidening "memberships" "memberships_pk_tenant";
   mkPkWidening "invitations" "invitations_pk_tenant";
   mkPkWidening "groups" "groups_pk_tenant";
   mkPkWidening "relation_tuples" "relation_tuples_pk_tenant"].

Section Migration.
Context `{Database}.
Abbreviation DDL := (St (Session Catalog)).

(** *** Statements *)

(** [CREATE TABLE IF NOT EXISTS] of every table, with its key. *)
Definition execSchema : DDL unit :=
  run [] (fun c => Ok (tt, on_pk (fun pks => pks ∪ list_to_map ((fun t => (t, schemaPK t)) <$> schemaTables)) c)).

(** [CREATE (UNIQUE) INDEX CONCURRENTLY IF NOT EXISTS name], over columns that
    include tenant_id: nothing happens when the name is taken. *)
Definition createIndexConcurrently (name table : string) : DDL unit :=
  let! built := run [] (fun c =>
    match cat_idx c !! name with
    | Some _ => Ok (true, c)
    | None =>
        let ok := default true (head (cat_builds c)) in
        Ok (ok, mkCatalog (cat_pk c) (<[name := mkIndex table true ok]> (cat_idx c)) (tail (cat_builds c)))
    end) in
  if built : bool then ret tt else fail unique_violation.

(** [DROP INDEX CONCURRENTLY IF EXISTS name] *)
Definition dropIndexConcurrently (name : string) : DDL unit := run [] (fun c => Ok (tt, on_idx (delete name) c)).

Definition undefined_object : error := ErrDriver "42704".
Definition duplicate_table : error := ErrDriver "42P07".
Definition wrong_object_type : error := ErrDriver "42809".

(** [DROP INDEX name] *)
Definition dropIndex (name : string) : DDL unit := run [] (fun c =>
  match cat_idx c !! name with
  | Some _ => Ok (tt, on_idx (delete name) c)
  | None => Err undefined_object
  end).

(** [ALTER INDEX from RENAME TO to] *)
Definition renameIndex (from to : string) : DDL unit := run [] (fun c =>
  match cat_idx c !! from, cat_idx c !! to with
  | Some ix, None => Ok (tt, on_idx (fun m => <[to := ix]> (delete from m)) c)
  | None, _ => Err undefined_object
  | Some _, Some _ => Err duplicate_table
  end).

(** [ALTER TABLE table DROP CONSTRAINT IF EXISTS table_pkey] *)
Definition dropPrimaryKey (table : string) : DDL unit := run [] (fun c => Ok (tt, on_pk (<[table := NoPK]>) c)).

(** [ALTER TABLE table ADD CONSTRAINT table_pkey PRIMARY KEY USING INDEX name]:
    the index must be valid and becomes the key's own. *)
Definition addPrimaryKeyUsing (table name : string) : DDL unit := run [] (fun c =>
  match cat_idx c !! name with
  | Some ix => if ix_valid ix
               then Ok (tt, on_idx (delete name) (on_pk (<[table := if ix_tenant ix then CompositePK else NarrowPK]>) c))
               else Err wrong_object_type
  | None => Err undefined_object
  end).

(** *** Questions to the catalog *)
Definition pkIsComposite (table : string) : DDL bool :=
  run [] (query (fun c => bool_decide (cat_pk c !! table = Some CompositePK))).

(** exists and valid *)
Definition indexState (idxName : string) : DDL (bool * bool) :=
  run [] (query (fun c => match cat_idx c !! idxName with None => (false, false) | Some ix => (true, ix_valid ix) end)).

Definition indexPredatesTenant (name : string) : DDL bool :=
  run [] (query (fun c => match cat_idx c !! name with None => false | Some ix => negb (ix_tenant ix) end)).

(** ** Expand *)
Definition buildIndexConcurrently (name table : string) : DDL unit :=
  let! (exists_, valid) := indexState name in
  do! (if exists_ && negb valid then dropIndexConcurrently name else ret tt) in
  createIndexConcurrently name table.

Definition expandWidening (w : pkWidening) : DDL unit :=
  let! composite := pkIsComposite (pw_table w) in
  if composite : bool then ret tt else
  let! (exists_, valid) := indexState (pw_idxName w) in
  do! (if exists_ && negb valid then dropIndexConcurrently (pw_idxName w) else ret tt) in
  createIndexConcurrently (pw_idxName w) (pw_table w).

Definition swapStalePersonalIndex (idx : secondaryIndex) : DDL unit :=
  do! buildIndexConcurrently (si_tempName idx) (si_table idx) in
  tx (do! dropIndex (si_name idx) in
      renameIndex (si_tempName idx) (si_name idx)).

Definition expandSecondaryIndex (idx : secondaryIndex) : DDL unit :=
  let! stale := if si_dropStale idx then indexPredatesTenant (si_name idx) else ret false in
  if stale : bool then swapStalePersonalIndex idx
  else buildIndexConcurrently (si_name idx) (si_table idx).

(** The tables of the warning. *)
Fixpoint pendingLoop (ws : list pkWidening) : DDL (list string) :=
  match ws with
  | [] => ret []
  | w :: ws' =>
      let! composite := pkIsComposite (pw_table w) in
      let! rest := pendingLoop ws' in
      ret (if composite : bool then rest else pw_table w :: rest)
  end.

Definition warnContractPending : DDL (list string) := pendingLoop pkWidenings.

(** [locked] is the outcome of [acquireMigrationLock] below; the statement sets
    the session's lock_timeout, which the catalog does not show. *)
Definition lockAndPrepare (locked : result unit) : DDL unit :=
  do! lift locked in
  run [] (query (fun _ => tt)).

(** [connected] is the outcome of opening the dedicated connection.  The deferred
    close of the connection changes nothing in the catalog. *)
Definition withMigrationConn {A} (connected locked : result unit) (fn : DDL A) : DDL A :=
  do! lift connected in
  do! lockAndPrepare locked in
  fn.

Definition expand : DDL (list string) :=
  do! execSchema in
  do! mapM expandWidening pkWidenings in
  do! mapM expandSecondaryIndex secondaryIndexes in
  warnContractPending.

Definition Migrate (connected locked : result unit) : DDL (list string) := withMigrationConn connected locked expand.

(** ** Contract *)
Definition missingIndex (idxName : string) : error :=
  ErrPlain ("composite index " ++ idxName ++ " missing or invalid; run expand (Migrate) first").

Definition contractWidening (w : pkWidening) : DDL unit :=
  let! composite := pkIsComposite (pw_table w) in
  if composite : bool then ret tt else
  let! (exists_, valid) := indexState (pw_idxName w) in
  if negb exists_ || negb valid then fail (missingIndex (pw_idxName w)) else
  tx (do! dropPrimaryKey (pw_table w) in
      addPrimaryKeyUsing (pw_table w) (pw_idxName w)).

Definition Contract (connected locked : result unit) : DDL unit :=
  withMigrationConn connected locked (do! mapM contractWidening pkWidenings in ret tt).
End Migration.

(** ** The advisory lock *)
Definition migrateLockAcquireTimeout : Z := 30 * 10 ^ 9.
Definition migrateLockRetryInterval : Z := 250 * 10 ^ 6.
Definition ErrMigrationLockHeld : error := ErrPlain "another migration holds the lock; retry once it completes".

Section Lock.
(** The answer of the [i]-th attempt, the clock when it is checked after it, and
    whether the context is done before the next one. *)
Context (tryLock : nat -> result bool) (clock : nat -> Z) (cancelled : nat -> bool) (start : Z).

(** [None] when the fuel runs out. *)
Fixpoint acquireLoop (fuel i : nat) : option (result unit) :=
  match fuel with
  | O => None
  | S fuel' =>
      match tryLock i with
      | Err e => Some (Err e)
      | Ok true => Some (Ok tt)
      | Ok false =>
          if start + migrateLockAcquireTimeout <? clock i then Some (Err ErrMigrationLockHeld)
          else if cancelled i then Some (Err (ErrPlain "acquire migration lock: context done"))
          else acquireLoop fuel' (S i)
      end
  end.

(** Enough for a clock that moves on by the retry interval at least. *)
Definition acquireMigrationLock : option (result unit) := acquireLoop 122 0.

End Lock.
