(* ===== verification/MigrationTheorems.v ===== *)
(** * The two migration phases: what holds however they are interrupted, and
      where they arrive *)

From stdpp Require Import base gmap strings list.
From Stdlib Require Import ZArith Lia.
From S2P Require Import Prelude Model Types ModelJson Conformance Sql.
From S2P Require Import Postgres PostgresConformance Migration.
#[local] Open Scope Z_scope.

(** ** A program logic for statements

    [wp c Qok Qerr c0]: started in the catalog [c0], whatever happens on the wire,
    [c] ends in a catalog with [Qok] when it reports success and [Qerr] when it
    reports an error. *)
Section Wp.
Context `{Database}.

Definition wp {A} (c : St (Session Catalog) A) (Qok : A -> Catalog -> Prop) (Qerr : Catalog -> Prop) (c0 : Catalog) : Prop :=
  forall s, db s = c0 -> match c s with (Ok a, s') => Qok a (db s') | (Err _, s') => Qerr (db s') end.

Lemma wp_run {A} (q : sql (D := Catalog) A) Qok Qerr c0 :
  Qerr c0 -> (forall a c, q c0 = Ok (a, c) -> Qok a c /\ Qerr c) -> wp (run [] q) Qok Qerr c0.
Proof.
  intros He Hq s Hs. unfold run, nextOutcome. simpl. rewrite Hs.
  destruct (default Done (head (net s))), (q c0) as [[a c]|e]; simpl; try done; by apply (Hq a c).
Qed.

Lemma wp_query {A} (f : Catalog -> A) (Qok : A -> Catalog -> Prop) Qerr c0 :
  Qerr c0 -> Qok (f c0) c0 -> wp (run [] (query f)) Qok Qerr c0.
Proof. intros He Hok. apply wp_run; [done|]. by intros a c [= <- <-]. Qed.

Lemma wp_ret {A} (a : A) (Qok : A -> Catalog -> Prop) Qerr c0 : Qok a c0 -> wp (ret a) Qok Qerr c0.
Proof. by intros Ha s <-. Qed.
Lemma wp_fail {A} e (Qok : A -> Catalog -> Prop) (Qerr : Catalog -> Prop) c0 : Qerr c0 -> wp (fail e) Qok Qerr c0.
Proof. by intros Ha s <-. Qed.

Lemma wp_bind {A B} (c : St (Session Catalog) A) (k : A -> St (Session Catalog) B) Qok Qerr c0 :
  wp c (fun a c1 => wp (k a) Qok Qerr c1) Qerr c0 -> wp (bind c k) Qok Qerr c0.
Proof.
  intros Hc s Hs. specialize (Hc s Hs). unfold bind. destruct (c s) as [[a|e] s1]; [|done]. by apply Hc.
Qed.

Lemma wp_tx {A} (body : St (Session Catalog) A) (Qok : A -> Catalog -> Prop) (Qerr : Catalog -> Prop) c0 :
  Qerr c0 -> wp body (fun a c1 => Qok a c1 /\ Qerr c1) (fun _ => True) c0 -> wp (tx body) Qok Qerr c0.
Proof.
  intros He Hb s Hs. unfold tx, run, query, nextOutcome, afterNext. simpl.
  destruct (default Done (head (net s))); simpl; [|by rewrite Hs..].
  specialize (Hb (mkSession (db s) (tail (net s))) Hs). destruct (body _) as [[a|e] s1]; simpl; [|by rewrite Hs].
  destruct (default Done (head (net s1))); simpl; [naive_solver|by rewrite Hs|naive_solver].
Qed.

Lemma wp_mono {A} (c : St (Session Catalog) A) (P Q : A -> Catalog -> Prop) (Pe Qe : Catalog -> Prop) c0 :
  wp c P Pe c0 -> (forall a c1, P a c1 -> Q a c1) -> (forall c1, Pe c1 -> Qe c1) -> wp c Q Qe c0.
Proof. intros Hc Hok He s Hs. specialize (Hc s Hs). destruct (c s) as [[a|e] s1]; auto. Qed.
End Wp.

(** ** Catalogs *)
Abbreviation personal := "workspaces_personal_uniq"%string.
Abbreviation personalTemp := "workspaces_personal_uniq_new"%string.
Abbreviation subjectIdx := "relation_tuples_subject_user_idx"%string.

Definition validAt (name : string) (c : Catalog) : Prop := exists ix, cat_idx c !! name = Some ix /\ ix_valid ix = true.
Definition tenantAt (name : string) (c : Catalog) : Prop := forall ix, cat_idx c !! name = Some ix -> ix_tenant ix = true.

(** [c] differs from [c0] in the indexes [ns] only; the valid ones among them are
    kept, and new ones have the tenant column. *)
Record only (ns : list string) (c0 c : Catalog) : Prop := mkOnly {
  only_pk : cat_pk c = cat_pk c0;
  only_out : forall m, m ∉ ns -> cat_idx c !! m = cat_idx c0 !! m;
  only_kept : forall m, validAt m c0 -> cat_idx c !! m = cat_idx c0 !! m;
  only_new : forall m, tenantAt m c0 -> tenantAt m c;
}.

Lemma only_refl ns c : only ns c c.
Proof. by split. Qed.
Lemma only_trans ns c0 c1 c2 : only ns c0 c1 -> only ns c1 c2 -> only ns c0 c2.
Proof.
  intros [P1 O1 K1 N1] [P2 O2 K2 N2]. split; [congruence|intros; rewrite O2, O1; done| |auto].
  intros m Hm. rewrite K2, K1; [done|done|]. destruct Hm as [ix [Hix Hv]]. exists ix. rewrite K1; [done|by exists ix].
Qed.
Lemma only_valid ns c0 c m : only ns c0 c -> validAt m c0 -> validAt m c.
Proof. intros Ho Hm. pose proof (only_kept _ _ _ Ho m Hm) as Heq. unfold validAt in *. by rewrite Heq. Qed.
Lemma only_weaken ns ns' c0 c : (forall m, m ∈ ns -> m ∈ ns') -> only ns c0 c -> only ns' c0 c.
Proof. intros Hsub [P O K N]. split; [done| |done|done]. intros m Hm. apply O. naive_solver. Qed.

Section Expand.
Context `{Database}.

(** *** Building one index *)
Lemma only_delete name c : ~ validAt name c -> only [name] c (on_idx (delete name) c).
Proof.
  intros Hv. split; simpl; [done|..].
  - intros m Hm. rewrite lookup_delete_ne; [done|]. intros <-. apply Hm. left.
  - intros m Hm. rewrite lookup_delete_ne; [done|]. intros <-. done.
  - intros m Hm ix Hix. simpl in Hix. apply lookup_delete_Some in Hix as [_ Hix]. by apply Hm.
Qed.

Lemma only_insert name table ok bs c : cat_idx c !! name = None ->
  only [name] c (mkCatalog (cat_pk c) (<[name := mkIndex table true ok]> (cat_idx c)) bs).
Proof.
  intros Hn. split; simpl; [done|..].
  - intros m Hm. rewrite lookup_insert_ne; [done|]. intros <-. apply Hm. left.
  - intros m [ix [Hix _]]. rewrite lookup_insert_ne; [done|]. intros <-. congruence.
  - intros m Hm ix Hix. simpl in Hix. apply lookup_insert_Some in Hix as [[_ <-]|[_ Hix]]; [done|by apply Hm].
Qed.

Lemma wp_create name table c0 :
  (forall ix, cat_idx c0 !! name = Some ix -> ix_valid ix = true) ->
  wp (createIndexConcurrently name table) (fun _ c => only [name] c0 c /\ validAt name c) (only [name] c0) c0.
Proof.
  intros Hv. apply wp_bind, wp_run; [apply only_refl|]. intros built c.
  destruct (cat_idx c0 !! name) as [ix|] eqn:Hix.
  - intros [= <- <-]. split; [|apply only_refl]. apply wp_ret. split; [apply only_refl|]. exists ix. naive_solver.
  - intros [= <- <-]. pose proof (only_insert name table (default true (head (cat_builds c0))) (tail (cat_builds c0)) c0 Hix) as Ho.
    split; [|done]. destruct (default true (head (cat_builds c0))); [|by apply wp_fail].
    apply wp_ret. split; [done|]. exists (mkIndex table true true). simpl. by rewrite lookup_insert_eq.
Qed.

(** The build of both kinds of index, from the question about its state on. *)
Lemma wp_rebuild name table c0 :
  wp (let! (exists_, valid) := indexState name in
      do! (if exists_ && negb valid then dropIndexConcurrently name else ret tt) in
      createIndexConcurrently name table)
     (fun _ c => only [name] c0 c /\ validAt name c) (only [name] c0) c0.
Proof.
  apply wp_bind, wp_query; [apply only_refl|]. destruct (cat_idx c0 !! name) as [ix|] eqn:Hix; simpl.
  - destruct (ix_valid ix) eqn:Hv; simpl.
    + apply wp_bind, wp_ret, wp_create. naive_solver.
    + assert (Hno : ~ validAt name c0) by (intros [ix' [? ?]]; congruence).
      apply wp_bind, wp_run; [apply only_refl|]. intros [] c [= <-]. split; [|by apply only_delete].
      eapply wp_mono; [apply wp_create| |].
      * intros ix'. simpl. by rewrite lookup_delete_eq.
      * intros _ c [Ho Hva]. split; [|done]. eapply only_trans; [by apply only_delete|done].
      * intros c Ho. eapply only_trans; [by apply only_delete|done].
  - apply wp_bind, wp_ret, wp_create. congruence.
Qed.

(** *** The widenings *)
Definition expanded (w : pkWidening) (c : Catalog) : Prop :=
  cat_pk c !! pw_table w = Some CompositePK \/ validAt (pw_idxName w) c.

Lemma expanded_only ns w c0 c : only ns c0 c -> expanded w c0 -> expanded w c.
Proof. intros Ho [Hpk|Hv]; [left; by rewrite (only_pk _ _ _ Ho)|right; by eapply only_valid]. Qed.

Lemma wp_expandWidening w c0 :
  wp (expandWidening w) (fun _ c => only [pw_idxName w] c0 c /\ expanded w c) (only [pw_idxName w] c0) c0.
Proof.
  apply wp_bind, wp_query; [apply only_refl|]. case_bool_decide as Hpk.
  - apply wp_ret. split; [apply only_refl|by left].
  - eapply wp_mono; [apply wp_rebuild| |done]. intros _ c [Ho Hv]. split; [done|by right].
Qed.

Lemma wp_widenings ws c0 :
  wp (mapM expandWidening ws) (fun _ c => only (pw_idxName <$> ws) c0 c /\ Forall (fun w => expanded w c) ws)
     (only (pw_idxName <$> ws) c0) c0.
Proof.
  revert c0. induction ws as [|w ws IH]; intros c0; simpl.
  - apply wp_ret. split; [apply only_refl|constructor].
  - assert (Hw : forall m, m ∈ [pw_idxName w] -> m ∈ pw_idxName w :: (pw_idxName <$> ws)) by set_solver.
    assert (Hws : forall m, m ∈ pw_idxName <$> ws -> m ∈ pw_idxName w :: (pw_idxName <$> ws)) by set_solver.
    apply wp_bind. eapply wp_mono; [apply wp_expandWidening| |by intros c1; apply only_weaken].
    intros u c1 [Ho1 He1]. apply (only_weaken _ _ _ _ Hw) in Ho1. apply wp_bind. eapply wp_mono; [apply IH| |].
    + intros us c2 [Ho2 He2]. apply wp_ret. apply (only_weaken _ _ _ _ Hws) in Ho2.
      split; [by eapply only_trans|]. constructor; [by eapply expanded_only|done].
    + intros c2 Ho2. apply (only_weaken _ _ _ _ Hws) in Ho2. by eapply only_trans.
Qed.

(** *** The secondary indexes *)
(** A step on the personal index: the other indexes are as they were, and the
    uniqueness it enforces is never lost. *)
Record personalStep (c0 c : Catalog) : Prop := mkPersonalStep {
  ps_pk : cat_pk c = cat_pk c0;
  ps_out : forall m, m <> personal -> m <> personalTemp -> cat_idx c !! m = cat_idx c0 !! m;
  ps_enforced : validAt personal c0 -> validAt personal c;
  ps_temp : tenantAt personalTemp c0 -> tenantAt personalTemp c;
}.

Lemma personalStep_refl c : personalStep c c. Proof. by split. Qed.

Lemma only_personalStep name c0 c : name = personal \/ name = personalTemp -> only [name] c0 c -> personalStep c0 c.
Proof.
  intros Hn Ho. split.
  - apply Ho.
  - intros m H1 H2. apply (only_out _ _ _ Ho). set_solver.
  - by eapply only_valid.
  - apply Ho.
Qed.

Lemma wp_personal c0 : tenantAt personalTemp c0 ->
  wp (expandSecondaryIndex (mkSecondaryIndex personal personalTemp "workspaces" true))
     (fun _ c => personalStep c0 c /\ validAt personal c /\ tenantAt personal c) (personalStep c0) c0.
Proof.
  intros Htemp. unfold expandSecondaryIndex. simpl. apply wp_bind, wp_query; [apply personalStep_refl|].
  set (stale := match cat_idx c0 !! personal with Some ix => negb (ix_tenant ix) | None => false end).
  destruct stale eqn:Hstale.
  - unfold swapStalePersonalIndex. simpl. apply wp_bind.
    eapply wp_mono; [apply wp_rebuild| |by intros c1; apply only_personalStep; right].
    intros _ c1 [Ho (ixn & Hixn & Hvn)]. pose proof (only_personalStep personalTemp c0 c1 (or_intror eq_refl) Ho) as Hs1.
    assert (Htn : ix_tenant ixn = true) by (by apply (only_new _ _ _ Ho personalTemp Htemp)).
    assert (Hold : exists ixo, cat_idx c1 !! personal = Some ixo).
    { rewrite (only_out _ _ _ Ho) by set_solver. unfold stale in Hstale. destruct (cat_idx c0 !! personal); [eauto|done]. }
    destruct Hold as [ixo Hixo]. apply wp_tx; [done|].
    apply wp_bind, wp_run; [done|]. intros [] c2. rewrite Hixo. intros [= <-]. split; [|done].
    apply wp_run; [done|]. intros [] c3. simpl. rewrite lookup_delete_ne, Hixn, lookup_delete_eq by done. intros [= <-].
    assert (Hs : personalStep c0 (on_idx (fun m => <[personal := ixn]> (delete personalTemp m)) (on_idx (delete personal) c1))).
    { split; simpl.
      - apply Hs1.
      - intros m H1 H2. rewrite lookup_insert_ne, !lookup_delete_ne by done. by apply (ps_out _ _ Hs1).
      - intros _. exists ixn. simpl. by rewrite lookup_insert_eq.
      - intros _ ix. simpl. rewrite lookup_insert_ne, lookup_delete_eq by done. done. }
    split; [|done]. split; [|exact Hs]. split_and!; [exact Hs|exists ixn; simpl; by rewrite lookup_insert_eq|].
    intros ix. simpl. rewrite lookup_insert_eq. by intros [= <-].
  - eapply wp_mono; [apply wp_rebuild| |by intros c1; apply only_personalStep; left].
    intros _ c1 [Ho Hv]. split_and!; [by apply only_personalStep in Ho; [|left]|done|].
    apply (only_new _ _ _ Ho). intros ix Hix. unfold stale in Hstale. rewrite Hix in Hstale. by apply negb_false_iff in Hstale.
Qed.

(** *** The whole phase *)

(** The names the migration keeps for itself belong to tenant-scoped indexes. *)
Definition ownNames (c : Catalog) : Prop :=
  tenantAt personalTemp c /\ Forall (fun w => tenantAt (pw_idxName w) c) pkWidenings.

Definition allTables (c : Catalog) : Prop := Forall (fun t => is_Some (cat_pk c !! t)) schemaTables.

(** What an expand phase never undoes. *)
Record expandStep (c0 c : Catalog) : Prop := mkExpandStep {
  es_pk : forall t sh, cat_pk c0 !! t = Some sh -> cat_pk c !! t = Some sh;
  es_enforced : validAt personal c0 -> validAt personal c;
  es_built : forall w, w ∈ pkWidenings -> validAt (pw_idxName w) c0 -> validAt (pw_idxName w) c;
  es_own : ownNames c0 -> ownNames c;
}.

Lemma expandStep_refl c : expandStep c c. Proof. by split. Qed.
Lemma expandStep_trans c0 c1 c2 : expandStep c0 c1 -> expandStep c1 c2 -> expandStep c0 c2.
Proof. intros [P1 E1 B1 O1] [P2 E2 B2 O2]. split; eauto. Qed.

Lemma only_expandStep ns c0 c : only ns c0 c -> expandStep c0 c.
Proof.
  intros Ho. split.
  - intros t sh. by rewrite (only_pk _ _ _ Ho).
  - by eapply only_valid.
  - intros w _. by eapply only_valid.
  - intros [Ht Hw]. split; [by eapply only_new|]. eapply Forall_impl; [exact Hw|]. intros w. by eapply only_new.
Qed.

Lemma pkWidenings_names w : w ∈ pkWidenings ->
  pw_idxName w <> personal /\ pw_idxName w <> personalTemp /\ pw_idxName w <> subjectIdx /\ pw_table w ∈ schemaTables.
Proof. unfold pkWidenings, schemaTables. intros Hw. repeat (apply elem_of_cons in Hw as [->|Hw]; [set_solver|]). by apply elem_of_nil in Hw. Qed.

Lemma personalStep_expandStep c0 c : personalStep c0 c -> expandStep c0 c.
Proof.
  intros Hs. assert (Heq : forall w, w ∈ pkWidenings -> cat_idx c !! pw_idxName w = cat_idx c0 !! pw_idxName w).
  { intros w (Hn1 & Hn2 & _ & _)%pkWidenings_names. by apply (ps_out _ _ Hs). }
  split.
  - intros t sh. by rewrite (ps_pk _ _ Hs).
  - apply Hs.
  - intros w Hw. unfold validAt. by rewrite Heq.
  - intros [Ht Hall]. split; [by apply Hs|]. rewrite Forall_forall in *. intros w Hw. unfold tenantAt. rewrite Heq by done. by apply Hall.
Qed.

(** On success: every key is widened or its index is ready, and the secondary
    indexes are there. *)
Record expandedAll (c : Catalog) : Prop := mkExpandedAll {
  ea_tables : allTables c;
  ea_keys : Forall (fun w => expanded w c) pkWidenings;
  ea_personal : validAt personal c /\ tenantAt personal c;
  ea_subject : validAt subjectIdx c;
}.

Definition pendingTables (c : Catalog) : list string :=
  pw_table <$> filter (fun w => cat_pk c !! pw_table w <> Some CompositePK) pkWidenings.

Lemma wp_pending ws c0 : wp (pendingLoop ws)
  (fun l c => c = c0 /\ l = pw_table <$> filter (fun w => cat_pk c0 !! pw_table w <> Some CompositePK) ws) (eq c0) c0.
Proof.
  induction ws as [|w ws IH]; simpl; [by apply wp_ret|]. apply wp_bind, wp_query; [done|].
  apply wp_bind. eapply wp_mono; [exact IH| |done]. intros l c [-> ->]. apply wp_ret. split; [done|].
  rewrite filter_cons. case_bool_decide as Hc; [by rewrite decide_False by tauto|by rewrite decide_True by done].
Qed.

Lemma allTables_created (c : Catalog) :
  allTables (on_pk (fun pks => pks ∪ list_to_map ((fun t => (t, schemaPK t)) <$> schemaTables)) c).
Proof. repeat constructor; apply lookup_union_is_Some; right; by eexists. Qed.

Lemma allTables_pk c c' : cat_pk c' = cat_pk c -> allTables c -> allTables c'.
Proof. unfold allTables. by intros ->. Qed.

Lemma wp_expand c0 : ownNames c0 ->
  wp expand (fun pending c => expandStep c0 c /\ expandedAll c /\ pending = pendingTables c) (expandStep c0) c0.
Proof.
  intros Hown. unfold expand. apply wp_bind, wp_run; [apply expandStep_refl|]. intros [] c1 [= <-].
  set (c1 := on_pk _ c0). assert (Hs1 : expandStep c0 c1).
  { split; [|done..]. intros t sh Hsh. simpl. by apply lookup_union_Some_l. }
  split; [|done]. apply wp_bind.
  eapply wp_mono; [apply wp_widenings| |intros c2 Ho; by eapply expandStep_trans, only_expandStep].
  intros _ c2 [Ho2 Hexp2]. assert (Hs2 : expandStep c0 c2) by (by eapply expandStep_trans, only_expandStep).
  apply wp_bind. unfold secondaryIndexes. simpl. apply wp_bind.
  eapply wp_mono; [apply wp_personal, (es_own _ _ Hs2 Hown)| |intros c3 Hp; by eapply expandStep_trans, personalStep_expandStep].
  intros u3 c3 (Hp3 & Hv3 & Ht3). pose proof (expandStep_trans _ _ _ Hs2 (personalStep_expandStep _ _ Hp3)) as Hs3.
  apply wp_bind, wp_bind. unfold expandSecondaryIndex. simpl. apply wp_bind, wp_ret.
  eapply wp_mono; [apply wp_rebuild| |intros c4 Ho; by eapply expandStep_trans, only_expandStep].
  intros u4 c4 [Ho4 Hv4]. assert (Hs4 : expandStep c0 c4) by (by eapply expandStep_trans, only_expandStep).
  apply wp_bind, wp_ret, wp_ret, wp_ret. eapply wp_mono; [apply wp_pending| |by intros c <-].
  intros l c [-> ->]. split_and!; [done| |done]. split.
  - eapply allTables_pk; [|apply (allTables_created c0)]. rewrite (only_pk _ _ _ Ho4), (ps_pk _ _ Hp3). apply Ho2.
  - rewrite Forall_forall in *. intros w Hw. destruct (Hexp2 w Hw) as [Hpk|Hv].
    + left. by apply (es_pk _ _ (expandStep_trans _ _ _ (personalStep_expandStep _ _ Hp3) (only_expandStep _ _ _ Ho4))).
    + right. by apply (es_built _ _ (expandStep_trans _ _ _ (personalStep_expandStep _ _ Hp3) (only_expandStep _ _ _ Ho4))).
  - split; [by eapply only_valid|by eapply only_new].
  - done.
Qed.
End Expand.

(** ** The contract phase *)
Section Contract.
Context `{Database}.

(** A table keeps its key, or gets the composite one; only the indexes that
    become keys go. *)
Record contractStep (c0 c : Catalog) : Prop := mkContractStep {
  cs_pk : forall t sh, cat_pk c0 !! t = Some sh -> cat_pk c !! t = Some sh \/ cat_pk c !! t = Some CompositePK;
  cs_idx : forall m, m ∉ (pw_idxName <$> pkWidenings) -> cat_idx c !! m = cat_idx c0 !! m;
  cs_sub : forall m ix, cat_idx c !! m = Some ix -> cat_idx c0 !! m = Some ix;
  cs_keys : forall w, w ∈ pkWidenings -> expanded w c0 -> expanded w c;
  cs_builds : cat_builds c = cat_builds c0;
}.

Lemma contractStep_refl c : contractStep c c. Proof. split; eauto. Qed.
Lemma contractStep_trans c0 c1 c2 : contractStep c0 c1 -> contractStep c1 c2 -> contractStep c0 c2.
Proof.
  intros [P1 I1 S1 K1 B1] [P2 I2 S2 K2 B2]. split; [|intros; by rewrite I2, I1|eauto|eauto|congruence].
  intros t sh Ht. destruct (P1 t sh Ht) as [Ht1|Ht1]; destruct (P2 t _ Ht1); auto.
Qed.

Definition composite (w : pkWidening) (c : Catalog) : Prop := cat_pk c !! pw_table w = Some CompositePK.

Lemma composite_step w c0 c : contractStep c0 c -> composite w c0 -> composite w c.
Proof. intros Hs Hw. by destruct (cs_pk _ _ Hs _ _ Hw). Qed.

Lemma contractStep_own c0 c : contractStep c0 c -> ownNames c0 -> ownNames c.
Proof.
  intros Hs [Ht Hw]. assert (Hsub : forall m, tenantAt m c0 -> tenantAt m c).
  { intros m Hm ix Hix. by apply Hm, (cs_sub _ _ Hs). }
  split; [by apply Hsub|]. eapply Forall_impl; [exact Hw|]. intros w. apply Hsub.
Qed.
Lemma contractStep_valid m c0 c : contractStep c0 c -> m ∉ (pw_idxName <$> pkWidenings) -> validAt m c0 -> validAt m c.
Proof. intros Hs Hm. unfold validAt. by rewrite (cs_idx _ _ Hs m Hm). Qed.

(** The catalog after the promotion of the index of [w]. *)
Definition promoted (w : pkWidening) (c : Catalog) : Catalog :=
  on_idx (delete (pw_idxName w)) (on_pk (<[pw_table w := CompositePK]>) (on_pk (<[pw_table w := NoPK]>) c)).

Lemma pkWidenings_inj w w' : w ∈ pkWidenings -> w' ∈ pkWidenings -> pw_idxName w = pw_idxName w' -> w = w'.
Proof.
  intros Hw Hw' Heq. unfold pkWidenings in *.
  repeat (apply elem_of_cons in Hw as [->|Hw]; [repeat (apply elem_of_cons in Hw' as [->|Hw']; [done|]); by apply elem_of_nil in Hw'|]).
  by apply elem_of_nil in Hw.
Qed.

Lemma promoted_step w c : w ∈ pkWidenings -> contractStep c (promoted w c) /\ composite w (promoted w c).
Proof.
  intros Hw. assert (Hpk : forall t, cat_pk (promoted w c) !! t = if decide (t = pw_table w) then Some CompositePK else cat_pk c !! t).
  { intros t. simpl. case_decide as Ht; [by rewrite Ht, lookup_insert_eq|by rewrite !lookup_insert_ne]. }
  assert (Hcomp : composite w (promoted w c)) by (unfold composite; by rewrite Hpk, decide_True).
  split; [|done]. split.
  - intros t sh Ht. rewrite Hpk. case_decide; auto.
  - intros m Hm. simpl. rewrite lookup_delete_ne; [done|]. intros <-. apply Hm, list_elem_of_fmap. eauto.
  - intros m ix. simpl. rewrite lookup_delete_Some. tauto.
  - intros w' Hw' Hexp. destruct (decide (pw_idxName w = pw_idxName w')) as [Heq|Hne].
    + rewrite <-(pkWidenings_inj w w' Hw Hw' Heq). by left.
    + destruct Hexp as [Hc|(ix & Hix & Hv)].
      * left. rewrite Hpk. by case_decide.
      * right. exists ix. simpl. by rewrite lookup_delete_ne.
  - done.
Qed.

(** The statements of the transaction, one after the other. *)
Lemma addPrimaryKey_promoted w c ix : cat_idx c !! pw_idxName w = Some ix -> ix_valid ix = true -> ix_tenant ix = true ->
  on_idx (delete (pw_idxName w)) (on_pk (<[pw_table w := if ix_tenant ix then CompositePK else NarrowPK]>)
    (on_pk (<[pw_table w := NoPK]>) c)) = promoted w c.
Proof. by intros _ _ ->. Qed.

Lemma wp_contractWidening w c0 : w ∈ pkWidenings -> tenantAt (pw_idxName w) c0 ->
  wp (contractWidening w) (fun _ c => contractStep c0 c /\ composite w c) (contractStep c0) c0.
Proof.
  intros Hw Hten. destruct (promoted_step w c0 Hw) as [Hstep Hcomp]. unfold contractWidening.
  apply wp_bind, wp_query; [apply contractStep_refl|]. case_bool_decide as Hpk; [apply wp_ret; split; [apply contractStep_refl|done]|].
  apply wp_bind, wp_query; [apply contractStep_refl|]. destruct (cat_idx c0 !! pw_idxName w) as [ix|] eqn:Hix; simpl;
    [|apply wp_fail, contractStep_refl].
  destruct (ix_valid ix) eqn:Hv; simpl; [|apply wp_fail, contractStep_refl].
  apply wp_tx; [apply contractStep_refl|]. apply wp_bind, wp_run; [done|]. intros [] c1 [= <-]. split; [|done].
  apply wp_run; [done|]. intros [] c2. simpl. rewrite Hix, Hv. intros [= <-].
  rewrite (addPrimaryKey_promoted w c0 ix) by eauto. done.
Qed.

Lemma wp_contracts ws c0 : (forall w, w ∈ ws -> w ∈ pkWidenings) -> Forall (fun w => tenantAt (pw_idxName w) c0) pkWidenings ->
  wp (mapM contractWidening ws) (fun _ c => contractStep c0 c /\ Forall (fun w => composite w c) ws) (contractStep c0) c0.
Proof.
  revert c0. induction ws as [|w ws IH]; intros c0 Hsub Hten; simpl.
  - apply wp_ret. split; [apply contractStep_refl|constructor].
  - apply wp_bind. eapply wp_mono; [apply wp_contractWidening| |done].
    + apply Hsub. left.
    + rewrite Forall_forall in Hten. apply Hten, Hsub. left.
    + intros u c1 [Hs1 Hc1]. apply wp_bind. eapply wp_mono; [apply IH| |].
      * intros w' Hw'. apply Hsub. by right.
      * eapply Forall_impl; [exact Hten|]. intros w' Ht ix Hix. apply Ht. by apply (cs_sub _ _ Hs1).
      * intros us c2 [Hs2 Hc2]. apply wp_ret. split; [by eapply contractStep_trans|].
        constructor; [by eapply composite_step|done].
      * intros c2 Hs2. by eapply contractStep_trans.
Qed.
End Contract.

(** ** Runs that nothing interrupts *)
Section Uninterrupted.
Context `{Database}.

Definition swp {A} (c : St (Session Catalog) A) (Q : A -> Catalog -> Prop) (c0 : Catalog) : Prop :=
  exists a c1, c (mkSession c0 []) = (Ok a, mkSession c1 []) /\ Q a c1.

Lemma swp_run {A} (q : sql (D := Catalog) A) (Q : A -> Catalog -> Prop) c0 a c1 :
  q c0 = Ok (a, c1) -> Q a c1 -> swp (run [] q) Q c0.
Proof. intros Hq HQ. exists a, c1. split; [|done]. unfold run, nextOutcome, afterNext. simpl. by rewrite Hq. Qed.
Lemma swp_query {A} (f : Catalog -> A) (Q : A -> Catalog -> Prop) c0 : Q (f c0) c0 -> swp (run [] (query f)) Q c0.
Proof. by apply swp_run. Qed.
Lemma swp_ret {A} (a : A) (Q : A -> Catalog -> Prop) c0 : Q a c0 -> swp (ret a) Q c0.
Proof. intros HQ. by exists a, c0. Qed.
Lemma swp_bind {A B} (c : St (Session Catalog) A) (k : A -> St (Session Catalog) B) Q c0 :
  swp c (fun a c1 => swp (k a) Q c1) c0 -> swp (bind c k) Q c0.
Proof. intros (a & c1 & Hc & b & c2 & Hk & HQ). exists b, c2. unfold bind. by rewrite Hc. Qed.
Lemma swp_tx {A} (body : St (Session Catalog) A) Q c0 : swp body Q c0 -> swp (tx body) Q c0.
Proof.
  intros (a & c1 & Hb & HQ). exists a, c1. split; [|done]. unfold tx, run, query, nextOutcome, afterNext. simpl. by rewrite Hb.
Qed.

(** What holds after any run that reports success holds after this one. *)
Lemma swp_wp {A} (c : St (Session Catalog) A) (Q P : A -> Catalog -> Prop) Pe c0 :
  swp c Q c0 -> wp c P Pe c0 -> swp c (fun a c1 => Q a c1 /\ P a c1) c0.
Proof.
  intros (a & c1 & Hc & HQ) Hw. exists a, c1. split; [done|]. split; [done|].
  specialize (Hw (mkSession c0 []) eq_refl). by rewrite Hc in Hw.
Qed.
Lemma swp_mono {A} (c : St (Session Catalog) A) (Q P : A -> Catalog -> Prop) c0 :
  swp c Q c0 -> (forall a c1, Q a c1 -> P a c1) -> swp c P c0.
Proof. intros (a & c1 & Hc & HQ) HP. exists a, c1. auto. Qed.

(** No build is going to fail. *)
Definition sound (c : Catalog) : Prop := cat_builds c = [].

Lemma swp_rebuild name table c0 : sound c0 ->
  swp (let! (exists_, valid) := indexState name in
       do! (if exists_ && negb valid then dropIndexConcurrently name else ret tt) in
       createIndexConcurrently name table)
      (fun _ c => sound c /\ only [name] c0 c /\ validAt name c) c0.
Proof.
  intros Hc0. assert (Hcreate : forall c, sound c -> swp (createIndexConcurrently name table) (fun _ c => sound c) c).
  { intros c Hc. apply swp_bind. destruct (cat_idx c !! name) as [ix|] eqn:Hix; (eapply swp_run; [by rewrite Hix|]).
    - by apply swp_ret.
    - unfold sound in Hc. rewrite Hc. by apply swp_ret. }
  eapply swp_wp; [|apply wp_rebuild]. apply swp_bind, swp_query.
  destruct (cat_idx c0 !! name) as [ix|]; simpl; [destruct (ix_valid ix); simpl|];
    apply swp_bind; [by apply swp_ret, Hcreate| |by apply swp_ret, Hcreate].
  eapply swp_run; [reflexivity|]. by apply Hcreate.
Qed.

Lemma swp_widenings ws c0 : sound c0 -> swp (mapM expandWidening ws) (fun _ c => sound c) c0.
Proof.
  revert c0. induction ws as [|w ws IH]; intros c0 Hc0; simpl; [by apply swp_ret|]. apply swp_bind.
  assert (Hw : swp (expandWidening w) (fun _ c => sound c) c0).
  { apply swp_bind, swp_query. case_bool_decide; [by apply swp_ret|]. eapply swp_mono; [by apply swp_rebuild|naive_solver]. }
  eapply swp_mono; [exact Hw|]. intros u c1 Hc1. apply swp_bind. eapply swp_mono; [by apply IH|].
  intros us c2 Hc2. by apply swp_ret.
Qed.

Lemma swp_personal c0 : sound c0 -> tenantAt personalTemp c0 ->
  swp (expandSecondaryIndex (mkSecondaryIndex personal personalTemp "workspaces" true)) (fun _ c => sound c) c0.
Proof.
  intros Hc0 Htemp. unfold expandSecondaryIndex. simpl. apply swp_bind, swp_query.
  destruct (cat_idx c0 !! personal) as [ixo|] eqn:Hixo; simpl; [|eapply swp_mono; [by apply swp_rebuild|naive_solver]].
  destruct (ix_tenant ixo); simpl; [eapply swp_mono; [by apply swp_rebuild|naive_solver]|].
  apply swp_bind. eapply swp_mono; [by apply swp_rebuild|]. simpl. intros _ c1 (Hc1 & Ho & ixn & Hixn & Hvn).
  apply swp_tx, swp_bind. eapply swp_run.
  { rewrite (only_out _ _ _ Ho) by set_solver. rewrite Hixo. reflexivity. }
  eapply swp_run; [simpl; by rewrite lookup_delete_ne, Hixn, lookup_delete_eq by done|]. done.
Qed.

Lemma swp_pending ws c0 : swp (pendingLoop ws)
  (fun l c => c = c0 /\ l = pw_table <$> filter (fun w => cat_pk c0 !! pw_table w <> Some CompositePK) ws) c0.
Proof.
  assert (Hs : swp (pendingLoop ws) (fun _ _ => True) c0).
  { induction ws as [|w ws IH]; simpl; [by apply swp_ret|]. apply swp_bind, swp_query, swp_bind.
    pose proof (swp_wp _ _ _ _ _ IH (wp_pending ws c0)) as IH'. eapply swp_mono; [exact IH'|].
    intros l c [_ [-> _]]. by apply swp_ret. }
  eapply swp_mono; [exact (swp_wp _ _ _ _ _ Hs (wp_pending ws c0))|]. naive_solver.
Qed.

Lemma swp_expand c0 : sound c0 -> ownNames c0 ->
  swp expand (fun pending c => sound c /\ expandStep c0 c /\ expandedAll c /\ pending = pendingTables c) c0.
Proof.
  intros Hc0 Hown. eapply swp_wp; [|by apply wp_expand]. unfold expand. apply swp_bind. eapply swp_run; [reflexivity|].
  set (c1 := on_pk _ c0). apply swp_bind.
  eapply swp_mono; [eapply swp_wp; [by apply swp_widenings|apply wp_widenings]|]. simpl. intros _ c2 [Hc2 [Ho2 _]].
  pose proof (es_own _ _ (only_expandStep _ _ _ Ho2) Hown) as [Htemp _].
  apply swp_bind, swp_bind. eapply swp_mono; [by apply swp_personal|]. simpl. intros u3 c3 Hc3.
  apply swp_bind, swp_bind. unfold expandSecondaryIndex. simpl. apply swp_bind, swp_ret.
  eapply swp_mono; [by apply swp_rebuild|]. simpl. intros u4 c4 (Hc4 & _). apply swp_bind, swp_ret, swp_ret, swp_ret.
  eapply swp_mono; [apply swp_pending|]. by intros l c [-> _].
Qed.

(** *** Promotion *)
Lemma swp_contracts ws c0 : (forall w, w ∈ ws -> w ∈ pkWidenings) -> ownNames c0 -> Forall (fun w => expanded w c0) ws ->
  swp (mapM contractWidening ws) (fun _ _ => True) c0.
Proof.
  revert c0. induction ws as [|w ws IH]; intros c0 Hsub Hown Hexp; simpl; [by apply swp_ret|].
  assert (Hw : w ∈ pkWidenings) by (apply Hsub; left).
  assert (Hten : tenantAt (pw_idxName w) c0) by (destruct Hown as [_ Hall]; rewrite Forall_forall in Hall; by apply Hall).
  inversion_clear Hexp as [|? ? Hx Hxs].
  assert (Hone : swp (contractWidening w) (fun _ _ => True) c0).
  { unfold contractWidening. apply swp_bind, swp_query. case_bool_decide as Hpk; [by apply swp_ret|].
    destruct Hx as [Hx|(ix & Hix & Hv)]; [done|]. apply swp_bind, swp_query. rewrite Hix, Hv. simpl.
    apply swp_tx, swp_bind. eapply swp_run; [reflexivity|]. eapply swp_run; [simpl; rewrite Hix, Hv; reflexivity|done]. }
  apply swp_bind. eapply swp_mono; [exact (swp_wp _ _ _ _ _ Hone (wp_contractWidening w c0 Hw Hten))|].
  intros u c1 (_ & Hs & _). apply swp_bind. eapply swp_mono; [apply IH|intros; by apply swp_ret].
  - intros w' Hw'. apply Hsub. by right.
  - by eapply contractStep_own.
  - rewrite Forall_forall in *. intros w' Hw'. apply (cs_keys _ _ Hs); [apply Hsub; by right|by apply Hxs].
Qed.

(** *** A migrated catalog is left as it is *)
Record settled (c : Catalog) : Prop := mkSettled {
  st_tables : allTables c;
  st_keys : Forall (fun w => composite w c) pkWidenings;
  st_personal : validAt personal c /\ tenantAt personal c;
  st_subject : validAt subjectIdx c;
}.

Lemma execSchema_settled c : allTables c ->
  on_pk (fun pks => pks ∪ list_to_map ((fun t => (t, schemaPK t)) <$> schemaTables)) c = c.
Proof.
  intros Ht. destruct c as [pks idx bs]. unfold on_pk, allTables in *. cbn [cat_pk cat_idx cat_builds] in *. f_equal. apply map_eq. intros t.
  destruct (pks !! t) as [sh|] eqn:Hsh; [by apply lookup_union_Some_l|]. rewrite lookup_union_r by done.
  apply not_elem_of_list_to_map_1. intros Hin. rewrite Forall_forall in Ht.
  destruct (Ht t) as [sh Hsh']; [|congruence]. rewrite <-list_fmap_compose in Hin.
  apply list_elem_of_fmap in Hin as (t' & -> & Hin). done.
Qed.

Lemma swp_rebuild_valid name table c0 : validAt name c0 ->
  swp (buildIndexConcurrently name table) (fun _ c => c = c0) c0.
Proof.
  intros (ix & Hix & Hv). apply swp_bind, swp_query. rewrite Hix, Hv. simpl. apply swp_bind, swp_ret, swp_bind.
  eapply swp_run; [by rewrite Hix|]. by apply swp_ret.
Qed.

Lemma swp_widenings_settled ws c0 : Forall (fun w => composite w c0) ws -> swp (mapM expandWidening ws) (fun _ c => c = c0) c0.
Proof.
  induction 1 as [|w ws Hw _ IH]; simpl; [by apply swp_ret|].
  apply swp_bind, swp_bind, swp_query. rewrite bool_decide_true by done. apply swp_ret, swp_bind.
  eapply swp_mono; [exact IH|]. intros us c ->. by apply swp_ret.
Qed.

Lemma pendingTables_settled c : settled c -> pendingTables c = [].
Proof.
  intros [_ Hk _ _]. unfold pendingTables. induction Hk as [|w ws Hw _ IH]; [done|].
  rewrite filter_cons, decide_False; [done|]. intros Hne. by apply Hne.
Qed.

Lemma swp_expand_settled c0 : settled c0 -> swp expand (fun pending c => c = c0 /\ pending = []) c0.
Proof.
  intros Hset. pose proof Hset as [Ht Hk [Hpv Hpt] Hsv]. unfold expand. apply swp_bind.
  eapply swp_run; [reflexivity|]. rewrite execSchema_settled by done. apply swp_bind.
  eapply swp_mono; [by apply swp_widenings_settled|]. intros us c ->. apply swp_bind, swp_bind.
  unfold expandSecondaryIndex at 1. simpl. apply swp_bind, swp_query.
  destruct Hpv as (ix & Hix & Hv). rewrite Hix, (Hpt ix Hix). simpl.
  eapply swp_mono; [apply swp_rebuild_valid; by exists ix|]. intros u c ->.
  apply swp_bind, swp_bind. unfold expandSecondaryIndex. simpl. apply swp_bind, swp_ret.
  eapply swp_mono; [by apply swp_rebuild_valid|]. intros u' c ->. apply swp_bind, swp_ret, swp_ret, swp_ret.
  eapply swp_mono; [apply swp_pending|]. intros l c [-> ->]. split; [done|]. by apply pendingTables_settled.
Qed.

Lemma swp_conn {A} (fn : St (Session Catalog) A) Q c0 : swp fn Q c0 -> swp (withMigrationConn (Ok tt) (Ok tt) fn) Q c0.
Proof. intros Hfn. apply swp_bind, (swp_ret tt), swp_bind, swp_bind, (swp_ret tt). by apply swp_query. Qed.
End Uninterrupted.

(** ** The life of a migration *)

(** One run of the binary: the phase it was asked for, whether it connected and
    took the lock, and what happened to its statements. *)
Inductive phase := Expanding | Contracting.
Record attempt := mkAttempt {
  at_phase : phase;
  at_connected : result unit;
  at_locked : result unit;
  at_net : list outcome;
}.

Section Life.
Context `{Database}.

Definition attempted (c : Catalog) (a : attempt) : Catalog :=
  let s := mkSession c (at_net a) in
  match at_phase a with
  | Expanding => db (Migrate (at_connected a) (at_locked a) s).2
  | Contracting => db (Contract (at_connected a) (at_locked a) s).2
  end.

Definition attempts (l : list attempt) (c : Catalog) : Catalog := foldl attempted c l.

(** What no run undoes: a key stays or widens, the personal index stays. *)
Record kept (c0 c : Catalog) : Prop := mkKept {
  kp_pk : forall t sh, cat_pk c0 !! t = Some sh -> cat_pk c !! t = Some sh \/ cat_pk c !! t = Some CompositePK;
  kp_personal : validAt personal c0 -> validAt personal c;
  kp_own : ownNames c0 -> ownNames c;
}.

Lemma kept_trans c0 c1 c2 : kept c0 c1 -> kept c1 c2 -> kept c0 c2.
Proof.
  intros [P1 E1 O1] [P2 E2 O2]. split; [|auto|auto].
  intros t sh Ht. destruct (P1 t sh Ht) as [Ht1|Ht1]; destruct (P2 t _ Ht1); auto.
Qed.

Lemma expandStep_kept c0 c : expandStep c0 c -> kept c0 c.
Proof. intros [P E _ O]. split; auto. Qed.
Lemma contractStep_kept c0 c : contractStep c0 c -> kept c0 c.
Proof.
  intros Hs. split; [apply Hs| |by apply contractStep_own]. apply contractStep_valid; [done|].
  unfold pkWidenings. simpl. set_solver.
Qed.

Lemma wp_conn {A} connected locked (fn : St (Session Catalog) A) Qok (Qerr : Catalog -> Prop) c0 :
  Qerr c0 -> wp fn Qok Qerr c0 -> wp (withMigrationConn connected locked fn) Qok Qerr c0.
Proof.
  intros He Hfn. apply wp_bind. destruct connected as [[]|]; [|by intros s <-]. apply (wp_ret tt).
  apply wp_bind, wp_bind. destruct locked as [[]|]; [|by intros s <-]. apply (wp_ret tt). by apply wp_query.
Qed.

Lemma wp_Migrate connected locked c0 : ownNames c0 ->
  wp (Migrate connected locked) (fun pending c => expandStep c0 c /\ expandedAll c /\ pending = pendingTables c) (expandStep c0) c0.
Proof. intros Hown. apply wp_conn; [apply expandStep_refl|by apply wp_expand]. Qed.

Lemma wp_Contract connected locked c0 : ownNames c0 ->
  wp (Contract connected locked) (fun _ c => contractStep c0 c /\ Forall (fun w => composite w c) pkWidenings) (contractStep c0) c0.
Proof.
  intros [_ Hown]. apply wp_conn; [apply contractStep_refl|]. apply wp_bind.
  eapply wp_mono; [by apply wp_contracts| |done]. intros us c Hc. by apply wp_ret.
Qed.

Lemma attempted_kept a c : ownNames c -> kept c (attempted c a).
Proof.
  intros Hown. unfold attempted. destruct (at_phase a).
  - apply expandStep_kept. pose proof (wp_Migrate (at_connected a) (at_locked a) c Hown (mkSession c (at_net a)) eq_refl) as Hw.
    destruct (Migrate _ _ _) as [[p|e] s']; [apply Hw|done].
  - apply contractStep_kept. pose proof (wp_Contract (at_connected a) (at_locked a) c Hown (mkSession c (at_net a)) eq_refl) as Hw.
    destruct (Contract _ _ _) as [[p|e] s']; [apply Hw|done].
Qed.

Lemma attempts_kept l c : ownNames c -> kept c (attempts l c).
Proof.
  revert c. induction l as [|a l IH]; intros c Hown; simpl; [split; auto|].
  pose proof (attempted_kept a c Hown) as Ha. eapply kept_trans; [exact Ha|]. apply IH. by apply Ha.
Qed.

(** C13.  However often the two phases are run, and wherever a lost connection, a
    refused statement, a failed build or a lock held elsewhere stops them: every
    table keeps the primary key it had or has the composite one, never none, and
    the index that keeps personal workspaces unique is never missing or invalid
    once it was valid.  A run of Migrate that reports success leaves every table
    with the composite key or a valid index ready for it, the tenant-scoped
    indexes built, and names exactly the tables still to contract; a run of
    Contract that reports success leaves every table with the composite key. *)
Theorem migration_interrupted (l : list attempt) (c0 : Catalog) (connected locked : result unit) (wire : list outcome) :
  ownNames c0 ->
  let c := attempts l c0 in
  (forall t sh, cat_pk c0 !! t = Some sh -> cat_pk c !! t = Some sh \/ cat_pk c !! t = Some CompositePK) /\
  (validAt personal c0 -> validAt personal c) /\
  (forall pending s, Migrate connected locked (mkSession c wire) = (Ok pending, s) ->
     expandedAll (db s) /\ pending = pendingTables (db s)) /\
  (forall s, Contract connected locked (mkSession c wire) = (Ok tt, s) -> Forall (fun w => composite w (db s)) pkWidenings).
Proof.
  intros Hown c. destruct (attempts_kept l c0 Hown) as [Hpk Hper Hown']. split_and!; [done..| |].
  - intros pending s Hm. pose proof (wp_Migrate connected locked c (Hown' Hown) (mkSession c wire) eq_refl) as Hw.
    rewrite Hm in Hw. tauto.
  - intros s Hm. pose proof (wp_Contract connected locked c (Hown' Hown) (mkSession c wire) eq_refl) as Hw.
    rewrite Hm in Hw. tauto.
Qed.

Lemma swp_phases c0 : sound c0 -> ownNames c0 ->
  exists pending c1 c2,
    Migrate (Ok tt) (Ok tt) (mkSession c0 []) = (Ok pending, mkSession c1 []) /\ pending = pendingTables c1 /\
    Contract (Ok tt) (Ok tt) (mkSession c1 []) = (Ok tt, mkSession c2 []) /\ settled c2.
Proof.
  intros Hs Hown. destruct (swp_conn _ _ _ (swp_expand c0 Hs Hown)) as (pending & c1 & Hm & Hs1 & Hstep & Hall & Hp).
  pose proof (es_own _ _ Hstep Hown) as Hown1.
  pose proof (swp_contracts pkWidenings c1 ltac:(auto) Hown1 (ea_keys _ Hall)) as Hc.
  pose proof (swp_wp _ _ _ _ _ Hc (wp_contracts pkWidenings c1 ltac:(auto) (proj2 Hown1))) as (us & c2 & Hrun & _ & Hs2 & Hcomp).
  assert (HC : swp (do! mapM contractWidening pkWidenings in ret tt) (fun _ c => c = c2) c1).
  { apply swp_bind. exists us, c2. split; [exact Hrun|]. by apply swp_ret. }
  destruct (swp_conn _ _ _ HC) as ([] & c2' & Hrun' & ->). exists pending, c1, c2. split_and!; [done..|].
  assert (Hkeep : forall m, m = personal \/ m = subjectIdx -> cat_idx c2 !! m = cat_idx c1 !! m).
  { intros m Hname. apply (cs_idx _ _ Hs2). unfold pkWidenings. simpl. set_solver. }
  destruct Hall as [Ht Hk [Hpv Hpt] Hsv]. split; [|done| |].
  - eapply Forall_impl; [exact Ht|]. intros t [sh Hsh]. destruct (cs_pk _ _ Hs2 t sh Hsh); eauto.
  - unfold validAt, tenantAt in *. rewrite Hkeep by auto. done.
  - unfold validAt in *. rewrite Hkeep by auto. done.
Qed.

(** C25.  After any sequence of interrupted runs, one uninterrupted Migrate
    followed by one Contract succeeds when no build fails any more: Migrate names
    the tables still on a narrow key, after Contract every table has the
    composite key, the personal index is valid and tenant-scoped, and another
    Migrate succeeds, warns of nothing and changes nothing. *)
Theorem migration_completes (l : list attempt) (c0 : Catalog) :
  ownNames c0 -> cat_builds (attempts l c0) = [] ->
  exists pending c1 c2,
    Migrate (Ok tt) (Ok tt) (mkSession (attempts l c0) []) = (Ok pending, mkSession c1 []) /\
    pending = pendingTables c1 /\
    Contract (Ok tt) (Ok tt) (mkSession c1 []) = (Ok tt, mkSession c2 []) /\
    Forall (fun w => composite w c2) pkWidenings /\ validAt personal c2 /\ tenantAt personal c2 /\
    Migrate (Ok tt) (Ok tt) (mkSession c2 []) = (Ok [], mkSession c2 []).
Proof.
  intros Hown Hs. pose proof (kp_own _ _ (attempts_kept l c0 Hown) Hown) as Hown'.
  destruct (swp_phases _ Hs Hown') as (pending & c1 & c2 & Hm & Hp & Hc & Hset). exists pending, c1, c2.
  destruct (swp_conn _ _ _ (swp_expand_settled c2 Hset)) as (l2 & c3 & Hagain & -> & ->).
  destruct Hset as [_ Hk [Hv Ht] _]. done.
Qed.
End Life.

(** A database from before tenants, on which the next build fails, and the runs of
    three impatient operators: one meets the failing build, one loses the
    connection on the statement after the first index, one contracts too early. *)
Definition oldCatalog : Catalog :=
  mkCatalog (list_to_map ((fun t => (t, NarrowPK)) <$> schemaTables)) {[personal := mkIndex "workspaces" false true]} [false].

Definition impatient : list attempt :=
  [mkAttempt Expanding (Ok tt) (Ok tt) [];
   mkAttempt Expanding (Ok tt) (Ok tt) (replicate 9 Done ++ [Lost]);
   mkAttempt Contracting (Ok tt) (Ok tt) []].

Lemma oldCatalog_ownNames : ownNames oldCatalog.
Proof. split; [|repeat constructor]; intros ix; vm_compute; discriminate. Defined.

Lemma migration_interrupted_witness :
  validAt personal (attempts (H0 := heapOrder) impatient oldCatalog) /\
  cat_pk (attempts (H0 := heapOrder) impatient oldCatalog) !! "groups"%string = Some NarrowPK /\
  cat_pk (attempts (H0 := heapOrder) impatient oldCatalog) !! "workspaces"%string = Some CompositePK.
Proof.
  destruct (migration_interrupted (H0 := heapOrder) impatient oldCatalog (Ok tt) (Ok tt) [] oldCatalog_ownNames) as (_ & Hp & _).
  split; [apply Hp; by eexists|]. split; vm_compute; reflexivity.
Defined.

Lemma migration_completes_witness :
  exists pending c1 c2,
    Migrate (H0 := heapOrder) (Ok tt) (Ok tt) (mkSession (attempts (H0 := heapOrder) impatient oldCatalog) []) = (Ok pending, mkSession c1 []) /\
    pending = pendingTables c1 /\
    Contract (H0 := heapOrder) (Ok tt) (Ok tt) (mkSession c1 []) = (Ok tt, mkSession c2 []) /\
    Forall (fun w => composite w c2) pkWidenings /\ validAt personal c2 /\ tenantAt personal c2 /\
    Migrate (H0 := heapOrder) (Ok tt) (Ok tt) (mkSession c2 []) = (Ok [], mkSession c2 []).
Proof.
  apply (migration_completes (H0 := heapOrder) impatient oldCatalog oldCatalog_ownNames). vm_compute. reflexivity.
Defined.

(** ** The lock *)
Section LockBound.
Context (tryLock : nat -> result bool) (clock : nat -> Z) (cancelled : nat -> bool) (start : Z).
Abbreviation loop := (acquireLoop tryLock clock cancelled start).

Lemma clock_at : start <= clock 0 -> (forall i, clock i + migrateLockRetryInterval <= clock (S i)) ->
  forall i, start + Z.of_nat i * migrateLockRetryInterval <= clock i.
Proof. intros H0 Hstep i. induction i as [|i IH]; [lia|]. specialize (Hstep i). unfold migrateLockRetryInterval in *. lia. Qed.

(** The attempts before the one that decides all found the lock taken. *)
Lemma acquireLoop_some fuel i : (forall j, start + Z.of_nat j * migrateLockRetryInterval <= clock j) ->
  (i <= 121 -> 122 <= fuel + i ->
  exists r k, loop fuel i = Some r /\ i <= k <= 121 /\ (forall j, i <= j < k -> tryLock j = Ok false /\ cancelled j = false) /\
    match tryLock k with
    | Err e => r = Err e
    | Ok true => r = Ok tt
    | Ok false => r = Err ErrMigrationLockHeld /\ (start + migrateLockAcquireTimeout < clock k)%Z \/
                  cancelled k = true /\ is_ok r = false
    end)%nat.
Proof.
  intros Hclock. revert i. induction fuel as [|fuel IH]; intros i Hi Hf; [lia|]. simpl.
  destruct (tryLock i) as [[|]|e] eqn:Ht.
  - exists (Ok tt), i. rewrite Ht. split_and!; [done|lia..|by intros; lia|done].
  - destruct (Z.ltb_spec (start + migrateLockAcquireTimeout) (clock i)) as [Hlt|Hge].
    + eexists _, i. rewrite Ht. split_and!; [done|lia..|by intros; lia|by left].
    + destruct (cancelled i) eqn:Hc.
      * eexists _, i. rewrite Ht. split_and!; [done|lia..|by intros; lia|by right].
      * assert (i < 121)%nat by (pose proof (Hclock i); unfold migrateLockRetryInterval, migrateLockAcquireTimeout in *; lia).
        destruct (IH (S i)) as (r & k & Hr & Hk & Hbefore & Hend); [lia..|]. exists r, k.
        split_and!; [done|lia..| |done]. intros j Hj. destruct (decide (j = i)) as [->|]; [done|]. apply Hbefore. lia.
  - exists (Err e), i. rewrite Ht. split_and!; [done|lia..|by intros; lia|done].
Qed.
End LockBound.

(** Waiting for the migration lock ends: on a clock that moves on by the
    retry interval between attempts at least, acquireMigrationLock returns after
    at most 122 attempts, every attempt before the last having found the lock
    taken.  It returns nil only when an attempt got the lock, and a replica that
    never gets it and is not cancelled reports ErrMigrationLockHeld, after the
    deadline and not before. *)
Theorem migration_lock_bounded (tryLock : nat -> result bool) (clock : nat -> Z) (cancelled : nat -> bool) (start : Z) :
  start <= clock 0%nat -> (forall i, clock i + migrateLockRetryInterval <= clock (S i)) ->
  exists r k, acquireMigrationLock tryLock clock cancelled start = Some r /\ (k < 122)%nat /\
    (forall j, (j < k)%nat -> tryLock j = Ok false) /\
    (r = Ok tt -> tryLock k = Ok true) /\
    ((forall i, tryLock i = Ok false) -> (forall i, cancelled i = false) ->
       r = Err ErrMigrationLockHeld /\ start + migrateLockAcquireTimeout < clock k).
Proof.
  intros H0 Hstep.
  destruct (acquireLoop_some tryLock clock cancelled start 122 0 (clock_at clock start H0 Hstep)) as (r & k & Hr & Hk & Hbefore & Hend);
    [lia..|]. exists r, k. split_and!; [exact Hr|lia| | |].
  - intros j Hj. apply Hbefore. lia.
  - intros ->. destruct (tryLock k) as [[|]|e]; [done| |done]. by destruct Hend as [[? _]|[_ ?]].
  - intros Hno Hc. rewrite Hno in Hend. destruct Hend as [|[Hc' _]]; [done|]. by rewrite Hc in Hc'.
Qed.

Lemma migration_lock_bounded_witness :
  exists r k, acquireMigrationLock (fun _ => Ok false) (fun i => 7 + Z.of_nat i * migrateLockRetryInterval) (fun _ => false) 7 = Some r /\
    (k < 122)%nat /\ r = Err ErrMigrationLockHeld /\ 7 + migrateLockAcquireTimeout < 7 + Z.of_nat k * migrateLockRetryInterval.
Proof.
  destruct (migration_lock_bounded (fun _ => Ok false) (fun i => 7 + Z.of_nat i * migrateLockRetryInterval) (fun _ => false) 7)
    as (r & k & Hr & Hk & _ & _ & Hheld); [lia|unfold migrateLockRetryInterval; lia|].
  exists r, k. destruct Hheld; auto.
Defined.
