(* ===== verification/Client.v ===== *)
(** * The generated clients (workspace.connect.go)

    Each service has a client: one Connect client per RPC, at the URL made of the
    base URL and the procedure's name.  What a Connect client sends and how it
    reads a response belong to the Connect runtime and are a parameter
    ([ClientRuntime]); the base URL and the path a request arrives with are
    modelled. *)

From stdpp Require Import base gmap strings list.
From Stdlib Require Import ZArith Lia Ascii.
From S2P Require Import Prelude Conditions Model ModelJson Types Text Engine Memory RateLimit Middleware Config Wire Token.
From S2P Require Import EngineTheorems ModelJsonTheorems.
From S2P Require Import Service Handler HandlerRpc Serve App AppTheorems Samples.
#[local] Open Scope Z_scope.

(** The constants [<Service><Method>Procedure]. *)
Definition Procedure (p : procedure) : string :=
  match p with
  | WorkspaceServiceCreateWorkspace => "/workspace.v1.WorkspaceService/CreateWorkspace"
  | WorkspaceServiceGetWorkspace => "/workspace.v1.WorkspaceService/GetWorkspace"
  | WorkspaceServiceListWorkspaces => "/workspace.v1.WorkspaceService/ListWorkspaces"
  | WorkspaceServiceUpdateWorkspace => "/workspace.v1.WorkspaceService/UpdateWorkspace"
  | WorkspaceServiceTransferOwnership => "/workspace.v1.WorkspaceService/TransferOwnership"
  | WorkspaceServiceDeleteWorkspace => "/workspace.v1.WorkspaceService/DeleteWorkspace"
  | WorkspaceServiceAddMember => "/workspace.v1.WorkspaceService/AddMember"
  | WorkspaceServiceUpdateMemberRole => "/workspace.v1.WorkspaceService/UpdateMemberRole"
  | WorkspaceServiceRemoveMember => "/workspace.v1.WorkspaceService/RemoveMember"
  | WorkspaceServiceSuspendMember => "/workspace.v1.WorkspaceService/SuspendMember"
  | WorkspaceServiceReinstateMember => "/workspace.v1.WorkspaceService/ReinstateMember"
  | WorkspaceServiceListMembers => "/workspace.v1.WorkspaceService/ListMembers"
  | WorkspaceServiceCreateInvitation => "/workspace.v1.WorkspaceService/CreateInvitation"
  | WorkspaceServiceAcceptInvitation => "/workspace.v1.WorkspaceService/AcceptInvitation"
  | WorkspaceServiceListInvitations => "/workspace.v1.WorkspaceService/ListInvitations"
  | WorkspaceServiceRevokeInvitation => "/workspace.v1.WorkspaceService/RevokeInvitation"
  | GroupServiceCreateGroup => "/workspace.v1.GroupService/CreateGroup"
  | GroupServiceGetGroup => "/workspace.v1.GroupService/GetGroup"
  | GroupServiceListGroups => "/workspace.v1.GroupService/ListGroups"
  | GroupServiceDeleteGroup => "/workspace.v1.GroupService/DeleteGroup"
  | GroupServiceAddGroupMember => "/workspace.v1.GroupService/AddGroupMember"
  | GroupServiceRemoveGroupMember => "/workspace.v1.GroupService/RemoveGroupMember"
  | GroupServiceListGroupMembers => "/workspace.v1.GroupService/ListGroupMembers"
  | GroupServiceSetEnrollmentState => "/workspace.v1.GroupService/SetEnrollmentState"
  | GroupServiceListEnrollments => "/workspace.v1.GroupService/ListEnrollments"
  | AuthzServiceWriteRelationTuples => "/workspace.v1.AuthzService/WriteRelationTuples"
  | AuthzServiceReadRelationTuples => "/workspace.v1.AuthzService/ReadRelationTuples"
  | AuthzServiceCheck => "/workspace.v1.AuthzService/Check"
  | AuthzServiceBatchCheck => "/workspace.v1.AuthzService/BatchCheck"
  | AuthzServiceExpand => "/workspace.v1.AuthzService/Expand"
  | AuthzServiceListObjects => "/workspace.v1.AuthzService/ListObjects"
  | AuthzServiceDeprovisionUser => "/workspace.v1.AuthzService/DeprovisionUser"
  | AuthzServiceExportSubjectGrants => "/workspace.v1.AuthzService/ExportSubjectGrants"
  | AdminServiceCreateProject => "/workspace.v1.AdminService/CreateProject"
  | AdminServiceGetProject => "/workspace.v1.AdminService/GetProject"
  | AdminServiceUpdateProject => "/workspace.v1.AdminService/UpdateProject"
  | AdminServiceListProjects => "/workspace.v1.AdminService/ListProjects"
  | SeatServiceSetSeatLimit => "/workspace.v1.SeatService/SetSeatLimit"
  | SeatServiceGetSeatUsage => "/workspace.v1.SeatService/GetSeatUsage"
  | SeatServiceAssignSeat => "/workspace.v1.SeatService/AssignSeat"
  | SeatServiceRevokeSeat => "/workspace.v1.SeatService/RevokeSeat"
  | SeatServiceListSeats => "/workspace.v1.SeatService/ListSeats"
  end.

(** ** Clients *)

(** A Connect client: the URL of its procedure. *)
Record Client := NewClient { c_URL : string }.

(** [strings.TrimRight(s, "/")] *)
Fixpoint dropSlashes (s : string) : string :=
  match s with
  | String c s' => if Ascii.eqb c "/" then dropSlashes s' else s
  | EmptyString => EmptyString
  end.
Definition TrimRightSlash (s : string) : string := rev_string (dropSlashes (rev_string s)).

Module WorkspaceService.
Record workspaceServiceClient := mkClient {
  createWorkspace : Client;
  getWorkspace : Client;
  listWorkspaces : Client;
  updateWorkspace : Client;
  transferOwnership : Client;
  deleteWorkspace : Client;
  addMember : Client;
  updateMemberRole : Client;
  removeMember : Client;
  suspendMember : Client;
  reinstateMember : Client;
  listMembers : Client;
  createInvitation : Client;
  acceptInvitation : Client;
  listInvitations : Client;
  revokeInvitation : Client;
}.

Definition NewWorkspaceServiceClient (baseURL0 : string) : workspaceServiceClient :=
  let baseURL := TrimRightSlash baseURL0 in
  {|
    createWorkspace := NewClient (String.append baseURL (Procedure WorkspaceServiceCreateWorkspace));
    getWorkspace := NewClient (String.append baseURL (Procedure WorkspaceServiceGetWorkspace));
    listWorkspaces := NewClient (String.append baseURL (Procedure WorkspaceServiceListWorkspaces));
    updateWorkspace := NewClient (String.append baseURL (Procedure WorkspaceServiceUpdateWorkspace));
    transferOwnership := NewClient (String.append baseURL (Procedure WorkspaceServiceTransferOwnership));
    deleteWorkspace := NewClient (String.append baseURL (Procedure WorkspaceServiceDeleteWorkspace));
    addMember := NewClient (String.append baseURL (Procedure WorkspaceServiceAddMember));
    updateMemberRole := NewClient (String.append baseURL (Procedure WorkspaceServiceUpdateMemberRole));
    removeMember := NewClient (String.append baseURL (Procedure WorkspaceServiceRemoveMember));
    suspendMember := NewClient (String.append baseURL (Procedure WorkspaceServiceSuspendMember));
    reinstateMember := NewClient (String.append baseURL (Procedure WorkspaceServiceReinstateMember));
    listMembers := NewClient (String.append baseURL (Procedure WorkspaceServiceListMembers));
    createInvitation := NewClient (String.append baseURL (Procedure WorkspaceServiceCreateInvitation));
    acceptInvitation := NewClient (String.append baseURL (Procedure WorkspaceServiceAcceptInvitation));
    listInvitations := NewClient (String.append baseURL (Procedure WorkspaceServiceListInvitations));
    revokeInvitation := NewClient (String.append baseURL (Procedure WorkspaceServiceRevokeInvitation));
  |}.

(** The methods of the client: which Connect client each calls. *)
Definition methodClient (c : workspaceServiceClient) (p : procedure) : option Client :=
  match p with
  | WorkspaceServiceCreateWorkspace => Some (createWorkspace c)
  | WorkspaceServiceGetWorkspace => Some (getWorkspace c)
  | WorkspaceServiceListWorkspaces => Some (listWorkspaces c)
  | WorkspaceServiceUpdateWorkspace => Some (updateWorkspace c)
  | WorkspaceServiceTransferOwnership => Some (transferOwnership c)
  | WorkspaceServiceDeleteWorkspace => Some (deleteWorkspace c)
  | WorkspaceServiceAddMember => Some (addMember c)
  | WorkspaceServiceUpdateMemberRole => Some (updateMemberRole c)
  | WorkspaceServiceRemoveMember => Some (removeMember c)
  | WorkspaceServiceSuspendMember => Some (suspendMember c)
  | WorkspaceServiceReinstateMember => Some (reinstateMember c)
  | WorkspaceServiceListMembers => Some (listMembers c)
  | WorkspaceServiceCreateInvitation => Some (createInvitation c)
  | WorkspaceServiceAcceptInvitation => Some (acceptInvitation c)
  | WorkspaceServiceListInvitations => Some (listInvitations c)
  | WorkspaceServiceRevokeInvitation => Some (revokeInvitation c)
  | _ => None
  end.
End WorkspaceService.

Module GroupService.
Record groupServiceClient := mkClient {
  createGroup : Client;
  getGroup : Client;
  listGroups : Client;
  deleteGroup : Client;
  addGroupMember : Client;
  removeGroupMember : Client;
  listGroupMembers : Client;
  setEnrollmentState : Client;
  listEnrollments : Client;
}.

Definition NewGroupServiceClient (baseURL0 : string) : groupServiceClient :=
  let baseURL := TrimRightSlash baseURL0 in
  {|
    createGroup := NewClient (String.append baseURL (Procedure GroupServiceCreateGroup));
    getGroup := NewClient (String.append baseURL (Procedure GroupServiceGetGroup));
    listGroups := NewClient (String.append baseURL (Procedure GroupServiceListGroups));
    deleteGroup := NewClient (String.append baseURL (Procedure GroupServiceDeleteGroup));
    addGroupMember := NewClient (String.append baseURL (Procedure GroupServiceAddGroupMember));
    removeGroupMember := NewClient (String.append baseURL (Procedure GroupServiceRemoveGroupMember));
    listGroupMembers := NewClient (String.append baseURL (Procedure GroupServiceListGroupMembers));
    setEnrollmentState := NewClient (String.append baseURL (Procedure GroupServiceSetEnrollmentState));
    listEnrollments := NewClient (String.append baseURL (Procedure GroupServiceListEnrollments));
  |}.

(** The methods of the client: which Connect client each calls. *)
Definition methodClient (c : groupServiceClient) (p : procedure) : option Client :=
  match p with
  | GroupServiceCreateGroup => Some (createGroup c)
  | GroupServiceGetGroup => Some (getGroup c)
  | GroupServiceListGroups => Some (listGroups c)
  | GroupServiceDeleteGroup => Some (deleteGroup c)
  | GroupServiceAddGroupMember => Some (addGroupMember c)
  | GroupServiceRemoveGroupMember => Some (removeGroupMember c)
  | GroupServiceListGroupMembers => Some (listGroupMembers c)
  | GroupServiceSetEnrollmentState => Some (setEnrollmentState c)
  | GroupServiceListEnrollments => Some (listEnrollments c)
  | _ => None
  end.
End GroupService.

Module AuthzService.
Record authzServiceClient := mkClient {
  writeRelationTuples : Client;
  readRelationTuples : Client;
  check : Client;
  batchCheck : Client;
  expand : Client;
  listObjects : Client;
  deprovisionUser : Client;
  exportSubjectGrants : Client;
}.

Definition NewAuthzServiceClient (baseURL0 : string) : authzServiceClient :=
  let baseURL := TrimRightSlash baseURL0 in
  {|
    writeRelationTuples := NewClient (String.append baseURL (Procedure AuthzServiceWriteRelationTuples));
    readRelationTuples := NewClient (String.append baseURL (Procedure AuthzServiceReadRelationTuples));
    check := NewClient (String.append baseURL (Procedure AuthzServiceCheck));
    batchCheck := NewClient (String.append baseURL (Procedure AuthzServiceBatchCheck));
    expand := NewClient (String.append baseURL (Procedure AuthzServiceExpand));
    listObjects := NewClient (String.append baseURL (Procedure AuthzServiceListObjects));
    deprovisionUser := NewClient (String.append baseURL (Procedure AuthzServiceDeprovisionUser));
    exportSubjectGrants := NewClient (String.append baseURL (Procedure AuthzServiceExportSubjectGrants));
  |}.

(** The methods of the client: which Connect client each calls. *)
Definition methodClient (c : authzServiceClient) (p : procedure) : option Client :=
  match p with
  | AuthzServiceWriteRelationTuples => Some (writeRelationTuples c)
  | AuthzServiceReadRelationTuples => Some (readRelationTuples c)
  | AuthzServiceCheck => Some (check c)
  | AuthzServiceBatchCheck => Some (batchCheck c)
  | AuthzServiceExpand => Some (expand c)
  | AuthzServiceListObjects => Some (listObjects c)
  | AuthzServiceDeprovisionUser => Some (deprovisionUser c)
  | AuthzServiceExportSubjectGrants => Some (exportSubjectGrants c)
  | _ => None
  end.
End AuthzService.

Module AdminService.
Record adminServiceClient := mkClient {
  createProject : Client;
  getProject : Client;
  updateProject : Client;
  listProjects : Client;
}.

Definition NewAdminServiceClient (baseURL0 : string) : adminServiceClient :=
  let baseURL := TrimRightSlash baseURL0 in
  {|
    createProject := NewClient (String.append baseURL (Procedure AdminServiceCreateProject));
    getProject := NewClient (String.append baseURL (Procedure AdminServiceGetProject));
    updateProject := NewClient (String.append baseURL (Procedure AdminServiceUpdateProject));
    listProjects := NewClient (String.append baseURL (Procedure AdminServiceListProjects));
  |}.

(** The methods of the client: which Connect client each calls. *)
Definition methodClient (c : adminServiceClient) (p : procedure) : option Client :=
  match p with
  | AdminServiceCreateProject => Some (createProject c)
  | AdminServiceGetProject => Some (getProject c)
  | AdminServiceUpdateProject => Some (updateProject c)
  | AdminServiceListProjects => Some (listProjects c)
  | _ => None
  end.
End AdminService.

Module SeatService.
Record seatServiceClient := mkClient {
  setSeatLimit : Client;
  getSeatUsage : Client;
  assignSeat : Client;
  revokeSeat : Client;
  listSeats : Client;
}.

Definition NewSeatServiceClient (baseURL0 : string) : seatServiceClient :=
  let baseURL := TrimRightSlash baseURL0 in
  {|
    setSeatLimit := NewClient (String.append baseURL (Procedure SeatServiceSetSeatLimit));
    getSeatUsage := NewClient (String.append baseURL (Procedure SeatServiceGetSeatUsage));
    assignSeat := NewClient (String.append baseURL (Procedure SeatServiceAssignSeat));
    revokeSeat := NewClient (String.append baseURL (Procedure SeatServiceRevokeSeat));
    listSeats := NewClient (String.append baseURL (Procedure SeatServiceListSeats));
  |}.

(** The methods of the client: which Connect client each calls. *)
Definition methodClient (c : seatServiceClient) (p : procedure) : option Client :=
  match p with
  | SeatServiceSetSeatLimit => Some (setSeatLimit c)
  | SeatServiceGetSeatUsage => Some (getSeatUsage c)
  | SeatServiceAssignSeat => Some (assignSeat c)
  | SeatServiceRevokeSeat => Some (revokeSeat c)
  | SeatServiceListSeats => Some (listSeats c)
  | _ => None
  end.
End SeatService.

(** An application with a client of every service for one base URL. *)
Definition clientOf (baseURL : string) (p : procedure) : option Client :=
  head (omap id [WorkspaceService.methodClient (WorkspaceService.NewWorkspaceServiceClient baseURL) p;
    GroupService.methodClient (GroupService.NewGroupServiceClient baseURL) p;
    AuthzService.methodClient (AuthzService.NewAuthzServiceClient baseURL) p;
    AdminService.methodClient (AdminService.NewAdminServiceClient baseURL) p;
    SeatService.methodClient (SeatService.NewSeatServiceClient baseURL) p]).

(** ** URLs *)

(** The path of [scheme://host/path], for URLs without query and fragment. *)
Fixpoint afterScheme (url : string) : string :=
  match url with
  | String ":" (String "/" (String "/" rest)) => rest
  | String _ url' => afterScheme url'
  | EmptyString => EmptyString
  end.
Fixpoint fromSlash (s : string) : string :=
  match s with
  | String c s' => if Ascii.eqb c "/" then s else fromSlash s'
  | EmptyString => EmptyString
  end.
Definition urlPath (url : string) : string := fromSlash (afterScheme url).

(** ** A call *)
Definition MethodPost : string := "POST".

(** The headers an application may set: those the Connect protocol keeps for
    itself, and those of the HTTP message, are the runtime's. *)
Definition reservedHeader (k : string) : bool :=
  HasPrefix k "Connect-" || HasPrefix k "Grpc-" ||
  bool_decide (k ∈ ["Accept"; "Accept-Encoding"; "Content-Encoding"; "Content-Length"; "Content-Type"; "Expect";
                    "Te"; "Trailer"; "Transfer-Encoding"; "Upgrade"; "User-Agent"]).
Definition applicationHeaders (hdr : string -> string) : Prop := forall k, reservedHeader k = true -> hdr k = "".

Class ClientRuntime `{JsonCodec} `{ProtoTypes} `{!ConnectRuntime} := {
  (** the message's body, when its texts are valid; the headers with the
      protocol's added; how a response is read *)
  marshal : rpc -> option string;
  protocolHeader : (string -> string) -> string -> string;
  receive : HttpResponse reply -> result reply;
  (** the replies that the codec can write, whose texts are valid UTF-8 *)
  sendable : reply -> Prop;
  (** the codecs of both sides agree *)
  decode_marshal : forall r body path hdr peer, applicationHeaders hdr -> marshal r = Some body ->
    decode (rpcProcedure r) (mkHttpRequest MethodPost path (protocolHeader hdr) peer body) = inl r;
  receive_reply : forall path hdr peer body rep, applicationHeaders hdr -> sendable rep ->
    receive (encode (mkHttpRequest MethodPost path (protocolHeader hdr) peer body) (Ok rep)) = Ok rep;
  (** an error arrives with its code and a text *)
  receive_code : forall path hdr peer body code cause, applicationHeaders hdr -> exists text,
    receive (encode (mkHttpRequest MethodPost path (protocolHeader hdr) peer body) (Err (ErrConnect code cause)))
    = Err (ErrConnect code (ErrPlain text));
  (** the headers of CORS do not matter, and a plain 401 is unauthenticated *)
  receive_cors : forall origins origin resp, receive (addHeaders (corsHeaders origins origin) resp) = receive resp;
  receive_unauthorized : forall msg, exists text,
    receive (httpError StatusUnauthorized msg) = Err (ErrConnect CodeUnauthenticated (ErrPlain text));
}.

Section Call.
Context `{ClientRuntime} {S : Type}.

Definition clientRequest (c : Client) (hdr : string -> string) (peer body : string) : HttpRequest :=
  mkHttpRequest MethodPost (urlPath (c_URL c)) (protocolHeader hdr) peer body.

(** [CallUnary] against a server. *)
Definition CallUnary (server : HttpHandler S reply) (c : Client) (hdr : string -> string) (peer : string) (r : rpc)
    (s : S) : result reply * S :=
  match marshal r with
  | None => (Err (ErrConnect CodeInternal (ErrPlain "marshal message")), s)
  | Some body =>
      let '(resp, s') := server (clientRequest c hdr peer body) (mkCtx None) s in
      (match resp with Some resp => receive resp | None => Err (ErrPlain "connection closed") end, s')
  end.
End Call.

(** ** Routing of what the clients send *)
Lemma clientOf_some baseURL p : clientOf baseURL p = Some (NewClient (String.append (TrimRightSlash baseURL) (Procedure p))).
Proof. by destruct p. Qed.

Lemma muxFind_Procedure p : exists sh, muxFind MethodPost (Procedure p) = ToService sh /\ procedureAt sh (Procedure p) = Some p.
Proof. destruct p; eexists; (split; [reflexivity|]); reflexivity. Qed.

Lemma Procedure_not_infra p : IsInfraPath (Procedure p) = false.
Proof. by destruct p. Qed.
Lemma Procedure_slash p : exists s, Procedure p = String "/" s.
Proof. destruct p; by eexists. Qed.

(** *** Base URLs *)
Fixpoint slashes (n : nat) : string := match n with O => EmptyString | S n' => String "/" (slashes n') end.

(** [scheme://host], with any number of slashes after it. *)
Definition hostURL (baseURL : string) : Prop :=
  exists scheme host n, contains_char ":" scheme = false /\ host <> "" /\ contains_char "/" host = false /\
    baseURL = String.append (String.append scheme (String.append "://" host)) (slashes n).

#[local] Abbreviation L := String.list_ascii_of_string.

Lemma L_append a b : L (String.append a b) = L a ++ L b.
Proof. induction a as [|c a IH]; [done|]. change (c :: L (String.append a b) = c :: L a ++ L b). by rewrite IH. Qed.

Lemma rev_string_append a b : rev_string (String.append a b) = String.append (rev_string b) (rev_string a).
Proof. apply L_inj. by rewrite L_append, !L_rev, L_append, reverse_app. Qed.
Lemma rev_string_involutive a : rev_string (rev_string a) = a.
Proof. apply L_inj. by rewrite !L_rev, reverse_involutive. Qed.

Lemma dropSlashes_slashes n s : dropSlashes (String.append (rev_string (slashes n)) s) = dropSlashes s.
Proof.
  assert (Hrev : rev_string (slashes n) = slashes n).
  { apply L_inj. rewrite L_rev. assert (Hl : L (slashes n) = replicate n "/"%char) by (induction n; simpl; congruence).
    by rewrite Hl, reverse_replicate. }
  rewrite Hrev. clear Hrev. induction n as [|n IH]; [done|exact IH].
Qed.

Lemma contains_char_L c s : contains_char c s = true <-> c ∈ L s.
Proof.
  induction s as [|d s IH]; simpl; [by rewrite elem_of_nil|]. rewrite orb_true_iff, IH, elem_of_cons.
  split; intros [Hd|?]; auto; left; [by apply Ascii.eqb_eq in Hd|by apply Ascii.eqb_eq].
Qed.

(** A text that ends in something else keeps its end. *)
Lemma TrimRightSlash_slashes a host n : host <> "" -> contains_char "/" host = false ->
  TrimRightSlash (String.append (String.append a host) (slashes n)) = String.append a host.
Proof.
  intros Hne Hno. unfold TrimRightSlash. rewrite rev_string_append, dropSlashes_slashes, rev_string_append.
  rewrite <-(rev_string_involutive (String.append a host)), rev_string_append. f_equal.
  destruct (rev_string host) as [|c h] eqn:Hh.
  - destruct Hne. rewrite <-(rev_string_involutive host), Hh. reflexivity.
  - change (dropSlashes (String c (String.append h (rev_string a))) = String c (String.append h (rev_string a))). simpl.
    destruct (Ascii.eqb_spec c "/") as [->|]; [|done]. exfalso.
    assert (Hin : contains_char "/" host = true); [|congruence]. apply contains_char_L.
    assert (Hrev : reverse (L host) = "/"%char :: L h) by (by rewrite <-L_rev, Hh).
    apply elem_of_reverse. rewrite Hrev. left.
Qed.

Lemma afterScheme_scheme scheme rest : contains_char ":" scheme = false ->
  afterScheme (String.append scheme (String.append "://" rest)) = rest.
Proof.
  induction scheme as [|c scheme IH]; [done|]. simpl. rewrite orb_false_iff. intros [Hc%Ascii.eqb_neq Hs].
  change (afterScheme (String c (String.append scheme (String.append "://" rest))) = rest).
  rewrite <-(IH Hs) at 2. destruct c as [[] [] [] [] [] [] [] []]; try reflexivity. by destruct Hc.
Qed.

Lemma fromSlash_host host p : contains_char "/" host = false -> fromSlash (String.append host (Procedure p)) = Procedure p.
Proof.
  intros Hno. destruct (Procedure_slash p) as [path ->]. induction host as [|c host IH]; [done|].
  simpl in Hno. apply orb_false_iff in Hno as [Hc Hno].
  change ((if Ascii.eqb c "/" then String c (String.append host (String "/" path)) else fromSlash (String.append host (String "/" path)))
          = String "/" path). rewrite Hc. by apply IH.
Qed.

Lemma client_path baseURL p : hostURL baseURL -> urlPath (String.append (TrimRightSlash baseURL) (Procedure p)) = Procedure p.
Proof.
  intros (scheme & host & n & Hs & Hne & Hno & ->). rewrite string_app_assoc, TrimRightSlash_slashes by done.
  unfold urlPath. rewrite <-!string_app_assoc, afterScheme_scheme by done. by apply fromSlash_host.
Qed.

(** ** Through the server *)
Section Through.
Context `{Sources} `{MapRange} `{JsonCodec} `{TextParsers} `{TokenJson} `{ProtoTypes} `{LimiterEnv} `{!ConnectRuntime} `{!ClientRuntime}.

(** The middleware around a request of a client. *)
Lemma chained_client h cfg req resp s s' :
  String.eqb (hr_Method req) MethodOptions = false -> IsInfraPath (hr_Path req) = false ->
  let cors resp := addHeaders (corsHeaders (AllowedOrigins cfg) (hr_Header req "Origin")) resp in
  match authContext (ServiceAuthTokens cfg) (ServiceCredentials cfg) req with
  | Some ctx => mux h req ctx s = (Some resp, s') -> chained h cfg req (mkCtx None) s = (Some (cors resp), s')
  | None => exists msg, chained h cfg req (mkCtx None) s = (Some (cors (httpError StatusUnauthorized msg)), s)
  end.
Proof.
  intros Ho Hi. unfold authContext, chained, Chain. simpl. unfold Recover, CORS, ServiceAuth, WithCaller. rewrite Ho, Hi, !orb_false_r.
  destruct (is_nil _ && is_nil _); [by intros ->|].
  destruct (matchCredential _ _) as [c ok]. simpl. destruct ok; [by intros ->|].
  destruct (tokenMatches _ _); [by intros ->|]. by eexists.
Qed.

Lemma mux_client h c hdr peer r body ctx s :
  applicationHeaders hdr -> marshal r = Some body -> urlPath (c_URL c) = Procedure (rpcProcedure r) ->
  let req := clientRequest c hdr peer body in
  mux h req ctx s = (Some (encode req (serve h req ctx r s).1), (serve h req ctx r s).2).
Proof.
  intros Hh Hm Hp req. destruct (muxFind_Procedure (rpcProcedure r)) as (sh & Hroute & Hproc).
  unfold mux. unfold req at 1 2. cbn [clientRequest hr_Method hr_Path]. rewrite Hp, Hroute.
  unfold serviceHTTP. unfold req at 1. cbn [clientRequest hr_Path]. rewrite Hp, Hproc.
  unfold unaryHandler. unfold req at 1, clientRequest at 1. rewrite decode_marshal by done.
  by destruct (serve h req ctx r s).
Qed.

(** What the client makes of a handler's result: the reply, when it can be sent,
    or an error with the same code. *)
Definition relayed (res got : result reply) : Prop :=
  match res with
  | Ok rep => sendable rep -> got = Ok rep
  | Err (ErrConnect code _) => exists text, got = Err (ErrConnect code (ErrPlain text))
  | Err _ => False
  end.

Lemma receive_relayed c hdr peer body h ctx r s :
  applicationHeaders hdr ->
  let req := clientRequest c hdr peer body in
  relayed (serve h req ctx r s).1 (receive (encode req (serve h req ctx r s).1)).
Proof.
  intros Hh req. destruct (serve h req ctx r s) as [[rep|e] s'] eqn:Hs; simpl.
  - intros Hrep. by apply receive_reply.
  - assert (He : (serve h req ctx r s).1 = Err e) by (by rewrite Hs).
    destruct (serve_client h req ctx r s) as (k & _ & _ & Hend).
    assert (Hc : exists code cause, e = ErrConnect code cause).
    { destruct (Hend e He) as [[(code & text & _ & ->)|(p & err & _ & ->)]|(? & ? & cause & _ & _ & ->)];
        [eauto|destruct (errToConnect_fits err) as (? & -> & _)|destruct (errToConnect_fits cause) as (? & -> & _)]; eauto. }
    destruct Hc as (code & cause & ->). by apply receive_code.
Qed.

(** C28.  A generated client is its service at a distance: over any base URL
    [scheme://host] with or without slashes after it, with headers that the
    protocol does not keep for itself, and after any traffic, every method of the
    five clients sends a request that the server routes to the handler it was
    built with, at the same RPC with the same message, in the context the
    request's credential gives; the server is in the state that handler leaves,
    and the client returns the handler's reply, when the codec can write it, or an
    error with the handler's code.  Without a valid credential the client gets
    CodeUnauthenticated and the server's state is as it was. *)
Theorem client_calls_its_rpc opts handler s0 (traffic : list HttpRequest) baseURL hdr peer r body :
  NewServer opts = Ok (handler, s0) -> hostURL baseURL -> applicationHeaders hdr -> marshal r = Some body ->
  exists c, clientOf baseURL (rpcProcedure r) = Some c /\
    let s := handleAll handler traffic s0 in
    let req := clientRequest c hdr peer body in
    let '(got, s') := CallUnary handler c hdr peer r s in
    match authContext (ServiceAuthTokens (o_Config opts)) (ServiceCredentials (o_Config opts)) req with
    | Some ctx => s' = (serve (serverHandler opts) req ctx r s).2 /\ relayed (serve (serverHandler opts) req ctx r s).1 got
    | None => s' = s /\ exists text, got = Err (ErrConnect CodeUnauthenticated (ErrPlain text))
    end.
Proof.
  intros ->%NewServer_handler Hbase Hh Hm. eexists. split; [apply clientOf_some|]. intros s req.
  pose proof (client_path baseURL (rpcProcedure r) Hbase) as Hpath. destruct (serverConfig_auth opts) as [<- <-].
  unfold CallUnary. rewrite Hm. fold req.
  assert (Hinfra : IsInfraPath (hr_Path req) = false) by (simpl; rewrite Hpath; apply Procedure_not_infra).
  pose proof (chained_client (serverHandler opts) (serverConfig opts) req) as Hchain.
  destruct (authContext _ _ req) as [ctx|].
  - rewrite (Hchain _ s _ eq_refl Hinfra (mux_client _ (NewClient _) hdr peer r body ctx s Hh Hm Hpath)), receive_cors.
    split; [done|]. by apply receive_relayed.
  - destruct (Hchain (httpError 0 "") s s eq_refl Hinfra) as (msg & ->). rewrite receive_cors. split; [done|].
    apply receive_unauthorized.
Qed.
End Through.

(** ** A concrete runtime

    Errors travel as the name of their code; the message that can be sent is the
    creation of a project, whose body is its id. *)
Definition codeNames : list (string * Code) :=
  [("invalid_argument", CodeInvalidArgument); ("not_found", CodeNotFound); ("already_exists", CodeAlreadyExists);
   ("permission_denied", CodePermissionDenied); ("failed_precondition", CodeFailedPrecondition);
   ("resource_exhausted", CodeResourceExhausted); ("internal", CodeInternal); ("unauthenticated", CodeUnauthenticated);
   ("unimplemented", CodeUnimplemented)].
Definition codeName (c : Code) : string := default "" (fst <$> List.find (fun nc => bool_decide (nc.2 = c)) codeNames).
Definition codeNamed (s : string) : Code := default CodeInternal (snd <$> List.find (fun nc => String.eqb nc.1 s) codeNames).

Definition codedRuntime `{JsonCodec} : @ConnectRuntime _ sampleProto := {|
  decode := sampleDecode;
  encode r res := match res with
                  | Ok rep => mkHttpResponse StatusOK [] (inl rep)
                  | Err (ErrConnect code _) => httpError 400 (codeName code)
                  | Err _ => httpError StatusInternalServerError ""
                  end;
  redirectTo r := httpError 301 "moved";
  decode_typed := sampleDecode_typed;
|}.

Definition sampleMarshal `{JsonCodec} (r : @rpc _ sampleProto) : option string :=
  match r with
  | Admin (RpcCreateProject id name None region reads) =>
      if String.eqb name "Name" && String.eqb region "" && (reads =? 0) then Some id else None
  | _ => None
  end.

Definition sampleReceive `{JsonCodec} (resp : HttpResponse (@reply _ sampleProto)) : result (@reply _ sampleProto) :=
  match hs_Body resp with
  | inl rep => Ok rep
  | inr msg => Err (ErrConnect (if hs_Status resp =? StatusUnauthorized then CodeUnauthenticated else codeNamed msg) (ErrPlain msg))
  end.

Definition codedClient `{JsonCodec} : @ClientRuntime _ sampleProto codedRuntime.
Proof.
  refine {| marshal := sampleMarshal; protocolHeader hdr := hdr; receive := sampleReceive; sendable _ := True |}.
  - intros r body path hdr peer _ Hm. destruct r as [| | |[id name [m|] region reads| | |]]; try discriminate Hm. simpl in Hm.
    destruct (String.eqb_spec name "Name") as [->|]; [|discriminate Hm].
    destruct (String.eqb_spec region "") as [->|]; [|discriminate Hm].
    destruct (Z.eqb_spec reads 0) as [->|]; [|discriminate Hm]. by injection Hm as <-.
  - done.
  - intros ? ? ? ? [] cause _; by eexists.
  - done.
  - intros msg. by exists msg.
Defined.

Definition codedNewServer := @NewServer sampleSources map_range_default sampleCodec sampleParsers sampleTokenJson sampleProto
  sampleLimiterEnv codedRuntime (mkOptions None sampleConfig).

Lemma codedNewServer_ok : codedNewServer = Ok ((okServer codedNewServer).1, (okServer codedNewServer).2).
Proof.
  assert (Hok : is_ok codedNewServer = true) by (vm_compute; reflexivity). by destruct codedNewServer as [[]|].
Qed.

Lemma client_calls_its_rpc_witness :
  let header k := if String.eqb k "Authorization" then "Bearer s3cret" else "" in
  let msg := Admin (RpcCreateProject "crm" "Name" None "" 0) in
  let hs := okServer codedNewServer in
  exists c, clientOf "https://acme.test//" AdminServiceCreateProject = Some c /\
    (CallUnary (H2 := codedClient) hs.1 c header "peer" msg hs.2).2
    = (@serve sampleSources map_range_default sampleCodec sampleParsers sampleTokenJson sampleProto sampleLimiterEnv
         (serverHandler (mkOptions None sampleConfig))
         (mkHttpRequest MethodPost "/workspace.v1.AdminService/CreateProject" header "peer" "crm")
         (mkCtx (Some (mkCaller "billing" "acme"))) msg hs.2).2.
Proof.
  intros header msg hs.
  destruct (@client_calls_its_rpc sampleSources map_range_default sampleCodec sampleParsers sampleTokenJson sampleProto
    sampleLimiterEnv codedRuntime codedClient (mkOptions None sampleConfig) hs.1 hs.2 [] "https://acme.test//" header "peer" msg "crm")
    as (c & Hc & Hcall).
  - exact codedNewServer_ok.
  - exists "https", "acme.test", 2%nat. split_and!; [reflexivity|discriminate|reflexivity|reflexivity].
  - intros k Hk. unfold header. destruct (String.eqb_spec k "Authorization") as [->|]; [discriminate Hk|reflexivity].
  - reflexivity.
  - exists c. split; [exact Hc|]. injection Hc as <-. apply Hcall.
Defined.
