(* ===== verification/Logging.v ===== *)
(** * The service logger (internal/logging/logging.go)

    [New] builds zap's production logger and, when an endpoint is configured, adds
    an export to a collector behind the same sampler.  The cores of zap and of the
    OpenTelemetry bridge are parameters ([Zap]) with what their documentation says
    of them; [levelled], the tee and the places of the sampler are this package's.
    A logger is represented by its core: which outputs get an entry.  Fields of
    entries are left out.
    Module [ErrorReport] has [errorReporter.Handle], which is called from any number
    of goroutines and shares one atomic word.  A call is three atomic steps: reading
    the clock, loading the word, and the compare-and-swap; an interleaving is a list
    of them. *)

From stdpp Require Import base strings list sets.
From Stdlib Require Import ZArith Lia Sorted.
From S2P Require Import Prelude Model Text RateLimit.
#[local] Open Scope Z_scope.

(** ** Cores *)
Record Entry := mkEntry { e_Level : Z; e_Message : string }.
Inductive output := Stderr | Collector.

#[global] Instance output_eq_dec : EqDecision output.
Proof. solve_decision. Defined.

(** [zapcore.Core]: the levels it takes, and the outputs [Check] adds for an
    entry; the state is that of the sampler. *)
Record Core (S : Type) := mkCore {
  Enabled : Z -> bool;
  Check : Entry -> S -> list output * S;
}.
Arguments mkCore {S}.
Arguments Enabled {S}.
Arguments Check {S}.

Class Zap := {
  samplerState : Type;
  (** the core [cfg.Build] makes for stderr, and the bridge's *)
  stderrCore : Core samplerState;
  exportCore : Core samplerState;
  NewTee : Core samplerState -> Core samplerState -> Core samplerState;
  NewSampler : Core samplerState -> Core samplerState;
  (** the sampler's verdict on an entry, and its counters after it *)
  keeps : samplerState -> Entry -> bool;
  counted : samplerState -> Entry -> samplerState;
  exportTakes : Entry -> bool;
  (** [Check] of each *)
  stderr_Check : forall e st, Check stderrCore e st = (if Enabled stderrCore (e_Level e) then [Stderr] else [], st);
  export_Check : forall e st, Check exportCore e st = (if exportTakes e then [Collector] else [], st);
  tee_Enabled : forall a b l, Enabled (NewTee a b) l = Enabled a l || Enabled b l;
  tee_Check : forall a b e st, Check (NewTee a b) e st =
    let '(x, st1) := Check a e st in let '(y, st2) := Check b e st1 in (x ++ y, st2);
  sampler_Check : forall c e st, Check (NewSampler c) e st =
    if Enabled c (e_Level e) then
      if keeps st e then Check c e (counted st e) else ([], counted st e)
    else ([], st);
}.

(** ** The package *)
Definition EndpointEnv : string := "OTEL_EXPORTER_OTLP_ENDPOINT".
Definition flushTimeout : Z := 5 * 10 ^ 9.

(** What the libraries answer while the export is set up. *)
Inductive resourceOutcome := ResourceOK | ErrPartialResource (err : error) | ResourceFailed (err : error).
Record Telemetry := mkTelemetry {
  tl_build : result unit;            (* cfg.Build *)
  tl_exporter : result unit;         (* otlploghttp.New *)
  tl_resource : resourceOutcome;     (* resource.New *)
}.

(** What happens on the way: the error handler is installed, an error is handed to
    it, a warning is written, the exporter is shut down. *)
Inductive setupEvent := HandlerInstalled | Handled (err : error) | WarnedExportOff (err : error) | ExporterShutdown.

Section Logging.
Context `{Zap}.

Definition levelled (core : Core samplerState) (enabler : Z -> bool) : Core samplerState :=
  mkCore enabler (fun e st => if negb (enabler (e_Level e)) then ([], st) else Check core e st).

(** [lg_shutdown]: whether there is an export to shut down. *)
Record Logger := mkLogger { lg_Core : Core samplerState; lg_shutdown : bool }.

Definition emit_ (ev : setupEvent) : St (list setupEvent) unit := fun tr => (Ok tt, tr ++ [ev]).

Definition newProvider (t : Telemetry) : St (list setupEvent) unit :=
  do! lift (tl_exporter t) in
  match tl_resource t with
  | ResourceOK => ret tt
  | ErrPartialResource err => emit_ (Handled err)
  | ResourceFailed err => do! emit_ ExporterShutdown in fail err
  end.

Definition newLogger (endpoint : string) (t : Telemetry) : St (list setupEvent) Logger :=
  do! lift (tl_build t) in
  let local := mkLogger (NewSampler stderrCore) false in
  if String.eqb (TrimSpace endpoint) "" then ret local else
  do! emit_ HandlerInstalled in
  fun tr =>
    match newProvider t tr with
    | (Err err, tr') => (Ok local, tr' ++ [WarnedExportOff err])
    | (Ok _, tr') =>
        (Ok (mkLogger (NewSampler (NewTee stderrCore (levelled exportCore (Enabled stderrCore)))) true), tr')
    end.

(** [Close]: [shutdown] is what the provider's shutdown returns within the budget. *)
Definition Close (l : Logger) (shutdown : result unit) : result unit :=
  if lg_shutdown l then shutdown else Ok tt.

(** ** Lines *)

(** The entries written and where each went. *)
Fixpoint write (c : Core samplerState) (es : list Entry) (st : samplerState) : list (Entry * list output) :=
  match es with
  | [] => []
  | e :: es' => let '(outs, st') := Check c e st in (e, outs) :: write c es' st'
  end.

Definition linesAt (o : output) (written : list (Entry * list output)) : list Entry :=
  fst <$> filter (fun w => o ∈ w.2) written.

Lemma Check_local e st :
  Check (NewSampler stderrCore) e st =
  if Enabled stderrCore (e_Level e) then
    if keeps st e then ([Stderr], counted st e) else ([], counted st e)
  else ([], st).
Proof. rewrite sampler_Check, stderr_Check. by destruct (Enabled _ _), (keeps st e). Qed.

Lemma Check_exporting e st :
  Check (NewSampler (NewTee stderrCore (levelled exportCore (Enabled stderrCore)))) e st =
  if Enabled stderrCore (e_Level e) then
    if keeps st e then (Stderr :: (if exportTakes e then [Collector] else []), counted st e) else ([], counted st e)
  else ([], st).
Proof.
  rewrite sampler_Check, tee_Enabled, tee_Check, stderr_Check. simpl.
  destruct (Enabled stderrCore (e_Level e)) eqn:He; simpl; [|done]. rewrite export_Check. by destruct (keeps st e).
Qed.

Lemma linesAt_cons o e outs ws : linesAt o ((e, outs) :: ws) = if decide (o ∈ outs) then e :: linesAt o ws else linesAt o ws.
Proof. unfold linesAt. rewrite filter_cons. simpl. by case_decide. Qed.

Lemma write_exporting es st :
  let local := write (NewSampler stderrCore) es st in
  let both := write (NewSampler (NewTee stderrCore (levelled exportCore (Enabled stderrCore)))) es st in
  linesAt Stderr both = linesAt Stderr local /\
  linesAt Collector both = filter (fun e => exportTakes e = true) (linesAt Stderr local).
Proof.
  revert st. induction es as [|e es IH]; intros st; [done|]. cbn [write]. rewrite Check_local, Check_exporting.
  destruct (Enabled _ _); [|by apply (IH st)]. destruct (keeps st e); [|by apply (IH (counted st e))].
  destruct (IH (counted st e)) as [IHs IHc]. rewrite !linesAt_cons.
  rewrite (decide_True (P := Stderr ∈ [Stderr])) by set_solver.
  rewrite (decide_True (P := Stderr ∈ Stderr :: _)) by set_solver. split; [by f_equal|].
  rewrite filter_cons, IHc. destruct (exportTakes e).
  - by rewrite decide_True, decide_True by set_solver.
  - by rewrite decide_False, decide_False by set_solver.
Qed.

Lemma write_local_collector es st : linesAt Collector (write (NewSampler stderrCore) es st) = [].
Proof.
  revert st. induction es as [|e es IH]; intros st; [done|]. cbn [write]. rewrite Check_local.
  destruct (Enabled _ _), (keeps st e); rewrite linesAt_cons, decide_False by set_solver; apply IH.
Qed.

Lemma newLogger_err endpoint t tr err tr' : newLogger endpoint t tr = (Err err, tr') -> tl_build t = Err err.
Proof.
  unfold newLogger, bind, lift. destruct (tl_build t) as [[]|e]; [|by intros [= <- _]]. simpl.
  destruct (String.eqb _ _); [done|]. simpl. destruct (newProvider t _) as [[]]; done.
Qed.

(** The export never changes the service's own log: whatever the endpoint,
    the exporter and the resource do, New succeeds exactly when the stderr logger
    can be built; every sequence of entries leaves on stderr exactly the lines that
    a logger without export would write; and the collector is offered exactly
    those lines in their order, or nothing when the export is off, which it is
    without an endpoint and when its parts cannot be built. *)
Theorem export_mirrors_stderr (endpoint : string) (t : Telemetry) (tr : list setupEvent) :
  match (newLogger endpoint t tr).1 with
  | Err err => tl_build t = Err err
  | Ok l => tl_build t = Ok tt /\
      (lg_shutdown l = true <-> TrimSpace endpoint <> "" /\ tl_exporter t = Ok tt /\ forall err, tl_resource t <> ResourceFailed err) /\
      forall es st,
        linesAt Stderr (write (lg_Core l) es st) = linesAt Stderr (write (NewSampler stderrCore) es st) /\
        linesAt Collector (write (lg_Core l) es st) =
          if lg_shutdown l then filter (fun e => exportTakes e = true) (linesAt Stderr (write (lg_Core l) es st)) else []
  end.
Proof.
  unfold newLogger, bind, lift. destruct (tl_build t) as [[]|err]; [|done]. simpl.
  destruct (String.eqb_spec (TrimSpace endpoint) "") as [He|He]; simpl.
  - split_and!; [done|naive_solver|]. intros es st. split; [done|apply write_local_collector].
  - unfold newProvider, bind, lift. destruct (tl_exporter t) as [[]|err]; simpl.
    + destruct (tl_resource t); simpl; (split_and!; [done|naive_solver|]); intros es st;
        try (destruct (write_exporting es st) as [Hs Hc]; by rewrite Hs); split; [done|apply write_local_collector].
    + split_and!; [done|naive_solver|]. intros es st. split; [done|apply write_local_collector].
Qed.
End Logging.

(** A sampler that keeps the first two entries of the levels from Info on. *)
Definition sampleZap : Zap.
Proof.
  refine {|
    samplerState := nat;
    stderrCore := mkCore (fun l => 0 <=? l) (fun e st => (if 0 <=? e_Level e then [Stderr] else [], st));
    exportCore := mkCore (fun _ => true) (fun e st => ([Collector], st));
    NewTee a b := mkCore (fun l => Enabled a l || Enabled b l)
      (fun e st => let '(x, st1) := Check a e st in let '(y, st2) := Check b e st1 in (x ++ y, st2));
    NewSampler c := mkCore (Enabled c)
      (fun e st => if Enabled c (e_Level e) then if (st <? 2)%nat then Check c e (S st) else ([], S st) else ([], st));
    keeps st _ := (st <? 2)%nat;
    counted st _ := S st;
    exportTakes _ := true;
  |}; reflexivity.
Defined.

Definition healthyTelemetry : Telemetry := mkTelemetry (Ok tt) (Ok tt) (ErrPartialResource (ErrPlain "bad attribute")).

Lemma export_mirrors_stderr_witness :
  let es := [mkEntry 0 "a"; mkEntry (-1) "debug"; mkEntry 1 "b"; mkEntry 2 "c"] in
  match (newLogger (H := sampleZap) "http://collector:4318" healthyTelemetry []).1 with
  | Ok l => linesAt Collector (write (H := sampleZap) (lg_Core l) es O) = [mkEntry 0 "a"; mkEntry 1 "b"]
  | Err _ => False
  end.
Proof.
  pose proof (export_mirrors_stderr (H := sampleZap) "http://collector:4318" healthyTelemetry []) as Hm.
  destruct (newLogger (H := sampleZap) "http://collector:4318" healthyTelemetry []).1 as [l|e] eqn:El; [|discriminate Hm].
  destruct Hm as (_ & Hon & Hlines). destruct (Hlines [mkEntry 0 "a"; mkEntry (-1) "debug"; mkEntry 1 "b"; mkEntry 2 "c"] O) as [Hs Hc].
  cbv zeta. rewrite Hc, Hs. assert (Hl : lg_shutdown l = true) by (injection El as <-; reflexivity). rewrite Hl. reflexivity.
Defined.

(** ** Reporting failures of the export *)
Module ErrorReport.

Definition errorReportInterval : Z := 60 * second.

(** [er_reports] are the times of the lines written, newest first. *)
Record errorReporter := mkErrorReporter {
  er_start : Time;
  er_last : Z;
  er_reports : list Z;
}.

Definition newErrorReporter (now : Time) : errorReporter := mkErrorReporter now 0 [].

(** Where a call of [Handle] is. *)
Inductive handlePC := HStart | HClock (at_ : Z) | HLoaded (at_ prev : Z) | HReturned.

Definition handleStep (now : Time) (pc : handlePC) (e : errorReporter) : handlePC * errorReporter :=
  match pc with
  | HStart => (HClock (wrap64 (timeSub now (er_start e) + 1)), e)
  | HClock at_ =>
      let prev := er_last e in
      if negb (prev =? 0) && (wrap64 (at_ - prev) <? errorReportInterval) then (HReturned, e) else (HLoaded at_ prev, e)
  | HLoaded at_ prev =>
      if er_last e =? prev then (HReturned, mkErrorReporter (er_start e) at_ (at_ :: er_reports e)) else (HReturned, e)
  | HReturned => (HReturned, e)
  end.

(** A call begins, or the call [i] takes its next step at a time. *)
Inductive handleEvent := EvHandle | EvHandleStep (i : nat) (now : Time).

Record reportState := mkReportState { rs_reporter : errorReporter; rs_calls : list handlePC }.

Definition reportStep (s : reportState) (ev : handleEvent) : reportState :=
  match ev with
  | EvHandle => mkReportState (rs_reporter s) (rs_calls s ++ [HStart])
  | EvHandleStep i now =>
      match rs_calls s !! i with
      | Some pc => let '(pc', e') := handleStep now pc (rs_reporter s) in mkReportState e' (<[i := pc']> (rs_calls s))
      | None => s
      end
  end.

Definition reportRun (evs : list handleEvent) (s : reportState) : reportState := foldl reportStep s evs.

(** One call with nobody else around. *)
Definition Handle (now : Time) (e : errorReporter) : errorReporter :=
  rs_reporter (reportRun [EvHandle; EvHandleStep 0 now; EvHandleStep 0 now; EvHandleStep 0 now] (mkReportState e [])).

(** ** Spacing *)
Definition spaced : list Z -> Prop := StronglySorted (fun a b => errorReportInterval <= a - b).

(** Times since the start that a nanosecond counter holds. *)
Definition inRange (n : Z) : Prop := 1 <= n < 2 ^ 63.

Definition callOK (start : Time) (pc : handlePC) : Prop :=
  match pc with
  | HClock at_ => inRange at_
  | HLoaded at_ prev => inRange at_ /\ (prev = 0 \/ errorReportInterval <= at_ - prev)
  | _ => True
  end.

Record reportOK (start : Time) (s : reportState) : Prop := mkReportOK {
  ro_start : er_start (rs_reporter s) = start;
  ro_last : er_last (rs_reporter s) = default 0 (head (er_reports (rs_reporter s)));
  ro_range : Forall inRange (er_reports (rs_reporter s));
  ro_spaced : spaced (er_reports (rs_reporter s));
  ro_calls : Forall (callOK start) (rs_calls s);
}.

Definition goodTime (start : Time) (ev : handleEvent) : Prop :=
  match ev with EvHandleStep _ now => 0 <= now - start < 2 ^ 63 - 1 | EvHandle => True end.

(** The newest report is followed by one that is late enough after it, so after
    all of them. *)
Lemma spaced_cons at_ l : (l = [] \/ errorReportInterval <= at_ - default 0 (head l)) -> spaced l -> spaced (at_ :: l).
Proof.
  intros Hat Hl. constructor; [done|]. destruct l as [|b l]; [constructor|]. destruct Hat as [|Hat]; [done|]. simpl in Hat.
  apply StronglySorted_inv in Hl as [_ Hb]. constructor; [done|]. eapply Forall_impl; [exact Hb|].
  simpl. intros c Hc. unfold errorReportInterval, second in *. lia.
Qed.

Lemma handleStep_ok start now pc e calls :
  0 <= now - start < 2 ^ 63 - 1 -> callOK start pc -> reportOK start (mkReportState e calls) ->
  callOK start (handleStep now pc e).1 /\ reportOK start (mkReportState (handleStep now pc e).2 calls).
Proof.
  intros Hnow Hpc [Hst Hl Hr Hs Hc]. simpl in *. destruct pc as [|at_|at_ prev|]; simpl.
  - split; [|by split]. rewrite Hst. unfold timeSub, inRange. rewrite wrap64_small by lia. lia.
  - assert (Hprev : er_last e = 0 \/ inRange (er_last e)).
    { rewrite Hl. destruct (er_reports e) as [|b l]; [by left|right]. by apply Forall_cons_1 in Hr as [? _]. }
    destruct (Z.eqb_spec (er_last e) 0) as [E0|E0]; simpl; [split; [by split; [|left]|by split]|].
    destruct Hprev as [?|[? ?]]; [done|]. destruct Hpc.
    rewrite wrap64_small by lia. destruct (Z.ltb_spec (at_ - er_last e) errorReportInterval); [by split; [|split]|].
    split; [split; [split; lia|by right]|by split].
  - destruct Hpc as [Hat Hprev]. destruct (Z.eqb_spec (er_last e) prev) as [E0|E0]; simpl; [|by split; [|split]].
    split; [done|]. split; simpl; [done|done|by constructor| |done]. apply spaced_cons; [|done].
    rewrite Hl in E0. destruct (er_reports e) as [|b l]; [by left|right]. simpl in *. subst b.
    destruct Hprev as [->|Hp]; [|lia]. apply Forall_cons_1 in Hr as [[? ?] _]. lia.
  - by split; [|split].
Qed.

Lemma reportStep_ok start s ev : goodTime start ev -> reportOK start s -> reportOK start (reportStep s ev).
Proof.
  intros Hev Hs. destruct ev as [|i now]; simpl.
  - destruct Hs. split; simpl; try done. apply Forall_app. split; [done|]. by repeat constructor.
  - destruct (rs_calls s !! i) as [pc|] eqn:Hi; [|done]. destruct s as [e calls]. simpl in *.
    assert (Hpc : callOK start pc). { destruct Hs as [_ _ _ _ Hc]. simpl in Hc. by eapply Forall_lookup_1. }
    destruct (handleStep_ok start now pc e calls Hev Hpc Hs) as [Hpc' [? ? ? ? Hc]].
    destruct (handleStep now pc e) as [pc' e']. split; try done. simpl in *. by apply Forall_insert.
Qed.

Lemma reportRun_ok start evs s : Forall (goodTime start) evs -> reportOK start s -> reportOK start (reportRun evs s).
Proof. intros Hevs. revert s. induction Hevs as [|ev evs Hev _ IH]; intros s Hs; [done|]. by apply IH, reportStep_ok. Qed.

(** An export failure is reported at most once a minute: however calls of
    [Handle] interleave, any two lines it writes are at least the interval apart. *)
Theorem error_reports_spaced start evs :
  Forall (goodTime start) evs ->
  spaced (er_reports (rs_reporter (reportRun evs (mkReportState (newErrorReporter start) [])))).
Proof.
  intros Hevs. eapply ro_spaced, (reportRun_ok start); [done|]. split; simpl; try done; constructor.
Qed.

(** Two calls race at the first failure, and one comes a minute later. *)
Definition racingCalls : list handleEvent :=
  [EvHandle; EvHandle; EvHandleStep 0 5; EvHandleStep 1 6; EvHandleStep 0 7; EvHandleStep 1 8; EvHandleStep 0 9;
   EvHandleStep 1 10; EvHandle; EvHandleStep 2 (60 * second + 5); EvHandleStep 2 (60 * second + 6); EvHandleStep 2 (60 * second + 7)].

Lemma error_reports_spaced_witness :
  er_reports (rs_reporter (reportRun racingCalls (mkReportState (newErrorReporter 0) []))) = [60 * second + 6; 6] /\
  spaced (er_reports (rs_reporter (reportRun racingCalls (mkReportState (newErrorReporter 0) [])))).
Proof.
  split; [vm_compute; reflexivity|]. apply (error_reports_spaced 0 racingCalls).
  repeat constructor; vm_compute; discriminate.
Defined.

(** A call on its own writes a line exactly when none was written yet or the last
    one is old enough. *)
Lemma Handle_alone now e :
  0 <= now - er_start e < 2 ^ 63 - 1 -> 0 <= er_last e < 2 ^ 63 ->
  let at_ := now - er_start e + 1 in
  er_reports (Handle now e) =
    if (er_last e =? 0) || (errorReportInterval <=? at_ - er_last e) then at_ :: er_reports e else er_reports e.
Proof.
  intros Hnow Hlast at_. assert (Hsub : timeSub now (er_start e) = now - er_start e) by (unfold timeSub; lia).
  unfold Handle. cbn -[timeSub wrap64 errorReportInterval]. rewrite Hsub, (wrap64_small (now - er_start e + 1)) by lia. fold at_.
  rewrite (wrap64_small (at_ - er_last e)) by lia.
  destruct (Z.eqb_spec (er_last e) 0) as [E0|E0]; simpl; [by rewrite Z.eqb_refl|].
  destruct (Z.ltb_spec (at_ - er_last e) errorReportInterval), (Z.leb_spec errorReportInterval (at_ - er_last e)); try lia; simpl; [done|].
  by rewrite Z.eqb_refl.
Qed.

End ErrorReport.
