(* ===== verification/Main.v ===== *)
(** * The process (cmd/workspace/main.go)

    [main] as a program over the trace of what it does: the lines it logs, the
    resources it opens and closes, its listeners, and how the process ends.  The
    goroutine of the main listener and those of the requests log while [main] goes
    on; [processTrace] weaves their lines into the trace, wherever the scheduler
    puts them.  Go's
    [defer] is [deferring]: its action runs when the body returns or panics, not
    when the process exits.  The migrations are those of [Migration], over the
    catalog of the configured database; the choice of the driver, the verdict on a
    boot migration and the flags of the migrate command are here.

    A [Machine] is what the process meets: its arguments and environment, what the
    libraries answer, what happens while it serves, and when the other goroutines
    get to log.  What the lines of requests say is not represented. *)

From stdpp Require Import base gmap strings list.
From Stdlib Require Import ZArith Lia Ascii.
From S2P Require Import Prelude Model Types ModelJson Text Memory Middleware Config App.
From S2P Require Import Conformance Sql PostgresConformance Migration MigrationTheorems Logging.
#[local] Open Scope Z_scope.

(** ** Flags: [flag.FlagSet.Parse] with the one boolean flag [contract]

    [None] is an error; the rest are the arguments left. *)
Definition splitEq (s : string) : string * option string :=
  match s with
  | EmptyString => ("", None)
  | String c s' =>
      let fix go (s : string) : string * option string :=
        match s with
        | EmptyString => ("", None)
        | String d s'' => if Ascii.eqb d "=" then ("", Some s'') else let '(a, b) := go s'' in (String d a, b)
        end in
      let '(a, b) := go s' in (String c a, b)
  end.

Fixpoint parseFlags (args : list string) (contract : bool) : option (bool * list string) :=
  match args with
  | [] => Some (contract, [])
  | s :: rest =>
      match s with
      | String "-" (String c tl) =>
          if Ascii.eqb c "-" && String.eqb tl "" then Some (contract, rest)
          else
            let name := if Ascii.eqb c "-" then tl else String c tl in
            match name with
            | EmptyString => None
            | String "-" _ => None
            | String "=" _ => None
            | _ =>
                let '(flag, value) := splitEq name in
                if negb (String.eqb flag "contract") then None
                else match value with
                | None => parseFlags rest true
                | Some v => match ParseBool v with Some b => parseFlags rest b | None => None end
                end
            end
      | _ => Some (contract, args)
      end
  end.

Definition parseMigrateArgs (args : list string) : option bool :=
  match parseFlags args false with
  | Some (contract, []) => Some contract
  | _ => None
  end.

(** ** What a process does *)
Inductive event :=
  | Line (name : string)
  | OpenStore | CloseStore
  | MigrateStart (contract : bool)
  | Listen
  | StopConnect | StopMetrics
  | DrainLogs
  | FlushLogs.

#[global] Instance event_eq_dec : EqDecision event.
Proof. solve_decision. Defined.

(** What may happen while the servers run; a server that was closed reports
    [ErrServerClosed]. *)
Inductive serverEvent := SignalReceived | ServerStopped (closed : bool).

Record Machine := mkMachine {
  m_args : list string;                 (* os.Args after the program's name *)
  m_env : Environ;
  m_telemetry : Telemetry;
  m_flush : result unit;                (* the provider's shutdown *)
  m_open : result unit;                 (* postgres.Open *)
  m_connected : result unit;            (* the migration's own connection *)
  m_locked : result unit;               (* acquireMigrationLock *)
  m_happens : list serverEvent;
  m_sched : nat -> nat;                 (* how many lines the other goroutines write
                                           after the n-th event of main since Listen *)
  m_requestLine : nat -> string;        (* the lines of requests, in order *)
}.

Record Process := mkProcess { ps_trace : list event; ps_session : Session Catalog }.

Inductive ending (A : Type) := Returned (a : A) | Exited (code : Z) | Panicked | Serving.
Arguments Returned {A}.
Arguments Exited {A}.
Arguments Panicked {A}.
Arguments Serving {A}.

Definition Proc (A : Type) : Type := Process -> ending A * Process.
Definition pret {A} (a : A) : Proc A := fun p => (Returned a, p).
Definition pbind {A B} (c : Proc A) (k : A -> Proc B) : Proc B := fun p =>
  match c p with
  | (Returned a, p') => k a p'
  | (Exited code, p') => (Exited code, p')
  | (Panicked, p') => (Panicked, p')
  | (Serving, p') => (Serving, p')
  end.
Notation "'letp' x ':=' c 'in' k" := (pbind c (fun x => k)) (at level 10, x pattern, c at level 100, k at level 200).
Notation "'dop' c 'in' k" := (pbind c (fun _ => k)) (at level 10, c at level 100, k at level 200).

Definition emit (ev : event) : Proc unit := fun p => (Returned tt, mkProcess (ps_trace p ++ [ev]) (ps_session p)).
Definition exit {A} (code : Z) : Proc A := fun p => (Exited code, p).

Definition deferring {A} (cleanup : Proc unit) (body : Proc A) : Proc A := fun p =>
  match body p with
  | (Returned a, p') => (letp _ := cleanup in pret a) p'
  | (Panicked, p') => (letp _ := cleanup in (fun q => (Panicked, q))) p'
  | (Exited code, p') => (Exited code, p')
  | (Serving, p') => (Serving, p')
  end.

(** Statements on the database. *)
Definition onSession {A} (c : St (Session Catalog) A) : Proc (result A) := fun p =>
  let '(r, s) := c (ps_session p) in (Returned r, mkProcess (ps_trace p) s).

Definition DeadlineExceeded : error := ErrPlain "context deadline exceeded".

Inductive builtRepo := MemoryRepo | PostgresRepo.

Section Main.
Context `{Zap} `{Database} `{CredentialsJson}.
(** [workspaceserver.New]; over the in-memory store it is [App.NewServer]. *)
Context (serverNew : builtRepo -> Config -> result unit).
Context (m : Machine).

(** [exitAfter], the hook of a fatal line. *)
Definition fatal {A} (name : string) : Proc A :=
  dop emit (Line name) in
  dop emit FlushLogs in
  exit 1.

Definition closeLogs (logs : Logger) : Proc unit :=
  dop emit FlushLogs in
  match Close logs (m_flush m) with
  | Ok _ => pret tt
  | Err _ => emit (Line "log_export_flush_failed")
  end.

(** Whether startup must abort. *)
Definition logBootMigrate (err : option error) : Proc bool :=
  match err with
  | None => dop emit (Line "migrate_complete") in pret false
  | Some e =>
      if errors_Is e ErrMigrationLockHeld then dop emit (Line "migrate_lock_contended") in pret false
      else if errors_Is e DeadlineExceeded then dop emit (Line "migrate_boot_timeout") in pret true
      else pret true
  end.

Definition errOf {A} (r : result A) : option error := match r with Ok _ => None | Err e => Some e end.

(** The repository and its close function. *)
Definition buildRepo (cfg : Config) : Proc (result (builtRepo * Proc unit)) :=
  if String.eqb (PostgresDSN cfg) "" then
    dop emit (Line "using_in_memory_store") in pret (Ok (MemoryRepo, pret tt))
  else match m_open m with
  | Err e => pret (Err e)
  | Ok _ =>
      dop emit OpenStore in
      if PostgresAutoMigrate cfg then
        dop emit (Line "migrate_start") in
        dop emit (MigrateStart false) in
        letp r := onSession (Migrate (m_connected m) (m_locked m)) in
        letp abort := logBootMigrate (errOf r) in
        match r, abort with
        | Err e, true => dop emit CloseStore in pret (Err e)
        | _, _ => pret (Ok (PostgresRepo, emit CloseStore))
        end
      else pret (Ok (PostgresRepo, emit CloseStore))
  end.

(** *** The migrate command *)
Definition runMigrate (cfg : Config) (contract : bool) : Proc Z :=
  if String.eqb (PostgresDSN cfg) "" then dop emit (Line "migrate_requires_postgres") in pret 2
  else match m_open m with
  | Err _ => dop emit (Line "migrate_open_failed") in pret 1
  | Ok _ =>
      dop emit OpenStore in
      deferring (emit CloseStore) (
        dop emit (Line "migrate_start") in
        dop emit (MigrateStart contract) in
        letp r := onSession (if contract then Contract (m_connected m) (m_locked m)
                             else do! Migrate (m_connected m) (m_locked m) in ret tt) in
        match r with
        | Err _ => dop emit (Line "migrate_failed") in pret 1
        | Ok _ => dop emit (Line "migrate_complete") in pret 0
        end)
  end.

Definition migrateCommand (args : list string) (cfg : Config) (logs : Logger) : Proc Z :=
  deferring (closeLogs logs)
    match parseMigrateArgs args with
    | None => dop emit (Line "migrate_usage") in pret 2
    | Some contract => runMigrate cfg contract
    end.

(** *** Serving *)

(** The [select]: the first signal, or the first server that failed. *)
Fixpoint wait (evs : list serverEvent) : Proc string :=
  match evs with
  | [] => fun p => (Serving, p)
  | SignalReceived :: _ => pret "workspace_service_shutting_down"
  | ServerStopped false :: _ => pret "server_failed_early"
  | ServerStopped true :: evs' => wait evs'
  end.

Fixpoint emits (evs : list event) : Proc unit :=
  match evs with [] => pret tt | ev :: evs' => dop emit ev in emits evs' end.

Definition serve_ (cfg : Config) : Proc unit :=
  dop emit (Line "workspace_service_starting") in
  dop emits ((fun _ => Line "service_credential_configured") <$> ServiceCredentials cfg) in
  dop emit Listen in
  letp reason := wait (m_happens m) in
  dop emit (Line reason) in
  dop emit StopConnect in
  dop emit StopMetrics in
  emit (Line "shutdown_complete").

Definition isMigrate (args : list string) : option (list string) :=
  match args with
  | cmd :: rest => if String.eqb cmd "migrate" then Some rest else None
  | [] => None
  end.

Definition main : Proc unit :=
  match newLogger (default "" (m_env m EndpointEnv)) (m_telemetry m) [] with
  | (Err _, _) => fun p => (Panicked, p)
  | (Ok logs, _) =>
      match OptionsFromEnv (m_env m) with
      | Err _ => fatal "config_invalid"
      | Ok opts =>
          let cfg := o_Config opts in
          match isMigrate (m_args m) with
          | Some rest => letp code := migrateCommand rest cfg logs in exit code
          | None =>
              deferring (closeLogs logs) (
                letp repo := buildRepo cfg in
                match repo with
                | Err _ => fatal "repo_init_failed"
                | Ok (r, closeRepo) =>
                    deferring closeRepo (
                      match serverNew r cfg with
                      | Err _ => fatal "server_init_failed"
                      | Ok _ => deferring (emit DrainLogs) (serve_ cfg)
                      end)
                end)
          end
      end
  end.

(** *** The other goroutines

    The goroutine of the main listener logs one line before it listens; the
    requests it accepts log theirs after it.  None of them waits for [main]: a line
    may come at any point after [Listen], also after the flush, until the process
    is gone. *)
Definition goLine (k : nat) : event :=
  Line match k with O => "workspace_service_started" | S k' => m_requestLine m k' end.

(** The events of [main], from its [n]-th since [Listen] on, among the lines of the
    other goroutines from their [k]-th on. *)
Fixpoint weave (n k : nat) (evs : list event) : list event :=
  (goLine <$> seq k (m_sched m n)) ++
  match evs with
  | [] => []
  | ev :: evs' => ev :: weave (S n) (k + m_sched m n) evs'
  end.

Fixpoint processTrace (trace : list event) : list event :=
  match trace with
  | [] => []
  | ev :: trace' => ev :: (if decide (ev = Listen) then weave 0 0 trace' else processTrace trace')
  end.

(** ** Runs *)
Abbreviation traced p evs := (mkProcess (ps_trace p ++ evs) (ps_session p)).

Lemma emits_run evs p : emits evs p = (Returned tt, traced p evs).
Proof.
  revert p. induction evs as [|ev evs IH]; intros [tr s]; unfold pret; simpl; [by rewrite app_nil_r|].
  unfold pbind, emit. rewrite IH. simpl. by rewrite <-app_assoc.
Qed.

Lemma wait_run evs p :
  wait evs p = (Serving, p) \/
  exists reason, wait evs p = (Returned reason, p) /\
    (reason = "workspace_service_shutting_down" \/ reason = "server_failed_early")%string.
Proof. induction evs as [|[|[]] evs IH]; simpl; eauto. Qed.

(** Lines and repository work, before anything listens or is flushed. *)
Definition early (ev : event) : bool := match ev with Listen | FlushLogs => false | _ => true end.

Definition migratedOrContended (r : result (list string)) : Prop :=
  match r with Ok _ => True | Err e => errors_Is e ErrMigrationLockHeld = true end.

Lemma buildRepo_run cfg p :
  exists evs s r, buildRepo cfg p = (Returned r, mkProcess (ps_trace p ++ evs) s) /\ Forall (fun ev => early ev = true) evs /\
    match r with
    | Ok (MemoryRepo, close) => PostgresDSN cfg = "" /\ close = pret tt /\ s = ps_session p
    | Ok (PostgresRepo, close) => PostgresDSN cfg <> "" /\ close = emit CloseStore /\ m_open m = Ok tt /\
        (PostgresAutoMigrate cfg = true ->
          exists r0, Migrate (m_connected m) (m_locked m) (ps_session p) = (r0, s) /\ migratedOrContended r0)
    | Err _ => True
    end.
Proof.
  destruct p as [tr s0]. unfold buildRepo. destruct (String.eqb_spec (PostgresDSN cfg) "") as [Hd|Hd].
  { exists [Line "using_in_memory_store"], s0. eexists. split; [reflexivity|]. split; [by repeat constructor|done]. }
  destruct (m_open m) as [[]|e]; [|exists [], s0, (Err e); split; [by rewrite app_nil_r|by split]].
  destruct (PostgresAutoMigrate cfg).
  2: { exists [OpenStore], s0. eexists. split; [reflexivity|]. split; [by repeat constructor|done]. }
  unfold pbind, emit, onSession. simpl. destruct (Migrate _ _ s0) as [[pending|e] s1] eqn:Em; unfold logBootMigrate, pbind, emit, pret; simpl.
  - eexists _, s1, _. rewrite <-!app_assoc. simpl. split; [reflexivity|]. split; [by repeat constructor|]. split_and!; [done..|].
    intros _. by exists (Ok pending).
  - destruct (errors_Is e ErrMigrationLockHeld) eqn:He; simpl; [|destruct (errors_Is e DeadlineExceeded); simpl].
    + eexists _, s1, _. rewrite <-!app_assoc. simpl. split; [reflexivity|]. split; [by repeat constructor|]. split_and!; [done..|].
      intros _. by exists (Err e).
    + eexists _, s1, _. rewrite <-!app_assoc. simpl. split; [reflexivity|]. by split; [repeat constructor|].
    + eexists _, s1, _. rewrite <-!app_assoc. simpl. split; [reflexivity|]. by split; [repeat constructor|].
Qed.

Definition flushTail (tail : list event) : Prop := tail = [] \/ tail = [Line "log_export_flush_failed"].

Lemma closeLogs_run logs p :
  exists tail, closeLogs logs p = (Returned tt, traced p (FlushLogs :: tail)) /\ flushTail tail.
Proof.
  unfold closeLogs, pbind, emit, pret. simpl. destruct (Close logs (m_flush m)) as [[]|e].
  - exists []. by split; [|left].
  - exists [Line "log_export_flush_failed"]. simpl. rewrite <-app_assoc. by split; [|right].
Qed.

Lemma runMigrate_run cfg contract p :
  exists evs s code, runMigrate cfg contract p = (Returned code, mkProcess (ps_trace p ++ evs) s) /\ Forall (fun ev => early ev = true) evs.
Proof.
  destruct p as [tr s0]. unfold runMigrate. destruct (String.eqb _ _); [eexists _, s0, _; split; [reflexivity|by repeat constructor]|].
  destruct (m_open m) as [[]|e]; [|eexists _, s0, _; split; [reflexivity|by repeat constructor]].
  unfold deferring, pbind, emit, onSession, pret. simpl.
  destruct contract; [destruct (Contract _ _ s0) as [[[]|e] s1]|destruct (bind _ _ s0) as [[[]|e] s1]]; simpl.
  all: eexists _, s1, _; rewrite <-!app_assoc; simpl; (split; [reflexivity|by repeat constructor]).
Qed.

Lemma migrateCommand_run args cfg logs p :
  exists evs tail s code, migrateCommand args cfg logs p = (Returned code, mkProcess (ps_trace p ++ evs ++ FlushLogs :: tail) s) /\
    Forall (fun ev => early ev = true) evs /\ flushTail tail.
Proof.
  unfold migrateCommand, deferring. destruct (parseMigrateArgs args) as [contract|].
  - destruct (runMigrate_run cfg contract p) as (evs & s & code & -> & Hev).
    destruct (closeLogs_run logs (mkProcess (ps_trace p ++ evs) s)) as (tail & Hc & Ht).
    exists evs, tail, s, code. unfold pbind. rewrite Hc. simpl. by rewrite <-app_assoc.
  - unfold pbind at 1, emit, pret at 1. destruct (closeLogs_run logs (traced p [Line "migrate_usage"])) as (tail & Hc & Ht).
    exists [Line "migrate_usage"], tail, (ps_session p), 2. unfold pbind. rewrite Hc. simpl. rewrite <-app_assoc.
    split; [done|]. split; [by repeat constructor|done].
Qed.

(** What a process that came to serve had ready, and what it leaves. *)
Record ready (p : Process) (s : Session Catalog) (cfg : Config) : Prop := mkReady {
  rd_config : exists opts, OptionsFromEnv (m_env m) = Ok opts /\ o_Config opts = cfg;
  rd_server : exists repo, serverNew repo cfg = Ok tt /\ (repo = MemoryRepo <-> PostgresDSN cfg = "");
  rd_store : PostgresDSN cfg <> "" -> m_open m = Ok tt;
  rd_schema : PostgresDSN cfg <> "" -> PostgresAutoMigrate cfg = true ->
    exists r, Migrate (m_connected m) (m_locked m) (ps_session p) = (r, s) /\ migratedOrContended r;
}.

Definition closing (cfg : Config) : list event := if String.eqb (PostgresDSN cfg) "" then [] else [CloseStore].

Inductive life (p : Process) : ending unit -> Process -> Prop :=
  | LifePanic err s : tl_build (m_telemetry m) = Err err -> life p Panicked (mkProcess (ps_trace p) s)
  | LifeExit evs tail s code : Forall (fun ev => early ev = true) evs -> flushTail tail ->
      life p (Exited code) (mkProcess (ps_trace p ++ evs ++ FlushLogs :: tail) s)
  | LifeServing evs s cfg : Forall (fun ev => early ev = true) evs -> ready p s cfg ->
      life p Serving (mkProcess (ps_trace p ++ evs ++ [Listen]) s)
  | LifeStopped evs reason tail s cfg : Forall (fun ev => early ev = true) evs -> flushTail tail -> ready p s cfg ->
      life p (Returned tt) (mkProcess (ps_trace p ++ evs ++ [Listen; Line reason; StopConnect; StopMetrics; Line "shutdown_complete";
        DrainLogs] ++ closing cfg ++ FlushLogs :: tail) s).

Lemma serve_run cfg p :
  let evs := Line "workspace_service_starting" :: ((fun _ => Line "service_credential_configured") <$> ServiceCredentials cfg) in
  Forall (fun ev => early ev = true) evs /\
  (serve_ cfg p = (Serving, traced p (evs ++ [Listen])) \/
   exists reason, serve_ cfg p = (Returned tt, traced p (evs ++ [Listen; Line reason; StopConnect; StopMetrics; Line "shutdown_complete"]))).
Proof.
  intros evs. split; [constructor; [done|]; apply Forall_fmap, Forall_true; done|].
  assert (Hpre : forall k : unit -> Proc unit,
    (dop emit (Line "workspace_service_starting") in
     dop emits ((fun _ => Line "service_credential_configured") <$> ServiceCredentials cfg) in
     letp u := emit Listen in k u) p = k tt (traced p (evs ++ [Listen]))).
  { intros k. unfold pbind at 1, emit at 1. unfold pbind at 1. rewrite emits_run. unfold pbind at 1, emit at 1.
    cbn [ps_trace ps_session]. by rewrite <-!app_assoc. }
  unfold serve_. rewrite (Hpre (fun _ => _)).
  destruct (wait_run (m_happens m) (traced p (evs ++ [Listen]))) as [Hw|(reason & Hw & _)].
  - left. unfold pbind. by rewrite Hw.
  - right. exists reason. unfold pbind, emit. rewrite Hw. cbn [ps_trace ps_session]. by rewrite <-!app_assoc.
Qed.

Lemma life_fatal {A} p evs s name : Forall (fun ev => early ev = true) evs ->
  exists p', fatal (A := A) name (mkProcess (ps_trace p ++ evs) s) = (Exited 1, p') /\ life p (Exited 1) p'.
Proof.
  intros Hev. eexists. split; [reflexivity|]. cbn [ps_trace ps_session]. rewrite <-!app_assoc.
  replace (evs ++ _) with ((evs ++ [Line name]) ++ [FlushLogs]) by (by rewrite <-app_assoc).
  apply LifeExit; [|by left]. apply Forall_app. by repeat constructor.
Qed.

Lemma deferring_returned {A} cleanup (body : Proc A) p a p1 p2 :
  body p = (Returned a, p1) -> cleanup p1 = (Returned tt, p2) -> deferring cleanup body p = (Returned a, p2).
Proof. intros Hb Hc. unfold deferring, pbind. by rewrite Hb, Hc. Qed.

(** The server's part, with the store's close function around it. *)
Lemma served_life p evs s cfg logs close :
  Forall (fun ev => early ev = true) evs -> ready p s cfg ->
  close = (if String.eqb (PostgresDSN cfg) "" then pret tt else emit CloseStore) ->
  let '(e, p') := deferring (closeLogs logs) (deferring close (deferring (emit DrainLogs) (serve_ cfg)))
                    (mkProcess (ps_trace p ++ evs) s) in life p e p'.
Proof.
  intros Hev Hrd Hclose. destruct (serve_run cfg (mkProcess (ps_trace p ++ evs) s)) as [Hsv Hrun].
  set (sv := Line _ :: _) in *. assert (Hall : Forall (fun ev => early ev = true) (evs ++ sv)) by (by apply Forall_app).
  clearbody sv. destruct Hrun as [Hrun|[reason Hrun]].
  - unfold deferring. rewrite Hrun. cbn [ps_trace ps_session]. rewrite <-app_assoc, (app_assoc evs). by eapply LifeServing.
  - set (p1 := traced _ _) in Hrun. set (p2 := traced p1 [DrainLogs]).
    assert (Hcl : close p2 = (Returned tt, traced p2 (closing cfg))).
    { subst close. unfold closing. destruct (String.eqb _ _); [|done]. unfold pret, p2. simpl. by rewrite app_nil_r. }
    destruct (closeLogs_run logs (traced p2 (closing cfg))) as (tail & Hl & Ht).
    rewrite (deferring_returned _ _ _ tt (traced p2 (closing cfg)) _
      (deferring_returned _ _ _ tt p2 _ (deferring_returned _ _ _ tt p1 p2 Hrun eq_refl) Hcl) Hl).
    unfold p2, p1. cbn [ps_trace ps_session]. rewrite <-!app_assoc. simpl. rewrite (app_assoc evs). by eapply LifeStopped.
Qed.

Lemma main_life p : let '(e, p') := main p in life p e p'.
Proof.
  unfold main. destruct (newLogger _ _ _) as [[logs|err] tr] eqn:Hl.
  2: { destruct p as [tr0 s0]. simpl. apply (LifePanic (mkProcess tr0 s0) err). by eapply newLogger_err. }
  destruct (OptionsFromEnv (m_env m)) as [opts|e] eqn:Ho.
  2: { destruct (life_fatal (A := unit) p [] (ps_session p) "config_invalid") as (p' & Hf & Hlife); [constructor|].
       rewrite app_nil_r in Hf. destruct p. cbn [ps_trace ps_session] in Hf. by rewrite Hf. }
  set (cfg := o_Config opts). destruct (isMigrate (m_args m)) as [rest|].
  { destruct (migrateCommand_run rest cfg logs p) as (evs & tail & s & code & Hrun & Hev & Ht).
    unfold pbind. rewrite Hrun. by apply LifeExit. }
  destruct (buildRepo_run cfg p) as (evs & s & r & Hb & Hev & Hr).
  destruct r as [[repo close]|e].
  2: { destruct (life_fatal (A := unit) p evs s "repo_init_failed" Hev) as (p' & Hf & Hlife).
       unfold deferring, pbind. rewrite Hb, Hf. done. }
  assert (Hmain : deferring (closeLogs logs) (letp r0 := buildRepo cfg in
      match r0 with
      | Err _ => fatal "repo_init_failed"
      | Ok (r1, closeRepo) => deferring closeRepo
          (match serverNew r1 cfg with Err _ => fatal "server_init_failed" | Ok _ => deferring (emit DrainLogs) (serve_ cfg) end)
      end) p = deferring (closeLogs logs) (deferring close
          (match serverNew repo cfg with Err _ => fatal "server_init_failed" | Ok _ => deferring (emit DrainLogs) (serve_ cfg) end))
          (mkProcess (ps_trace p ++ evs) s)).
  { unfold deferring at 1 4. unfold pbind at 1. by rewrite Hb. }
  rewrite Hmain. destruct (serverNew repo cfg) as [[]|e] eqn:Hs.
  - apply served_life; [done| |].
    + split; [by exists opts| | |].
      * exists repo. split; [done|]. destruct repo; naive_solver.
      * intros Hd. destruct repo; naive_solver.
      * intros Hd Ha. destruct repo; naive_solver.
    + destruct repo, Hr as (Hd & -> & _); [by rewrite Hd|]. apply String.eqb_neq in Hd. by rewrite Hd.
  - destruct (life_fatal (A := unit) p evs s "server_init_failed" Hev) as (p' & Hf & Hlife). unfold deferring. by rewrite Hf.
Qed.





End Main.

(** ** Claims *)


(** C30.  A process that listens was ready to: its configuration loaded and the
    server was assembled over the store that the configuration names.  With a
    database it opened it, and with auto-migration on the expand phase either
    finished, so that every table has the composite key or a valid index for it
    and the tenant-scoped indexes are built, or reported that another migration
    holds the lock; in both cases no key and no personal-workspace index was
    lost. *)
Theorem process_listens_when_ready `{Zap} `{Database} `{CredentialsJson} serverNew m s0 e p' :
  main serverNew m (mkProcess [] s0) = (e, p') -> Listen ∈ ps_trace p' -> ownNames (db s0) ->
  exists opts repo, OptionsFromEnv (m_env m) = Ok opts /\
    serverNew repo (o_Config opts) = Ok tt /\ (repo = MemoryRepo <-> PostgresDSN (o_Config opts) = "") /\
    (PostgresDSN (o_Config opts) <> "" -> m_open m = Ok tt /\
      (PostgresAutoMigrate (o_Config opts) = true ->
        expandStep (db s0) (db (ps_session p')) /\
        (expandedAll (db (ps_session p')) \/
         exists err, (Migrate (m_connected m) (m_locked m) s0).1 = Err err /\ errors_Is err ErrMigrationLockHeld = true))).
Proof.
  intros Hm Hin Hown. pose proof (main_life serverNew m (mkProcess [] s0)) as Hl. rewrite Hm in Hl.
  assert (Hearly : forall evs, Forall (fun ev => early ev = true) evs -> Listen ∉ evs).
  { intros evs Hev Hl'. rewrite Forall_forall in Hev. discriminate (Hev _ Hl'). }
  assert (Hready : exists cfg, ready serverNew m (mkProcess [] s0) (ps_session p') cfg).
  { destruct Hl as [err s Hb|evs tail s code Hev Ht|evs s cfg Hev Hrd|evs reason tail s cfg Hev Ht Hrd]; simpl in *;
      [by apply elem_of_nil in Hin| |by exists cfg..].
    apply elem_of_app in Hin as [Hin|Hin]; [by destruct (Hearly evs Hev)|].
    apply elem_of_cons in Hin as [Hin|Hin]; [done|]. destruct Ht as [->| ->]; [by apply elem_of_nil in Hin|].
    apply list_elem_of_singleton in Hin. done. }
  destruct Hready as (cfg & [(opts & Ho & <-) (repo & Hs & Hrepo) Hopen Hschema]).
  exists opts, repo. split_and!; [done..|]. intros Hd. split; [auto|]. intros Ha.
  destruct (Hschema Hd Ha) as (r & Hr & Hok). simpl in Hr.
  pose proof (wp_Migrate (m_connected m) (m_locked m) (db s0) Hown s0 eq_refl) as Hw. rewrite Hr in Hw |- *.
  destruct r as [pending|err]; simpl in *; [tauto|]. eauto.
Qed.

(** *** Examples *)
#[local] Instance noCredentials : CredentialsJson := {| decodeCredentials _ := None |}.

Definition postgresEnv : Environ := fun k =>
  if String.eqb k "GATEWAY_POSTGRES_DSN" then Some "postgres://db/workspace"
  else if String.eqb k "GATEWAY_POSTGRES_AUTO_MIGRATE" then Some "true"
  else if String.eqb k EndpointEnv then Some "http://collector:4318" else None.

Definition terminated (happens : list serverEvent) : Machine :=
  mkMachine [] postgresEnv healthyTelemetry (Err (ErrPlain "collector gone")) (Ok tt) (Ok tt) (Ok tt) happens
    (fun n => if (n =? 8)%nat then 1%nat else 0%nat) (fun _ => "request").

Definition sampleSession : Session Catalog := mkSession (mkCatalog (cat_pk oldCatalog) (cat_idx oldCatalog) []) [].

Definition sampleMain (happens : list serverEvent) : ending unit * Process :=
  main (H := sampleZap) (H1 := heapOrder) (fun _ _ => Ok tt) (terminated happens) (mkProcess [] sampleSession).


Lemma process_listens_when_ready_witness :
  expandedAll (db (ps_session (sampleMain []).2)) \/
  exists err, (Migrate (H0 := heapOrder) (Ok tt) (Ok tt) sampleSession).1 = Err err /\ errors_Is err ErrMigrationLockHeld = true.
Proof.
  destruct (process_listens_when_ready (H := sampleZap) (H1 := heapOrder) (fun _ _ => Ok tt) (terminated []) sampleSession
    Serving (sampleMain []).2) as (opts & repo & Ho & _ & _ & Hpg).
  - vm_compute. reflexivity.
  - assert (Htr : last (ps_trace (sampleMain []).2) = Some Listen) by (vm_compute; reflexivity).
    apply last_Some in Htr as [evs ->]. apply elem_of_app. right. by left.
  - exact oldCatalog_ownNames.
  - revert Hpg. revert Ho. intros [= <-] Hpg. destruct Hpg as [_ Hmig]; [discriminate|]. destruct (Hmig eq_refl) as [_ Hdone]. exact Hdone.
Defined.

(** A server that cannot listen (its port is taken) takes the process down with
    the status of a clean shutdown: [main] returns. *)
Example early_failure_returns :
  (sampleMain [ServerStopped false]).1 = Returned tt /\ Line "server_failed_early" ∈ ps_trace (sampleMain [ServerStopped false]).2.
Proof.
  split; [vm_compute; reflexivity|]. apply list_elem_of_In. vm_compute. tauto.
Qed.

(** The goroutine of the main listener may log when the logs are flushed already:
    the metrics port is taken and [main] ends before that goroutine runs. *)
Example started_line_after_flush :
  last (processTrace (terminated [ServerStopped false]) (ps_trace (sampleMain [ServerStopped false]).2))
  = Some (Line "workspace_service_started").
Proof. vm_compute. reflexivity. Qed.
