(* ===== verification/Flight.v ===== *)
(** * Concurrent resolution of projects (internal/service/projects.go: modelResolver)

    [Service] runs requests one after the other; here any number of goroutines
    resolve and change projects at the same time.  A goroutine is a program
    counter; a step of it is one critical section of the resolver's mutex, one
    repository call, one reading of the clock, or one action of the singleflight
    group.  The group is golang.org/x/sync/singleflight, a parameter with its
    documented contract ([Singleflight]).  An interleaving is a list of events. *)

From stdpp Require Import base gmap sets strings list.
From Stdlib Require Import ZArith Lia.
From S2P Require Import Prelude Conditions Model ModelJson Types Text Engine Memory Token Service Resolver.
#[local] Open Scope Z_scope.

(** ** The singleflight group

    [Do(key, fn)] executes [fn] unless a call for the key is in flight; then the
    caller waits for that call and receives the same result.  [inFlight] is the call
    in flight for a key, [lead] registers a new one, [land] ends it with the result
    of its function, and [outcome] is what those who wait for it receive. *)
Class Singleflight (V : Type) := {
  Group : Type;
  flightCall : Type;
  flightCall_eq_dec :: EqDecision flightCall;
  newGroup : Group;
  inFlight : Group -> string -> option flightCall;
  lead : string -> Group -> flightCall * Group;
  land : string -> flightCall -> V -> Group -> Group;
  outcome : Group -> flightCall -> option V;
  newGroup_spec : forall k, inFlight newGroup k = None;
  lead_spec : forall k g, inFlight g k = None ->
    (forall k', inFlight g k' <> Some (lead k g).1) /\ outcome g (lead k g).1 = None /\
    (forall k', inFlight (lead k g).2 k' = if String.eqb k' k then Some (lead k g).1 else inFlight g k') /\
    (forall c, outcome (lead k g).2 c = outcome g c);
  land_spec : forall k c v g, inFlight g k = Some c ->
    (forall k', inFlight (land k c v g) k' = if String.eqb k' k then None else inFlight g k') /\
    outcome (land k c v g) c = Some v /\ (forall c', c' <> c -> outcome (land k c v g) c' = outcome g c');
}.

(** A group with its calls numbered: those in flight, and the results of the others. *)
Section Numbered.
Context {V : Type}.

Record flights := mkFlights { f_open : gmap string nat; f_results : gmap nat V }.

Definition numberedLead (k : string) (g : flights) : nat * flights :=
  let c := fresh (map_img (f_open g) ∪ dom (f_results g) : gset nat) in (c, mkFlights (<[k := c]> (f_open g)) (f_results g)).
Definition numberedLand (k : string) (c : nat) (v : V) (g : flights) : flights :=
  mkFlights (delete k (f_open g)) (<[c := v]> (f_results g)).

Lemma numberedLead_spec k g : f_open g !! k = None ->
  (forall k', f_open g !! k' <> Some (numberedLead k g).1) /\ f_results g !! (numberedLead k g).1 = None /\
  (forall k', f_open (numberedLead k g).2 !! k' = if String.eqb k' k then Some (numberedLead k g).1 else f_open g !! k') /\
  (forall c, f_results (numberedLead k g).2 !! c = f_results g !! c).
Proof.
  intros Hk. pose proof (is_fresh (map_img (f_open g) ∪ dom (f_results g) : gset nat)) as Hf. rewrite elem_of_union in Hf.
  unfold numberedLead. simpl. split_and!; [| |intros k'|done].
  - intros k' Hk'. apply Hf. left. by eapply elem_of_map_img_2.
  - apply not_elem_of_dom. tauto.
  - destruct (String.eqb_spec k' k) as [->|Hne]; [by rewrite lookup_insert_eq|by rewrite lookup_insert_ne].
Qed.

Lemma numberedLand_spec k c v g : f_open g !! k = Some c ->
  (forall k', f_open (numberedLand k c v g) !! k' = if String.eqb k' k then None else f_open g !! k') /\
  f_results (numberedLand k c v g) !! c = Some v /\
  (forall c', c' <> c -> f_results (numberedLand k c v g) !! c' = f_results g !! c').
Proof.
  intros Hk. simpl. split_and!; [intros k'|by rewrite lookup_insert_eq|intros c' Hne; by rewrite lookup_insert_ne].
  destruct (String.eqb_spec k' k) as [->|Hne]; [by rewrite lookup_delete_eq|by rewrite lookup_delete_ne].
Qed.

Lemma noFlights_spec k : f_open (mkFlights ∅ ∅) !! k = None.
Proof. apply lookup_empty. Qed.

Definition numberedFlights : Singleflight V := {|
  newGroup := mkFlights ∅ ∅;
  inFlight g k := f_open g !! k;
  lead := numberedLead;
  land := numberedLand;
  outcome g c := f_results g !! c;
  newGroup_spec := noFlights_spec;
  lead_spec := numberedLead_spec;
  land_spec := numberedLand_spec;
|}.
End Numbered.

(** ** State

    [C] is the type of the calls of the group, [G] that of its states. *)
Inductive caller {C : Type} :=
  (* resolve *)
  | CStart (id : string)
  | CMissed (id : string)                              (* before sf.Do *)
  | CLeading (id : string) (fl : C)                    (* in the flight *)
  | CLoading (id : string) (fl : C)                    (* before repo.GetProject *)
  | CLoaded (id : string) (fl : C) (row : option Project) (* before r.now() *)
  | CStoring (id : string) (fl : C) (e : resolved)     (* before r.store *)
  | CLanding (id : string) (fl : C) (r : result resolved) (* before the flight ends *)
  | CWaiting (id : string) (fl : C)
  | CReturned (id : string) (r : result resolved)
  (* CreateProject and UpdateProject, from the write on *)
  | CWriting (id : string) (p : Project)
  | CInvalidating (id : string)
  | CWritten (id : string).
Arguments caller : clear implicits.

Record Resolver {G C : Type} := mkResolver {
  rv_now : Time;
  rv_projects : gmap string Project;
  rv_cache : gmap string resolved;
  rv_sf : G;
  rv_callers : list (caller C);
}.
Arguments Resolver : clear implicits.
Arguments mkResolver {G C}.

(** A goroutine starts, the goroutine [i] takes a step (its repository call failing
    when [fault] is given), or time passes. *)
Inductive revent {C : Type} := EvGo (c : caller C) | EvStep (i : nat) (fault : option error) | EvTick (d : nat).
Arguments revent : clear implicits.

Section Resolution.
Context `{MapRange} `{Singleflight (result resolved)}.
#[local] Abbreviation state := (Resolver Group flightCall).

Definition set_rcache f (s : state) : state := mkResolver (rv_now s) (rv_projects s) (f (rv_cache s)) (rv_sf s) (rv_callers s).
Definition set_sf g (s : state) : state := mkResolver (rv_now s) (rv_projects s) (rv_cache s) g (rv_callers s).
Definition set_projects f (s : state) : state := mkResolver (rv_now s) (f (rv_projects s)) (rv_cache s) (rv_sf s) (rv_callers s).
Definition set_caller i c (s : state) : state := mkResolver (rv_now s) (rv_projects s) (rv_cache s) (rv_sf s) (<[i := c]> (rv_callers s)).

(** [lookup]: the entry and the cache after it. *)
Definition lookup_ (id : string) (s : state) : option resolved * state :=
  match rv_cache s !! id with
  | None => (None, s)
  | Some e => if resolverTTL <? rv_now s - r_at e then (None, set_rcache (delete id) s) else (Some e, s)
  end.

Definition evict (now : Time) (cache : gmap string resolved) : gmap string resolved :=
  let live := filter (fun kv => (resolverTTL <? now - r_at kv.2) = false) cache in
  evictSome resolverMaxEntries (range_map live).*1 live.

Definition store_ (id : string) (e : resolved) (s : state) : state :=
  set_rcache (fun cache =>
    <[id := e]> (if decide (resolverMaxEntries <= size cache)%nat then evict (rv_now s) cache else cache)) s.

(** The entry [load] makes of a row. *)
Definition entryOf (row : option Project) (at_ : Time) : resolved :=
  match row with
  | None => mkResolved None false "" 0 at_
  | Some p => mkResolved (overlay (p_Model p)) (String.eqb (p_Status p) ProjectSuspended) (p_DataRegion p) (p_MaxCheckReads p) at_
  end.

(** [invalidate] *)
Definition invalidate_ (id : string) (s : state) : state := set_rcache (delete id) s.

Definition callerStep (i : nat) (c : caller flightCall) (fault : option error) (s : state) : state :=
  match c with
  | CStart id =>
      let '(hit, s') := lookup_ id s in
      set_caller i (match hit with Some e => CReturned id (Ok e) | None => CMissed id end) s'
  | CMissed id =>
      match inFlight (rv_sf s) id with
      | Some fl => set_caller i (CWaiting id fl) s
      | None => let '(fl, g) := lead id (rv_sf s) in set_caller i (CLeading id fl) (set_sf g s)
      end
  | CLeading id fl =>
      let '(hit, s') := lookup_ id s in
      set_caller i (match hit with Some e => CLanding id fl (Ok e) | None => CLoading id fl end) s'
  | CLoading id fl =>
      match fault with
      | Some err => set_caller i (CLanding id fl (Err err)) s
      | None => set_caller i (CLoaded id fl (rv_projects s !! id)) s
      end
  | CLoaded id fl row => set_caller i (CStoring id fl (entryOf row (rv_now s))) s
  | CStoring id fl e => set_caller i (CLanding id fl (Ok e)) (store_ id e s)
  | CLanding id fl r => set_caller i (CReturned id r) (set_sf (land id fl r (rv_sf s)) s)
  | CWaiting id fl =>
      match outcome (rv_sf s) fl with
      | Some r => set_caller i (CReturned id r) s
      | None => s
      end
  | CWriting id p =>
      match fault with
      | Some _ => set_caller i (CWritten id) s
      | None => set_caller i (CInvalidating id) (set_projects (<[id := p]>) s)
      end
  | CInvalidating id => set_caller i (CWritten id) (invalidate_ id s)
  | CReturned _ _ | CWritten _ => s
  end.

(** Goroutines begin with a call of [resolve] or with a write. *)
Definition begins (c : caller flightCall) : bool := match c with CStart _ | CWriting _ _ => true | _ => false end.

Definition rstep (s : state) (ev : revent flightCall) : state :=
  match ev with
  | EvGo c => if begins c then mkResolver (rv_now s) (rv_projects s) (rv_cache s) (rv_sf s) (rv_callers s ++ [c]) else s
  | EvStep i fault => match rv_callers s !! i with Some c => callerStep i c fault s | None => s end
  | EvTick d => mkResolver (rv_now s + Z.of_nat d) (rv_projects s) (rv_cache s) (rv_sf s) (rv_callers s)
  end.

Definition rrun (evs : list (revent flightCall)) (s : state) : state := foldl rstep s evs.

Definition newModelResolver (now : Time) (ps : gmap string Project) : state := mkResolver now ps ∅ newGroup [].

(** ** Flights *)

(** The flight a caller leads. *)
Definition leads (c : caller flightCall) : option (string * flightCall) :=
  match c with
  | CLeading id fl | CLoading id fl | CLoaded id fl _ | CStoring id fl _ | CLanding id fl _ => Some (id, fl)
  | _ => None
  end.

Record flightInv (s : state) : Prop := mkFlightInv {
  fi_lead : forall j c id fl, rv_callers s !! j = Some c -> leads c = Some (id, fl) -> inFlight (rv_sf s) id = Some fl;
  fi_one : forall i j c d id fl fl', rv_callers s !! i = Some c -> rv_callers s !! j = Some d ->
    leads c = Some (id, fl) -> leads d = Some (id, fl') -> i = j;
  fi_inj : forall id id' fl, inFlight (rv_sf s) id = Some fl -> inFlight (rv_sf s) id' = Some fl -> id = id';
  fi_open : forall id fl, inFlight (rv_sf s) id = Some fl -> outcome (rv_sf s) fl = None;
  fi_wait : forall i id fl, rv_callers s !! i = Some (CWaiting id fl) ->
    inFlight (rv_sf s) id = Some fl \/ outcome (rv_sf s) fl <> None;
}.

(** A step of a caller that leaves the group alone. *)
Lemma flightInv_same s s' i c c' :
  flightInv s -> rv_callers s !! i = Some c -> rv_sf s' = rv_sf s -> rv_callers s' = <[i := c']> (rv_callers s) ->
  (leads c' = None \/ leads c' = leads c) -> (forall id fl, c' = CWaiting id fl -> inFlight (rv_sf s) id = Some fl) -> flightInv s'.
Proof.
  intros [L O J N W] Hi Hg Hc Hl Hw.
  assert (Hold : forall j d id fl, <[i := c']> (rv_callers s) !! j = Some d -> leads d = Some (id, fl) ->
                 exists d', rv_callers s !! j = Some d' /\ leads d' = Some (id, fl)).
  { intros j d id fl Hd Hld. apply list_lookup_insert_Some in Hd as [(<- & <- & _)|[_ Hd]]; [|eauto].
    exists c. split; [done|]. destruct Hl; congruence. }
  split; rewrite ?Hg, ?Hc; [| |done|done|].
  - intros j d id fl Hd Hld. destruct (Hold _ _ _ _ Hd Hld) as (d' & Hd' & Hld'). by eapply L.
  - intros j k d d2 id fl fl' Hd Hd2 Hld Hld2. destruct (Hold _ _ _ _ Hd Hld) as (? & ? & ?).
    destruct (Hold _ _ _ _ Hd2 Hld2) as (? & ? & ?). by eapply O.
  - intros k id fl Hk. apply list_lookup_insert_Some in Hk as [(_ & Hk & _)|[_ Hk]]; [left; by apply Hw|by eapply W].
Qed.

Lemma lookup_frame id s : let s' := (lookup_ id s).2 in
  rv_sf s' = rv_sf s /\ rv_callers s' = rv_callers s /\ rv_projects s' = rv_projects s /\ rv_now s' = rv_now s /\
  (rv_cache s' = rv_cache s \/ rv_cache s' = delete id (rv_cache s)) /\ forall e, (lookup_ id s).1 = Some e -> rv_cache s !! id = Some e.
Proof. unfold lookup_. destruct (rv_cache s !! id) as [e|]; [destruct (_ <? _)|]; simpl; split_and!; auto; congruence. Qed.

Lemma flightInv_lead s i id : flightInv s -> rv_callers s !! i = Some (CMissed id) -> inFlight (rv_sf s) id = None ->
  flightInv (set_caller i (CLeading id (lead id (rv_sf s)).1) (set_sf (lead id (rv_sf s)).2 s)).
Proof.
  intros [L O J N W] Hi Hn. destruct (lead_spec id (rv_sf s) Hn) as (Hnew & Hnone & Hfl & Hout).
  split; simpl.
  - intros k d id' fl Hd Hl. rewrite Hfl. apply list_lookup_insert_Some in Hd as [(<- & <- & _)|[_ Hd]].
    + injection Hl as <- <-. by rewrite String.eqb_refl.
    + pose proof (L k d id' fl Hd Hl) as Hk. destruct (String.eqb_spec id' id) as [->|]; [congruence|done].
  - intros k1 k2 c1 c2 id' fl fl' Hd1 Hd2 Hl1 Hl2.
    apply list_lookup_insert_Some in Hd1 as [(<- & <- & _)|[_ Hd1]], Hd2 as [(<- & <- & _)|[_ Hd2]]; [done| | |by eapply O].
    + injection Hl1 as <- <-. pose proof (L _ _ _ _ Hd2 Hl2). congruence.
    + injection Hl2 as <- <-. pose proof (L _ _ _ _ Hd1 Hl1). congruence.
  - intros k1 k2 fl. rewrite !Hfl. destruct (String.eqb_spec k1 id) as [->|], (String.eqb_spec k2 id) as [->|]; [done| | |by apply J].
    + intros [= <-] Hk. by destruct (Hnew k2).
    + intros Hk [= <-]. by destruct (Hnew k1).
  - intros k fl. rewrite Hfl, Hout. destruct (String.eqb_spec k id); [by intros [= <-]|by apply N].
  - intros k id' fl Hk. rewrite Hfl, Hout. apply list_lookup_insert_Some in Hk as [(_ & [=] & _)|[_ Hk]].
    destruct (W k id' fl Hk) as [Hf|]; [|by right]. left. destruct (String.eqb_spec id' id) as [->|]; [congruence|done].
Qed.

Lemma flightInv_land s i id fl r : flightInv s -> rv_callers s !! i = Some (CLanding id fl r) ->
  flightInv (set_caller i (CReturned id r) (set_sf (land id fl r (rv_sf s)) s)).
Proof.
  intros [L O J N W] Hi. pose proof (L i _ id fl Hi eq_refl) as Hfi.
  destruct (land_spec id fl r (rv_sf s) Hfi) as (Hfl & Hv & Hout). split; simpl.
  - intros k d id' fl' Hd Hl. apply list_lookup_insert_Some in Hd as [(_ & <- & _)|[Hne Hd]]; [done|].
    pose proof (L k d id' fl' Hd Hl) as Hk. rewrite Hfl. destruct (String.eqb_spec id' id) as [->|]; [|done].
    destruct Hne. by eapply (O i k).
  - intros k1 k2 c1 c2 id' fl1 fl2 Hd1 Hd2 Hl1 Hl2.
    apply list_lookup_insert_Some in Hd1 as [(_ & <- & _)|[_ Hd1]], Hd2 as [(_ & <- & _)|[_ Hd2]]; try done. by eapply O.
  - intros k1 k2 fl'. rewrite !Hfl. destruct (String.eqb k1 id); [done|]. destruct (String.eqb k2 id); [done|]. apply J.
  - intros k fl'. rewrite Hfl. destruct (String.eqb_spec k id) as [|Hne]; [done|]. intros Hk.
    rewrite Hout; [by eapply N|]. intros ->. by destruct Hne, (J _ _ _ Hk Hfi).
  - intros k id' fl' Hk. apply list_lookup_insert_Some in Hk as [(_ & [=] & _)|[_ Hk]]. rewrite Hfl.
    destruct (decide (fl' = fl)) as [->|Hne]; [right; by rewrite Hv|]. rewrite (Hout _ Hne).
    destruct (W k id' fl' Hk) as [Hf|]; [left|by right]. destruct (String.eqb_spec id' id) as [->|]; [congruence|done].
Qed.

Lemma flightInv_step s ev : flightInv s -> flightInv (rstep s ev).
Proof.
  intros Hinv. destruct ev as [c|i fault|d]; simpl; [| |by destruct Hinv as [L O J N W]].
  - destruct (begins c) eqn:Hb; [|done]. destruct Hinv as [L O J N W].
    assert (Hold : forall j d, (rv_callers s ++ [c]) !! j = Some d -> rv_callers s !! j = Some d \/ d = c).
    { intros j d [Hd|[_ Hd]]%lookup_app_Some; [by left|]. apply list_lookup_singleton_Some in Hd as [_ <-]. by right. }
    assert (Hnl : leads c = None) by (by destruct c). split; simpl; [| |done|done|].
    + intros j d id fl [Hd| ->]%Hold Hl; [by eapply L|congruence].
    + intros j k d d' id fl fl' [Hd| ->]%Hold [Hd'| ->]%Hold Hl Hl'; [by eapply O|congruence..].
    + intros k id fl [Hk| <-]%Hold; [by eapply W|done].
  - destruct (rv_callers s !! i) as [c|] eqn:Hi; [|done].
    destruct c as [id|id|id fl|id fl|id fl row|id fl e|id fl r|id fl|id r|id p|id|id]; simpl; try done.
    + destruct (lookup_frame id s) as (Hf & Hc & _ & _ & _ & _). destruct (lookup_ id s) as [hit s']. simpl in *.
      eapply (flightInv_same s _ i _ (match hit with Some e => CReturned id (Ok e) | None => CMissed id end)); try done;
        [by simpl; rewrite Hc|left; by destruct hit|by destruct hit].
    + destruct (inFlight (rv_sf s) id) as [fl|] eqn:Hj.
      * eapply flightInv_same; try done; [by left|]. by intros ? ? [= <- <-].
      * pose proof (flightInv_lead s i id Hinv Hi Hj) as Hl. by destruct (lead id (rv_sf s)).
    + destruct (lookup_frame id s) as (Hf & Hc & _ & _ & _ & _). destruct (lookup_ id s) as [hit s']. simpl in *.
      eapply (flightInv_same s _ i _ (match hit with Some e => CLanding id fl (Ok e) | None => CLoading id fl end)); try done;
        [by simpl; rewrite Hc|right; by destruct hit|by destruct hit].
    + destruct fault; (eapply flightInv_same; try done; by right).
    + eapply flightInv_same; try done; by right.
    + eapply flightInv_same; try done; by right.
    + by apply flightInv_land.
    + destruct (outcome (rv_sf s) fl); [|done]. eapply flightInv_same; try done; by left.
    + destruct fault; (eapply flightInv_same; try done; by left).
    + eapply flightInv_same; try done; by left.
Qed.

Lemma flightInv_run evs s : flightInv s -> flightInv (rrun evs s).
Proof. revert s. induction evs as [|ev evs IH]; intros s Hs; [done|]. by apply IH, flightInv_step. Qed.

Lemma flightInv_new now ps : flightInv (newModelResolver now ps).
Proof. split; simpl; intros *; by rewrite ?lookup_nil, ?newGroup_spec. Qed.

(** ** Currency *)
(** Conversion leaves the size limit of the cache alone. *)
#[local] Strategy opaque [resolverMaxEntries].

Section Current.
Context (id : string) (R : resolution) (n0 : nat).

Definition okR (r : result resolved) : Prop := match r with Ok e => entryResolution e = R | Err _ => True end.

(** What a leader of [id] holds. *)
Definition carries (c : caller flightCall) : Prop :=
  match c with
  | CLoaded _ _ row => entryResolution (entryOf row 0) = R
  | CStoring _ _ e => entryResolution e = R
  | CLanding _ _ r => okR r
  | _ => True
  end.

(** Callers from the [n0]-th on are the later ones. *)
Record freshInv (s : state) : Prop := mkFreshInv {
  fr_row : resolutionOf (rv_projects s) id = R;
  fr_cache : forall e, rv_cache s !! id = Some e -> entryResolution e = R;
  fr_lead : forall j c fl, rv_callers s !! j = Some c -> leads c = Some (id, fl) -> carries c;
  fr_quiet : forall j p, rv_callers s !! j <> Some (CWriting id p);
  fr_wait : forall i fl r, (n0 <= i)%nat -> rv_callers s !! i = Some (CWaiting id fl) -> outcome (rv_sf s) fl = Some r -> okR r;
  fr_done : forall i r, (n0 <= i)%nat -> rv_callers s !! i = Some (CReturned id r) -> okR r;
}.

Definition unwritten (ev : revent flightCall) : Prop := match ev with EvGo (CWriting id' _) => id' <> id | _ => True end.

Lemma entryOf_row ps t : entryResolution (entryOf (ps !! id) t) = resolutionOf ps id.
Proof. unfold resolutionOf. by destruct (ps !! id). Qed.
Lemma entryOf_time row t t' : entryResolution (entryOf row t) = entryResolution (entryOf row t').
Proof. by destruct row. Qed.

(** A step of a caller; the last conditions are about the call it waits for, the
    results that calls got, and its own. *)
Lemma freshInv_move s s' i c' :
  freshInv s -> rv_callers s' = <[i := c']> (rv_callers s) ->
  resolutionOf (rv_projects s') id = R -> (forall e, rv_cache s' !! id = Some e -> entryResolution e = R) ->
  (forall fl, leads c' = Some (id, fl) -> carries c') -> (forall p, c' <> CWriting id p) ->
  (forall fl, c' = CWaiting id fl -> outcome (rv_sf s') fl = None) ->
  (forall k fl r, rv_callers s !! k = Some (CWaiting id fl) -> outcome (rv_sf s') fl = Some r -> outcome (rv_sf s) fl = Some r \/ okR r) ->
  (forall r, c' = CReturned id r -> (n0 <= i)%nat -> okR r) ->
  freshInv s'.
Proof.
  intros [_ _ Hlead Hquiet Hwait Hdone] Hc Hrow Hcache Hcarry Hnw Hjoin Hout Hret.
  split; [done|done| | | |]; rewrite Hc.
  - intros j d fl Hd Hl. apply list_lookup_insert_Some in Hd as [(_ & <- & _)|[_ Hd]]; [by eapply Hcarry|by eapply Hlead].
  - intros j p Hd. apply list_lookup_insert_Some in Hd as [(_ & Hd & _)|[_ Hd]]; [by destruct (Hnw p)|by destruct (Hquiet j p)].
  - intros k fl r Hk Hw Hr. apply list_lookup_insert_Some in Hw as [(_ & Hw & _)|[_ Hw]].
    + rewrite (Hjoin fl Hw) in Hr. done.
    + destruct (Hout _ _ _ Hw Hr); [by eapply Hwait|done].
  - intros k r Hk Hd. apply list_lookup_insert_Some in Hd as [(<- & Hd & _)|[_ Hd]]; [by apply Hret|by eapply Hdone].
Qed.

Lemma freshInv_cache_delete s k e : freshInv s -> delete k (rv_cache s) !! id = Some e -> entryResolution e = R.
Proof. intros Hs [_ He]%lookup_delete_Some. by apply (fr_cache _ Hs). Qed.

Lemma evictSome_lookup max keys (c : gmap string resolved) k e : evictSome max keys c !! k = Some e -> c !! k = Some e.
Proof. intros He. eapply lookup_weaken; [exact He|apply evictSome_sub]. Qed.

Lemma store_lookup s k e e' : rv_cache (store_ k e s) !! id = Some e' -> (k = id /\ e' = e) \/ rv_cache s !! id = Some e'.
Proof.
  simpl. rewrite lookup_insert_Some. intros [[-> ->]|[_ He]]; [by left|right]. revert He. case_decide; [|done].
  intros He%evictSome_lookup. by apply map_lookup_filter_Some in He as [He _].
Qed.

Lemma freshInv_lookup s k : freshInv s -> forall e, rv_cache (lookup_ k s).2 !! id = Some e -> entryResolution e = R.
Proof.
  intros Hs e. destruct (lookup_frame k s) as (_ & _ & _ & _ & [-> | ->] & _); [apply (fr_cache _ Hs)|by apply freshInv_cache_delete].
Qed.

Lemma freshInv_go s c : freshInv s -> unwritten (EvGo c) -> freshInv (rstep s (EvGo c)).
Proof.
  intros Hs Hev. simpl. destruct (begins c) eqn:Hb; [|done]. destruct Hs as [Hrow Hcache Hlead Hquiet Hwait Hdone].
  assert (Hold : forall j d, (rv_callers s ++ [c]) !! j = Some d -> rv_callers s !! j = Some d \/ d = c).
  { intros j d [Hd|[_ Hd]]%lookup_app_Some; [by left|]. apply list_lookup_singleton_Some in Hd as [_ <-]. by right. }
  split; simpl; [done|done| | | |].
  - intros j d fl [Hd| ->]%Hold Hl; [by eapply Hlead|by destruct c].
  - intros j p [Hd|Hd]%Hold; [by destruct (Hquiet j p)|]. subst c. by apply Hev.
  - intros k fl r Hk [Hw|Hw]%Hold Hr; [by eapply Hwait|by subst c].
  - intros k r Hk [Hd|Hd]%Hold; [by eapply Hdone|by subst c].
Qed.

Lemma freshInv_step s ev : flightInv s -> freshInv s -> unwritten ev -> freshInv (rstep s ev).
Proof.
  intros Hf Hs Hev. destruct ev as [c|i fault|d]; [by apply freshInv_go| |by destruct Hs].
  simpl. destruct (rv_callers s !! i) as [c|] eqn:Hi; [|done].
  pose proof (fr_row _ Hs) as Hrow. pose proof (fr_cache _ Hs) as Hcache.
  destruct c as [k|k|k fl|k fl|k fl row|k fl e|k fl r|k fl|k r|k p|k|k]; simpl; try done.
  - destruct (lookup_frame k s) as (Hg & Hc & Hp & _ & _ & Hhit). pose proof (freshInv_lookup s k Hs) as Hl.
    destruct (lookup_ k s) as [hit s'] eqn:Hlk. simpl in *.
    eapply (freshInv_move s _ i (match hit with Some e => CReturned k (Ok e) | None => CMissed k end)); simpl; rewrite ?Hc, ?Hp, ?Hg;
      try done; try (by destruct hit); [by left|].
    destruct hit as [e|]; [|done]. intros r [= -> <-] _. by apply Hcache, Hhit.
  - destruct (inFlight (rv_sf s) k) as [fl|] eqn:Hj.
    + eapply freshInv_move; try done; [|by left]. intros fl' [= -> <-]. simpl. by eapply (fi_open _ Hf).
    + destruct (lead_spec k (rv_sf s) Hj) as (_ & _ & _ & Hout). destruct (lead k (rv_sf s)) as [fl g]. simpl in *.
      eapply freshInv_move; try done. simpl. intros k' fl' r _ Hr. left. by rewrite <-Hout.
  - destruct (lookup_frame k s) as (Hg & Hc & Hp & _ & _ & Hhit). pose proof (freshInv_lookup s k Hs) as Hl.
    destruct (lookup_ k s) as [hit s'] eqn:Hlk. simpl in *.
    eapply (freshInv_move s _ i (match hit with Some e => CLanding k fl (Ok e) | None => CLoading k fl end)); simpl; rewrite ?Hc, ?Hp, ?Hg;
      try done; try (by destruct hit); [|by left].
    destruct hit as [e|]; [|done]. intros fl' [= -> <-]. simpl. by apply Hcache, Hhit.
  - destruct fault; (eapply freshInv_move; try done; try (by left)). intros fl' [= -> <-]. simpl. by rewrite entryOf_row.
  - eapply freshInv_move; try done; try (by left). intros fl' [= -> <-]. pose proof (fr_lead _ Hs i _ _ Hi eq_refl) as Hc.
    simpl in *. by rewrite (entryOf_time row _ 0).
  - eapply freshInv_move; try done; try (by left).
    + intros e' [[-> ->]|He]%store_lookup; [|by apply Hcache]. exact (fr_lead _ Hs i _ _ Hi eq_refl).
    + intros fl' [= -> <-]. exact (fr_lead _ Hs i _ _ Hi eq_refl).
  - pose proof (fi_lead _ Hf _ _ _ _ Hi eq_refl) as Hfi. destruct (land_spec k fl r (rv_sf s) Hfi) as (_ & Hv & Hout).
    eapply freshInv_move; try done; simpl.
    + intros k' fl' r' Hw Hr. destruct (decide (fl' = fl)) as [->|Hne]; [|left; by rewrite <-Hout].
      rewrite Hv in Hr. injection Hr as <-. destruct (fi_wait _ Hf _ _ _ Hw) as [Hfl|Hno].
      * right. pose proof (fi_inj _ Hf _ _ _ Hfl Hfi) as <-. exact (fr_lead _ Hs i _ _ Hi eq_refl).
      * by destruct Hno, (fi_open _ Hf _ _ Hfi).
    + intros r' [= -> <-] _. exact (fr_lead _ Hs i _ _ Hi eq_refl).
  - destruct (outcome (rv_sf s) fl) as [r|] eqn:Hr; [|done]. eapply freshInv_move; try done; try (by left).
    intros r' [= -> <-] Hge. by eapply (fr_wait _ Hs).
  - assert (Hne : k <> id) by (intros ->; by destruct (fr_quiet _ Hs i p)).
    destruct fault; (eapply freshInv_move; try done; try (by left)). simpl. unfold resolutionOf in *. by rewrite lookup_insert_ne.
  - eapply freshInv_move; try done; try (by left). intros e He. exact (freshInv_cache_delete s k e Hs He).
Qed.

Lemma freshInv_run evs s : flightInv s -> freshInv s -> Forall unwritten evs -> freshInv (rrun evs s).
Proof.
  revert s. induction evs as [|ev evs IH]; intros s Hf Hs Hev; [done|]. inversion_clear Hev as [|? ? Hev1 Hev2].
  apply IH; [by apply flightInv_step|by apply freshInv_step|done].
Qed.

(** The state in which an invalidation leaves the resolver. *)
Lemma freshInv_invalidated s k :
  flightInv s -> rv_callers s !! k = Some (CInvalidating id) -> inFlight (rv_sf s) id = None ->
  (forall j p, rv_callers s !! j <> Some (CWriting id p)) -> R = resolutionOf (rv_projects s) id -> n0 = length (rv_callers s) ->
  freshInv (rstep s (EvStep k None)).
Proof.
  intros Hf Hk Hfl Hq -> ->. simpl. rewrite Hk. simpl.
  assert (Hlt : forall j c, <[k := CWritten id]> (rv_callers s) !! j = Some c -> (j < length (rv_callers s))%nat).
  { intros j c Hj%lookup_lt_Some. by rewrite length_insert in Hj. }
  split; simpl; [done| | | | |].
  - intros e He. by rewrite lookup_delete_eq in He.
  - intros j c fl Hj Hl. apply list_lookup_insert_Some in Hj as [(_ & <- & _)|[_ Hj]]; [done|].
    pose proof (fi_lead _ Hf _ _ _ _ Hj Hl). congruence.
  - intros j p Hj. apply list_lookup_insert_Some in Hj as [(_ & [=] & _)|[_ Hj]]. by destruct (Hq j p).
  - intros i fl r Hi Hw%Hlt. lia.
  - intros i r Hi Hw%Hlt. lia.
Qed.
End Current.

(** A resolution that runs alone, with nothing cached and no flight under way. *)
Lemma resolve_alone s id :
  rv_cache s !! id = None -> inFlight (rv_sf s) id = None ->
  let n := length (rv_callers s) in
  rv_callers (rrun (EvGo (CStart id) :: replicate 7 (EvStep n None)) s) !! n
  = Some (CReturned id (Ok (entryOf (rv_projects s !! id) (rv_now s)))).
Proof.
  intros Hc Hf n.
  pose (at_ cache (g : Group) c := mkResolver (rv_now s) (rv_projects s) cache g (rv_callers s ++ [c])).
  assert (Hstep : forall cache g c d cache' g', callerStep n c None (at_ cache g c) = set_caller n d (at_ cache' g' c) ->
                  rstep (at_ cache g c) (EvStep n None) = at_ cache' g' d).
  { intros cache g c d cache' g' Hs. unfold rstep. simpl rv_callers. rewrite list_lookup_middle, Hs by done.
    unfold set_caller, at_. simpl. f_equal. rewrite insert_app_r_alt by lia. by rewrite Nat.sub_diag. }
  destruct (lead id (rv_sf s)) as [fl g] eqn:Hl. set (e := entryOf (rv_projects s !! id) (rv_now s)).
  assert (Hmiss : forall g c, lookup_ id (at_ (rv_cache s) g c) = (None, at_ (rv_cache s) g c))
    by (intros; unfold lookup_; simpl; by rewrite Hc).
  unfold rrun. cbn [replicate foldl]. change (rstep s (EvGo (CStart id))) with (at_ (rv_cache s) (rv_sf s) (CStart id)).
  rewrite (Hstep _ _ _ (CMissed id) (rv_cache s) (rv_sf s)) by (simpl; by rewrite Hmiss).
  rewrite (Hstep _ _ _ (CLeading id fl) (rv_cache s) g) by (simpl; by rewrite Hf, Hl).
  rewrite (Hstep _ _ _ (CLoading id fl) (rv_cache s) g) by (simpl; by rewrite Hmiss).
  rewrite (Hstep _ _ _ (CLoaded id fl (rv_projects s !! id)) (rv_cache s) g) by done.
  rewrite (Hstep _ _ _ (CStoring id fl e) (rv_cache s) g) by done.
  assert (Hst : exists cache, store_ id e (at_ (rv_cache s) g (CStoring id fl e)) = at_ cache g (CStoring id fl e)) by by eexists.
  destruct Hst as [cache Hst].
  rewrite (Hstep _ _ _ (CLanding id fl (Ok e)) cache g) by (cbn [callerStep]; by rewrite Hst).
  rewrite (Hstep _ _ _ (CReturned id (Ok e)) cache (land id fl (Ok e) g)) by done.
  by apply list_lookup_middle.
Qed.
End Resolution.

(** C27.  An update takes effect in its process: in any interleaving of goroutines
    that resolve, create and update projects, when an update of a project has
    written the row and invalidates the cached entry at a moment at which no flight
    of the project is under way and no other update of it is pending, then every
    resolution of the project that starts later and succeeds returns exactly what
    the row says, until the next update begins, whatever else happens; and one that
    runs by itself right after does succeed. *)
Theorem resolver_current_after_update `{MapRange} `{Singleflight (result resolved)} now ps before k id after :
  let s := rrun before (newModelResolver now ps) in
  let s' := rstep s (EvStep k None) in
  rv_callers s !! k = Some (CInvalidating id) -> inFlight (rv_sf s) id = None ->
  (forall j p, rv_callers s !! j <> Some (CWriting id p)) -> Forall (unwritten id) after ->
  (forall i e, (length (rv_callers s) <= i)%nat -> rv_callers (rrun after s') !! i = Some (CReturned id (Ok e)) ->
     entryResolution e = resolutionOf (rv_projects s) id) /\
  (let n := length (rv_callers s') in
   rv_callers (rrun (EvGo (CStart id) :: replicate 7 (EvStep n None)) s') !! n
   = Some (CReturned id (Ok (entryOf (rv_projects s !! id) (rv_now s))))).
Proof.
  intros s s' Hk Hfl Hq Hafter. assert (Hf : flightInv s) by apply flightInv_run, flightInv_new. split.
  - intros i e Hi He. pose proof (freshInv_invalidated id _ _ s k Hf Hk Hfl Hq eq_refl eq_refl) as Hs.
    exact (fr_done _ _ _ _ (freshInv_run _ _ _ after s' (flightInv_step _ _ Hf) Hs Hafter) i (Ok e) Hi He).
  - assert (Hs' : s' = set_caller k (CWritten id) (invalidate_ id s)) by (unfold s'; simpl; by rewrite Hk).
    intros n. unfold n. rewrite Hs'. apply (resolve_alone (set_caller k (CWritten id) (invalidate_ id s))); [apply lookup_delete_eq|done].
Qed.

(** ** Examples, with numbered flights *)
Section Examples.
#[local] Existing Instance numberedFlights.
#[local] Existing Instance map_range_default.

(** The race of a load with an update.  A load reads the row, the project is
    suspended and its entry invalidated, and only then the load stores what it
    read: the process that made the change goes on serving the project as active. *)
Example stale_entry_after_invalidation :
  let p st := mkProject "p" "P" st None "" 0 0 0 in
  let s := rrun
    ([EvGo (CStart "p")] ++ replicate 4 (EvStep 0 None)                                   (* up to GetProject *)
     ++ [EvGo (CWriting "p" (p ProjectSuspended)); EvStep 1 None; EvStep 1 None]          (* suspended and invalidated *)
     ++ replicate 3 (EvStep 0 None)                                                       (* the entry is stored *)
     ++ [EvTick 20; EvGo (CStart "p"); EvStep 2 None])
    (newModelResolver 0 {["p" := p ProjectActive]}) in
  rv_callers s !! 1%nat = Some (CWritten "p") /\
  rv_callers s !! 2%nat = Some (CReturned "p" (Ok (entryOf (Some (p ProjectActive)) 0))) /\
  rv_projects s !! "p" = Some (p ProjectSuspended).
Proof. vm_compute. auto. Qed.

(** The project is cached as active, then suspended; after the invalidation two
    goroutines resolve it, of which one leads and the other waits. *)
Lemma resolver_current_after_update_witness :
  let p st := mkProject "p" "P" st None "" 0 0 0 in
  let s := rrun ([EvGo (CStart "p")] ++ replicate 7 (EvStep 0 None) ++ [EvGo (CWriting "p" (p ProjectSuspended)); EvStep 1 None])
             (newModelResolver 0 {["p" := p ProjectActive]}) in
  let s' := rrun ([EvGo (CStart "p"); EvGo (CStart "p"); EvStep 2 None; EvStep 3 None; EvStep 2 None; EvStep 3 None]
             ++ replicate 5 (EvStep 2 None) ++ [EvStep 3 None]) (rstep s (EvStep 1 None)) in
  (exists e, rv_cache s !! "p" = Some e /\ r_suspended e = false) /\
  rv_callers s' !! 3%nat = Some (CReturned "p" (Ok (entryOf (Some (p ProjectSuspended)) 0))) /\
  entryResolution (entryOf (Some (p ProjectSuspended)) 0) = resolutionOf (rv_projects s) "p".
Proof.
  intros p s s'. split; [eexists; split; vm_compute; reflexivity|].
  assert (Hs' : rv_callers s' !! 3%nat = Some (CReturned "p" (Ok (entryOf (Some (p ProjectSuspended)) 0)))).
  { vm_compute. reflexivity. }
  split; [exact Hs'|].
  destruct (resolver_current_after_update 0 {["p" := p ProjectActive]}
    ([EvGo (CStart "p")] ++ replicate 7 (EvStep 0 None) ++ [EvGo (CWriting "p" (p ProjectSuspended)); EvStep 1 None]) 1 "p"
    ([EvGo (CStart "p"); EvGo (CStart "p"); EvStep 2 None; EvStep 3 None; EvStep 2 None; EvStep 3 None]
             ++ replicate 5 (EvStep 2 None) ++ [EvStep 3 None])) as [Hcur _].
  - vm_compute. reflexivity.
  - vm_compute. reflexivity.
  - intros j q. do 3 (destruct j as [|j]; [vm_compute; discriminate|]). vm_compute. discriminate.
  - by repeat constructor.
  - apply (Hcur 3%nat); [vm_compute; lia|exact Hs'].
Defined.
End Examples.
