(* ===== verification/DocGen.v ===== *)
(** * Generators of the reference documentation

    Module [ConfigGen] is internal/config/gen/main.go, which turns config.go into the
    table of the environment's variables; Module [AuditGen] is
    internal/service/gen/main.go, which turns auditlog.go and metrics.go into the
    tables of audit events and metrics.  A run takes the syntax trees of the files
    and returns the rows it writes; finding the repository's root, parsing the files
    and writing the JSON text are left out.  The files compile, so no shift has a
    negative count.

    Before them come the nodes of go/ast the generators look at, with the traversal
    [ast.Inspect], and the functions of strings and strconv they use.  A function
    body is the list of its expressions in the order in which [Inspect] meets them:
    no callback looks at a statement.  A doc comment is held as its [Text()]. *)

From stdpp Require Import base gmap sets strings list pretty sorting.
From Stdlib Require Import ZArith Lia Ascii.
From S2P Require Import Prelude Text Memory Config.
#[local] Open Scope Z_scope.

(** ** Nodes *)
(** [INT] stands for every kind of literal but a string. *)
Inductive litKind := STRING | INT.
Inductive binop := SHL | OtherOp.

Inductive expr :=
  | BasicLit (kind : litKind) (value : string)          (* the text of the literal *)
  | Ident (name : string)
  | BinaryExpr (x : expr) (op : binop) (y : expr)
  | CallExpr (fn : expr) (args : list expr)
  | SelectorExpr (x : expr) (sel : string)
  | CompositeLit (type : expr) (elts : list expr)
  | KeyValueExpr (key value : expr)
  | OtherExpr (children : list expr).

Record ValueSpec := mkValueSpec { vs_Names : list string; vs_Type : option expr; vs_Values : list expr; vs_Doc : option string }.
Record Field := mkField { fl_Names : list string; fl_Doc : option string }.
Inductive typeExpr := StructType (fields : list Field) | OtherType.
Inductive spec := SValue (vs : ValueSpec) | SType (name : string) (type : typeExpr) | SImport.
Inductive declTok := CONST | TYPE | VAR | IMPORT.
Inductive decl := GenDecl (tok : declTok) (specs : list spec) | FuncDecl (name : string) (body : list expr).

#[global] Instance declTok_eq_dec : EqDecision declTok.
Proof. solve_decision. Defined.

(** The nodes [ast.Inspect] visits, in its order, while the callback goes on. *)
Fixpoint preorder (e : expr) : list expr :=
  e :: match e with
       | BasicLit _ _ | Ident _ => []
       | BinaryExpr x _ y => preorder x ++ preorder y
       | CallExpr fn args => preorder fn ++ flat_map preorder args
       | SelectorExpr x sel => preorder x ++ [Ident sel]
       | CompositeLit t elts => preorder t ++ flat_map preorder elts
       | KeyValueExpr k v => preorder k ++ preorder v
       | OtherExpr es => flat_map preorder es
       end.

(** The expressions of the first function of a name. *)
Definition findFunc (file : list decl) (name : string) : option (list expr) :=
  head (omap (fun d => match d with FuncDecl n body => if String.eqb n name then Some body else None | _ => None end) file).

(** Every expression of a file in the same order. *)
Definition specExprs (s : spec) : list expr :=
  match s with SValue vs => option_list (vs_Type vs) ++ vs_Values vs | SType _ _ | SImport => [] end.
Definition declExprs (d : decl) : list expr :=
  match d with GenDecl _ specs => flat_map specExprs specs | FuncDecl _ body => body end.
Definition fileNodes (file : list decl) : list expr := flat_map preorder (flat_map declExprs file).

(** ** strings *)

(** [strings.Fields]: [cur] is the field being read, and every round drops a byte,
    so one more round than there are bytes is fuel enough. *)
Definition flush (cur : string) (rest : list string) : list string := if String.eqb cur "" then rest else cur :: rest.

Fixpoint fieldsFrom (fuel : nat) (cur s : string) : list string :=
  match fuel with
  | O => []
  | S fuel' =>
      match cutFirst spaces s, s with
      | Some s', _ => flush cur (fieldsFrom fuel' "" s')
      | None, EmptyString => flush cur []
      | None, String c s' => fieldsFrom fuel' (String.append cur (String c EmptyString)) s'
      end
  end.
Definition Fields (s : string) : list string := fieldsFrom (S (String.length s)) "" s.

Definition oneLine (s : string) : string := String.concat " " (Fields (TrimSpace s)).

(** [strings.Trim(s, cutset)] for a cutset of ASCII characters *)
Definition TrimCut (cutset s : string) : string :=
  trimOf ((fun c => String c EmptyString) <$> String.list_ascii_of_string cutset) s.

Definition dropPrefix (p s : string) : string := String.substring (String.length p) (String.length s - String.length p) s.

(** [strings.Replace(s, old, new, 1)], when [old] is in [s]. *)
Fixpoint replaceFirst (old new s : string) : option string :=
  if HasPrefix s old then Some (String.append new (dropPrefix old s))
  else match s with
  | EmptyString => None
  | String c s' => String c <$> replaceFirst old new s'
  end.

Definition Contains (s sub : string) : bool := bool_decide (is_Some (replaceFirst sub "" s)).
Definition TrimPrefix (s p : string) : string := if HasPrefix s p then dropPrefix p s else s.
Definition HasSuffix (s p : string) : bool := HasPrefix (rev_string s) (rev_string p).

(** ** strconv.Unquote, for a literal in double or back quotes *)
Definition dquote : ascii := "034"%char.
Definition backquote : ascii := "096"%char.
Definition backslash : ascii := "092"%char.

Definition digitIn (base : nat) (c : ascii) : option nat :=
  let n := nat_of_ascii c in
  let d := if ((48 <=? n) && (n <=? 57))%nat then Some (n - 48)%nat
           else if ((97 <=? n) && (n <=? 102))%nat then Some (n - 87)%nat
           else if ((65 <=? n) && (n <=? 70))%nat then Some (n - 55)%nat
           else None in
  match d with Some d => if (d <? base)%nat then Some d else None | None => None end.

(** [k] digits of a base, with the text after them. *)
Fixpoint digitsIn (base : N) (k : nat) (acc : N) (s : string) : option (N * string) :=
  match k, s with
  | O, _ => Some (acc, s)
  | S k', String c s' =>
      match digitIn (N.to_nat base) c with Some d => digitsIn base k' (acc * base + N.of_nat d) s' | None => None end
  | S _, EmptyString => None
  end.

Definition utf8 (n : N) : option string :=
  let b x := N.to_nat x in
  let cont x := N.to_nat (128 + x mod 64)%N in
  if (n <? 128)%N then Some (bytes [b n])
  else if (n <? 2048)%N then Some (bytes [b (192 + n / 64)%N; cont n])
  else if ((55296 <=? n) && (n <=? 57343))%N then None
  else if (n <? 65536)%N then Some (bytes [b (224 + n / 4096)%N; cont (n / 64)%N; cont n])
  else if (n <=? 1114111)%N then Some (bytes [b (240 + n / 262144)%N; cont (n / 4096)%N; cont (n / 64)%N; cont n])
  else None.

(** The text of the escape that starts with [c], and what follows it. *)
Definition oneByte (n : N) : option string := if (n <? 256)%N then Some (bytes [N.to_nat n]) else None.

Definition escape (c : ascii) (s : string) : option (string * string) :=
  let plain n := Some (bytes [n], s) in
  let numeric base k start enc :=
    match digitsIn base k 0 start with
    | Some (n, s') => match enc n with Some t => Some (t, s') | None => None end
    | None => None
    end in
  match nat_of_ascii c with
  | 97%nat => plain 7%nat | 98%nat => plain 8%nat | 102%nat => plain 12%nat | 110%nat => plain 10%nat
  | 114%nat => plain 13%nat | 116%nat => plain 9%nat | 118%nat => plain 11%nat
  | 92%nat => plain 92%nat | 34%nat => plain 34%nat
  | 120%nat => numeric 16%N 2%nat s oneByte
  | 117%nat => numeric 16%N 4%nat s utf8
  | 85%nat => numeric 16%N 8%nat s utf8
  | _ => numeric 8%N 3%nat (String c s) oneByte
  end.

(** Up to the closing double quote, which must end the literal; a round drops at
    least a byte. *)
Fixpoint interpreted (fuel : nat) (s : string) : option string :=
  match fuel, s with
  | S fuel', String c s' =>
      if Ascii.eqb c dquote then (if String.eqb s' "" then Some EmptyString else None)
      else if (nat_of_ascii c =? 10)%nat then None
      else if Ascii.eqb c backslash then
        match s' with
        | String d s'' => match escape d s'' with
                          | Some (t, rest) => String.append t <$> interpreted fuel' rest
                          | None => None
                          end
        | EmptyString => None
        end
      else String c <$> interpreted fuel' s'
  | _, _ => None
  end.

(** Carriage returns are dropped from a raw string. *)
Fixpoint raw (s : string) : option string :=
  match s with
  | EmptyString => None
  | String c s' =>
      if Ascii.eqb c backquote then (if String.eqb s' "" then Some EmptyString else None)
      else if (nat_of_ascii c =? 13)%nat then raw s'
      else String c <$> raw s'
  end.

Definition Unquote (s : string) : option string :=
  match s with
  | String c s' =>
      if Ascii.eqb c dquote then interpreted (String.length s') s'
      else if Ascii.eqb c backquote then raw s' else None
  | EmptyString => None
  end.

Definition stringLit (e : expr) : option string :=
  match e with BasicLit STRING v => Unquote v | _ => None end.

(** The literal of a text. *)
Definition quoted (s : string) : string := String dquote (String.append s (String dquote EmptyString)).
Definition str (s : string) : expr := BasicLit STRING (quoted s).

Definition plainChar (c : ascii) : bool :=
  negb (Ascii.eqb c dquote) && negb (Ascii.eqb c backslash) && negb (nat_of_ascii c =? 10)%nat.

Lemma Unquote_quoted s : all_chars plainChar s = true -> Unquote (quoted s) = Some s.
Proof.
  assert (Hgo : forall fuel, all_chars plainChar s = true -> (String.length s < fuel)%nat ->
            interpreted fuel (String.append s (String dquote EmptyString)) = Some s).
  { induction s as [|c s IH]; intros [|fuel] Hp Hf; simpl in *; try lia; [done|].
    apply andb_true_iff in Hp as [Hc Hs]. unfold plainChar in Hc. rewrite !andb_true_iff, !negb_true_iff in Hc.
    destruct Hc as [[-> ->] ->]. rewrite IH; [done|done|lia]. }
  intros Hp. unfold Unquote, quoted. simpl. apply Hgo; [done|]. rewrite string_length_app. simpl. lia.
Qed.

(** ** Sorting by name

    [sort.Slice] leaves the order of equal names open; with distinct names there is
    one sorted order. *)
Section SortByName.
Context {A : Type} (name : A -> string).

Definition nameLe (x y : A) : Prop := String.le (name x) (name y).
#[export] Instance nameLe_dec : RelDecision nameLe.
Proof. intros x y. unfold nameLe. apply _. Defined.
#[export] Instance nameLe_total : Total nameLe.
Proof. intros x y. unfold nameLe. apply (total String.le). Qed.
#[export] Instance nameLe_trans : Transitive nameLe.
Proof. intros x y z. unfold nameLe. apply transitivity. Qed.

Definition sortByName (l : list A) : list A := merge_sort nameLe l.

Lemma sorted_by_name_unique l1 l2 :
  NoDup (name <$> l1) -> l1 ≡ₚ l2 -> StronglySorted nameLe l1 -> StronglySorted nameLe l2 -> l1 = l2.
Proof.
  intros Hnd Hp Hs1. revert l2 Hp Hnd. induction Hs1 as [|x l1 Hs1 IH Hx]; intros l2 Hp Hnd Hs2.
  { by apply Permutation_nil_l in Hp as ->. }
  destruct Hs2 as [|y l2 Hs2 Hy]; [by apply Permutation_nil_r in Hp|].
  rewrite Forall_forall in Hx, Hy. apply NoDup_cons in Hnd as [Hnx Hnd].
  assert (x = y) as <-.
  { assert (x ∈ y :: l2) as Hin by (rewrite <-Hp; set_solver). apply elem_of_cons in Hin as [?|Hxl]; [done|].
    assert (y ∈ x :: l1) as Hin by (rewrite Hp; set_solver). apply elem_of_cons in Hin as [?|Hyl]; [done|].
    exfalso. apply Hnx. apply list_elem_of_fmap. exists y. split; [|done].
    apply (anti_symm String.le); [by apply Hx|by apply Hy]. }
  apply Permutation_cons_inv in Hp. f_equal. by apply IH.
Qed.

Lemma sortByName_sorted l : StronglySorted nameLe (sortByName l).
Proof. apply StronglySorted_merge_sort; apply _. Qed.
Lemma sortByName_perm l : sortByName l ≡ₚ l.
Proof. apply merge_sort_Permutation. Qed.

Lemma sortByName_unique l out : NoDup (name <$> l) -> out ≡ₚ l -> StronglySorted nameLe out -> out = sortByName l.
Proof.
  intros Hnd Hp Hs. apply sorted_by_name_unique; [by rewrite Hp|by rewrite Hp, sortByName_perm|done|apply sortByName_sorted].
Qed.
End SortByName.

Module ConfigGen.

Record knob := mkKnob {
  Name : string;
  Type_ : string;
  Default : string;
  Required : bool;
  Description : string;
  Constraint : string;
}.

Definition envHelpers : gmap string string :=
  {["envInt" := "int"; "envBool" := "bool"; "envStr" := "string"; "envCSV" := "csv"]}.

(** A call node: the function and its arguments. *)
Definition call : Type := expr * list expr.

(** [strconv.Itoa(li << ri)] on 64-bit integers *)
Definition shl (l r : Z) : Z := wrap64 (Z.shiftl l r).

Fixpoint literalValue (e : expr) (consts : gmap string string) : string :=
  match e with
  | BasicLit STRING v => default v (Unquote v)
  | BasicLit INT v => v
  | Ident "true" => "true"
  | Ident "false" => "false"
  | Ident n => default "" (consts !! n)
  | BinaryExpr x SHL y =>
      match Atoi (literalValue x consts), Atoi (literalValue y consts) with
      | Some li, Some ri => pretty (shl li ri)
      | _, _ => ""
      end
  | CallExpr _ [a] => literalValue a consts
  | _ => ""
  end.

Definition knobFromCall (c : call) (consts : gmap string string) : option knob :=
  match c with
  | (Ident f, arg0 :: args) =>
      typ ← envHelpers !! f;
      name ← stringLit arg0;
      if HasPrefix name "GATEWAY_" then
        let def := if String.eqb typ "csv" then ""
                   else match args with d :: _ => literalValue d consts | [] => "" end in
        Some (mkKnob name typ def false "" "")
      else None
  | _ => None
  end.

(** The constants are resolved in the order of the file. *)
Definition collectConsts (file : list decl) : gmap string string :=
  foldl (fun consts d =>
    match d with
    | GenDecl CONST specs =>
        foldl (fun consts s =>
          match s with
          | SValue (mkValueSpec [n] _ [v] _) => <[n := literalValue v consts]> consts
          | _ => consts
          end) consts specs
    | _ => consts
    end) ∅ file.

Definition collectFieldDocs (file : list decl) : gmap string string :=
  foldl (fun docs d =>
    match d with
    | GenDecl TYPE specs =>
        foldl (fun docs s =>
          match s with
          | SType "Config" (StructType fields) =>
              foldl (fun docs f => match f with mkField (n :: _) (Some doc) => <[n := doc]> docs | _ => docs end) docs fields
          | _ => docs
          end) docs specs
    | _ => docs
    end) ∅ file.

Definition isEnvCall (e : expr) : option call :=
  match e with
  | CallExpr (Ident f) args => if decide (is_Some (envHelpers !! f)) then Some (Ident f, args) else None
  | _ => None
  end.

Definition findEnvCall (e : expr) : option call := head (omap isEnvCall (preorder e)).

(** The elements of a [Config] literal. *)
Definition configElts (n : expr) : list expr :=
  match n with CompositeLit (Ident "Config") elts => elts | _ => [] end.

Definition assign (out : gmap string call) (el : expr) : gmap string call :=
  match el with
  | KeyValueExpr (Ident key) v => match findEnvCall v with Some c => <[key := c]> out | None => out end
  | _ => out
  end.

(** The nodes of a function that has been found. *)
Definition funcNodes (file : list decl) (name : string) : list expr := flat_map preorder (default [] (findFunc file name)).

Definition collectLoadAssignments (file : list decl) : gmap string call :=
  foldl (fun out n => foldl assign out (configElts n)) ∅ (funcNodes file "Load").

(** The characters [,.:%], the quotes and the parentheses *)
Definition punctuation : string := String.append ",.:%'()" (String dquote EmptyString).

(** The names among the words of a text. *)
Definition envNames (v : string) : list string :=
  filter (fun tok => HasPrefix tok "GATEWAY_" = true) (TrimCut punctuation <$> Fields v).

Definition collectValidateEnvNames (file : list decl) : gset string :=
  foldl (fun names n => match stringLit n with Some v => names ∪ list_to_set (envNames v) | None => names end)
    ∅ (funcNodes file "Validate").

Definition verbs : list string := ["%d"; "%q"; "%s"; "%v"].

(** The first verb of the list that occurs gives way to the value. *)
Definition substitute (msg val : string) : string := default msg (head (omap (fun verb => replaceFirst verb val msg) verbs)).

Definition ellipsis : string := bytes [226; 128; 166]%nat.

Definition humanizeConstraint (msg : string) (args : list expr) (consts : gmap string string) : string :=
  let msg := foldl (fun msg a =>
               let val := literalValue a consts in substitute msg (if String.eqb val "" then ellipsis else val)) msg args in
  oneLine match Fields msg with
          | f :: _ :: _ => if HasPrefix f "GATEWAY_" then TrimSpace (TrimPrefix msg f) else msg
          | _ => msg
          end.

(** What a node of Validate says of a variable. *)
Definition constraintOf (consts : gmap string string) (n : expr) : option (string * string) :=
  match n with
  | CallExpr _ (arg0 :: args) =>
      msg ← stringLit arg0;
      name ← head (envNames msg);
      let c := humanizeConstraint msg args consts in
      if String.eqb c "" || Contains c ellipsis then None else Some (name, c)
  | _ => None
  end.

Definition collectValidateConstraints (file : list decl) (consts : gmap string string) : gmap string string :=
  foldl (fun out n => match constraintOf consts n with Some (name, c) => <[name := c]> out | None => out end)
    ∅ (funcNodes file "Validate").

(** The row of a field, the body of [run]'s loop. *)
Definition knobOf (file : list decl) (field : string) (c : call) : option knob :=
  let consts := collectConsts file in
  k ← knobFromCall c consts;
  Some {| Name := Name k; Type_ := Type_ k; Default := Default k; Required := false;
          Description := oneLine (default "" (collectFieldDocs file !! field));
          Constraint := if decide (Name k ∈ collectValidateEnvNames file)
                        then default "" (collectValidateConstraints file consts !! Name k) else Constraint k |}.

Section Run.
Context `{MapRange}.

Definition knobs (file : list decl) : list knob :=
  omap (fun '(field, c) => knobOf file field c) (range_map (collectLoadAssignments file)).

Definition run (file : list decl) : result (list knob) :=
  match knobs file with
  | [] => Err (ErrPlain "no GATEWAY_ knobs parsed")
  | ks => Ok (sortByName Name ks)
  end.
End Run.

End ConfigGen.

Module AuditGen.

Record auditEvent := mkEvent { Name : string; Kind : string; Const : string; Description : string }.
Record metric := mkMetric { m_Name : string; m_Description : string }.
Record payload := mkPayload { Events : list auditEvent; Metrics : list metric }.

Definition typeName (e : option expr) : string := match e with Some (Ident n) => n | _ => "" end.

Definition wanted : gset string := {["AdminAction"; "TupleOpKind"]}.

Definition eventOf (s : spec) : option auditEvent :=
  match s with
  | SValue (mkValueSpec [c] typ [v] doc) =>
      if decide (typeName typ ∈ wanted)
      then val ← stringLit v; Some (mkEvent val (typeName typ) c (from_option oneLine "" doc))
      else None
  | _ => None
  end.

Definition parseEvents (file : list decl) : result (list auditEvent) :=
  match flat_map (fun d => match d with GenDecl CONST specs => omap eventOf specs | _ => [] end) file with
  | [] => Err (ErrPlain "no audit-event constants parsed")
  | events => Ok events
  end.

(** A later [Name] or [Help] of the literal overwrites an earlier one, a value that
    is no string with the empty text. *)
Definition optField (nh : string * string) (el : expr) : string * string :=
  match el with
  | KeyValueExpr (Ident "Name") v => (default "" (stringLit v), nh.2)
  | KeyValueExpr (Ident "Help") v => (nh.1, default "" (stringLit v))
  | _ => nh
  end.

Definition metricOf (n : expr) : option metric :=
  match n with
  | CompositeLit (SelectorExpr _ sel) elts =>
      if HasSuffix sel "Opts" then
        let '(name, help) := foldl optField ("", "") elts in
        if HasPrefix name "authz_" then Some (mkMetric name help) else None
      else None
  | _ => None
  end.

Definition parseMetrics (file : list decl) : result (list metric) :=
  match omap metricOf (fileNodes file) with
  | [] => Err (ErrPlain "no authz_ metrics parsed")
  | ms => Ok ms
  end.

Definition run (auditlog metrics : list decl) : result payload :=
  rbind (parseEvents auditlog) (fun events =>
  rbind (parseMetrics metrics) (fun ms =>
  Ok (mkPayload (sortByName Name events) (sortByName m_Name ms)))).

End AuditGen.
