(* ===== verification/DocSources.v ===== *)
(** * The documented sources and the committed tables

    The syntax trees of internal/config/config.go, internal/service/auditlog.go and
    internal/connect/metrics.go, with the declarations the generators look at, and
    the rows of docs-site/src/data/generated/config.json and audit-events.json. *)

From stdpp Require Import base strings list.
From S2P Require Import Prelude DocGen.
#[local] Open Scope string_scope.

Definition num (digits : string) : expr := BasicLit INT digits.

(** ** internal/config/config.go *)
Definition configFields : list Field :=
  [mkField ["ConnectPort"] (Some "ConnectPort is the Connect/HTTP listener serving JSON, gRPC, and
gRPC-Web RPCs.
");
     mkField ["MetricsPort"] (Some "MetricsPort serves the Prometheus /metrics endpoint and the health probes.
");
     mkField ["DefaultProjectID"] (Some "DefaultProjectID is the project shard used for any request whose
project_id is empty.
");
     mkField ["DefaultTenantID"] (Some "DefaultTenantID is the tenant pinned for requests that omit tenant_id
(the project's default tenant). Empty is the conventional default.
");
     mkField ["DataRegion"] (Some "DataRegion is the region this instance serves: it refuses to operate on a
project pinned to a different data_region (fail closed). Empty (default)
is region-agnostic — serves every project, today's behavior.
");
     mkField ["PostgresDSN"] (Some "PostgresDSN selects the postgres driver when set; empty uses memory.
");
     mkField ["PostgresAutoMigrate"] (Some "PostgresAutoMigrate runs the expand migration on boot when true. It
defaults to FALSE: migrations are a deliberate operator step (out-of-band
`workspace migrate`, an init container, or a migrate Job), so a large
existing DB's first deploy can never livelock on a bounded CONCURRENTLY
build inside the boot window. Opt in (true) only for small/dev DBs.
");
     mkField ["ServiceAuthTokens"] (Some "ServiceAuthTokens are the accepted service credentials presented by
calling backends as `Authorization: Bearer <token>`. This is an
internal service authenticated service-to-service (not by end-user
tokens); the user is passed as data in the request. Empty disables the
requirement — trust the network/mesh — and the service logs a warning.
");
     mkField ["ServiceCredentials"] (Some "ServiceCredentials is the OPTIONAL typed mapping (from GATEWAY_SERVICE_
CREDENTIALS, a JSON list of {token, name, project}) of a service credential
to a named calling-service identity with an optional project pin. It is
additive: ServiceAuthTokens keep working as anonymous credentials.
");
     mkField ["AdminAPISecret"] (Some "AdminAPISecret gates the AdminService (project configuration), presented
as the `X-Admin-Secret` header. Empty disables the admin RPCs entirely.
");
     mkField ["AllowedOrigins"] (Some "AllowedOrigins is the CORS allow-list of browser origins permitted to
call the API. Empty allows none.
");
     mkField ["HTTPMaxBodyBytes"] (Some "HTTPMaxBodyBytes is the maximum accepted request body, in bytes. Must be
positive.
");
     mkField ["MaxListObjects"] (Some "MaxListObjects caps the candidate set a single ListObjects call scans,
bounding its full-scan + per-object Check cost.
");
     mkField ["MaxExpandNodes"] (Some "MaxExpandNodes caps the size of an Expand result tree, bounding the
response a single cheap request can amplify into.
");
     mkField ["MaxBatchCheckItems"] (Some "MaxBatchCheckItems caps the number of items in a single BatchCheck
request, bounding per-request cost.
");
     mkField ["MaxCheckReads"] (Some "MaxCheckReads caps the number of store reads (tuple lookups) a single
Check/CheckSet/Expand/ListObjects evaluation may perform, bounding the
per-request cost a pathological cyclic/branching graph can inflict.
Non-positive uses the service default.
");
     mkField ["AdminRateLimitPerMinute"] (Some "AdminRateLimitPerMinute throttles the admin API per caller (online
brute-force protection); non-positive disables the limiter.
");
     mkField ["TenantRateLimitPerMinute"] (Some "TenantRateLimitPerMinute throttles authz data-plane RPCs per
(project, tenant); non-positive (the default) disables the limiter.
");
     mkField ["DecisionLog"] (Some "DecisionLog enables an async, append-only audit log of every Check/
CheckSet decision (to the structured logger). Default false.
");
     mkField ["AuditLog"] (Some "AuditLog enables an async, append-only audit log of every relation-tuple
change and admin mutation (to the structured logger). Default false.
")].

Definition loadBody : list expr :=
  [Ident "c";
   OtherExpr [CompositeLit (Ident "Config")
    [KeyValueExpr (Ident "ConnectPort") (CallExpr (Ident "envInt") [str "GATEWAY_CONNECT_PORT"; num "8080"]);
     KeyValueExpr (Ident "MetricsPort") (CallExpr (Ident "envInt") [str "GATEWAY_METRICS_PORT"; num "9090"]);
     KeyValueExpr (Ident "DefaultProjectID") (CallExpr (Ident "envStr") [str "GATEWAY_DEFAULT_PROJECT_ID"; Ident "DefaultProjectIDFallback"]);
     KeyValueExpr (Ident "DefaultTenantID") (CallExpr (Ident "envStr") [str "GATEWAY_DEFAULT_TENANT_ID"; str ""]);
     KeyValueExpr (Ident "DataRegion") (CallExpr (Ident "envStr") [str "GATEWAY_DATA_REGION"; str ""]);
     KeyValueExpr (Ident "PostgresDSN") (CallExpr (Ident "envStr") [str "GATEWAY_POSTGRES_DSN"; str ""]);
     KeyValueExpr (Ident "PostgresAutoMigrate") (CallExpr (Ident "envBool") [str "GATEWAY_POSTGRES_AUTO_MIGRATE"; Ident "false"]);
     KeyValueExpr (Ident "ServiceAuthTokens") (CallExpr (Ident "envCSV") [str "GATEWAY_SERVICE_AUTH_TOKENS"]);
     KeyValueExpr (Ident "AdminAPISecret") (CallExpr (Ident "envStr") [str "GATEWAY_ADMIN_API_SECRET"; str ""]);
     KeyValueExpr (Ident "AllowedOrigins") (CallExpr (Ident "envCSV") [str "GATEWAY_ALLOWED_ORIGINS"]);
     KeyValueExpr (Ident "HTTPMaxBodyBytes") (CallExpr (Ident "int64") [CallExpr (Ident "envInt") [str "GATEWAY_HTTP_MAX_BODY_BYTES"; BinaryExpr (num "1") SHL (num "20")]]);
     KeyValueExpr (Ident "MaxListObjects") (CallExpr (Ident "envInt") [str "GATEWAY_MAX_LIST_OBJECTS"; Ident "DefaultMaxListObjects"]);
     KeyValueExpr (Ident "MaxExpandNodes") (CallExpr (Ident "envInt") [str "GATEWAY_MAX_EXPAND_NODES"; Ident "DefaultMaxExpandNodes"]);
     KeyValueExpr (Ident "MaxBatchCheckItems") (CallExpr (Ident "envInt") [str "GATEWAY_MAX_BATCH_CHECK_ITEMS"; Ident "DefaultMaxBatchCheckItems"]);
     KeyValueExpr (Ident "MaxCheckReads") (CallExpr (Ident "envInt") [str "GATEWAY_MAX_CHECK_READS"; Ident "DefaultMaxCheckReads"]);
     KeyValueExpr (Ident "AdminRateLimitPerMinute") (CallExpr (Ident "envInt") [str "GATEWAY_ADMIN_RATE_LIMIT_PER_MINUTE"; Ident "DefaultAdminRateLimitPerMinute"]);
     KeyValueExpr (Ident "TenantRateLimitPerMinute") (CallExpr (Ident "envInt") [str "GATEWAY_TENANT_RATE_LIMIT_PER_MINUTE"; num "0"]);
     KeyValueExpr (Ident "DecisionLog") (CallExpr (Ident "envBool") [str "GATEWAY_DECISION_LOG"; Ident "false"]);
     KeyValueExpr (Ident "AuditLog") (CallExpr (Ident "envBool") [str "GATEWAY_AUDIT_LOG"; Ident "false"])]];
   Ident "creds"; Ident "err";
   CallExpr (Ident "parseServiceCredentials") [CallExpr (SelectorExpr (Ident "os") "Getenv") [str "GATEWAY_SERVICE_CREDENTIALS"]];
   BinaryExpr (Ident "err") OtherOp (Ident "nil"); Ident "nil";
   CallExpr (SelectorExpr (Ident "fmt") "Errorf") [str "GATEWAY_SERVICE_CREDENTIALS: %w"; Ident "err"];
   SelectorExpr (Ident "c") "ServiceCredentials"; Ident "creds";
   Ident "err"; CallExpr (SelectorExpr (Ident "c") "Validate") [];
   BinaryExpr (Ident "err") OtherOp (Ident "nil"); Ident "nil"; Ident "err"; Ident "c"; Ident "nil"].

Definition validateBody : list expr :=
  [BinaryExpr (BinaryExpr (SelectorExpr (Ident "c") "ConnectPort") OtherOp (num "0")) OtherOp (BinaryExpr (SelectorExpr (Ident "c") "ConnectPort") OtherOp (num "65535"));
   CallExpr (SelectorExpr (Ident "fmt") "Errorf") [str "GATEWAY_CONNECT_PORT out of range: %d"; SelectorExpr (Ident "c") "ConnectPort"];
   BinaryExpr (BinaryExpr (SelectorExpr (Ident "c") "MetricsPort") OtherOp (num "0")) OtherOp (BinaryExpr (SelectorExpr (Ident "c") "MetricsPort") OtherOp (num "65535"));
   CallExpr (SelectorExpr (Ident "fmt") "Errorf") [str "GATEWAY_METRICS_PORT out of range: %d"; SelectorExpr (Ident "c") "MetricsPort"];
   BinaryExpr (SelectorExpr (Ident "c") "HTTPMaxBodyBytes") OtherOp (num "0");
   CallExpr (SelectorExpr (Ident "errors") "New") [str "GATEWAY_HTTP_MAX_BODY_BYTES must be positive"];
   BinaryExpr (BinaryExpr (SelectorExpr (Ident "c") "AdminAPISecret") OtherOp (str "")) OtherOp (BinaryExpr (CallExpr (Ident "len") [SelectorExpr (Ident "c") "AdminAPISecret"]) OtherOp (Ident "minAdminSecretLen"));
   CallExpr (SelectorExpr (Ident "fmt") "Errorf") [str "GATEWAY_ADMIN_API_SECRET must be a high-entropy value of at least %d characters"; Ident "minAdminSecretLen"];
   BinaryExpr (BinaryExpr (SelectorExpr (Ident "c") "TenantRateLimitPerMinute") OtherOp (num "0")) OtherOp (BinaryExpr (SelectorExpr (Ident "c") "TenantRateLimitPerMinute") OtherOp (Ident "minTenantRateLimitPerMinute"));
   CallExpr (SelectorExpr (Ident "fmt") "Errorf") [str "GATEWAY_TENANT_RATE_LIMIT_PER_MINUTE, when enabled, must be >= %d (use 0 to disable)"; Ident "minTenantRateLimitPerMinute"];
   BinaryExpr (BinaryExpr (SelectorExpr (Ident "c") "MaxCheckReads") OtherOp (num "0")) OtherOp (BinaryExpr (SelectorExpr (Ident "c") "MaxCheckReads") OtherOp (Ident "MinMaxCheckReads"));
   CallExpr (SelectorExpr (Ident "fmt") "Errorf") [str "GATEWAY_MAX_CHECK_READS, when set, must be >= %d (use 0/negative for the default)"; Ident "MinMaxCheckReads"];
   Ident "err";
   CallExpr (Ident "validateDataRegion") [SelectorExpr (Ident "c") "DataRegion"];
   BinaryExpr (Ident "err") OtherOp (Ident "nil");
   Ident "err";
   Ident "nil"].

Definition configFile : list decl :=
  [GenDecl CONST [SValue (mkValueSpec ["DefaultProjectIDFallback"] None [str "default"] None)];
   GenDecl TYPE [SType "Config" (StructType configFields)];
   GenDecl CONST [SValue (mkValueSpec ["DefaultMaxListObjects"] None [num "1000"] None)];
   GenDecl CONST [SValue (mkValueSpec ["DefaultAdminRateLimitPerMinute"] None [num "30"] None)];
   GenDecl CONST [SValue (mkValueSpec ["DefaultMaxExpandNodes"] None [num "10000"] None)];
   GenDecl CONST [SValue (mkValueSpec ["DefaultMaxBatchCheckItems"] None [num "1000"] None)];
   GenDecl CONST [SValue (mkValueSpec ["DefaultMaxCheckReads"] None [num "5000"] None)];
   FuncDecl "Load" loadBody;
   GenDecl CONST [SValue (mkValueSpec ["minServiceCredentialLen"] None [Ident "minAdminSecretLen"] None)];
   FuncDecl "Validate" validateBody;
   GenDecl CONST [SValue (mkValueSpec ["maxDataRegionLen"] None [num "64"] None)];
   GenDecl CONST [SValue (mkValueSpec ["minAdminSecretLen"] None [num "32"] None)];
   GenDecl CONST [SValue (mkValueSpec ["minTenantRateLimitPerMinute"] None [num "60"] None)];
   GenDecl CONST [SValue (mkValueSpec ["MinMaxCheckReads"] None [num "100"] None)]].

(** ** docs-site/src/data/generated/config.json *)
Definition configTable : list ConfigGen.knob :=
  [ConfigGen.mkKnob "GATEWAY_ADMIN_API_SECRET" "string" "" false
     "AdminAPISecret gates the AdminService (project configuration), presented as the `X-Admin-Secret` header. Empty disables the admin RPCs entirely."
     "must be a high-entropy value of at least 32 characters";
   ConfigGen.mkKnob "GATEWAY_ADMIN_RATE_LIMIT_PER_MINUTE" "int" "30" false
     "AdminRateLimitPerMinute throttles the admin API per caller (online brute-force protection); non-positive disables the limiter."
     "";
   ConfigGen.mkKnob "GATEWAY_ALLOWED_ORIGINS" "csv" "" false
     "AllowedOrigins is the CORS allow-list of browser origins permitted to call the API. Empty allows none."
     "";
   ConfigGen.mkKnob "GATEWAY_AUDIT_LOG" "bool" "false" false
     "AuditLog enables an async, append-only audit log of every relation-tuple change and admin mutation (to the structured logger). Default false."
     "";
   ConfigGen.mkKnob "GATEWAY_CONNECT_PORT" "int" "8080" false
     "ConnectPort is the Connect/HTTP listener serving JSON, gRPC, and gRPC-Web RPCs."
     "";
   ConfigGen.mkKnob "GATEWAY_DATA_REGION" "string" "" false
     "DataRegion is the region this instance serves: it refuses to operate on a project pinned to a different data_region (fail closed). Empty (default) is region-agnostic — serves every project, today's behavior."
     "";
   ConfigGen.mkKnob "GATEWAY_DECISION_LOG" "bool" "false" false
     "DecisionLog enables an async, append-only audit log of every Check/ CheckSet decision (to the structured logger). Default false."
     "";
   ConfigGen.mkKnob "GATEWAY_DEFAULT_PROJECT_ID" "string" "default" false
     "DefaultProjectID is the project shard used for any request whose project_id is empty."
     "";
   ConfigGen.mkKnob "GATEWAY_DEFAULT_TENANT_ID" "string" "" false
     "DefaultTenantID is the tenant pinned for requests that omit tenant_id (the project's default tenant). Empty is the conventional default."
     "";
   ConfigGen.mkKnob "GATEWAY_HTTP_MAX_BODY_BYTES" "int" "1048576" false
     "HTTPMaxBodyBytes is the maximum accepted request body, in bytes. Must be positive."
     "must be positive";
   ConfigGen.mkKnob "GATEWAY_MAX_BATCH_CHECK_ITEMS" "int" "1000" false
     "MaxBatchCheckItems caps the number of items in a single BatchCheck request, bounding per-request cost."
     "";
   ConfigGen.mkKnob "GATEWAY_MAX_CHECK_READS" "int" "5000" false
     "MaxCheckReads caps the number of store reads (tuple lookups) a single Check/CheckSet/Expand/ListObjects evaluation may perform, bounding the per-request cost a pathological cyclic/branching graph can inflict. Non-positive uses the service default."
     "when set, must be >= 100 (use 0/negative for the default)";
   ConfigGen.mkKnob "GATEWAY_MAX_EXPAND_NODES" "int" "10000" false
     "MaxExpandNodes caps the size of an Expand result tree, bounding the response a single cheap request can amplify into."
     "";
   ConfigGen.mkKnob "GATEWAY_MAX_LIST_OBJECTS" "int" "1000" false
     "MaxListObjects caps the candidate set a single ListObjects call scans, bounding its full-scan + per-object Check cost."
     "";
   ConfigGen.mkKnob "GATEWAY_METRICS_PORT" "int" "9090" false
     "MetricsPort serves the Prometheus /metrics endpoint and the health probes."
     "";
   ConfigGen.mkKnob "GATEWAY_POSTGRES_AUTO_MIGRATE" "bool" "false" false
     "PostgresAutoMigrate runs the expand migration on boot when true. It defaults to FALSE: migrations are a deliberate operator step (out-of-band `workspace migrate`, an init container, or a migrate Job), so a large existing DB's first deploy can never livelock on a bounded CONCURRENTLY build inside the boot window. Opt in (true) only for small/dev DBs."
     "";
   ConfigGen.mkKnob "GATEWAY_POSTGRES_DSN" "string" "" false
     "PostgresDSN selects the postgres driver when set; empty uses memory."
     "";
   ConfigGen.mkKnob "GATEWAY_SERVICE_AUTH_TOKENS" "csv" "" false
     "ServiceAuthTokens are the accepted service credentials presented by calling backends as `Authorization: Bearer <token>`. This is an internal service authenticated service-to-service (not by end-user tokens); the user is passed as data in the request. Empty disables the requirement — trust the network/mesh — and the service logs a warning."
     "";
   ConfigGen.mkKnob "GATEWAY_TENANT_RATE_LIMIT_PER_MINUTE" "int" "0" false
     "TenantRateLimitPerMinute throttles authz data-plane RPCs per (project, tenant); non-positive (the default) disables the limiter."
     "when enabled, must be >= 60 (use 0 to disable)"].

(** ** internal/service/auditlog.go *)
Definition auditlogFile : list decl :=
  [GenDecl CONST
     [SValue (mkValueSpec ["TupleOpInsert"] (Some (Ident "TupleOpKind")) [str "insert"] (Some "TupleOpInsert is a grant (a tuple was written).
"));
      SValue (mkValueSpec ["TupleOpDelete"] (Some (Ident "TupleOpKind")) [str "delete"] (Some "TupleOpDelete is a revocation (a tuple was removed).
"))];
   GenDecl CONST
     [SValue (mkValueSpec ["AdminActionCreateProject"] (Some (Ident "AdminAction")) [str "create_project"] (Some "AdminActionCreateProject records a CreateProject mutation.
"));
      SValue (mkValueSpec ["AdminActionUpdateProject"] (Some (Ident "AdminAction")) [str "update_project"] (Some "AdminActionUpdateProject records an UpdateProject mutation.
"))]].

(** ** internal/connect/metrics.go *)
Definition metricsFile : list decl :=
  [FuncDecl "newMetrics"
    [Ident "f"; CallExpr (SelectorExpr (Ident "promauto") "With") [Ident "reg"];
     OtherExpr [CompositeLit (Ident "metrics")
       [KeyValueExpr (Ident "decisions") (CallExpr (SelectorExpr (Ident "f") "NewCounterVec")
         [CompositeLit (SelectorExpr (Ident "prometheus") "CounterOpts")
           [KeyValueExpr (Ident "Name") (str "authz_check_decisions_total");
            KeyValueExpr (Ident "Help") (str "Authorization Check/CheckSet/BatchCheck decisions by namespace, relation, and outcome.")];
          CompositeLit (OtherExpr [Ident "string"]) [str "namespace"; str "relation"; str "allowed"]]);
        KeyValueExpr (Ident "duration") (CallExpr (SelectorExpr (Ident "f") "NewHistogramVec")
         [CompositeLit (SelectorExpr (Ident "prometheus") "HistogramOpts")
           [KeyValueExpr (Ident "Name") (str "authz_check_duration_seconds");
            KeyValueExpr (Ident "Help") (str "Authorization decision RPC latency in seconds.");
            KeyValueExpr (Ident "Buckets") (SelectorExpr (Ident "prometheus") "DefBuckets")];
          CompositeLit (OtherExpr [Ident "string"]) [str "rpc"]]);
        KeyValueExpr (Ident "errors") (CallExpr (SelectorExpr (Ident "f") "NewCounterVec")
         [CompositeLit (SelectorExpr (Ident "prometheus") "CounterOpts")
           [KeyValueExpr (Ident "Name") (str "authz_decision_errors_total");
            KeyValueExpr (Ident "Help") (str "Authorization decision RPC errors (validation + internal).")];
          CompositeLit (OtherExpr [Ident "string"]) [str "rpc"]]);
        KeyValueExpr (Ident "batchItems") (CallExpr (SelectorExpr (Ident "f") "NewHistogram")
         [CompositeLit (SelectorExpr (Ident "prometheus") "HistogramOpts")
           [KeyValueExpr (Ident "Name") (str "authz_batchcheck_items");
            KeyValueExpr (Ident "Help") (str "Items per BatchCheck request.");
            KeyValueExpr (Ident "Buckets") (CompositeLit (OtherExpr [Ident "float64"]) [num "1"; num "5"; num "10"; num "25"; num "50"; num "100"; num "250"; num "500"; num "1000"])]]);
        KeyValueExpr (Ident "regionRefused") (CallExpr (SelectorExpr (Ident "f") "NewCounter")
         [CompositeLit (SelectorExpr (Ident "prometheus") "CounterOpts")
           [KeyValueExpr (Ident "Name") (str "authz_region_refused_total");
            KeyValueExpr (Ident "Help") (str "Requests refused because the project's pinned data region differs from this instance's region (data-residency fail-closed).")]]);
        KeyValueExpr (Ident "backstops") (CallExpr (SelectorExpr (Ident "f") "NewCounterVec")
         [CompositeLit (SelectorExpr (Ident "prometheus") "CounterOpts")
           [KeyValueExpr (Ident "Name") (str "authz_eval_backstop_total");
            KeyValueExpr (Ident "Help") (str "Engine per-request safety backstops that fired, by reason: depth/cycle (graceful fail-closed deny) or budget (read-budget exhausted, ResourceExhausted error). A rising rate signals an abusive tenant or a misconfigured deep/cyclic model.")];
          CompositeLit (OtherExpr [Ident "string"]) [str "reason"]])]]]].

(** ** docs-site/src/data/generated/audit-events.json *)
Definition auditTable : AuditGen.payload :=
  AuditGen.mkPayload
   [AuditGen.mkEvent "create_project" "AdminAction" "AdminActionCreateProject"
      "AdminActionCreateProject records a CreateProject mutation.";
    AuditGen.mkEvent "delete" "TupleOpKind" "TupleOpDelete"
      "TupleOpDelete is a revocation (a tuple was removed).";
    AuditGen.mkEvent "insert" "TupleOpKind" "TupleOpInsert"
      "TupleOpInsert is a grant (a tuple was written).";
    AuditGen.mkEvent "update_project" "AdminAction" "AdminActionUpdateProject"
      "AdminActionUpdateProject records an UpdateProject mutation."]
   [AuditGen.mkMetric "authz_batchcheck_items"
      "Items per BatchCheck request.";
    AuditGen.mkMetric "authz_check_decisions_total"
      "Authorization Check/CheckSet/BatchCheck decisions by namespace, relation, and outcome.";
    AuditGen.mkMetric "authz_check_duration_seconds"
      "Authorization decision RPC latency in seconds.";
    AuditGen.mkMetric "authz_decision_errors_total"
      "Authorization decision RPC errors (validation + internal).";
    AuditGen.mkMetric "authz_eval_backstop_total"
      "Engine per-request safety backstops that fired, by reason: depth/cycle (graceful fail-closed deny) or budget (read-budget exhausted, ResourceExhausted error). A rising rate signals an abusive tenant or a misconfigured deep/cyclic model.";
    AuditGen.mkMetric "authz_region_refused_total"
      "Requests refused because the project's pinned data region differs from this instance's region (data-residency fail-closed)."].
