(* ===== verification/DocTheorems.v ===== *)
(** * What the generated tables say

    The table of variables does not depend on the order in which a map is visited,
    the committed tables are the ones the generators make of the sources, and the
    rows describe how [Load] reads every environment. *)

From stdpp Require Import base gmap sets strings list pretty sorting.
From Stdlib Require Import ZArith Lia.
From S2P Require Import Prelude Text Model Memory Service Middleware Config AsyncLog DocGen DocSources.
Import DocGen.ConfigGen.
#[local] Open Scope Z_scope.

(** ** One table *)
Section Canonical.
Context {mr1 mr2 : MapRange} (file : list decl).

Lemma knobs_perm : @knobs mr1 file ≡ₚ @knobs mr2 file.
Proof. unfold knobs. by rewrite (@range_map_perm mr1), (@range_map_perm mr2). Qed.

Lemma run_result (mr : MapRange) : @run mr file = match @knobs mr file with
                                        | [] => Err (ErrPlain "no GATEWAY_ knobs parsed")
                                        | _ => Ok (sortByName Name (@knobs mr file))
                                        end.
Proof. unfold run. by destruct (knobs file). Qed.

Lemma run_order_irrelevant : NoDup (Name <$> @knobs mr1 file) -> @run mr1 file = @run mr2 file.
Proof.
  intros Hnd. pose proof knobs_perm as Hp. rewrite !run_result.
  destruct (@knobs mr1 file) as [|k ks] eqn:Hk1, (@knobs mr2 file) as [|k' ks'] eqn:Hk2; try done;
    [by apply Permutation_nil_l in Hp|by apply Permutation_nil_r in Hp|].
  f_equal. apply sortByName_unique; [by rewrite <-Hp|by rewrite sortByName_perm|apply sortByName_sorted].
Qed.
End Canonical.

(** The table of a file in which no two fields read the same variable is one
    list: whatever order the assignments are visited in and however the sort treats
    equal names, a run that finds a variable writes the rows of all fields whose
    value is read by an environment helper, each once, in the order of their names,
    and a run that finds none fails. *)
Theorem config_table_canonical (mr1 mr2 : MapRange) file out :
  NoDup (Name <$> @knobs mr1 file) ->
  out ≡ₚ @knobs mr2 file -> StronglySorted (nameLe Name) out -> out <> [] ->
  @run mr1 file = Ok out /\
  (forall field c, collectLoadAssignments file !! field = Some c -> forall k, knobOf file field c = Some k -> k ∈ out) /\
  (forall k, k ∈ out -> exists field c, collectLoadAssignments file !! field = Some c /\ knobOf file field c = Some k).
Proof.
  intros Hnd Hout Hs Hne. rewrite (run_order_irrelevant (mr2 := mr2)) by done.
  assert (Hnd2 : NoDup (Name <$> @knobs mr2 file)) by by rewrite <-(knobs_perm (mr1 := mr1)).
  split_and!.
  - rewrite run_result. rewrite <-(sortByName_unique Name _ _ Hnd2 Hout Hs).
    destruct (@knobs mr2 file); [by apply Permutation_nil_r in Hout|done].
  - intros field c Hc k Hk. rewrite Hout. unfold knobs. apply list_elem_of_omap. exists (field, c).
    rewrite range_map_perm. split; [by apply elem_of_map_to_list|done].
  - intros k. rewrite Hout. unfold knobs. rewrite list_elem_of_omap. intros [[field c] [Hin Hk]]. exists field, c.
    split; [|done]. rewrite range_map_perm in Hin. by apply elem_of_map_to_list.
Qed.

#[export] Instance knob_eq_dec : EqDecision knob.
Proof. solve_decision. Defined.

Lemma configTable_knobs : configTable ≡ₚ @knobs map_range_default configFile.
Proof. apply (bool_decide_unpack _). vm_compute. exact I. Qed.

Lemma configTable_sorted : StronglySorted (nameLe Name) configTable.
Proof. apply Sorted_StronglySorted; [apply _|]. repeat first [apply Sorted_nil|apply Sorted_cons|apply HdRel_nil|apply HdRel_cons; vm_compute; exact I]. Qed.

Lemma configTable_names : NoDup (Name <$> configTable).
Proof. apply (bool_decide_unpack _). vm_compute. exact I. Qed.

Lemma config_table_canonical_witness :
  @run map_range_default configFile = Ok configTable /\
  (forall field c, collectLoadAssignments configFile !! field = Some c -> forall k, knobOf configFile field c = Some k -> k ∈ configTable) /\
  (forall k, k ∈ configTable -> exists field c, collectLoadAssignments configFile !! field = Some c /\ knobOf configFile field c = Some k).
Proof.
  apply (config_table_canonical map_range_default map_range_default configFile configTable); [|exact configTable_knobs|exact configTable_sorted|done].
  rewrite <-configTable_knobs. exact configTable_names.
Defined.

(** The committed table is the one the sources give, however maps are visited. *)
Lemma run_configFile (mr : MapRange) : @run mr configFile = Ok configTable.
Proof.
  rewrite (run_order_irrelevant (mr2 := map_range_default)).
  - rewrite run_result. rewrite <-(sortByName_unique Name _ configTable).
    + by destruct knobs eqn:Hk; [pose proof configTable_knobs as Hp; rewrite Hk in Hp; by apply Permutation_nil_r in Hp|].
    + rewrite <-configTable_knobs. exact configTable_names.
    + exact configTable_knobs.
    + exact configTable_sorted.
  - rewrite (knobs_perm (mr2 := map_range_default)), <-configTable_knobs. exact configTable_names.
Qed.

(** ** The rows and the loader *)
Inductive value := VInt (n : Z) | VBool (b : bool) | VStr (s : string) | VCSV (l : list string).

(** What a row says of the value read from an environment. *)
Definition readRow (env : Environ) (k : knob) : option value :=
  match Type_ k with
  | "int" => (fun d => VInt (envInt env (Name k) d)) <$> Atoi (Default k)
  | "bool" => (fun d => VBool (envBool env (Name k) d)) <$> ParseBool (Default k)
  | "string" => Some (VStr (envStr env (Name k) (Default k)))
  | "csv" => Some (VCSV (envCSV env (Name k)))
  | _ => None
  end.

(** The fields of a configuration but the mapped credentials, in the order of the
    variables that hold them. *)
Definition documented (c : Config) : list value :=
  [VStr (AdminAPISecret c); VInt (AdminRateLimitPerMinute c); VCSV (AllowedOrigins c); VBool (AuditLog c);
   VInt (ConnectPort c); VStr (DataRegion c); VBool (Config.DecisionLog c); VStr (DefaultProjectID c);
   VStr (DefaultTenantID c); VInt (HTTPMaxBodyBytes c); VInt (MaxBatchCheckItems c); VInt (MaxCheckReads c);
   VInt (MaxExpandNodes c); VInt (MaxListObjects c); VInt (MetricsPort c); VBool (PostgresAutoMigrate c);
   VStr (PostgresDSN c); VCSV (ServiceAuthTokens c); VInt (TenantRateLimitPerMinute c)].

Lemma readRow_documented env creds : readRow env <$> configTable = Some <$> documented (fromEnv env creds).
Proof. reflexivity. Qed.

Lemma documented_inj c c' : documented c = documented c' -> ServiceCredentials c = ServiceCredentials c' -> c = c'.
Proof. destruct c, c'. unfold documented. simpl. intros Heq Hc. by simplify_eq. Qed.

Lemma readRow_agree env env' k : env (Name k) = env' (Name k) -> readRow env k = readRow env' k.
Proof. intros He. unfold readRow, envInt, envBool, envStr, envCSV. by rewrite He. Qed.

(** C40.  The documentation and the service agree: the generator makes the committed
    table of config.go however maps are visited; the name, type and default of the
    rows determine, for every environment, the value of every field that [Load]
    fills but the mapped credentials; and [Load] depends on the environment only
    through the documented variables and GATEWAY_SERVICE_CREDENTIALS. *)
Theorem config_docs_describe_load `{MapRange} `{CredentialsJson} :
  run configFile = Ok configTable /\
  (forall env c, Load env = Ok c -> readRow env <$> configTable = Some <$> documented c) /\
  (forall env env',
    (forall k, k ∈ configTable -> env (Name k) = env' (Name k)) ->
    env "GATEWAY_SERVICE_CREDENTIALS" = env' "GATEWAY_SERVICE_CREDENTIALS" -> Load env = Load env').
Proof.
  split_and!; [apply run_configFile| |].
  - intros env c. unfold Load. destruct (parseServiceCredentials _) as [creds|]; simpl; [|done].
    destruct (Validate _) as [[]|]; simpl; [|done]. intros [= <-]. apply readRow_documented.
  - intros env env' Hrows Hcreds. unfold Load. rewrite Hcreds.
    destruct (parseServiceCredentials _) as [creds|]; simpl; [|done].
    assert (fromEnv env creds = fromEnv env' creds) as ->; [|done].
    apply documented_inj; [|done]. apply (inj (fmap Some)). rewrite <-!(readRow_documented _ creds).
    apply list_fmap_ext. intros i k Hk. apply readRow_agree, Hrows. by eapply list_elem_of_lookup_2.
Qed.

(** The table has no row for the variable that maps credentials to callers: two
    environments that agree on every documented variable load different
    configurations. *)
Example credentials_undocumented :
  exists (cj : CredentialsJson) env env' c c',
    (forall k, k ∈ configTable -> env (Name k) = env' (Name k)) /\
    Load env = Ok c /\ Load env' = Ok c' /\ ServiceCredentials c <> ServiceCredentials c'.
Proof.
  exists {| decodeCredentials _ := Some [mkCredential "0123456789abcdef0123456789abcdef" "slack" ""] |}.
  exists (fun _ => None), (fun n => if String.eqb n "GATEWAY_SERVICE_CREDENTIALS" then Some "[...]" else None).
  eexists _, _. split_and!; [|vm_compute; reflexivity..|done].
  intros k Hk. rewrite list_elem_of_lookup in Hk. destruct Hk as [i Hk].
  repeat (destruct i as [|i]; [simpl in Hk; injection Hk as <-; reflexivity|]). done.
Qed.

(** ** Audit events and metrics *)
(** The committed tables of audit events and metrics are the ones the sources
    give, and the vocabulary they list is the one the audit log writes: the names
    with a kind are exactly the texts of the values of that kind. *)
Theorem audit_docs_list_events :
  AuditGen.run auditlogFile metricsFile = Ok auditTable /\
  (forall name, name ∈ AuditGen.Name <$> filter (fun e => AuditGen.Kind e = "TupleOpKind") (AuditGen.Events auditTable)
     <-> exists op, name = AuditLog.opText op) /\
  (forall name, name ∈ AuditGen.Name <$> filter (fun e => AuditGen.Kind e = "AdminAction") (AuditGen.Events auditTable)
     <-> exists a, name = AuditLog.actionText a).
Proof.
  split_and!; [vm_compute; reflexivity| |]; intros name;
    match goal with |- _ ∈ ?l <-> _ => let l' := eval vm_compute in l in change l with l' end; rewrite !elem_of_cons, elem_of_nil.
  - split; [|by intros [[] ->]; simpl; auto]. intros [->|[->|[]]]; [by exists TupleOpDelete|by exists TupleOpInsert].
  - split; [|by intros [[] ->]; simpl; auto].
    intros [->|[->|[]]]; [by exists AdminActionCreateProject|by exists AdminActionUpdateProject].
Qed.
