(* ===== verification/Backstops.v ===== *)
(** * Backstop counters (internal/connect/interceptor.go, metrics.go,
      pkg/authz/backstop.go)

    The interceptor gives every request a collector, to which the evaluations of the
    request add, and counts afterwards which backstops fired.  [Service] evaluates
    without a collector; here the evaluations of a request share one, and their
    answers do not depend on it. *)

From stdpp Require Import base gmap strings list.
From Stdlib Require Import ZArith Lia.
From S2P Require Import Prelude Conditions Model Engine Expand CheckSet Config Memory Types RateLimit Middleware Wire Service Handler Samples.
#[local] Open Scope Z_scope.

(** ** Computations that respect a relation of states *)
Section Respects.
Context {S : Type} (R : S -> S -> Prop).

Definition respects {A} (c : St S A) : Prop := forall s s', R s s' -> (c s').1 = (c s).1 /\ R (c s).2 (c s').2.

Lemma respects_ret {A} (a : A) : respects (ret a).
Proof. done. Qed.
Lemma respects_lift {A} (r : result A) : respects (lift r).
Proof. done. Qed.

Lemma respects_bind {A B} (c : St S A) (k : A -> St S B) : respects c -> (forall a, respects (k a)) -> respects (bind c k).
Proof.
  intros Hc Hk s s' HR. destruct (Hc s s' HR) as [He Hs]. unfold bind.
  destruct (c s) as [r s1], (c s') as [r' s1']; simpl in *. subst r'. destruct r as [a|e]; [by apply Hk|done].
Qed.

Lemma respects_orLoop {A} (g : A -> St S bool) xs : Forall (fun x => respects (g x)) xs -> respects (orLoop g xs).
Proof. induction 1 as [|x xs Hx _ IH]; [apply respects_ret|]. apply respects_bind; [done|]. intros []; [apply respects_ret|done]. Qed.
Lemma respects_andLoop {A} (g : A -> St S bool) xs : Forall (fun x => respects (g x)) xs -> respects (andLoop g xs).
Proof. induction 1 as [|x xs Hx _ IH]; [apply respects_ret|]. apply respects_bind; [done|]. intros []; [done|apply respects_ret]. Qed.
Lemma respects_mapM {A B} (g : A -> St S B) xs : Forall (fun x => respects (g x)) xs -> respects (mapM g xs).
Proof.
  induction 1 as [|x xs Hx _ IH]; [apply respects_ret|]. apply respects_bind; [done|]. intros y.
  apply respects_bind; [done|]. intros ys. apply respects_ret.
Qed.
End Respects.

Create HintDb respects.
#[export] Hint Resolve respects_ret respects_lift : respects.

(** Sequences of steps that respect the relation. *)
Ltac respect :=
  repeat first
    [ progress eauto with respects nocore
    | apply respects_bind; [|intros ?]
    | apply respects_orLoop, Forall_true; intros ?
    | case_match ].

(** ** Evaluations and their collector

    [C] relates collectors and is preserved when both count the same backstop. *)
Section Collected.
Context (C : option Backstops -> option Backstops -> Prop).
Hypothesis C_bump : forall reason c c', C c c' -> C (bumpBackstop reason <$> c) (bumpBackstop reason <$> c').

Definition withCollector (c : option Backstops) (st : evalState) : evalState :=
  mkEvalState (visited st) (memo st) (cyclesSeen st) (reads st) (calls st) (maxReads st) c.

(** States that differ in their collectors only. *)
Definition like (st st' : evalState) : Prop := exists c', C (collector st) c' /\ st' = withCollector c' st.
Definition likeX (s s' : expandState) : Prop := like (x_st s) (x_st s') /\ x_count s' = x_count s /\ x_visited s' = x_visited s.
Definition likeM (s s' : memberState) : Prop := like (m_st s) (m_st s') /\ m_visited s' = m_visited s.

Lemma like_record reason st st' : like st st' -> like (recordBackstop reason st) (recordBackstop reason st').
Proof. intros (c' & Hc & ->). exists (bumpBackstop reason <$> c'). split; [by apply C_bump|done]. Qed.

Lemma like_update (f : evalState -> evalState) st st' :
  (forall c st, f (withCollector c st) = withCollector c (f st)) -> (forall st, collector (f st) = collector st) ->
  like st st' -> like (f st) (f st').
Proof. intros Hf Hcf (c' & Hc & ->). exists c'. by rewrite Hf, Hcf. Qed.

Lemma chargeOrRecord_respects : respects like chargeOrRecord.
Proof.
  intros st st' (c' & Hc & ->). unfold chargeOrRecord, charge. simpl. destruct (_ && _); simpl; (split; [done|]); [|by exists c'].
  exists (bumpBackstop BackstopBudget <$> c'). split; [by apply C_bump|done].
Qed.

Lemma readSubjects_respects rd projectID tenantID ns obj rel :
  respects like (readSubjects rd projectID tenantID ns obj rel).
Proof. intros st st' HR. split; [done|]. by apply (like_update countCall). Qed.

Lemma reset_respects : respects like (modify (fun st => set_memo ∅ (set_visited ∅ st))).
Proof. intros st st' HR. split; [done|]. by apply (like_update (fun st => set_memo ∅ (set_visited ∅ st))). Qed.

Section Check.
Context `{TextParsers} (rd : TupleReader) (m : Model) (projectID tenantID : string) (q : subjectQuery) (cc : anymap).

Lemma evalRewrite_respects (rec : checkFn) ns obj rel rw neg :
  (forall ns obj rel neg, respects like (rec ns obj rel neg)) ->
  respects like (evalRewrite rd projectID tenantID q cc rec ns obj rel rw neg).
Proof.
  intros Hrec. pose proof chargeOrRecord_respects as Hch. pose proof (readSubjects_respects rd projectID tenantID) as Hrd.
  revert neg. induction rw as [us ins ex c ts cr IHu IHi IHe] using Rewrite_ind'; intros neg. simpl.
  destruct (isThis _); [unfold evalThis; respect|].
  destruct (negb (is_nil us)); [apply respects_orLoop; eapply Forall_impl; [exact IHu|]; simpl; auto|].
  destruct (negb (is_nil ins)).
  { destruct (q_set q); [respect|]. apply respects_andLoop. eapply Forall_impl; [exact IHi|]. simpl. auto. }
  destruct ex as [[i x]|]; [|unfold evalTupleToUserset; respect].
  destruct (q_set q); [respect|]. destruct (IHe _ eq_refl) as [Hi Hx]. simpl in *.
  apply respects_bind; [done|]. intros []; simpl; [|respect]. apply respects_bind; [done|]. respect.
Qed.

Lemma check_respects left ns obj rel neg : respects like (check rd m projectID tenantID q cc left ns obj rel neg).
Proof.
  revert ns obj rel neg. induction left as [|left IH]; intros ns obj rel neg st st' HR;
    destruct (HR) as (c' & Hc & ->); cbn [check]; cbn [visited withCollector]; case_decide; simpl;
    try (split; [done|apply like_record; by exists c']).
  destruct (memo st !! _) as [b|]; simpl; [done|]. set (v := {[_]} ∪ _).
  assert (HR1 : like (set_visited v st) (set_visited v (withCollector c' st))) by by apply (like_update (set_visited v)).
  destruct (evalRewrite_respects _ ns obj rel (rewrite_of m ns rel) neg IH _ _ HR1) as [He (c2 & Hc2 & Hs2)].
  destruct (evalRewrite _ _ _ _ _ _ _ _ _ _ _ (set_visited v st)) as [r st2].
  destruct (evalRewrite _ _ _ _ _ _ _ _ _ _ _ _) as [r' st2']. simpl in *. subst r' st2'.
  destruct r as [b|e]; simpl; [destruct (_ =? _)|]; (split; [done|]); by exists c2.
Qed.
End Check.

Section Expansion.
Context (rd : TupleReader) (m : Model) (projectID tenantID : string) (max : Z).

Lemma expandCharge_respects : respects likeX expandCharge.
Proof.
  intros s s' (HR & Hn & Hv). unfold expandCharge. destruct (chargeOrRecord_respects _ _ HR) as [He Hs].
  destruct (chargeOrRecord (x_st s)), (chargeOrRecord (x_st s')). simpl in *. split; [done|]. by split_and!.
Qed.
Lemma expandRead_respects ns obj rel : respects likeX (expandRead rd projectID tenantID ns obj rel).
Proof.
  intros s s' (HR & Hn & Hv). unfold expandRead.
  destruct (readSubjects_respects rd projectID tenantID ns obj rel _ _ HR) as [He Hs]. by split_and!.
Qed.
Lemma bump_respects n : respects likeX (bump max n).
Proof. intros s s' (HR & Hn & Hv). unfold bump. simpl. rewrite Hn. destruct (_ && _); simpl; (split; [done|]); unfold likeX; simpl; rewrite ?Hn; by split_and!. Qed.
Lemma expandRecord_respects reason : respects likeX (expandRecord reason).
Proof. intros s s' (HR & Hn & Hv). split; [done|]. split_and!; [by apply like_record|done..]. Qed.

Section Rule.
Context (rec : string -> string -> string -> St expandState Tree) (Hrec : forall ns obj rel, respects likeX (rec ns obj rel)).

Lemma expandPointers_respects rel subs : respects likeX (expandPointers rec rel subs).
Proof. induction subs as [|s subs IH]; simpl; respect. Qed.

Lemma expandRewrite_respects ns obj rel self rw :
  respects likeX (expandRewrite rd projectID tenantID max rec ns obj rel self rw).
Proof.
  pose proof expandCharge_respects as Hch. pose proof bump_respects as Hb. pose proof expandPointers_respects as Hp.
  pose proof expandRead_respects as Hrd.
  induction rw as [us ins ex c ts cr IHu IHi IHe] using Rewrite_ind'. simpl. apply respects_bind; [done|]. intros _.
  destruct (isThis _); [unfold expandThis; respect|].
  destruct (negb (is_nil us)); [apply respects_bind; [by apply respects_mapM|respect]|].
  destruct (negb (is_nil ins)); [apply respects_bind; [by apply respects_mapM|respect]|].
  destruct ex as [[i x]|]; [|unfold expandTupleset; respect]. destruct (IHe _ eq_refl) as [Hi Hx]. simpl in *. respect.
Qed.
End Rule.

Lemma expand_respects left ns obj rel : respects likeX (expand rd m projectID tenantID max left ns obj rel).
Proof.
  revert ns obj rel. induction left as [|left IH]; intros ns obj rel s s' HR; cbn [expand].
  { apply respects_bind; [apply expandRecord_respects|respect|done]. }
  destruct (HR) as (Hl & Hn & Hv). rewrite Hv, Hn. case_decide; [apply respects_bind; [apply expandRecord_respects|respect|done]|].
  set (v := {[_]} ∪ _). assert (HR1 : likeX (mkExpandState (x_count s) (x_st s) v) (mkExpandState (x_count s) (x_st s') v)) by by split_and!.
  destruct (expandRewrite_respects _ IH ns obj rel (mkSubjectSet ns obj rel) (rewrite_of m ns rel) _ _ HR1) as [He (Hl2 & Hn2 & Hv2)].
  destruct (expandRewrite _ _ _ _ _ _ _ _ _ _ (mkExpandState _ (x_st s) _)), (expandRewrite _ _ _ _ _ _ _ _ _ _ _). simpl in *.
  split; [done|]. unfold likeX. simpl. by rewrite Hn2, Hv2.
Qed.
End Expansion.

Section Members.
Context (e : Engine) (m : Model) (projectID tenantID : string).

Lemma membersOfTree_respects rec t :
  (forall s, respects likeM (rec s)) -> respects likeM (membersOfTree rec t).
Proof.
  intros Hrec. induction t as [self us ins ex users sets w Hus Hins Hex] using Tree_ind'. simpl.
  destruct (negb (is_nil us)).
  { generalize (∅ : userSet) false. induction Hus as [|u us Hu _ IH]; intros out ev; simpl; respect. }
  destruct (negb (is_nil ins)).
  { generalize (@None userSet). induction Hins as [|u ins Hu _ IH]; intros acc; simpl; respect. }
  destruct ex as [x|]; [destruct (Hex _ eq_refl) as [Hi Hx]; respect|].
  generalize (list_to_map ((fun u => (u, tt)) <$> users) : userSet) w. clear Hus Hins Hex.
  induction sets as [|s sets IH]; intros out ev; simpl; respect.
Qed.

Lemma resolveMembers_respects left set : respects likeM (resolveMembers e m projectID tenantID left set).
Proof.
  revert set. induction left as [|left IH]; intros set s s' HR; cbn [resolveMembers]; destruct (HR) as [Hl Hv].
  { split; [done|]. split; [by apply like_record|done]. }
  rewrite Hv. case_decide; [split; [done|]; split; [by apply like_record|done]|].
  assert (HX : likeX (mkExpandState 0 (m_st s) ∅) (mkExpandState 0 (m_st s') ∅)) by by split_and!.
  destruct (expand_respects (reader e) m projectID tenantID 0 (S left) (ss_Namespace set) (ss_ObjectID set) (ss_Relation set) _ _ HX)
    as [He (Hl2 & _)].
  destruct (expand _ _ _ _ _ _ _ _ _ (mkExpandState 0 (m_st s) ∅)) as [r x], (expand _ _ _ _ _ _ _ _ _ _) as [r' x'].
  simpl in He, Hl2. subst r'. destruct r as [tree|err]; [|by split].
  set (v := {[_]} ∪ _). assert (HM : likeM (mkMemberState (x_st x) v) (mkMemberState (x_st x') v)) by by split.
  destruct (membersOfTree_respects _ tree IH _ _ HM) as [He2 [Hl3 Hv3]].
  destruct (membersOfTree _ _ (mkMemberState (x_st x) v)), (membersOfTree _ _ _). simpl in *. split; [done|].
  split; [done|]. simpl. by rewrite Hv3.
Qed.

Lemma resolveAll_respects set : respects like (resolveAll e m projectID tenantID set).
Proof.
  intros st st' HR. unfold resolveAll. assert (HM : likeM (mkMemberState st ∅) (mkMemberState st' ∅)) by by split.
  destruct (resolveMembers_respects (S (maxDepth e)) set _ _ HM) as [He [Hl _]].
  by destruct (resolveMembers _ _ _ _ _ _ (mkMemberState st ∅)), (resolveMembers _ _ _ _ _ _ _).
Qed.

Lemma listObjectsLoop_respects `{TextParsers} ns rel u ids : respects like (listObjectsLoop e m projectID tenantID ns rel u ids).
Proof.
  induction ids as [|id ids IH]; cbn [listObjectsLoop]; [respect|]. apply respects_bind; [apply reset_respects|]. intros _.
  apply respects_bind; [by apply check_respects|]. intros ok. respect.
Qed.
End Members.
End Collected.

(** ** The evaluations of a request *)
Inductive evaluation :=
  | EvCheck (m : Model) (projectID tenantID namespace objectID relation userID : string) (cc : anymap) (maxReads : Z)
  | EvCheckSet (m : Model) (projectID tenantID namespace objectID relation : string) (set : SubjectSet) (cc : anymap) (maxReads : Z)
  | EvExpand (m : Model) (projectID tenantID namespace objectID relation : string) (maxNodes maxReads : Z)
  | EvListObjects (m : Model) (projectID tenantID namespace relation userID : string) (maxObjects maxReads : Z).

Inductive answer := ABool (r : result bool) | ATree (r : result Tree) | AObjects (r : result (list string)).

Definition fired (reason : BackstopReason) (b : Backstops) : bool :=
  0 <? match reason with BackstopDepth => b_Depth b | BackstopCycle => b_Cycle b | BackstopBudget => b_Budget b end.

(** [string(reason)] *)
Definition reasonText (reason : BackstopReason) : string :=
  match reason with BackstopDepth => "depth" | BackstopCycle => "cycle" | BackstopBudget => "budget" end.

(** [authz_eval_backstop_total] by reason *)
Definition recordBackstops (b : Backstops) (counters : gmap string Z) : gmap string Z :=
  let count reason cs := if fired reason b then Inc (reasonText reason) cs else cs in
  count BackstopBudget (count BackstopCycle (count BackstopDepth counters)).

Section Requests.
Context `{TextParsers} `{MapRange} (e : Engine).

Definition evaluate (ev : evaluation) (bs : option Backstops) : answer * option Backstops :=
  match ev with
  | EvCheck m pr t ns obj rel u cc n => let '(r, st) := CheckWithModel e m pr t ns obj rel u cc n bs in (ABool r, collector st)
  | EvCheckSet m pr t ns obj rel set cc n => let '(r, st) := CheckSetWithModel e m pr t ns obj rel set cc n bs in (ABool r, collector st)
  | EvExpand m pr t ns obj rel k n => let '(r, s) := ExpandWithModel e m pr t ns obj rel k n bs in (ATree r, collector (x_st s))
  | EvListObjects m pr t ns rel u k n => let '(r, bs') := ListObjectsWithModel e m pr t ns rel u k n bs in (AObjects r, bs')
  end.

(** The evaluations of one request share its collector. *)
Fixpoint evaluateAll (evs : list evaluation) (bs : option Backstops) : list answer * option Backstops :=
  match evs with
  | [] => ([], bs)
  | ev :: evs' => let '(a, bs1) := evaluate ev bs in let '(l, bs2) := evaluateAll evs' bs1 in (a :: l, bs2)
  end.

Definition WithBackstops : Backstops := mkBackstops 0 0 0.

Definition backstopInterceptor {R} (next : option Backstops -> R * option Backstops) (counters : gmap string Z)
    : R * gmap string Z :=
  let '(resp, bs) := next (Some WithBackstops) in
  (resp, match bs with Some b => recordBackstops b counters | None => counters end).

Section Related.
Context (C : option Backstops -> option Backstops -> Prop).
Hypothesis C_bump : forall reason c c', C c c' -> C (bumpBackstop reason <$> c) (bumpBackstop reason <$> c').

Lemma like_new n bs bs' : C bs bs' -> like C (newEvalState n bs) (newEvalState n bs').
Proof. intros HC. by exists bs'. Qed.

Lemma respects_run {A} (c : St evalState A) n bs bs' :
  respects (like C) c -> C bs bs' ->
  (c (newEvalState n bs')).1 = (c (newEvalState n bs)).1 /\
  C (collector (c (newEvalState n bs)).2) (collector (c (newEvalState n bs')).2).
Proof. intros Hc HC. destruct (Hc _ _ (like_new n _ _ HC)) as [He (c' & Hc' & ->)]. done. Qed.

Lemma evaluate_related ev bs bs' :
  C bs bs' -> (evaluate ev bs').1 = (evaluate ev bs).1 /\ C (evaluate ev bs).2 (evaluate ev bs').2.
Proof.
  intros HC. pose proof (check_respects C C_bump) as Hc. pose proof (resolveAll_respects C C_bump e) as Hr.
  pose proof (reset_respects C) as Hz. destruct ev; simpl.
  - unfold CheckWithModel. set (n := effectiveMaxReads _ _).
    destruct (respects_run _ n bs bs' (Hc (reader e) m projectID tenantID (mkQuery userID None) cc (S (maxDepth e)) namespace objectID relation false) HC)
      as [He Hs].
    destruct (check _ _ _ _ _ _ _ _ _ _ _ (newEvalState n bs)), (check _ _ _ _ _ _ _ _ _ _ _ _). simpl in *. split; [by f_equal|done].
  - unfold CheckSetWithModel. set (n := fanOutBudget _ _ _).
    match goal with |- context [bind ?c ?k (newEvalState n bs)] => assert (Hall : respects (like C) (bind c k)) by respect; revert Hall; generalize (bind c k) end.
    intros c Hall. destruct (respects_run c n bs bs' Hall HC) as [He Hs].
    destruct (c (newEvalState n bs)), (c (newEvalState n bs')). simpl in *. split; [by f_equal|done].
  - unfold ExpandWithModel. set (n := expandBudget _ _ _).
    destruct (expand_respects C C_bump (reader e) m projectID tenantID maxNodes (S (maxDepth e)) namespace objectID relation
      (mkExpandState 0 (newEvalState n bs) ∅) (mkExpandState 0 (newEvalState n bs') ∅)) as [He (Hl & _)].
    { split_and!; [by apply like_new|done..]. }
    destruct (expand _ _ _ _ _ _ _ _ _ (mkExpandState 0 (newEvalState n bs) ∅)), (expand _ _ _ _ _ _ _ _ _ _). simpl in *.
    destruct Hl as (c' & Hc' & ->). split; [by f_equal|done].
  - unfold ListObjectsWithModel. destruct (ListObjectIDs _) as [lister|]; [|done]. destruct (lister _ _ _) as [ids|]; [|done].
    destruct (_ && _); [done|]. set (n := fanOutBudget _ _ _).
    destruct (respects_run _ n bs bs' (listObjectsLoop_respects C C_bump e m projectID tenantID namespace relation userID ids) HC) as [He Hs].
    destruct (listObjectsLoop _ _ _ _ _ _ _ _ (newEvalState n bs)), (listObjectsLoop _ _ _ _ _ _ _ _ _). simpl in *. split; [by f_equal|done].
Qed.
End Related.

Definition addB (b d : Backstops) : Backstops := mkBackstops (b_Depth b + b_Depth d) (b_Cycle b + b_Cycle d) (b_Budget b + b_Budget d).
Definition nonneg (d : Backstops) : Prop := 0 <= b_Depth d /\ 0 <= b_Cycle d /\ 0 <= b_Budget d.

Lemma bump_add reason b d : bumpBackstop reason (addB b d) = addB b (bumpBackstop reason d).
Proof. destruct reason; unfold addB; simpl; f_equal; lia. Qed.
Lemma bump_nonneg reason d : nonneg d -> nonneg (bumpBackstop reason d).
Proof. destruct reason; unfold nonneg; simpl; lia. Qed.
Lemma addB_zero_l d : addB WithBackstops d = d.
Proof. destruct d. unfold addB. simpl. f_equal; lia. Qed.

(** An evaluation counts the same backstops whatever was counted before it, and
    answers the same without a collector. *)
Lemma evaluate_counts ev : exists a d, evaluate ev None = (a, None) /\ nonneg d /\
  forall b, evaluate ev (Some b) = (a, Some (addB b d)).
Proof.
  destruct (evaluate_related (fun c c' => is_Some c /\ c' = None)) with (ev := ev) (bs := Some WithBackstops) (bs' := @None Backstops)
    as [Ha [[d Hd] Hn]]; [|done|].
  { intros reason c c' [[d ->] ->]. simpl. eauto. }
  exists (evaluate ev None).1, d. split; [by rewrite surjective_pairing at 1; rewrite Hn|].
  assert (Hadd : forall b, evaluate ev (Some b) = ((evaluate ev None).1, Some (addB b d)) /\ nonneg d).
  { intros b. destruct (evaluate_related (fun c c' => exists x, c = Some x /\ c' = Some (addB b x) /\ nonneg x))
      with (ev := ev) (bs := Some WithBackstops) (bs' := Some b) as [Hb (x & Hx & Hbx & Hnn)].
    - intros reason c c' (x & -> & -> & Hnn). exists (bumpBackstop reason x). simpl. rewrite bump_add. split_and!; [done..|by apply bump_nonneg].
    - exists WithBackstops. split_and!; [done| |by unfold nonneg; simpl; lia..]. f_equal. destruct b. unfold addB. simpl. f_equal; lia.
    - rewrite Hd in Hx. injection Hx as <-. split; [|done]. rewrite (surjective_pairing (evaluate ev (Some b))). by rewrite Hb, Hbx, <-Ha. }
  split; [by destruct (Hadd WithBackstops)|]. intros b. by destruct (Hadd b).
Qed.

Lemma positive_sum x y : 0 <= x -> 0 <= y -> (0 <? x + y) = (0 <? x) || (0 <? y).
Proof. intros. destruct (Z.ltb_spec 0 (x + y)), (Z.ltb_spec 0 x), (Z.ltb_spec 0 y); simpl; done || lia. Qed.

(** Whether an evaluation alone fires a backstop. *)
Definition fires (reason : BackstopReason) (ev : evaluation) : bool :=
  match (evaluate ev (Some WithBackstops)).2 with Some d => fired reason d | None => false end.

Lemma evaluateAll_counts evs b : nonneg b ->
  exists d, evaluateAll evs (Some b) = ((fun ev => (evaluate ev None).1) <$> evs, Some d) /\ nonneg d /\
    forall reason, fired reason d = fired reason b || existsb (fires reason) evs.
Proof.
  revert b. induction evs as [|ev evs IH]; intros b Hb.
  { exists b. split_and!; [done..|]. intros reason. by rewrite orb_false_r. }
  destruct (evaluate_counts ev) as (a & x & Hnone & Hx & Hsome). cbn [evaluateAll]. rewrite Hsome.
  destruct (IH (addB b x)) as (d & Hd & Hnn & Hf). { unfold nonneg, addB in *. simpl. lia. }
  rewrite Hd. exists d. rewrite fmap_cons, Hnone. split_and!; [done..|]. intros reason. rewrite Hf. cbn [existsb].
  unfold fires at 2. rewrite Hsome, addB_zero_l. simpl. rewrite orb_assoc. f_equal.
  destruct Hb as (? & ? & ?), Hx as (? & ? & ?). destruct reason; unfold fired, addB; simpl; by apply positive_sum.
Qed.
End Requests.

Lemma recordBackstops_lookup b counters key :
  default 0 (recordBackstops b counters !! key) =
  default 0 (counters !! key) + (if existsb (fun reason => String.eqb key (reasonText reason) && fired reason b)
                                  [BackstopDepth; BackstopCycle; BackstopBudget] then 1 else 0).
Proof.
  unfold recordBackstops, Inc. simpl.
  destruct (String.eqb_spec key "depth") as [->|]; [|destruct (String.eqb_spec key "cycle") as [->|];
    [|destruct (String.eqb_spec key "budget") as [->|]]]; simpl;
    repeat case_match; simplify_map_eq; simpl; try lia; congruence || lia.
Qed.

(** The backstop metric observes without interfering.  Over any evaluations
    of a request, checks, userset checks, expansions and listings, the interceptor
    hands on exactly the answers they give without a collector; and the counter of
    a reason grows by one when one of them, run alone, hits that backstop, by
    nothing otherwise, and no other counter changes. *)
Theorem backstops_observe_only `{TextParsers} `{MapRange} e evs counters :
  let '(answers, counters') := backstopInterceptor (evaluateAll e evs) counters in
  answers = (fun ev => (evaluate e ev None).1) <$> evs /\
  (forall reason, default 0 (counters' !! reasonText reason) =
     default 0 (counters !! reasonText reason) + (if existsb (fires e reason) evs then 1 else 0)) /\
  (forall key, (forall reason, key <> reasonText reason) -> default 0 (counters' !! key) = default 0 (counters !! key)).
Proof.
  unfold backstopInterceptor. destruct (evaluateAll_counts e evs WithBackstops) as (d & -> & _ & Hf); [by unfold nonneg; simpl; lia|].
  split_and!; [done| |].
  - intros reason. rewrite recordBackstops_lookup. specialize (Hf reason). simpl. unfold fired in Hf at 2.
    destruct reason; simpl in *; rewrite <-Hf, ?orb_false_r; done.
  - intros key Hk. rewrite recordBackstops_lookup. simpl.
    rewrite (proj2 (String.eqb_neq key "depth") (Hk BackstopDepth)), (proj2 (String.eqb_neq key "cycle") (Hk BackstopCycle)),
      (proj2 (String.eqb_neq key "budget") (Hk BackstopBudget)). simpl. lia.
Qed.
