(* ===== verification/Interleave.v ===== *)
(** * Concurrent requests (internal/service/members.go, ownership.go, invitations.go)

    [ServiceWorkspaces] runs requests one after the other.  The server runs each in
    a goroutine of its own and the service takes no lock across the calls of a
    request, so requests interleave at their repository calls.  Here a request is a
    program ([Prog]) of repository calls and readings; run alone it is the
    definition of [ServiceWorkspaces] ([run_alone]).

    A reading (a permission check, the state of the project, the clock) is several
    calls that change nothing; in the step relation it may answer anything, since
    others write between those calls.  An executable schedule ([runSchedule]) lets
    a reading see the repository at one instant. *)

From stdpp Require Import base gmap strings list relations.
From Stdlib Require Import ZArith Lia.
From S2P Require Import Prelude Conditions Model Types Text Engine Memory MemoryKeys MemoryTheorems Service ServiceWorkspaces ServiceFrame.
From S2P Require Import WorkspaceInv WorkspaceSteps.
#[local] Open Scope Z_scope.

(** ** Programs *)
Inductive Prog (A : Type) : Type :=
  | Done (r : result A)
  | Call {B : Type} (c : St Store B) (k : result B -> Prog A)     (* one critical section of the repository *)
  | Ask {B : Type} (c : St World B) (k : result B -> Prog A).     (* readings *)
Arguments Done {A}.
Arguments Call {A B}.
Arguments Ask {A B}.

Fixpoint pthen {A B} (P : Prog A) (k : result A -> Prog B) : Prog B :=
  match P with
  | Done r => k r
  | Call c k' => Call c (fun r => pthen (k' r) k)
  | Ask c k' => Ask c (fun r => pthen (k' r) k)
  end.

Definition pbind {A B} (P : Prog A) (k : A -> Prog B) : Prog B :=
  pthen P (fun r => match r with Ok a => k a | Err e => Done (Err e) end).

Definition pret {A} (a : A) : Prog A := Done (Ok a).
Definition pfail {A} (e : error) : Prog A := Done (Err e).
Definition pguard (ok : bool) (e : error) : Prog unit := if ok then pret tt else pfail e.
Definition call {A} (c : St Store A) : Prog A := Call c Done.
Definition ask {A} (c : St World A) : Prog A := Ask c Done.
Definition tried {A} (P : Prog A) : Prog (result A) := pthen P (fun r => Done (Ok r)).

Declare Scope prog_scope.
Delimit Scope prog_scope with prog.
Notation "'letp' x ':=' c 'in' k" := (pbind c (fun x => k)) (at level 10, x pattern, c at level 100, k at level 200) : prog_scope.
Notation "'dop' c 'in' k" := (pbind c (fun _ => k)) (at level 10, c at level 100, k at level 200) : prog_scope.
#[local] Open Scope prog_scope.

(** Without interruption. *)
Fixpoint runAlone {A} (P : Prog A) : St World A :=
  match P with
  | Done r => lift r
  | Call c k => fun w => let '(r, w') := repo c w in runAlone (k r) w'
  | Ask c k => fun w => let '(r, w') := c w in runAlone (k r) w'
  end.

(** ** The requests *)
Section Requests.
Context `{Sources} `{MapRange} `{TextParsers} (svc : ServiceConfig).

Definition requireWorkspace (p : Principal) (workspaceID : string) (rel : Role) : Prog Workspace :=
  letp w := call (Memory.GetWorkspace (pr_ProjectID p) (pr_TenantID p) workspaceID) in
  letp ok := ask (allowed svc p workspaceID rel) in
  if ok : bool then pret w else pfail ErrPermissionDenied.

Definition putMember (p : Principal) (workspaceID userID : string) (role : Role) : Prog Membership :=
  dop ask (ensureProjectActive svc p) in
  letp t := ask now_ in
  let m := mkMembership (pr_ProjectID p) (pr_TenantID p) workspaceID userID role StatusActive t t in
  dop call (PutMembershipAndTuples m [roleTuple workspaceID role userID] []) in
  pret m.

Definition AddMember (p : Principal) (workspaceID userID : string) (role : Role) : Prog Membership :=
  dop pguard (grantableRole role) ErrInvalidArgument in
  dop pguard (negb (String.eqb userID "")) ErrInvalidArgument in
  letp w := requireWorkspace p workspaceID RoleAdmin in
  dop pguard (negb (String.eqb (w_Type w) TypePersonal)) ErrFailedPrecondition in
  letp r := tried (call (GetMembership (pr_ProjectID p) (pr_TenantID p) workspaceID userID)) in
  match r with
  | Ok _ => pfail ErrAlreadyExists
  | Err err => if negb (isNotFound err) then pfail err else putMember p workspaceID userID role
  end.

Definition UpdateMemberRole (p : Principal) (workspaceID userID : string) (role : Role) : Prog Membership :=
  dop pguard (grantableRole role) ErrInvalidArgument in
  dop requireWorkspace p workspaceID RoleAdmin in
  letp m := call (GetMembership (pr_ProjectID p) (pr_TenantID p) workspaceID userID) in
  dop pguard (negb (String.eqb (mb_Role m) RoleOwner)) ErrFailedPrecondition in
  dop pguard (negb (String.eqb (mb_Status m) StatusSuspended)) ErrFailedPrecondition in
  if String.eqb (mb_Role m) role then pret m else
  letp t := ask now_ in
  let m' := membershipWith m role (mb_Status m) t in
  dop call (PutMembershipAndTuples m' [roleTuple workspaceID role userID] [roleTuple workspaceID (mb_Role m) userID]) in
  pret m'.

Definition RemoveMember (p : Principal) (workspaceID userID : string) : Prog unit :=
  dop requireWorkspace p workspaceID RoleAdmin in
  letp m := call (GetMembership (pr_ProjectID p) (pr_TenantID p) workspaceID userID) in
  dop pguard (negb (String.eqb (mb_Role m) RoleOwner)) ErrFailedPrecondition in
  call (DeleteMembershipAndTuples (pr_ProjectID p) (pr_TenantID p) workspaceID userID
          [roleTuple workspaceID (mb_Role m) userID]).

Definition SuspendMember (p : Principal) (workspaceID userID : string) : Prog Membership :=
  dop requireWorkspace p workspaceID RoleAdmin in
  letp m := call (GetMembership (pr_ProjectID p) (pr_TenantID p) workspaceID userID) in
  dop pguard (negb (String.eqb (mb_Role m) RoleOwner)) ErrFailedPrecondition in
  if String.eqb (mb_Status m) StatusSuspended then pret m else
  letp t := ask now_ in
  let m' := membershipWith m (mb_Role m) StatusSuspended t in
  dop call (PutMembershipAndTuples m' [] [roleTuple workspaceID (mb_Role m') userID]) in
  pret m'.

Definition ReinstateMember (p : Principal) (workspaceID userID : string) : Prog Membership :=
  dop requireWorkspace p workspaceID RoleAdmin in
  letp m := call (GetMembership (pr_ProjectID p) (pr_TenantID p) workspaceID userID) in
  if negb (String.eqb (mb_Status m) StatusSuspended) then pret m else
  letp t := ask now_ in
  let m' := membershipWith m (mb_Role m) StatusActive t in
  dop call (PutMembershipAndTuples m' [roleTuple workspaceID (mb_Role m') userID] []) in
  pret m'.

Definition AcceptInvitation (p : Principal) (token : string) : Prog Membership :=
  dop pguard (negb (String.eqb token "")) ErrInvalidArgument in
  letp inv := call (GetInvitationByTokenHash (pr_ProjectID p) (pr_TenantID p) (hashToken token)) in
  dop pguard (String.eqb (inv_Status inv) InvitePending) ErrFailedPrecondition in
  letp t := ask now_ in
  if inv_ExpiresAt inv <? t then
    dop tried (call (UpdateInvitation (invitationWith inv InviteExpired))) in
    pfail ErrFailedPrecondition
  else
  letp r := tried (call (GetMembership (pr_ProjectID p) (pr_TenantID p) (inv_WorkspaceID inv) (pr_UserID p))) in
  match r with
  | Ok m => dop call (UpdateInvitation (invitationWith inv InviteAccepted)) in pret m
  | Err err =>
      if negb (isNotFound err) then pfail err else
      letp m := putMember p (inv_WorkspaceID inv) (pr_UserID p) (inv_Role inv) in
      dop call (UpdateInvitation (invitationWith inv InviteAccepted)) in
      pret m
  end.

Definition TransferOwnership (p : Principal) (workspaceID newOwnerID : string) : Prog Workspace :=
  dop pguard (negb (String.eqb newOwnerID "")) ErrInvalidArgument in
  letp w := requireWorkspace p workspaceID RoleOwner in
  dop ask (ensureProjectActive svc p) in
  dop pguard (negb (String.eqb (w_Type w) TypePersonal)) ErrFailedPrecondition in
  let oldOwnerID := w_OwnerUserID w in
  if String.eqb newOwnerID oldOwnerID then pret w else
  letp t := ask now_ in
  letp existing := tried (call (GetMembership (pr_ProjectID p) (pr_TenantID p) workspaceID newOwnerID)) in
  letp prior := match existing with
                | Ok m => pret (Some m)
                | Err err => if isNotFound err then pret None else pfail err
                end in
  let deletes :=
    match prior with
    | Some m => if negb (String.eqb (mb_Role m) RoleOwner) then [roleTuple workspaceID (mb_Role m) newOwnerID] else []
    | None => []
    end in
  let newOwner := mkMembership (pr_ProjectID p) (pr_TenantID p) workspaceID newOwnerID RoleOwner StatusActive
                    (match prior with Some m => mb_CreatedAt m | None => t end) t in
  dop call (PutMembershipAndTuples newOwner [roleTuple workspaceID RoleOwner newOwnerID] deletes) in
  let w' := mkWorkspace (w_ID w) (w_ProjectID w) (w_TenantID w) (w_Slug w) (w_DisplayName w) (w_Type w)
              newOwnerID (w_CreatedAt w) t in
  dop call (Memory.UpdateWorkspace w') in
  let adminInsert := [roleTuple workspaceID RoleAdmin oldOwnerID] in
  let ownerDelete := [roleTuple workspaceID RoleOwner oldOwnerID] in
  letp old := tried (call (GetMembership (pr_ProjectID p) (pr_TenantID p) workspaceID oldOwnerID)) in
  dop match old with
      | Ok m => call (PutMembershipAndTuples (membershipWith m RoleAdmin (mb_Status m) t) adminInsert ownerDelete)
      | Err err =>
          if isNotFound err
          then call (WriteTuples (pr_ProjectID p) (pr_TenantID p) adminInsert ownerDelete)
          else pfail err
      end in
  pret w'.

(** The requests that run concurrently below. *)
Inductive memberRequest :=
  | MAdd (p : Principal) (workspaceID userID : string) (role : Role)
  | MUpdateRole (p : Principal) (workspaceID userID : string) (role : Role)
  | MRemove (p : Principal) (workspaceID userID : string)
  | MSuspend (p : Principal) (workspaceID userID : string)
  | MReinstate (p : Principal) (workspaceID userID : string)
  | MAccept (p : Principal) (token : string)
  | MTransfer (p : Principal) (workspaceID newOwnerID : string).

Definition void {A} (P : Prog A) : Prog unit := dop P in pret tt.

Definition program (req : memberRequest) : Prog unit :=
  match req with
  | MAdd p ws u r => void (AddMember p ws u r)
  | MUpdateRole p ws u r => void (UpdateMemberRole p ws u r)
  | MRemove p ws u => RemoveMember p ws u
  | MSuspend p ws u => void (SuspendMember p ws u)
  | MReinstate p ws u => void (ReinstateMember p ws u)
  | MAccept p tok => void (AcceptInvitation p tok)
  | MTransfer p ws u => void (TransferOwnership p ws u)
  end.
End Requests.

(** ** A request alone *)
Lemma runAlone_then {A B} (P : Prog A) (k : result A -> Prog B) w :
  runAlone (pthen P k) w = let '(r, w') := runAlone P w in runAlone (k r) w'.
Proof.
  revert w. induction P as [r|C c k' IH|C c k' IH]; intros w; simpl; [done| |].
  - destruct (repo c w) as [r w']. apply IH.
  - destruct (c w) as [r w']. apply IH.
Qed.

Lemma runAlone_bind {A B} (P : Prog A) (k : A -> Prog B) w :
  runAlone (pbind P k) w = bind (runAlone P) (fun a => runAlone (k a)) w.
Proof. unfold pbind, bind. rewrite runAlone_then. by destruct (runAlone P w) as [[a|e] w']. Qed.

Lemma runAlone_tried {A} (P : Prog A) w : runAlone (tried P) w = attempt (runAlone P) w.
Proof. unfold tried, attempt. rewrite runAlone_then. by destruct (runAlone P w). Qed.

Lemma runAlone_call {A} (c : St Store A) w : runAlone (call c) w = repo c w.
Proof. simpl. by destruct (repo c w). Qed.
Lemma runAlone_ask {A} (c : St World A) w : runAlone (ask c) w = c w.
Proof. simpl. by destruct (c w). Qed.
Lemma runAlone_guard b e w : runAlone (pguard b e) w = guard b e w.
Proof. by destruct b. Qed.

Lemma bind_ext {S A B} (c c' : St S A) (k k' : A -> St S B) s :
  c s = c' s -> (forall a s, k a s = k' a s) -> bind c k s = bind c' k' s.
Proof. intros Hc Hk. unfold bind. rewrite Hc. by destruct (c' s) as [[a|e] s']. Qed.

Ltac alone :=
  repeat first
    [ progress cbv zeta
    | rewrite runAlone_bind; apply bind_ext; [|intros ? ?]
    | rewrite runAlone_tried; unfold attempt
    | rewrite runAlone_call | rewrite runAlone_ask | rewrite runAlone_guard
    | case_match
    | done ].

(** The programs are the requests: run without interruption, each program of
    repository calls and readings gives the answer and the world of the definition
    it refines. *)
Theorem run_alone `{Sources} `{MapRange} `{TextParsers} svc p ws u role token w :
  runAlone (AddMember svc p ws u role) w = ServiceWorkspaces.AddMember svc p ws u role w /\
  runAlone (UpdateMemberRole svc p ws u role) w = ServiceWorkspaces.UpdateMemberRole svc p ws u role w /\
  runAlone (RemoveMember svc p ws u) w = ServiceWorkspaces.RemoveMember svc p ws u w /\
  runAlone (SuspendMember svc p ws u) w = ServiceWorkspaces.SuspendMember svc p ws u w /\
  runAlone (ReinstateMember svc p ws u) w = ServiceWorkspaces.ReinstateMember svc p ws u w /\
  runAlone (AcceptInvitation svc p token) w = ServiceWorkspaces.AcceptInvitation svc p token w /\
  runAlone (TransferOwnership svc p ws u) w = ServiceWorkspaces.TransferOwnership svc p ws u w.
Proof.
  assert (Hreq : forall rel w, runAlone (requireWorkspace svc p ws rel) w = Service.requireWorkspace svc p ws rel w).
  { intros. unfold requireWorkspace, Service.requireWorkspace. alone. }
  assert (Hput : forall ws u role w, runAlone (putMember svc p ws u role) w = ServiceWorkspaces.putMember svc p ws u role w).
  { intros. unfold putMember, ServiceWorkspaces.putMember. alone. }
  split_and!.
  - unfold AddMember, ServiceWorkspaces.AddMember. alone; auto.
  - unfold UpdateMemberRole, ServiceWorkspaces.UpdateMemberRole. alone; auto.
  - unfold RemoveMember, ServiceWorkspaces.RemoveMember. alone; auto.
  - unfold SuspendMember, ServiceWorkspaces.SuspendMember. alone; auto.
  - unfold ReinstateMember, ServiceWorkspaces.ReinstateMember. alone; auto.
  - unfold AcceptInvitation, ServiceWorkspaces.AcceptInvitation. alone; auto.
  - unfold TransferOwnership, ServiceWorkspaces.TransferOwnership. alone; auto.
Qed.

(** ** Interleavings *)
Abbreviation thread := (memberRequest * Prog unit)%type.
Abbreviation config := (list thread * Store)%type.

Definition finished (P : Prog unit) : Prop := match P with Done _ => True | _ => False end.

(** One step of a program: a repository call acts at once, a reading may answer
    anything. *)
Definition pstep (P : Prog unit) (s : Store) (P' : Prog unit) (s' : Store) : Prop :=
  match P with
  | Done _ => False
  | Call c k => P' = k (c s).1 /\ s' = (c s).2
  | Ask c k => s' = s /\ exists r, P' = k r
  end.

(** A request starts when it [may], and any thread takes the next step. *)
Inductive sched `{Sources} `{MapRange} `{TextParsers} (svc : ServiceConfig)
    (may : list thread -> memberRequest -> Prop) : config -> config -> Prop :=
  | SchedGo ts s req : may ts req -> sched svc may (ts, s) (ts ++ [(req, program svc req)], s)
  | SchedStep ts s i req P P' s' :
      ts !! i = Some (req, P) -> pstep P s P' s' -> sched svc may (ts, s) (<[i := (req, P')]> ts, s').

(** Schedules that run: the readings see one instant of the world. *)
Definition execStep (i : nat) (st : list thread * World) : list thread * World :=
  let '(ts, w) := st in
  match ts !! i with
  | None | Some (_, Done _) => (ts, w)
  | Some (req, Call c k) => let '(r, w') := repo c w in (<[i := (req, k r)]> ts, w')
  | Some (req, Ask c k) => let '(r, w') := c w in (<[i := (req, k r)]> ts, w')
  end.
Definition runSchedule (picks : list nat) (st : list thread * World) : list thread * World := foldl (fun st i => execStep i st) st picks.

(** The readings of a program leave the repository as it is. *)
Fixpoint readsOnly {A} (P : Prog A) : Prop :=
  match P with
  | Done _ => True
  | Call _ k => forall r, readsOnly (k r)
  | Ask c k => (forall w, w_repo (c w).2 = w_repo w) /\ forall r, readsOnly (k r)
  end.

Lemma readsOnly_bind {A B} (P : Prog A) (k : A -> Prog B) : readsOnly P -> (forall a, readsOnly (k a)) -> readsOnly (pbind P k).
Proof. intros HP Hk. unfold pbind. induction P as [[a|e]|C c k' IH|C c k' IH]; simpl in *; [apply Hk|done|naive_solver..]. Qed.
Lemma readsOnly_tried {A} (P : Prog A) : readsOnly P -> readsOnly (tried P).
Proof. unfold tried. induction P as [r|C c k' IH|C c k' IH]; simpl; naive_solver. Qed.
Lemma readsOnly_guard b e : readsOnly (pguard b e).
Proof. by destruct b. Qed.
Lemma readsOnly_ask {A} (c : St World A) `{Reads A c} : readsOnly (ask c).
Proof. split; [exact reads_repo|done]. Qed.

Ltac readsOnly :=
  repeat first
    [ progress cbv zeta
    | done
    | apply readsOnly_bind; [|intros ?]
    | apply readsOnly_tried
    | apply readsOnly_guard
    | apply readsOnly_ask; apply _
    | case_match ].

Lemma program_readsOnly `{Sources} `{MapRange} `{TextParsers} svc req : readsOnly (program svc req).
Proof.
  destruct req; unfold program, void, AddMember, UpdateMemberRole, RemoveMember, SuspendMember, ReinstateMember, AcceptInvitation,
    TransferOwnership, requireWorkspace, putMember; readsOnly.
Qed.

(** What runs is one of the interleavings. *)
Lemma execStep_sched `{Sources} `{MapRange} `{TextParsers} svc may i ts w :
  Forall (fun t => readsOnly t.2) ts ->
  rtc (sched svc may) (ts, w_repo w) ((execStep i (ts, w)).1, w_repo (execStep i (ts, w)).2) /\
  Forall (fun t => readsOnly t.2) (execStep i (ts, w)).1.
Proof.
  intros Hts. unfold execStep. destruct (ts !! i) as [[req P]|] eqn:Hi; simpl; [|split; [apply rtc_refl|done]].
  pose proof (Forall_lookup_1 _ _ _ _ Hts Hi) as HP. simpl in HP. destruct P as [r|B c k|B c k]; simpl; [split; [apply rtc_refl|done]| |].
  - unfold repo. destruct (c (w_repo w)) as [r s'] eqn:Hc. simpl in *. split; [|apply Forall_insert; [done|apply HP]].
    apply rtc_once. eapply SchedStep; [done|]. simpl. by rewrite Hc.
  - destruct HP as [Hr Hk]. specialize (Hr w). destruct (c w) as [r w'] eqn:Hc. simpl in *. split; [|apply Forall_insert; [done|apply Hk]].
    apply rtc_once. eapply SchedStep; [done|]. simpl. eauto.
Qed.

Lemma runSchedule_sched `{Sources} `{MapRange} `{TextParsers} svc may picks ts w :
  Forall (fun t => readsOnly t.2) ts ->
  rtc (sched svc may) (ts, w_repo w) ((runSchedule picks (ts, w)).1, w_repo (runSchedule picks (ts, w)).2).
Proof.
  revert ts w. induction picks as [|i picks IH]; intros ts w Hts; [apply rtc_refl|].
  change (runSchedule (i :: picks) (ts, w)) with (runSchedule picks (execStep i (ts, w))).
  destruct (execStep_sched svc may i ts w Hts) as [Hs Hts']. destruct (execStep i (ts, w)) as [ts' w']. etrans; [exact Hs|]. by apply IH.
Qed.

(** Requests that have all started. *)
Definition started `{Sources} `{MapRange} `{TextParsers} (svc : ServiceConfig) (reqs : list memberRequest) : list thread :=
  (fun req => (req, program svc req)) <$> reqs.

Lemma started_sched `{Sources} `{MapRange} `{TextParsers} svc may reqs s :
  (forall before req after, reqs = before ++ req :: after -> may (started svc before) req) ->
  rtc (sched svc may) ([], s) (started svc reqs, s).
Proof.
  induction reqs as [|req reqs IH] using rev_ind; intros Hmay; [apply rtc_refl|]. eapply rtc_r.
  - apply IH. intros before req' after ->. eapply (Hmay before req' (after ++ [req])). by rewrite <-app_assoc.
  - unfold started. rewrite fmap_app. by eapply SchedGo, Hmay.
Qed.

Lemma schedule_reaches `{Sources} `{MapRange} `{TextParsers} svc may reqs picks w :
  (forall before req after, reqs = before ++ req :: after -> may (started svc before) req) ->
  rtc (sched svc may) ([], w_repo w)
    ((runSchedule picks (started svc reqs, w)).1, w_repo (runSchedule picks (started svc reqs, w)).2).
Proof.
  intros Hmay. etrans; [by apply started_sched|]. apply runSchedule_sched. apply Forall_fmap, Forall_true. intros req. apply program_readsOnly.
Qed.

(** ** Rely and guarantee

    [J v s] is what a program relies on between its steps, with [v] what it has
    seen; [F s s'] what each of its steps guarantees to the others. *)
Section Wp.
Context {V : Type} (J : V -> Store -> Prop) (F : Store -> Store -> Prop).

Fixpoint wpg {A} (P : Prog A) (v : V) (Q : result A -> V -> Prop) : Prop :=
  match P with
  | Done r => Q r v
  | Call c k => forall s, J v s -> exists v', J v' (c s).2 /\ F s (c s).2 /\ wpg (k (c s).1) v' Q
  | Ask c k => forall r, wpg (k r) v Q
  end.

Lemma wpg_then {A B} (P : Prog A) (k : result A -> Prog B) v Q : wpg P v (fun r v' => wpg (k r) v' Q) -> wpg (pthen P k) v Q.
Proof.
  revert v. induction P as [r|C c k' IH|C c k' IH]; intros v; simpl; [done| |auto].
  intros Hw s Hs. destruct (Hw s Hs) as (v' & ? & ? & ?). eauto.
Qed.

Lemma wpg_mono {A} (P : Prog A) v (Q Q' : result A -> V -> Prop) : (forall r v, Q r v -> Q' r v) -> wpg P v Q -> wpg P v Q'.
Proof.
  intros HQ. revert v. induction P as [r|C c k IH|C c k IH]; intros v; simpl; [auto| |eauto].
  intros Hw s Hs. destruct (Hw s Hs) as (v' & ? & ? & ?). eauto 10.
Qed.

Lemma wpg_bind {A B} (P : Prog A) (k : A -> Prog B) v (Q : result B -> V -> Prop) :
  wpg P v (fun r v' => match r with Ok a => wpg (k a) v' Q | Err e => Q (Err e) v' end) -> wpg (pbind P k) v Q.
Proof. intros HP. apply wpg_then. eapply wpg_mono; [|exact HP]. by intros []. Qed.

Lemma wpg_guard b e v (Q : result unit -> V -> Prop) : (b = true -> Q (Ok tt) v) -> (b = false -> Q (Err e) v) -> wpg (pguard b e) v Q.
Proof. destruct b; simpl; auto. Qed.

Lemma wpg_ask {A} (c : St World A) v (Q : result A -> V -> Prop) : (forall r, Q r v) -> wpg (ask c) v Q.
Proof. done. Qed.
End Wp.

(** Threads whose guarantees keep what the others rely on keep what they all imply. *)
Section Sound.
Context `{Sources} `{MapRange} `{TextParsers} (svc : ServiceConfig) (may : list thread -> memberRequest -> Prop).
Context {V : Type} (J : memberRequest -> V -> Store -> Prop) (F : memberRequest -> Store -> Store -> Prop) (G : Store -> Prop).
Context (clash : memberRequest -> memberRequest -> Prop).
Hypothesis J_good : forall req v s, J req v s -> G s.
Hypothesis J_start : forall ts req s, may ts req -> G s -> exists v, J req v s /\ wpg (J req) (F req) (program svc req) v (fun _ _ => True).
Hypothesis J_stable : forall req req' v' s s', ~ clash req req' -> F req s s' -> G s' -> J req' v' s -> J req' v' s'.
Hypothesis may_apart : forall ts req, may ts req ->
  Forall (fun t => finished t.2 \/ ~ clash req t.1 /\ ~ clash t.1 req) ts.

Record together (ts : list thread) (s : Store) : Prop := mkTogether {
  tg_good : G s;
  tg_threads : forall i req P, ts !! i = Some (req, P) ->
    finished P \/ exists v, J req v s /\ wpg (J req) (F req) P v (fun _ _ => True);
  tg_apart : forall i j req req' P P', i <> j -> ts !! i = Some (req, P) -> ts !! j = Some (req', P') ->
    finished P \/ finished P' \/ ~ clash req req';
}.

Lemma together_nil s : G s -> together [] s.
Proof. intros Hg. by split. Qed.

Lemma together_go ts s req : together ts s -> may ts req -> together (ts ++ [(req, program svc req)]) s.
Proof.
  intros [Hg Ht Ha] Hm. pose proof (may_apart _ _ Hm) as Hap. split; [done| |].
  - intros i req' P [Hi|[_ [_ Hi]%list_lookup_singleton_Some]]%lookup_app_Some; [by apply (Ht i)|]. injection Hi as <- <-. right. by apply (J_start ts).
  - intros i j r1 r2 P1 P2 Hij [Hi1|[L1 [N1 E1]%list_lookup_singleton_Some]]%lookup_app_Some
      [Hi2|[L2 [N2 E2]%list_lookup_singleton_Some]]%lookup_app_Some.
    + by apply (Ha i j).
    + injection E2 as <- <-. destruct (Forall_lookup_1 _ _ _ _ Hap Hi1) as [?|[_ ?]]; auto.
    + injection E1 as <- <-. destruct (Forall_lookup_1 _ _ _ _ Hap Hi2) as [?|[? _]]; auto.
    + lia.
Qed.

Lemma together_step ts s i req P P' s' :
  together ts s -> ts !! i = Some (req, P) -> pstep P s P' s' -> together (<[i := (req, P')]> ts) s'.
Proof.
  intros [Hg Ht Ha] Hi Hst. pose proof (lookup_lt_Some _ _ _ Hi) as Hlt.
  destruct (Ht i req P Hi) as [Hfin|(v & Hj & Hw)]; [by destruct P|].
  assert (Hnew : exists v', J req v' s' /\ (s' = s \/ F req s s') /\ wpg (J req) (F req) P' v' (fun _ _ => True)).
  { destruct P as [r|B c k|B c k]; simpl in *; [done| |].
    - destruct Hst as [-> ->]. destruct (Hw s Hj) as (v' & ? & ? & ?). eauto 10.
    - destruct Hst as [-> [r ->]]. eauto 10. }
  destruct Hnew as (v' & Hj' & Hf & Hw').
  assert (Hunfin : ~ finished P) by (intros Hfin; by destruct P). assert (Hg' : G s') by by eapply J_good. split; [done| |].
  - intros j req' Q. destruct (decide (j = i)) as [->|Hne].
    + rewrite list_lookup_insert_eq by done. intros [= <- <-]. right. eauto.
    + rewrite list_lookup_insert_ne by done. intros Hj2. destruct (Ht j req' Q Hj2) as [?|(u & Hju & Hwu)]; [by left|].
      destruct (Ha i j req req' P Q) as [?|[?|Hcl]]; [done..|by left|]. right. exists u. split; [|done].
      destruct Hf as [->|Hf]; [done|]. by eapply J_stable.
  - intros j1 j2 r1 r2 Q1 Q2 Hne. rewrite !list_lookup_insert_Some.
    intros [(<- & [= <- <-] & _)|[N1 Hi1]] [(<- & [= <- <-] & _)|[N2 Hi2]]; [done| | |by apply (Ha j1 j2)].
    + destruct (Ha i j2 req r2 P Q2) as [?|[?|?]]; auto.
    + destruct (Ha j1 i r1 req Q1 P) as [?|[?|?]]; auto.
Qed.

Lemma together_reachable c c' : rtc (sched svc may) c c' -> together c.1 c.2 -> together c'.1 c'.2.
Proof.
  induction 1 as [|c1 c2 c3 Hs _ IH]; [done|]. intros Hc. apply IH. destruct Hs; simpl in *; [by apply together_go|by eapply together_step].
Qed.
End Sound.
