(* ===== verification/Races.v ===== *)
(** * What concurrent requests keep, and what they break

    In every interleaving of requests that change members and accept invitations,
    an active row has its role tuple, the owner of a workspace keeps the row and the
    tuple, and nobody else becomes one ([raceInv]).  When no two requests on the
    same member overlap, the whole invariant between rows and tuples holds all the
    time.  While ownership is handed over too, one transfer of a workspace at a
    time, somebody always holds the owner's tuple.  Examples run the overlaps that
    break these. *)

From stdpp Require Import base gmap strings list relations.
From Stdlib Require Import ZArith Lia.
From S2P Require Import Prelude Conditions Model Types Text Engine Memory MemoryKeys MemoryTheorems Service ServiceWorkspaces ServiceFrame.
From S2P Require Import ModelJson EngineTheorems ModelJsonTheorems Token Requests WorkspaceInv WorkspaceSteps WorkspaceOps WorkspaceTheorems Samples ServiceTheorems Interleave.
#[local] Open Scope Z_scope.

(** ** Any interleaving *)
Section Any.
Context (s0 : Store) (Hs0 : wsInv s0).

Definition ownerOf (sk ws u : string) : Prop := exists W, wsAt s0 sk ws = Some W /\ u = w_OwnerUserID W.

Record raceInv (s : Store) : Prop := mkRaceInv {
  ri_ws : workspaces s = workspaces s0;
  ri_key : forall sk ws u m, rowAt s sk ws u = Some m ->
    mb_WorkspaceID m = ws /\ mb_UserID m = u /\ scope (mb_ProjectID m) (mb_TenantID m) = sk;
  ri_active : forall sk ws u m, rowAt s sk ws u = Some m -> mb_Status m = StatusActive -> hasRole s sk ws (mb_Role m) u;
  ri_owner : forall sk ws u, ownerOf sk ws u -> rowAt s sk ws u = rowAt s0 sk ws u /\ hasRole s sk ws RoleOwner u;
  ri_row : forall sk ws u m, rowAt s sk ws u = Some m -> mb_Role m = RoleOwner -> ownerOf sk ws u;
  ri_role : forall sk ws u, hasRole s sk ws RoleOwner u -> ownerOf sk ws u;
  ri_inv : forall sk id i, invAt s sk id = Some i -> grantableRole (inv_Role i) = true;
}.

Lemma owner_row sk ws u : ownerOf sk ws u -> exists m, rowAt s0 sk ws u = Some m /\ mb_Role m = RoleOwner /\ mb_Status m = StatusActive.
Proof. intros (W & HW & ->). by destruct (stored_ws s0 Hs0 _ _ _ HW) as (_ & _ & ?). Qed.

Lemma raceInv_start : raceInv s0.
Proof.
  split; try done.
  - intros sk ws u m Hm. destruct (stored_row s0 Hs0 _ _ _ _ Hm) as (W & _ & ? & ? & ? & _). auto.
  - intros sk ws u m Hm Ha. apply (stored_role s0 Hs0). eauto.
  - intros sk ws u Ho. split; [done|]. apply (stored_role s0 Hs0). by apply owner_row.
  - intros sk ws u m Hm Hr. destruct (stored_row s0 Hs0 _ _ _ _ Hm) as (W & HW & _ & _ & _ & _ & [Ho _] & _). exists W. auto.
  - intros sk ws u (m & Hm & Hr & _)%(stored_role s0 Hs0).
    destruct (stored_row s0 Hs0 _ _ _ _ Hm) as (W & HW & _ & _ & _ & _ & [Ho _] & _). exists W. auto.
  - intros sk id i Hi. apply (wi_inv s0 Hs0 _ _ _ Hi).
Qed.

(** Who is seen with another role than owner, suspended, or without a row is not
    the owner, and will not be. *)
Lemma not_owner s sk ws u :
  raceInv s ->
  match rowAt s sk ws u with None => True | Some m => mb_Role m <> RoleOwner \/ mb_Status m = StatusSuspended end ->
  ~ ownerOf sk ws u.
Proof.
  intros Hs Hu Ho. destruct (ri_owner s Hs _ _ _ Ho) as [Hr _]. destruct (owner_row _ _ _ Ho) as (m & Hm & Hrole & Hst).
  rewrite Hr, Hm, Hst in Hu. by destruct Hu.
Qed.

(** A change at one member who is not the owner. *)
Lemma raceInv_at s s' sk ws u :
  raceInv s -> ~ ownerOf sk ws u ->
  workspaces s' = workspaces s -> invitations s' = invitations s ->
  (forall sk' ws' v, (sk', ws', v) <> (sk, ws, u) ->
     rowAt s' sk' ws' v = rowAt s sk' ws' v /\ forall r, hasRole s' sk' ws' r v <-> hasRole s sk' ws' r v) ->
  ~ hasRole s' sk ws RoleOwner u ->
  (forall m, rowAt s' sk ws u = Some m ->
     (mb_WorkspaceID m = ws /\ mb_UserID m = u /\ scope (mb_ProjectID m) (mb_TenantID m) = sk) /\ mb_Role m <> RoleOwner /\
     (mb_Status m = StatusActive -> hasRole s' sk ws (mb_Role m) u)) ->
  raceInv s'.
Proof.
  intros Hs Hno Hw Hi Hoth Hnr Hat.
  assert (Hcase : forall sk' ws' v, (sk', ws', v) = (sk, ws, u) \/
    (rowAt s' sk' ws' v = rowAt s sk' ws' v /\ forall r, hasRole s' sk' ws' r v <-> hasRole s sk' ws' r v)).
  { intros sk' ws' v. destruct (decide ((sk', ws', v) = (sk, ws, u))); auto. }
  split.
  - rewrite Hw. apply Hs.
  - intros sk' ws' v m. destruct (Hcase sk' ws' v) as [[= -> -> ->]|[-> _]]; [by intros [? _]%Hat|apply Hs].
  - intros sk' ws' v m. destruct (Hcase sk' ws' v) as [[= -> -> ->]|[-> Hr]]; [by intros (_ & _ & ?)%Hat|]. rewrite Hr. apply Hs.
  - intros sk' ws' v Ho. destruct (Hcase sk' ws' v) as [[= -> -> ->]|[-> Hr]]; [done|]. rewrite Hr. by apply Hs.
  - intros sk' ws' v m. destruct (Hcase sk' ws' v) as [[= -> -> ->]|[-> _]]; [by intros (_ & ? & _)%Hat|apply Hs].
  - intros sk' ws' v. destruct (Hcase sk' ws' v) as [[= -> -> ->]|[_ Hr]]; [done|]. rewrite Hr. apply Hs.
  - intros sk' id i. unfold invAt. rewrite Hi. apply Hs.
Qed.

(** A row is written with role tuples of its user. *)
Lemma raceInv_put s m Ri Rd :
  let sk := scope (mb_ProjectID m) (mb_TenantID m) in
  let tuple r := roleTuple (mb_WorkspaceID m) r (mb_UserID m) in
  raceInv s -> ~ ownerOf sk (mb_WorkspaceID m) (mb_UserID m) -> mb_Role m <> RoleOwner -> RoleOwner ∉ Ri ->
  (mb_Status m = StatusActive -> mb_Role m ∈ Ri) ->
  raceInv (writeTuplesLocked (mb_ProjectID m) (mb_TenantID m) (tuple <$> Ri) (tuple <$> Rd) (putMembershipLocked m s)).
Proof.
  intros sk tuple Hs Hno Hrole Hri Hact.
  assert (Hself : forall r, hasRole (writeTuplesLocked (mb_ProjectID m) (mb_TenantID m) (tuple <$> Ri) (tuple <$> Rd) (putMembershipLocked m s))
            sk (mb_WorkspaceID m) r (mb_UserID m) <-> r ∈ Ri \/ (r ∉ Rd) /\ hasRole s sk (mb_WorkspaceID m) r (mb_UserID m)).
  { intros r. apply (hasRole_write_self _ _ _ _ (putMembershipLocked m s) _ _ r Ri Rd eq_refl eq_refl). }
  eapply (raceInv_at s _ sk (mb_WorkspaceID m) (mb_UserID m)); [done|done|done|done| | |].
  - intros sk' ws' v Hne. split; [rewrite putRow_row, decide_False by naive_solver; done|].
    intros r. apply putRow_role; [apply rolesOf_fmap..|done].
  - rewrite Hself. intros [?|[_ Hh]]; [done|]. by apply Hno, (ri_role s Hs).
  - intros m'. rewrite putRow_row, decide_True by done. intros [= <-]. rewrite Hself. auto.
Qed.

(** A row is deleted with a role tuple. *)
Lemma raceInv_delete s p t ws u r :
  raceInv s -> ~ ownerOf (scope p t) ws u -> r <> RoleOwner ->
  raceInv (DeleteMembershipAndTuples p t ws u [roleTuple ws r u] s).2.
Proof.
  intros Hs Hno Hr. unfold DeleteMembershipAndTuples, deleteMembershipLocked, bind. destruct (membershipRow s p t ws u) as [m0|]; [|done]. simpl.
  set (s1 := set_memberships _ s).
  eapply (raceInv_at s _ (scope p t) ws u); [done|done|done|done| | |].
  - intros sk' ws' v Hne. split.
    + transitivity (rowAt s1 sk' ws' v); [done|]. unfold rowAt, s1. simpl. rewrite lookup_del3, decide_False by naive_solver. done.
    + intros r'. by apply (hasRole_write_user p t [] [roleTuple ws r u] s1 sk' ws u r'); auto with go.
  - intros Hh. apply (hasRole_write_self p t [] [_] s1 ws u RoleOwner [] [r] eq_refl eq_refl) in Hh as [Hh|[_ Hh]];
      [by apply not_elem_of_nil in Hh|]. by apply Hno, (ri_role s Hs).
  - intros m. assert (rowAt s1 (scope p t) ws u = None) as Hn.
    { unfold rowAt, s1. simpl. by rewrite lookup_del3, decide_True. }
    change (rowAt (writeTuplesLocked p t [] [roleTuple ws r u] s1) (scope p t) ws u) with (rowAt s1 (scope p t) ws u). by rewrite Hn.
Qed.

Lemma raceInv_invitation s inv status :
  raceInv s -> grantableRole (inv_Role inv) = true -> raceInv (UpdateInvitation (invitationWith inv status) s).2.
Proof.
  intros Hs Hg. unfold UpdateInvitation. destruct (_ !! _) as [i0|]; [|done]. simpl. destruct Hs. split; try done.
  intros sk id i. unfold invAt. simpl. rewrite lookup_put2. case_decide; [by intros [= <-]|eauto].
Qed.

(** *** The programs *)
#[local] Arguments wpg : simpl never.
#[local] Arguments pbind : simpl never.

Section Programs.
Context `{Sources} `{MapRange} `{TextParsers} (svc : ServiceConfig).
#[local] Abbreviation wp := (wpg (fun (_ : unit) => raceInv) (fun _ _ => True)).

Lemma wp_call {A} (c : St Store A) (Q : result A -> unit -> Prop) :
  (forall s, raceInv s -> raceInv (c s).2 /\ Q (c s).1 tt) -> wp (call c) tt Q.
Proof. intros Hc s Hs. exists tt. destruct (Hc s Hs). simpl. auto. Qed.

Lemma wp_require p ws rel (Q : result Workspace -> unit -> Prop) : (forall r, Q r tt) -> wp (requireWorkspace svc p ws rel) tt Q.
Proof.
  intros HQ. apply wpg_bind, wp_call. intros s Hs. unfold Memory.GetWorkspace. destruct (_ !! _); simpl; [|auto]. split; [done|].
  apply wpg_bind, wpg_ask. intros [[]|]; apply HQ.
Qed.

(** What a look at a member's row tells for good. *)
Lemma wp_look p ws u (Q : result Membership -> unit -> Prop) :
  (~ ownerOf (scope (pr_ProjectID p) (pr_TenantID p)) ws u -> Q (Err ErrNotFound) tt) ->
  (forall m, mb_WorkspaceID m = ws -> mb_UserID m = u ->
     scope (mb_ProjectID m) (mb_TenantID m) = scope (pr_ProjectID p) (pr_TenantID p) ->
     (mb_Role m <> RoleOwner \/ mb_Status m = StatusSuspended ->
      ~ ownerOf (scope (pr_ProjectID p) (pr_TenantID p)) ws u /\ mb_Role m <> RoleOwner) -> Q (Ok m) tt) ->
  wp (call (GetMembership (pr_ProjectID p) (pr_TenantID p) ws u)) tt Q.
Proof.
  intros Hnone Hsome. apply wp_call. intros s Hs. unfold GetMembership, membershipRow.
  pose proof (not_owner s (scope (pr_ProjectID p) (pr_TenantID p)) ws u Hs) as Hno.
  destruct (rowAt s (scope (pr_ProjectID p) (pr_TenantID p)) ws u) as [m|] eqn:Hm; unfold rowAt in Hm; rewrite Hm; simpl; (split; [done|]).
  - destruct (ri_key s Hs _ _ _ _ Hm) as (? & ? & ?). apply Hsome; [done..|]. intros Hn. specialize (Hno Hn). split; [done|].
    intros Hr. by apply Hno, (ri_row s Hs _ _ _ _ Hm).
  - by apply Hnone, Hno.
Qed.

Lemma wp_put m Ri Rd ins del (Q : result unit -> unit -> Prop) :
  ins = (fun r => roleTuple (mb_WorkspaceID m) r (mb_UserID m)) <$> Ri -> del = (fun r => roleTuple (mb_WorkspaceID m) r (mb_UserID m)) <$> Rd ->
  ~ ownerOf (scope (mb_ProjectID m) (mb_TenantID m)) (mb_WorkspaceID m) (mb_UserID m) -> mb_Role m <> RoleOwner -> RoleOwner ∉ Ri ->
  (mb_Status m = StatusActive -> mb_Role m ∈ Ri) -> Q (Ok tt) tt -> wp (call (PutMembershipAndTuples m ins del)) tt Q.
Proof. intros -> -> Hno Hr Hi Ha HQ. apply wp_call. intros s Hs. split; [|done]. by apply raceInv_put. Qed.

Lemma grantable_ne role : grantableRole role = true -> role <> RoleOwner.
Proof. unfold grantableRole. rewrite andb_true_iff, negb_true_iff, String.eqb_neq. tauto. Qed.

Lemma wp_putMember p ws u role (Q : result Membership -> unit -> Prop) :
  grantableRole role = true -> ~ ownerOf (scope (pr_ProjectID p) (pr_TenantID p)) ws u -> (forall r, Q r tt) ->
  wp (putMember svc p ws u role) tt Q.
Proof.
  intros Hg%grantable_ne Hno HQ. apply wpg_bind, wpg_ask. intros [[]|]; [|auto]. apply wpg_bind, wpg_ask. intros [t|]; [|auto]. apply wpg_bind.
  apply (wp_put _ [role] []); [done..|set_solver|set_solver|apply HQ].
Qed.

(** The next guard or reading of a program, whose failure ends it. *)
#[local] Ltac wstep HQ :=
  apply wpg_bind;
  first
    [ apply wpg_guard; [intros ?|intros _; apply HQ]
    | apply wp_require; intros [?|?]; [|apply HQ]
    | apply wpg_ask; intros [?|?]; [|apply HQ] ].

Lemma wp_AddMember p ws u role Q : (forall r, Q r tt) -> wp (AddMember svc p ws u role) tt Q.
Proof.
  intros HQ. wstep HQ. wstep HQ. wstep HQ. wstep HQ. apply wpg_bind, wpg_then, wp_look; [|intros; apply HQ].
  intros Hno. by apply wp_putMember.
Qed.

Lemma wp_UpdateMemberRole p ws u role Q : (forall r, Q r tt) -> wp (UpdateMemberRole svc p ws u role) tt Q.
Proof.
  intros HQ. apply wpg_bind, wpg_guard; [intros Hg%grantable_ne|intros _; apply HQ]. wstep HQ. apply wpg_bind, wp_look; [intros; apply HQ|].
  intros m <- <- Hsk Hno. apply wpg_bind, wpg_guard; [intros Hr%negb_true_iff%String.eqb_neq|intros _; apply HQ]. wstep HQ.
  destruct (String.eqb_spec (mb_Role m) role); [apply HQ|]. wstep HQ. apply wpg_bind.
  destruct (Hno (or_introl Hr)) as [Ho _]. rewrite <-Hsk in Ho.
  apply (wp_put (membershipWith m role (mb_Status m) _) [role] [mb_Role m]); [done..|set_solver|set_solver|apply HQ].
Qed.

Lemma wp_RemoveMember p ws u Q : (forall r, Q r tt) -> wp (RemoveMember svc p ws u) tt Q.
Proof.
  intros HQ. wstep HQ. apply wpg_bind, wp_look; [intros; apply HQ|].
  intros m <- <- Hsk Hno. apply wpg_bind, wpg_guard; [intros Hr%negb_true_iff%String.eqb_neq|intros _; apply HQ].
  destruct (Hno (or_introl Hr)) as [Ho _]. apply wp_call. intros s Hs. split; [by apply raceInv_delete|apply HQ].
Qed.

Lemma wp_SuspendMember p ws u Q : (forall r, Q r tt) -> wp (SuspendMember svc p ws u) tt Q.
Proof.
  intros HQ. wstep HQ. apply wpg_bind, wp_look; [intros; apply HQ|].
  intros m <- <- Hsk Hno. apply wpg_bind, wpg_guard; [intros Hr%negb_true_iff%String.eqb_neq|intros _; apply HQ].
  destruct (String.eqb _ _); [apply HQ|]. wstep HQ. apply wpg_bind.
  destruct (Hno (or_introl Hr)) as [Ho _]. rewrite <-Hsk in Ho.
  apply (wp_put (membershipWith m (mb_Role m) StatusSuspended _) [] [mb_Role m]); [done..|set_solver|done|apply HQ].
Qed.

Lemma wp_ReinstateMember p ws u Q : (forall r, Q r tt) -> wp (ReinstateMember svc p ws u) tt Q.
Proof.
  intros HQ. wstep HQ. apply wpg_bind, wp_look; [intros; apply HQ|]. intros m <- <- Hsk Hno.
  destruct (String.eqb_spec (mb_Status m) StatusSuspended) as [Hst|]; [|apply HQ]. simpl. wstep HQ. apply wpg_bind.
  destruct (Hno (or_intror Hst)) as [Ho Hr]. rewrite <-Hsk in Ho.
  apply (wp_put (membershipWith m (mb_Role m) StatusActive _) [mb_Role m] []); [done..|set_solver|set_solver|apply HQ].
Qed.

Lemma wp_AcceptInvitation p token Q : (forall r, Q r tt) -> wp (AcceptInvitation svc p token) tt Q.
Proof.
  intros HQ. wstep HQ. apply wpg_bind, wp_call. intros s Hs. unfold GetInvitationByTokenHash.
  destruct (List.find _ _) as [inv|] eqn:Hf; simpl; (split; [done|]); [|apply HQ].
  assert (Hg : grantableRole (inv_Role inv) = true).
  { apply List.find_some in Hf as [Hin _]. apply list_elem_of_In, elem_of_rangeValues in Hin as [id Hi]. exact (ri_inv s Hs _ _ _ Hi). }
  assert (Hup : forall status (Q' : result unit -> unit -> Prop), (forall r, Q' r tt) -> wp (call (UpdateInvitation (invitationWith inv status))) tt Q').
  { intros status Q' HQ'. apply wp_call. intros s' Hs'. split; [by apply raceInv_invitation|apply HQ']. }
  wstep HQ. wstep HQ. destruct (_ <? _); [apply wpg_bind, wpg_then, Hup; intros r; apply HQ|].
  apply wpg_bind, wpg_then, wp_look; [|intros m _ _ _ _; apply wpg_bind, Hup; intros []; apply HQ].
  intros Hno. apply wpg_bind, wp_putMember; [done..|]. intros [m|]; [|apply HQ]. apply wpg_bind, Hup. intros []; apply HQ.
Qed.

Definition noTransfer (req : memberRequest) : Prop := match req with MTransfer _ _ _ => False | _ => True end.

Lemma wp_program req : noTransfer req -> wp (program svc req) tt (fun _ _ => True).
Proof.
  destruct req; intros Hreq; [| | | | | |done].
  - apply wpg_bind, wp_AddMember. by intros [].
  - apply wpg_bind, wp_UpdateMemberRole. by intros [].
  - by apply wp_RemoveMember.
  - apply wpg_bind, wp_SuspendMember. by intros [].
  - apply wpg_bind, wp_ReinstateMember. by intros [].
  - apply wpg_bind, wp_AcceptInvitation. by intros [].
Qed.
End Programs.
End Any.

(** C8.  Concurrent changes of members.  From a consistent store, in every
    interleaving of any number of requests that add, change, remove, suspend and
    reinstate members and accept invitations: every active row has its role tuple,
    the owner of every workspace keeps the row and the owner's tuple, nobody else
    has a row or a tuple with the owner's role, and no workspace changes. *)
Theorem members_race_safely `{Sources} `{MapRange} `{TextParsers} svc s0 ts s :
  wsInv s0 -> rtc (sched svc (fun _ req => noTransfer req)) ([], s0) (ts, s) ->
  (forall sk ws u m, rowAt s sk ws u = Some m -> mb_Status m = StatusActive -> hasRole s sk ws (mb_Role m) u) /\
  (forall sk ws W, wsAt s0 sk ws = Some W ->
     wsAt s sk ws = Some W /\ rowAt s sk ws (w_OwnerUserID W) = rowAt s0 sk ws (w_OwnerUserID W) /\
     hasRole s sk ws RoleOwner (w_OwnerUserID W)) /\
  (forall sk ws u, hasRole s sk ws RoleOwner u \/ (exists m, rowAt s sk ws u = Some m /\ mb_Role m = RoleOwner) ->
     exists W, wsAt s sk ws = Some W /\ u = w_OwnerUserID W).
Proof.
  intros Hs0 Hrun.
  destruct (together_reachable svc (fun _ req => noTransfer req) (fun _ (_ : unit) => raceInv s0) (fun _ _ _ => True) (raceInv s0)
    (fun _ _ => False)) with (c := ([] : list thread, s0)) (c' := (ts, s)) as [Hs _ _]; [done| |done| |done| |].
  - intros _ req s1 Hreq Hs1. exists tt. split; [done|]. by apply wp_program.
  - intros ts1 req _. apply Forall_true. tauto.
  - by apply together_nil, raceInv_start.
  - simpl in Hs. assert (Hws : forall sk ws, wsAt s sk ws = wsAt s0 sk ws) by (intros; unfold wsAt; by rewrite (ri_ws s0 s Hs)). split_and!.
    + apply Hs.
    + intros sk ws W HW. rewrite Hws. split; [done|]. apply (ri_owner s0 s Hs). by exists W.
    + intros sk ws u Hu. setoid_rewrite Hws. destruct Hu as [Hr|(m & Hm & Hr)]; [by apply (ri_role s0 s Hs)|by apply (ri_row s0 s Hs _ _ _ m)].
Qed.

(** ** Requests on a member one at a time *)
Section Apart.
Context `{Sources} `{MapRange} `{TextParsers} (svc : ServiceConfig) (s0 : Store).

(** The member a request changes. *)
Definition target (req : memberRequest) : option (string * string * string) :=
  match req with
  | MAdd p ws u _ | MUpdateRole p ws u _ | MRemove p ws u | MSuspend p ws u | MReinstate p ws u =>
      Some (scope (pr_ProjectID p) (pr_TenantID p), ws, u)
  | MAccept _ _ | MTransfer _ _ _ => None
  end.

(** A request on a member starts when all others on that member have finished. *)
Definition apart (ts : list thread) (req : memberRequest) : Prop :=
  is_Some (target req) /\ Forall (fun t => finished t.2 \/ target t.1 <> target req) ts.

Definition consistent (s : Store) : Prop := wsInv s /\ workspaces s = workspaces s0.

Definition seen (req : memberRequest) (v : option Membership) (s : Store) : Prop :=
  consistent s /\ forall sk ws u, target req = Some (sk, ws, u) -> rowAt s sk ws u = v.
Definition others (req : memberRequest) (s s' : Store) : Prop :=
  forall sk ws u, target req <> Some (sk, ws, u) -> rowAt s' sk ws u = rowAt s sk ws u.

Lemma others_refl req s : others req s s.
Proof. by intros sk ws u. Qed.

Section One.
Context (req : memberRequest) (p : Principal) (ws u : string).
Hypothesis Htarget : target req = Some (scope (pr_ProjectID p) (pr_TenantID p), ws, u).
#[local] Abbreviation sk := (scope (pr_ProjectID p) (pr_TenantID p)).
#[local] Abbreviation wp := (wpg (seen req) (others req)).

Lemma seen_row v s : seen req v s <-> consistent s /\ rowAt s sk ws u = v.
Proof. unfold seen. rewrite Htarget. naive_solver. Qed.

Lemma wp_require_apart rel v (Q : result Workspace -> option Membership -> Prop) :
  (forall w, wsAt s0 sk ws = Some w -> Q (Ok w) v) -> (forall e, Q (Err e) v) -> wp (requireWorkspace svc p ws rel) v Q.
Proof.
  intros HQ He. apply wpg_bind. intros s Hs. exists v. apply seen_row in Hs as [[Hinv Hws] Hrow]. unfold Memory.GetWorkspace.
  destruct (inner (workspaces s) sk !! ws) as [w|] eqn:Hw; simpl; (split; [by apply seen_row|]); (split; [apply others_refl|]); [|apply He].
  intros [[]|e]; [|apply He..]. apply HQ. unfold wsAt. by rewrite <-Hws.
Qed.

Lemma wp_look_apart v (Q : result Membership -> option Membership -> Prop) :
  (v = None -> Q (Err ErrNotFound) None) ->
  (forall m W, v = Some m -> rowOK sk ws W u m -> Q (Ok m) (Some m)) ->
  wp (call (GetMembership (pr_ProjectID p) (pr_TenantID p) ws u)) v Q.
Proof.
  intros Hn Hsm s Hs. exists v. pose proof Hs as [[Hinv _] Hrow]%seen_row. unfold GetMembership, membershipRow.
  destruct v as [m|]; pose proof Hrow as Hrow'; unfold rowAt in Hrow'; rewrite Hrow'; simpl; (split; [done|]); (split; [apply others_refl|]); [|by apply Hn].
  destruct (stored_row s Hinv _ _ _ _ Hrow) as (W & _ & ?). by eapply Hsm.
Qed.

(** The row is written, from the state it was seen in. *)
Lemma wp_put_apart m v W Ri Rd (Q : result unit -> option Membership -> Prop) :
  mb_WorkspaceID m = ws -> mb_UserID m = u -> scope (mb_ProjectID m) (mb_TenantID m) = sk ->
  wsAt s0 sk ws = Some W -> (v = None \/ exists m0, v = Some m0 /\ mb_Role m0 <> RoleOwner) ->
  grantableRole (mb_Role m) = true -> (mb_Status m = StatusActive \/ mb_Status m = StatusSuspended) ->
  (forall r, (r ∈ Ri) \/ (r ∉ Rd) /\ (exists m0, v = Some m0 /\ mb_Role m0 = r /\ mb_Status m0 = StatusActive) <->
             r = mb_Role m /\ mb_Status m = StatusActive) ->
  Q (Ok tt) (Some m) ->
  wp (call (PutMembershipAndTuples m ((fun r => roleTuple ws r u) <$> Ri) ((fun r => roleTuple ws r u) <$> Rd))) v Q.
Proof.
  intros Hw Hu Hsk HW Hv Hg Hst Hroles HQ s [[Hinv Hws] Hrow]%seen_row. exists (Some m).
  pose proof (rowAt_put m s) as Hput. rewrite Hw, Hu, Hsk in Hput. split_and!; [apply seen_row; split| |exact HQ].
  - split; [|done]. simpl. rewrite <-Hsk, <-Hw, <-Hu in *. apply (wsInv_setRole s m W); [done| |eapply stored_nonowner| | |]; try done.
    + unfold wsAt. by rewrite Hws.
    + unfold wsAt. by rewrite Hws.
    + by rewrite Hrow.
    + intros r. rewrite <-Hroles, (stored_role s Hinv), Hrow. done.
  - transitivity (rowAt (putMembershipLocked m s) sk ws u); [done|]. by rewrite Hput, decide_True.
  - intros sk' ws' u' Hne. transitivity (rowAt (putMembershipLocked m s) sk' ws' u'); [done|]. rewrite Htarget in Hne.
    rewrite Hput, decide_False; naive_solver.
Qed.

(** The row is removed. *)
Lemma wp_delete_apart m (Q : result unit -> option Membership -> Prop) :
  mb_Role m <> RoleOwner -> Q (Ok tt) None ->
  wp (call (DeleteMembershipAndTuples (pr_ProjectID p) (pr_TenantID p) ws u [roleTuple ws (mb_Role m) u])) (Some m) Q.
Proof.
  intros Hr HQ s [[Hinv Hws] Hrow]%seen_row. exists None.
  assert (Hdel : DeleteMembershipAndTuples (pr_ProjectID p) (pr_TenantID p) ws u [roleTuple ws (mb_Role m) u] s
                 = (Ok tt, removedStore s (pr_ProjectID p) (pr_TenantID p) ws u m)).
  { unfold DeleteMembershipAndTuples, deleteMembershipLocked, bind, membershipRow. unfold rowAt in Hrow. by rewrite Hrow. }
  rewrite Hdel. simpl. split_and!; [apply seen_row; split| |exact HQ].
  - split; [by apply wsInv_remove|done].
  - by rewrite removed_row, decide_True.
  - intros sk' ws' u' Hne. rewrite Htarget in Hne. rewrite removed_row, decide_False; naive_solver.
Qed.

(** The requests. *)
#[local] Arguments wpg : simpl never.
#[local] Arguments pbind : simpl never.

#[local] Ltac astep HQ :=
  apply wpg_bind;
  first
    [ apply wpg_guard; [intros ?|intros _; apply HQ]
    | apply wp_require_apart; [intros W HW|intros ?; apply HQ]
    | apply wp_look_apart; [intros _; apply HQ|intros m W0 -> Hok]
    | apply wpg_ask; intros [?|?]; [|apply HQ] ].

#[local] Ltac facts Hok :=
  repeat match goal with H : negb (String.eqb _ _) = true |- _ => apply negb_true_iff, String.eqb_neq in H end;
  pose proof (rowOK_grantable _ _ _ _ _ Hok); destruct Hok as (? & ? & ? & ? & ? & ?).

Lemma apart_AddMember role v Q : (forall r v', Q r v') -> wp (AddMember svc p ws u role) v Q.
Proof.
  intros HQ. astep HQ. astep HQ. astep HQ. astep HQ. apply wpg_bind, wpg_then, wp_look_apart; [intros ->|intros; apply HQ].
  astep HQ. astep HQ. apply wpg_bind.
  apply (wp_put_apart (mkMembership _ _ ws u role StatusActive _ _) None W [role] []); try done; [by left|by left| |apply HQ].
  intros r. simpl. set_solver.
Qed.

Lemma apart_UpdateMemberRole role v Q : (forall r v', Q r v') -> wp (UpdateMemberRole svc p ws u role) v Q.
Proof.
  intros HQ. astep HQ. astep HQ. astep HQ. astep HQ. astep HQ. destruct (String.eqb_spec (mb_Role m) role); [apply HQ|]. astep HQ.
  facts Hok. apply wpg_bind.
  apply (wp_put_apart (membershipWith m role (mb_Status m) _) (Some m) W [role] [mb_Role m]); try done; [by right; exists m|tauto| |apply HQ].
  intros r. simpl. set_solver.
Qed.

Lemma apart_RemoveMember v Q : (forall r v', Q r v') -> wp (RemoveMember svc p ws u) v Q.
Proof. intros HQ. astep HQ. astep HQ. astep HQ. facts Hok. apply wp_delete_apart; [done|apply HQ]. Qed.

Lemma apart_SuspendMember v Q : (forall r v', Q r v') -> wp (SuspendMember svc p ws u) v Q.
Proof.
  intros HQ. astep HQ. astep HQ. astep HQ. destruct (String.eqb_spec (mb_Status m) StatusSuspended); [apply HQ|]. astep HQ.
  facts Hok. apply wpg_bind.
  apply (wp_put_apart (membershipWith m (mb_Role m) StatusSuspended _) (Some m) W [] [mb_Role m]); try done; [naive_solver..| |apply HQ].
  intros r. simpl. set_solver.
Qed.

Lemma apart_ReinstateMember v Q : (forall r v', Q r v') -> wp (ReinstateMember svc p ws u) v Q.
Proof.
  intros HQ. astep HQ. astep HQ. destruct (String.eqb_spec (mb_Status m) StatusSuspended) as [Hst|]; [|apply HQ]. simpl. astep HQ.
  facts Hok. assert (Hr : mb_Role m <> RoleOwner) by (rewrite Hst in *; naive_solver). apply wpg_bind.
  apply (wp_put_apart (membershipWith m (mb_Role m) StatusActive _) (Some m) W [mb_Role m] []); try done; [naive_solver..| |apply HQ].
  intros r. simpl. set_solver.
Qed.
End One.

Lemma apart_program req v : is_Some (target req) -> wpg (seen req) (others req) (program svc req) v (fun _ _ => True).
Proof.
  destruct req as [p ws u r|p ws u r|p ws u|p ws u|p ws u|p tok|p ws u]; intros Ht; [| | | | |by destruct Ht..].
  - apply wpg_bind, apart_AddMember; [done|]. by intros [].
  - apply wpg_bind, apart_UpdateMemberRole; [done|]. by intros [].
  - by apply apart_RemoveMember.
  - apply wpg_bind, apart_SuspendMember; [done|]. by intros [].
  - apply wpg_bind, apart_ReinstateMember; [done|]. by intros [].
Qed.

Lemma seen_stable req req' v s s' : target req <> target req' -> others req s s' -> consistent s' -> seen req' v s -> seen req' v s'.
Proof. intros Hne Ho Hc [_ Hrow]. split; [done|]. intros sk ws u Ht. rewrite Ho; [by apply Hrow|congruence]. Qed.

Lemma apart_reachable ts s : wsInv s0 -> rtc (sched svc apart) ([], s0) (ts, s) -> consistent s.
Proof.
  intros Hs0 Hrun.
  destruct (together_reachable svc apart seen others consistent (fun req req' => target req = target req'))
    with (c := ([] : list thread, s0)) (c' := (ts, s)) as [Hs _ _]; [| | | |done| |done].
  - by intros req v s1 [? _].
  - intros ts1 req s1 [[[[sk ws] u] Ht] _] Hs1. exists (rowAt s1 sk ws u). split; [|by apply apart_program; rewrite Ht].
    split; [done|]. intros sk' ws' u'. rewrite Ht. by intros [= <- <- <-].
  - intros req req' v' s1 s2 Hne Ho Hc. by apply seen_stable with (req := req).
  - intros ts1 req [_ Hap]. eapply Forall_impl; [exact Hap|]. intros [req' P]; simpl. intros [?|?]; [by left|right; split; congruence].
  - apply together_nil. by split.
Qed.
End Apart.

(** C9.  Member changes that do not overlap on a member.  When a request on a
    member starts only after the earlier requests on that member have finished,
    requests on different members interleave in any way and the invariant between
    workspaces, rows, role tuples and invitations holds after every step. *)
Theorem members_apart_consistent `{Sources} `{MapRange} `{TextParsers} svc s0 ts s :
  wsInv s0 -> rtc (sched svc apart) ([], s0) (ts, s) -> wsInv s /\ workspaces s = workspaces s0.
Proof. apply apart_reachable. Qed.

(** ** The owner while ownership moves *)
Section Owners.
Context `{Sources} `{MapRange} `{TextParsers} (svc : ServiceConfig) (s0 : Store).

(** The workspace a transfer hands over. *)
Definition transferOf (req : memberRequest) : option (string * string) :=
  match req with MTransfer p ws _ => Some (scope (pr_ProjectID p) (pr_TenantID p), ws) | _ => None end.

(** A transfer starts when the earlier ones of its workspace have finished. *)
Definition transfersApart (ts : list thread) (req : memberRequest) : Prop :=
  is_Some (transferOf req) -> Forall (fun t => finished t.2 \/ transferOf t.1 <> transferOf req) ts.

Definition rowsKeyed (s : Store) : Prop := forall sk ws u m, rowAt s sk ws u = Some m -> scope (mb_ProjectID m) (mb_TenantID m) = sk.
Definition owned (s : Store) : Prop := rowsKeyed s /\ forall sk ws W, wsAt s0 sk ws = Some W -> exists u, hasRole s sk ws RoleOwner u.

(** What a transfer relies on once the new owner is promoted. *)
Definition promoted (req : memberRequest) (done_ : bool) (s : Store) : Prop :=
  owned s /\
  match req with MTransfer p ws u => done_ = true -> hasRole s (scope (pr_ProjectID p) (pr_TenantID p)) ws RoleOwner u | _ => True end.
Definition ownersKept (req : memberRequest) (s s' : Store) : Prop :=
  forall sk ws u, transferOf req <> Some (sk, ws) -> hasRole s sk ws RoleOwner u -> hasRole s' sk ws RoleOwner u.

(** Tuples of other roles are deleted without harm. *)
Definition lesser (l : list Tuple) : Prop := Forall (fun y => exists ws r u, y = roleTuple ws r u /\ r <> RoleOwner) l.

Lemma owner_kept p t ins del s sk ws u :
  lesser del -> hasRole s sk ws RoleOwner u -> hasRole (writeTuplesLocked p t ins del s) sk ws RoleOwner u.
Proof.
  intros Hd Hh. rewrite hasRole_write. case_decide; [|done]. right. split; [|done]. intros y Hy.
  destruct (proj1 (Forall_forall _ _) Hd y Hy) as (ws' & r & u' & -> & Hr). rewrite tupleIdent_role. naive_solver.
Qed.

Lemma owner_kept_put m ins del s sk ws u :
  lesser del -> hasRole s sk ws RoleOwner u -> hasRole (PutMembershipAndTuples m ins del s).2 sk ws RoleOwner u.
Proof. intros Hd Hh. by apply (owner_kept _ _ ins del (putMembershipLocked m s)). Qed.

Lemma rowsKeyed_put m ins del s : rowsKeyed s -> rowsKeyed (PutMembershipAndTuples m ins del s).2.
Proof.
  intros Hs sk ws u m'. change (rowAt (PutMembershipAndTuples m ins del s).2 sk ws u) with (rowAt (putMembershipLocked m s) sk ws u).
  rewrite rowAt_put. case_decide as Hk; [|apply Hs]. destruct Hk as (-> & _). by intros [= <-].
Qed.

Section Steps.
Context (req : memberRequest).
#[local] Arguments wpg : simpl never.
#[local] Arguments pbind : simpl never.
#[local] Abbreviation wp := (wpg (promoted req) (ownersKept req)).

(** A call that loses no owner. *)
Lemma wp_kept {A} (c : St Store A) v (Q : result A -> bool -> Prop) :
  (forall s, rowsKeyed s -> rowsKeyed (c s).2 /\ (forall sk ws u, hasRole s sk ws RoleOwner u -> hasRole (c s).2 sk ws RoleOwner u) /\ Q (c s).1 v) ->
  wp (call c) v Q.
Proof.
  intros Hc s [[Hk Ho] Hp]. destruct (Hc s Hk) as (Hk' & Hkept & HQ). exists v. split_and!; [|by intros sk ws u _; apply Hkept|done].
  split; [split; [done|]|].
  - intros sk ws W HW. destruct (Ho sk ws W HW) as [u Hu]. eauto.
  - destruct req; try done. intros Hv. apply Hkept, Hp, Hv.
Qed.

Lemma wp_put_kept m ins del v (Q : result unit -> bool -> Prop) : lesser del -> Q (Ok tt) v -> wp (call (PutMembershipAndTuples m ins del)) v Q.
Proof. intros Hd HQ. apply wp_kept. intros s Hk. split_and!; [by apply rowsKeyed_put| |done]. intros. by apply owner_kept_put. Qed.

Lemma wp_delete_kept p t ws u del v (Q : result unit -> bool -> Prop) :
  lesser del -> (forall r, Q r v) -> wp (call (DeleteMembershipAndTuples p t ws u del)) v Q.
Proof.
  intros Hd HQ. apply wp_kept. intros s Hk. unfold DeleteMembershipAndTuples, deleteMembershipLocked, bind.
  destruct (membershipRow s p t ws u) as [m0|]; simpl; [|auto]. split_and!; [| |apply HQ].
  - intros sk ws' u' m. pose proof (lookup_del3 (memberships s) (scope p t) ws u sk ws' u') as Hl.
    intros Hm. unfold rowAt in Hm. simpl in Hm. rewrite Hl in Hm. case_decide; [done|]. by apply (Hk _ _ _ _ Hm).
  - intros sk ws' u' Hh. apply owner_kept; [done|]. exact Hh.
Qed.

Lemma wp_invitation_kept i v (Q : result unit -> bool -> Prop) : (forall r, Q r v) -> wp (call (UpdateInvitation i)) v Q.
Proof. intros HQ. apply wp_kept. intros s Hk. unfold UpdateInvitation. destruct (_ !! _); simpl; auto. Qed.

Lemma wp_workspace_kept w v (Q : result unit -> bool -> Prop) : (forall r, Q r v) -> wp (call (Memory.UpdateWorkspace w)) v Q.
Proof. intros HQ. apply wp_kept. intros s Hk. unfold Memory.UpdateWorkspace. destruct (_ !! _); simpl; auto. Qed.

Lemma wp_look_kept p ws u v (Q : result Membership -> bool -> Prop) :
  Q (Err ErrNotFound) v -> (forall m, scope (mb_ProjectID m) (mb_TenantID m) = scope (pr_ProjectID p) (pr_TenantID p) -> Q (Ok m) v) ->
  wp (call (GetMembership (pr_ProjectID p) (pr_TenantID p) ws u)) v Q.
Proof.
  intros Hn Hs. apply wp_kept. intros s Hk. unfold GetMembership, membershipRow. destruct (_ !! u) as [m|] eqn:Hm; simpl; split_and!; auto.
  apply Hs, (Hk _ _ _ _ Hm).
Qed.

Lemma wp_require_kept p ws rel v (Q : result Workspace -> bool -> Prop) : (forall r, Q r v) -> wp (requireWorkspace svc p ws rel) v Q.
Proof.
  intros HQ. apply wpg_bind, wp_kept. intros s Hk. unfold Memory.GetWorkspace. destruct (_ !! _); simpl; split_and!; auto.
  apply wpg_bind, wpg_ask. intros [[]|]; apply HQ.
Qed.

#[local] Ltac kstep HQ :=
  apply wpg_bind;
  first
    [ apply wpg_guard; [intros ?|intros _; apply HQ]
    | apply wp_require_kept; intros [?|?]; [|apply HQ]
    | apply wpg_ask; intros [?|?]; [|apply HQ]
    | apply wp_look_kept; [apply HQ|intros m _] ].
#[local] Ltac lesser :=
  repeat match goal with H : negb (String.eqb _ _) = true |- _ => apply negb_true_iff, String.eqb_neq in H end;
  repeat constructor; eauto 10.

Lemma kept_putMember p ws u role v Q : (forall r v', Q r v') -> wp (putMember svc p ws u role) v Q.
Proof. intros HQ. kstep HQ. kstep HQ. apply wpg_bind, wp_put_kept; [lesser|apply HQ]. Qed.

Lemma kept_AddMember p ws u role v Q : (forall r v', Q r v') -> wp (AddMember svc p ws u role) v Q.
Proof.
  intros HQ. kstep HQ. kstep HQ. kstep HQ. kstep HQ. apply wpg_bind, wpg_then, wp_look_kept; [by apply kept_putMember|intros m _; apply HQ].
Qed.

Lemma kept_UpdateMemberRole p ws u role v Q : (forall r v', Q r v') -> wp (UpdateMemberRole svc p ws u role) v Q.
Proof.
  intros HQ. kstep HQ. kstep HQ. kstep HQ. kstep HQ. kstep HQ. destruct (String.eqb (mb_Role m) role); [apply HQ|]. kstep HQ.
  apply wpg_bind, wp_put_kept; [lesser|apply HQ].
Qed.

Lemma kept_RemoveMember p ws u v Q : (forall r v', Q r v') -> wp (RemoveMember svc p ws u) v Q.
Proof. intros HQ. kstep HQ. kstep HQ. kstep HQ. apply wp_delete_kept; [lesser|intros ?; apply HQ]. Qed.

Lemma kept_SuspendMember p ws u v Q : (forall r v', Q r v') -> wp (SuspendMember svc p ws u) v Q.
Proof.
  intros HQ. kstep HQ. kstep HQ. kstep HQ. destruct (String.eqb (mb_Status m) _); [apply HQ|]. kstep HQ.
  apply wpg_bind, wp_put_kept; [lesser|apply HQ].
Qed.

Lemma kept_ReinstateMember p ws u v Q : (forall r v', Q r v') -> wp (ReinstateMember svc p ws u) v Q.
Proof.
  intros HQ. kstep HQ. kstep HQ. destruct (negb _); [apply HQ|]. kstep HQ. apply wpg_bind, wp_put_kept; [lesser|apply HQ].
Qed.

Lemma kept_AcceptInvitation p token v Q : (forall r v', Q r v') -> wp (AcceptInvitation svc p token) v Q.
Proof.
  intros HQ. kstep HQ. apply wpg_bind, wp_kept. intros s Hk. unfold GetInvitationByTokenHash.
  destruct (List.find _ _) as [inv|]; simpl; (split; [done|]); (split; [done|]); [|apply HQ]. kstep HQ. kstep HQ.
  destruct (_ <? _); [apply wpg_bind, wpg_then, wp_invitation_kept; intros r; apply HQ|].
  apply wpg_bind, wpg_then, wp_look_kept; [|intros m _; apply wpg_bind, wp_invitation_kept; intros []; apply HQ].
  apply wpg_bind, kept_putMember. intros [m|] v'; [|apply HQ]. apply wpg_bind, wp_invitation_kept. intros []; apply HQ.
Qed.
End Steps.

(** The transfer: the new owner is promoted first, and the old one demoted then. *)
Section Transfer.
Context (p : Principal) (ws new : string).
#[local] Arguments wpg : simpl never.
#[local] Arguments pbind : simpl never.
#[local] Abbreviation req := (MTransfer p ws new).
#[local] Abbreviation sk := (scope (pr_ProjectID p) (pr_TenantID p)).
#[local] Abbreviation wp := (wpg (promoted req) (ownersKept req)).

Lemma wp_promote m del v (Q : result unit -> bool -> Prop) :
  scope (mb_ProjectID m) (mb_TenantID m) = sk -> lesser del -> Q (Ok tt) true ->
  wp (call (PutMembershipAndTuples m [roleTuple ws RoleOwner new] del)) v Q.
Proof.
  intros Hsk Hd HQ s [[Hk Ho] _]. exists true. split_and!; [split; [split|]| |exact HQ].
  - by apply rowsKeyed_put.
  - intros sk' ws' W HW. destruct (Ho sk' ws' W HW) as [u Hu]. exists u. by apply owner_kept_put.
  - intros _. simpl. rewrite hasRole_write, decide_True by done. left. eexists. split; [by apply list_elem_of_singleton|done].
  - intros sk' ws' u _. by apply owner_kept_put.
Qed.

(** The tuple of the old owner goes while the new owner's is there. *)
Lemma wp_demote old (c : St Store unit) (Q : result unit -> bool -> Prop) :
  new <> old ->
  (forall s, rowsKeyed s -> rowsKeyed (c s).2 /\ (c s).1 = Ok tt /\
     exists s1 p' t', scope p' t' = sk /\ tuples s1 = tuples s /\
       (c s).2 = writeTuplesLocked p' t' [roleTuple ws RoleAdmin old] [roleTuple ws RoleOwner old] s1) ->
  Q (Ok tt) true -> wp (call c) true Q.
Proof.
  intros Hne Hc HQ s [[Hk Ho] Hnew]. destruct (Hc s Hk) as (Hk' & Hr & s1 & p' & t' & Hsk & Ht & Hs'). specialize (Hnew eq_refl).
  assert (Hrest : forall sk' ws' u, (sk', ws', u) <> (sk, ws, old) -> hasRole s sk' ws' RoleOwner u -> hasRole (c s).2 sk' ws' RoleOwner u).
  { intros sk' ws' u Hn Hh. rewrite Hs'. apply (hasRole_write_user p' t' _ _ s1 sk' ws old); [apply rolesOf_one..|by rewrite Hsk|].
    unfold hasRole, present, shard in *. by rewrite Ht. }
  exists true. split_and!; [split; [split|]| |by rewrite Hr].
  - done.
  - intros sk' ws' W HW. destruct (decide ((sk', ws') = (sk, ws))) as [[= -> ->]|Hn].
    + exists new. apply Hrest; [congruence|done].
    + destruct (Ho sk' ws' W HW) as [u Hu]. exists u. apply Hrest; [congruence|done].
  - intros _. apply Hrest; [congruence|done].
  - intros sk' ws' u Hn. apply Hrest. simpl in Hn. congruence.
Qed.

Lemma wp_demote_row old m (Q : result unit -> bool -> Prop) :
  new <> old -> scope (mb_ProjectID m) (mb_TenantID m) = sk -> Q (Ok tt) true ->
  wp (call (PutMembershipAndTuples m [roleTuple ws RoleAdmin old] [roleTuple ws RoleOwner old])) true Q.
Proof.
  intros Hne Hsk HQ. apply (wp_demote old); [done| |done]. intros s Hk. split_and!; [by apply rowsKeyed_put|done|].
  by exists (putMembershipLocked m s), (mb_ProjectID m), (mb_TenantID m).
Qed.

Lemma wp_demote_tuple old (Q : result unit -> bool -> Prop) :
  new <> old -> Q (Ok tt) true ->
  wp (call (WriteTuples (pr_ProjectID p) (pr_TenantID p) [roleTuple ws RoleAdmin old] [roleTuple ws RoleOwner old])) true Q.
Proof.
  intros Hne HQ. apply (wp_demote old); [done| |done]. intros s Hk. split_and!; [exact Hk|done|].
  by exists s, (pr_ProjectID p), (pr_TenantID p).
Qed.

Lemma kept_TransferOwnership Q : (forall r v, Q r v) -> wp (TransferOwnership svc p ws new) false Q.
Proof.
  intros HQ. apply wpg_bind, wpg_guard; [intros _|intros _; apply HQ].
  apply wpg_bind, wp_require_kept. intros [w|]; [|apply HQ]. apply wpg_bind, wpg_ask. intros [[]|]; [|apply HQ].
  apply wpg_bind, wpg_guard; [intros _|intros _; apply HQ]. cbv zeta.
  destruct (String.eqb_spec new (w_OwnerUserID w)) as [|Hne]; [apply HQ|]. apply wpg_bind, wpg_ask. intros [t|]; [|apply HQ].
  apply wpg_bind, wpg_then, wp_look_kept; [|intros m _]; apply wpg_bind, wpg_bind, wp_promote;
    [done|constructor| |done|destruct (String.eqb_spec (mb_Role m) RoleOwner); repeat constructor; eauto 10|].
  all: apply wpg_bind, wp_workspace_kept; intros [[]|]; [|apply HQ].
  all: apply wpg_bind, wpg_then, wp_look_kept;
    [apply wpg_bind, wp_demote_tuple; [done|apply HQ]
    |intros m' Hm'; apply wpg_bind, (wp_demote_row _ (membershipWith m' RoleAdmin (mb_Status m') t)); [done|done|apply HQ]].
Qed.
End Transfer.

Lemma kept_program req : wpg (promoted req) (ownersKept req) (program svc req) false (fun _ _ => True).
Proof.
  destruct req as [p ws u r|p ws u r|p ws u|p ws u|p ws u|p tok|p ws u].
  - apply wpg_bind, kept_AddMember. by intros [].
  - apply wpg_bind, kept_UpdateMemberRole. by intros [].
  - by apply kept_RemoveMember.
  - apply wpg_bind, kept_SuspendMember. by intros [].
  - apply wpg_bind, kept_ReinstateMember. by intros [].
  - apply wpg_bind, kept_AcceptInvitation. by intros [].
  - apply wpg_bind, kept_TransferOwnership. by intros [].
Qed.

Lemma promoted_stable req req' v s s' :
  ~ (is_Some (transferOf req') /\ transferOf req = transferOf req') -> ownersKept req s s' -> owned s' -> promoted req' v s -> promoted req' v s'.
Proof.
  intros Hc Hk Ho [_ Hp]. split; [done|]. destruct req'; try done. intros Hv. apply Hk; [|by apply Hp].
  intros Heq. apply Hc. split; [by eexists|done].
Qed.

Lemma owned_reachable ts s : wsInv s0 -> rtc (sched svc transfersApart) ([], s0) (ts, s) -> owned s.
Proof.
  intros Hs0 Hrun.
  destruct (together_reachable svc transfersApart promoted ownersKept owned (fun req req' => is_Some (transferOf req') /\ transferOf req = transferOf req'))
    with (c := ([] : list thread, s0)) (c' := (ts, s)) as [Hs _ _]; [| | | |done| |done].
  - by intros req v s1 [? _].
  - intros ts1 req s1 _ Hs1. exists false. split; [|apply kept_program]. split; [done|]. by destruct req.
  - intros req req' v' s1 s2 Hc Hk Ho. by apply promoted_stable with (req := req).
  - intros ts1 req Hap. apply Forall_forall. intros [req' P] Hin. destruct (transferOf req) as [k|] eqn:Hk.
    + unfold transfersApart in Hap. rewrite Hk in Hap. specialize (Hap (ex_intro _ k eq_refl)).
      destruct (proj1 (Forall_forall _ _) Hap _ Hin) as [?|Hne]; [by left|]. right. simpl in *. split; intros [_ ?]; congruence.
    + right. simpl. split; [intros [[k' Hk'] Heq]; congruence|by intros [[k' ?] _]].
  - apply together_nil. split.
    + intros sk ws u m Hm. by destruct (stored_row s0 Hs0 _ _ _ _ Hm) as (W & _ & _ & _ & ? & _).
    + intros sk ws W HW. exists (w_OwnerUserID W). apply (stored_role s0 Hs0). by destruct (stored_ws s0 Hs0 _ _ _ HW) as (_ & _ & ?).
Qed.
End Owners.

(** C10.  A workspace always has an owner.  While requests on members, invitations
    and ownership interleave in any way, transfers of one workspace one at a time,
    somebody holds the owner's tuple of every workspace after every step: the new
    owner is promoted before the old one is demoted, and no other request takes an
    owner's tuple away. *)
Theorem transfer_never_ownerless `{Sources} `{MapRange} `{TextParsers} svc s0 ts s :
  wsInv s0 -> rtc (sched svc transfersApart) ([], s0) (ts, s) ->
  forall sk ws W, wsAt s0 sk ws = Some W -> exists u, hasRole s sk ws RoleOwner u.
Proof. intros Hs0 Hrun. by apply (owned_reachable svc s0 ts s Hs0). Qed.

(** ** Runs *)
#[local] Existing Instances sampleSources sampleCodec sampleParsers sampleTokenJson.
Definition carol : Principal := mkPrincipal "carol" "p" "t" "console".

Definition worldAfter (reqs : list request) : World := execs defaultConfig reqs (NewService [] New).2.

Lemma worldAfter_wsInv reqs : Forall productRequest reqs -> wsInv (w_repo (worldAfter reqs)).
Proof. intros Hreqs. apply execs_keeps_wsInv; [done|]. apply wsInv_New. Qed.

(** Two requests that read the row of Bob before either writes. *)
Definition roleAndRemoval : list thread * World :=
  runSchedule [1; 1; 1; 0; 0; 0; 0; 0; 1]%nat
    (started defaultConfig [MUpdateRole alice "id-0" "bob" RoleAdmin; MRemove alice "id-0" "bob"], worldAfter teamRequests).

Lemma members_race_safely_witness :
  let s := w_repo roleAndRemoval.2 in
  rowAt s (scope "p" "t") "id-0" "bob" = None /\
  exists W, wsAt s (scope "p" "t") "id-0" = Some W /\ hasRole s (scope "p" "t") "id-0" RoleOwner (w_OwnerUserID W).
Proof.
  split; [vm_compute; reflexivity|].
  assert (HW : exists W, wsAt (w_repo (worldAfter teamRequests)) (scope "p" "t") "id-0" = Some W) by (vm_compute; eexists; reflexivity).
  destruct HW as [W HW]. exists W.
  destruct (members_race_safely defaultConfig (w_repo (worldAfter teamRequests)) roleAndRemoval.1 (w_repo roleAndRemoval.2)) as (_ & Ho & _).
  - apply worldAfter_wsInv. repeat constructor.
  - unfold roleAndRemoval. apply (schedule_reaches defaultConfig). intros before req after Hreqs.
    assert (Hall : Forall noTransfer [MUpdateRole alice "id-0" "bob" RoleAdmin; MRemove alice "id-0" "bob"]) by (repeat constructor).
    rewrite Hreqs in Hall. apply Forall_app in Hall as [_ Hall]. by inversion Hall.
  - destruct (Ho _ _ _ HW) as (? & _ & ?). by split.
Defined.

(** The role of Bob changes while Carol is added, step by step in turn. *)
Lemma members_apart_consistent_witness :
  let reqs := [MUpdateRole alice "id-0" "bob" RoleAdmin; MAdd alice "id-0" "carol" RoleGuest] in
  let st := runSchedule [0; 1; 0; 1; 0; 1; 0; 1; 0; 1; 1]%nat (started defaultConfig reqs, worldAfter teamRequests) in
  is_Some (rowAt (w_repo st.2) (scope "p" "t") "id-0" "carol") /\ mb_Role <$> rowAt (w_repo st.2) (scope "p" "t") "id-0" "bob" = Some RoleAdmin /\
  wsInv (w_repo st.2).
Proof.
  intros reqs st. split; [vm_compute; by eexists|]. split; [vm_compute; reflexivity|].
  destruct (members_apart_consistent defaultConfig (w_repo (worldAfter teamRequests)) st.1 (w_repo st.2)) as [Hs _]; [| |exact Hs].
  - apply worldAfter_wsInv. repeat constructor.
  - unfold st. apply (schedule_reaches defaultConfig). intros [|r1 [|r2 before]] req after Heq.
    + injection Heq as <- _. split; [by eexists|constructor].
    + injection Heq as <- <- _. split; [by eexists|]. constructor; [right; intros [=]|constructor].
    + injection Heq as _ _ Heq. by destruct before.
Defined.

(** Ownership goes to Bob while a removal of Bob, read before, comes in between. *)
Lemma transfer_never_ownerless_witness :
  let reqs := [MTransfer alice "id-0" "bob"; MRemove alice "id-0" "bob"] in
  let st := runSchedule [1; 1; 1; 0; 0; 0; 0; 0; 0; 1; 0; 0; 0]%nat (started defaultConfig reqs, worldAfter teamRequests) in
  rowAt (w_repo st.2) (scope "p" "t") "id-0" "bob" = None /\
  exists u, hasRole (w_repo st.2) (scope "p" "t") "id-0" RoleOwner u.
Proof.
  intros reqs st. split; [vm_compute; reflexivity|].
  assert (HW : exists W, wsAt (w_repo (worldAfter teamRequests)) (scope "p" "t") "id-0" = Some W) by (vm_compute; eexists; reflexivity).
  destruct HW as [W HW].
  apply (transfer_never_ownerless defaultConfig (w_repo (worldAfter teamRequests)) st.1 (w_repo st.2)) with (W := W); [| |exact HW].
  - apply worldAfter_wsInv. repeat constructor.
  - unfold st. apply (schedule_reaches defaultConfig). intros [|r1 [|r2 before]] req after Heq.
    + intros _. constructor.
    + injection Heq as <- <- _. intros [k Hk]. discriminate Hk.
    + injection Heq as _ _ Heq. by destruct before.
Defined.

(** ** Overlaps

    [outcome ts] is how the requests of a finished run ended. *)
Definition outcome (ts : list thread) : list (option (result unit)) :=
  (fun t => match t.2 with Done r => Some r | _ => None end) <$> ts.

(** A removal that read the old role deletes the row and the tuple of the old role;
    the tuple of the role granted in between stays, and the removed user still
    passes the administrator's check. *)
Example removed_member_keeps_role :
  outcome roleAndRemoval.1 = [Some (Ok tt); Some (Ok tt)] /\
  rowAt (w_repo roleAndRemoval.2) (scope "p" "t") "id-0" "bob" = None /\
  hasRole (w_repo roleAndRemoval.2) (scope "p" "t") "id-0" RoleAdmin "bob" /\
  (allowed defaultConfig bob "id-0" RoleAdmin roleAndRemoval.2).1 = Ok true.
Proof. split_and!; [vm_compute; reflexivity..| |vm_compute; reflexivity]. vm_compute. by eexists. Qed.

(** A suspension in the same place leaves a suspended row and live access. *)
Example suspended_member_keeps_role :
  let st := runSchedule [1; 1; 1; 0; 0; 0; 0; 0; 1; 1]%nat
              (started defaultConfig [MUpdateRole alice "id-0" "bob" RoleAdmin; MSuspend alice "id-0" "bob"], worldAfter teamRequests) in
  outcome st.1 = [Some (Ok tt); Some (Ok tt)] /\
  mb_Status <$> rowAt (w_repo st.2) (scope "p" "t") "id-0" "bob" = Some StatusSuspended /\
  (allowed defaultConfig bob "id-0" RoleAdmin st.2).1 = Ok true.
Proof. vm_compute. by split_and!. Qed.

(** One invitation admits two users who accept it at the same time. *)
Example invitation_admits_two :
  let st := runSchedule [0; 1; 0; 1; 0; 1; 0; 1; 0; 1; 0; 1; 0; 1]%nat
              (started defaultConfig [MAccept bob "token-0"; MAccept carol "token-0"], worldAfter inviteRequests) in
  outcome st.1 = [Some (Ok tt); Some (Ok tt)] /\
  mb_Role <$> rowAt (w_repo st.2) (scope "p" "t") "id-0" "bob" = Some RoleGuest /\
  mb_Role <$> rowAt (w_repo st.2) (scope "p" "t") "id-0" "carol" = Some RoleGuest.
Proof. vm_compute. by split_and!. Qed.

(** Two transfers by the owner at the same time leave two owners for good, of whom
    the workspace names one. *)
Example transfers_leave_two_owners :
  let st := runSchedule [0; 1; 0; 1; 0; 1; 0; 1; 0; 1; 0; 1; 0; 1; 0; 1; 0; 1]%nat
              (started defaultConfig [MTransfer alice "id-0" "bob"; MTransfer alice "id-0" "carol"], worldAfter teamRequests) in
  outcome st.1 = [Some (Ok tt); Some (Ok tt)] /\
  w_OwnerUserID <$> wsAt (w_repo st.2) (scope "p" "t") "id-0" = Some "carol" /\
  mb_Role <$> rowAt (w_repo st.2) (scope "p" "t") "id-0" "carol" = Some RoleOwner /\
  mb_Role <$> rowAt (w_repo st.2) (scope "p" "t") "id-0" "bob" = Some RoleOwner /\
  (allowed defaultConfig bob "id-0" RoleOwner st.2).1 = Ok true.
Proof. vm_compute. by split_and!. Qed.

(** A transfer started by the new owner before the first has demoted the old owner:
    nobody is left with the owner's role, and nobody may hand the workspace over. *)
Example transfers_leave_no_owner :
  let st := runSchedule [0; 0; 0; 0; 0; 0; 0; 1; 1; 1; 1; 1; 1; 1; 1; 1; 0; 0]%nat
              (started defaultConfig [MTransfer alice "id-0" "bob"; MTransfer bob "id-0" "alice"], worldAfter teamRequests) in
  outcome st.1 = [Some (Ok tt); Some (Ok tt)] /\
  w_OwnerUserID <$> wsAt (w_repo st.2) (scope "p" "t") "id-0" = Some "alice" /\
  mb_Role <$> rowAt (w_repo st.2) (scope "p" "t") "id-0" "alice" = Some RoleAdmin /\
  mb_Role <$> rowAt (w_repo st.2) (scope "p" "t") "id-0" "bob" = Some RoleAdmin /\
  (allowed defaultConfig alice "id-0" RoleOwner st.2).1 = Ok false /\
  (allowed defaultConfig bob "id-0" RoleOwner st.2).1 = Ok false.
Proof. vm_compute. by split_and!. Qed.
